(* ===== verification/_CoqProject ===== *)
-Q . S2P
Prelude.v
RingBuffer.v
RingTest.v
Bitmap.v
Printing.v
BitmapTest.v
LinkedList.v
AtomicList.v
WeightedLink.v
Avl.v
TreeTest.v
HeapTree.v
Heap.v
LinkTest.v
Map.v
MapTest.v
FloodFill.v
FloodFillTest.v
ScanLog.v
SubMove.v
MoveTest.v
MoveSpots.v
MoveRun.v
MoveEnds.v
MoveSample.v
BHam.v
Primes.v
NumberTests.v
LispHeap.v
LispGc.v
LispAlloc.v
LispObjects.v
LispRel.v
LispReader.v
LispEval.v
LispSame.v
LispInvisible.v
LispRuns.v
LispText.v
Isr.v
Coroutine.v
Watchdog.v
AvrHal.v
LockClass.v
Semaphore.v
Pipe.v
PipeSafety.v
Barrier.v
BarrierTest.v
Resource.v
Kernel.v
Handler.v
Timer.v
Scheduler.v
Serial.v
KernelLocks.v
SerialStreams.v
Switch.v
Scheduling.v
Boot.v
Races.v
LocksOnKernel.v
PipeOnKernel.v
SerialOnKernel.v
