(* ===== verification/Prelude.v ===== *)
(** * Kernel Panic: a verification library

    Kernel Panic is a small preemptive kernel in C (src/kernel) with its data structures
    (src/utils), a hardware layer that turns a Unix process into the machine
    (src/hal/unix_hal.c), a Lisp interpreter that runs as a kernel thread
    (src/kernel/minilisp.c) and the control program of a maze-solving robot (src/umouse).
    This library translates the C code into Rocq functions and proves them correct.

    ** The parts and how they interact

    The hardware layer delivers signals as interrupts.  [Isr] counts the disables of every
    interrupt level and sets the signal mask; handlers that run at a high level queue
    [HANDLER_OBJECT]s which run later, with more interrupts open ([Handler]).  Timers
    ([Timer]) are two heaps of such handlers.  The scheduler ([Scheduler], [Switch])
    switches threads from inside a critical handler; the locking unit, which is defined with
    it, blocks and wakes contexts (threads and work items); semaphores, barriers, signals,
    generations and resource locks are built on the locking unit, and pipes, sockets and the
    serial port on those and on the ring buffer.  The locks are verified against an
    interface, the class [LockingLaws] of [LockClass]; [KernelLocks] provides the instance for
    the kernel state, and the [...OnKernel] files apply the theorems there.

    ** The files and the code they model

    - utilities: [RingBuffer] (utils/ringbuffer.c) and its test [RingTest]
      (utils/ringtest.c), [Bitmap] (utils/bitmap.c, bitmap.h), [Printing] (BitmapPrint and the
      texts of the test programs),
      [LinkedList] (utils/linkedlist.c), [AtomicList] (utils/atomiclist.c, types.c),
      [WeightedLink] and [Avl] (utils/link.h, avl.c), [HeapTree] and [Heap] (utils/heap.c),
      [BHam] (utils/bham.c), [Primes] (utils/primes.c); the test programs [BitmapTest]
      (utils/bitmaptest.c), [LinkTest] (utils/linktest.c, the lists and the heap), [TreeTest]
      (utils/treetest.c) and [NumberTests] (utils/bhamtest.c, primestest.c);
    - kernel: [Isr] (kernel/isr.c, the interrupt part of hal/unix_hal.c), [Coroutine]
      (kernel/coroutine.c, context.c, the stack part of hal/unix_hal.c), [Watchdog]
      (kernel/watchdog.c, utils/flags.h), [Kernel] (the objects of all units in one record),
      [Handler] (kernel/handler.c, mutex.c, critinterrupt.c, softinterrupt.c), [Timer]
      (kernel/timer.c, time.c), [Scheduler] and [Switch] (kernel/scheduler.c, locking.c,
      worker.c, sleep.c, context.c, startup.c, generation.c), [Serial] (kernel/serial.c),
      [Scheduling], [Boot] and [Races] (runs of the kernel), [KernelLocks];
    - locks: [LockClass], [Semaphore], [Barrier] (kernel/barrier.c, signal.c, generation.c)
      with the test program [BarrierTest] (test/test7.c), [Resource], [Pipe] and [PipeSafety] (kernel/pipe.c, socket.c), [SerialStreams],
      [LocksOnKernel], [PipeOnKernel], [SerialOnKernel];
    - interpreter (kernel/minilisp.c): [LispHeap] (objects, collector, allocator), [LispGc]
      and [LispAlloc] (their proofs), [LispObjects] (slots and constructors), [LispReader],
      [LispEval], [LispRel], [LispSame] and [LispInvisible] (two runs compared), [LispRuns],
      [LispText] (printing and reading again);
    - robot: [Map] (umouse/map.c, compass.h), [FloodFill] (umouse/floodfill.c), [ScanLog]
      (umouse/positionlog.c), [SubMove] (umouse/submove.c); [MapTest] and
      [FloodFillTest] (umouse/maptest.c, floodfilltest.c); [MoveTest], the program that runs the
      robot in a maze (umouse/movetest.c), with [MoveSpots] (moves from cell to cell), [MoveRun] (what the mouse
      knows), [MoveEnds] (safety and arrival) and [MoveSample] (its runs);
    - another processor: [AvrHal] (hal/avr_hal.c, avr_hal.h).

    A definition has the name of the C function, macro or type that it translates; a Record
    has the fields of the struct, in the order of the C code where that matters.  Where one C
    function is several definitions (the body of a loop, the part behind a context switch),
    their comments say so.

    ** How the code is modelled

    - The build is the debug build for a 64-bit Unix: [COUNT], [INDEX] and [TIME] are 64-bit
      words, [int] has 32 bits, and the wrap of every operation that can overflow is written
      out.  A failed [ASSERT] is the fault [FPanic].
    - A C function is a stateful computation with faults, [St S A]; the state is that of its
      component.  Memory that objects share is a map from addresses ([gmap]).
    - Interrupts are explicit: [Switch.Deliver] is the delivery of one pending signal that is
      not blocked, [AtomicList] and [PipeSafety] give the operations as steps and let
      interrupts or other threads run between any two of them.
    - A context switch returns as the thread that was switched to; the functions that cause a
      switch therefore end in the state in which the new thread runs.  [Coroutine] follows the
      control through [setjmp] and [longjmp] instead.
    - Function pointers are constructors of an enumeration of the functions that are
      installed; what client code does (the function of a coroutine, of a work item, of a
      thread) is a parameter or a sequence of calls.
    - Loops that are not structural run on fuel.  Theorems show that the fuel suffices: two
      passes for a transfer of the ring buffer, 64 steps down a heap (its size is a 64-bit
      word), as many scanned objects as bytes in use for the collector.  The loops of the serial
      port make one round per step.  The flood fill ends on square maps
      ([FloodFill.flood_distances]) and need not on others ([FloodFill.flood_rectangular]).
      A run of the robot has a number of turns and a fuel for the flood fill; both suffice from some
      value on when the destination can be reached, and never in [MoveSample.sealed_forever].  The Lisp interpreter has the fuel that the caller
      gives; its theorems compare runs of the same fuel, and reading needs no more than two
      units for a character and one for every known symbol ([LispText]).

    ** What is shown

    - Safety and progress of interleaved readers and writers of a pipe ([PipeSafety]); what a
      context switch does, and that the scheduler is fair ([Scheduling]); the boot sequence ends in
      a state that satisfies the invariant ([Boot]); critical sections nest and restore the
      interrupt state ([Isr]); a coroutine is its function run as a generator ([Coroutine]).
    - The locks refine abstract objects (a counting semaphore with a first-in first-out
      queue, a readers-writer lock) over any implementation of the locking contract, and the
      kernel implements the contract ([Semaphore], [Resource], [Barrier], [KernelLocks]).
    - The containers refine their mathematical counterparts ([RingBuffer], [LinkedList],
      [Heap], [Avl], [Bitmap]); the lock-free list is correct under interrupts that push, and not
      under concurrent pops ([AtomicList]).
    - The collector keeps the graph of the reachable objects and no more ([LispAlloc]); the
      interpreter keeps the heap well formed and cannot observe the collector
      ([LispInvisible]); the reader understands what the printer writes ([LispText]).
    - Flood fill computes distances ([FloodFill]); the robot, whose map is only what it has
      seen, never stands in a wall of the world and arrives wherever it can be reached
      ([MoveEnds]), though not always in the middle of the cell ([MoveSample]).
    - The test programs, which take numbers from the terminal, answer every input as the abstract
      object would ([LinkTest], [TreeTest], [BitmapTest], [MapTest]); the threads of the barrier
      test never see each other out of step, in any interleaving ([BarrierTest]).
    - On the AVR a context that is switched away from and back to cannot tell ([AvrHal]).
    - Where the code is wrong the theorems say how: [Races], [AtomicList.push_race],
      [AtomicList.pop_aba] and the examples of [LispRuns].

    [LispInvisible.collector_invisible] is about inputs without a dot: the expression [(. x)]
    makes the reader store into the static object [Nil], whose cdr the collector does not
    update.  Lisp objects live at byte addresses; the roots are the entries of the root frames,
    and the static objects are below [HEAP_BASE].

    ** Not modelled

    - Of hal/avr_hal.c: restarting the hardware watchdog, the empty [HalSleepProcessor] and
      the endless loop of a panic.  The layer is not part of the modelled build and no longer
      has the interface that kernel/hal.h declares; [AvrHal] stands by itself.
    - Of hal/unix_hal.c: opening and configuring the terminal ([HalStartSerial]), mapping a
      file ([HalMap]), the messages of a panic, [sigaction] for every level
      ([HalIsrFinalize]; the tables are read at delivery), and the debug copy of the mask.
      They are calls of the operating system without logic of their own.
    - The contents of thread stacks (but for the frames of [AvrHal]).
    - umouse/motor.c and umouse/main.c: functions with empty bodies, and a main program that
      declares its buffers and returns.
    - The kernel's test programs (src/test), except for test7.c ([BarrierTest]) and the
      coroutine of test15.c, which is an instance of [Coroutine]: they start threads that call
      the operations on fixed values.  Of the test programs that are modelled, the fixed lines
      that ask for input are left out. *)

From Stdlib Require Export ZArith Lia.
From stdpp Require Export base tactics numbers option list gmap sets.

#[global] Open Scope Z_scope.

#[global] Arguments Z.eqb : simpl never.
#[global] Arguments Z.ltb : simpl never.
#[global] Arguments Z.leb : simpl never.
#[global] Arguments Z.gtb : simpl never.
#[global] Arguments Z.geb : simpl never.

(** ** Machine integers

    [COUNT], [INDEX], [TIME] and [WEIGHT] are 64-bit unsigned integers on the
    modelled target ([PC_BUILD], LP64); [int] is 32-bit.  Values are kept in [Z]
    and every C operation that can leave the range is followed by a wrap. *)

Definition wrap (w z : Z) : Z := z mod 2 ^ w.
Abbreviation w64 := (wrap 64).
Abbreviation w32 := (wrap 32).
Abbreviation w8 := (wrap 8).

(** Conversion of an integer to a 32-bit [int] (two's complement). *)
Definition int32 (z : Z) : Z := (z + 2 ^ 31) mod 2 ^ 32 - 2 ^ 31.

(** The all-ones value [(size_t)-1]. *)
Definition max64 : Z := 2 ^ 64 - 1.

Definition u64 (z : Z) : Prop := 0 <= z < 2 ^ 64.

Lemma wrap_small w z : 0 <= z < 2 ^ w -> wrap w z = z.
Proof. apply Z.mod_small. Qed.

Lemma wrap_range w z : 0 <= w -> 0 <= wrap w z < 2 ^ w.
Proof. intros Hw. apply Z.mod_pos_bound. lia. Qed.

Lemma w64_small z : u64 z -> w64 z = z.
Proof. apply wrap_small. Qed.

Lemma w64_u64 z : u64 (w64 z).
Proof. apply wrap_range; lia. Qed.

Lemma int32_small z : - 2 ^ 31 <= z < 2 ^ 31 -> int32 z = z.
Proof. intros H. unfold int32. rewrite Z.mod_small; lia. Qed.

(** [CounterAdd] of utils/counter.c, on the value of the counter. *)
Definition CounterAdd (c diff : Z) : Z := w64 (c + diff).

(** ** Faults

    The modelled build is the debug kernel build: a failed [ASSERT] and
    [KernelPanic()] stop the machine.  [FNull] is the dereference of a pointer that
    points to no object, [FBounds] an access outside an array, [FDiv] an integer
    division by zero, [FRelink] the insertion of a link into a list that holds it
    already (which corrupts the list, see LinkedList and LockClass) and [FFuel] a loop
    that exceeded the iteration bound given to it (theorems show when that cannot
    happen).  [FMemory] is the panic of an allocator without memory, [FWait] a wait for
    input that never comes. *)

Inductive fault := FPanic | FNull | FBounds | FDiv | FRelink | FMemory | FWait | FFuel.

Inductive res (A : Type) := Ok (a : A) | Err (e : fault).
Arguments Ok {A} a.
Arguments Err {A} e.

#[export] Instance fault_eq_dec : EqDecision fault.
Proof. solve_decision. Defined.

#[export] Instance res_eq_dec {A} `{EqDecision A} : EqDecision (res A).
Proof. solve_decision. Defined.

#[export] Instance res_ret : MRet res := fun A a => Ok a.
#[export] Instance res_bind : MBind res :=
  fun A B f m => match m with Ok a => f a | Err e => Err e end.

(** [ASSERT( condition )] in a computation without state. *)
Definition assertr (b : bool) : res unit := if b then Ok tt else Err FPanic.

Lemma res_bind_ok {A B} (m : res A) (f : A -> res B) b :
  m ≫= f = Ok b <-> exists a, m = Ok a /\ f a = Ok b.
Proof.
  destruct m as [a|e]; simpl.
  - split; [intros H; exists a; done | intros (a' & [= ->] & H); done].
  - split; [done | intros (a' & H & _); done].
Qed.

(** ** Stateful computations: a state over [S] with faults. *)

Definition St (S A : Type) : Type := S -> res (A * S).

#[export] Instance st_ret {S} : MRet (St S) := fun A a s => Ok (a, s).
#[export] Instance st_bind {S} : MBind (St S) :=
  fun A B f m s => match m s with Ok (a, s') => f a s' | Err e => Err e end.

Section state.
Context {S : Type}.
Definition gets {A} (f : S -> A) : St S A := fun s => Ok (f s, s).
Definition modify (f : S -> S) : St S unit := fun s => Ok (tt, f s).
Definition fail {A} (e : fault) : St S A := fun _ => Err e.
Definition liftr {A} (r : res A) : St S A :=
  fun s => match r with Ok a => Ok (a, s) | Err e => Err e end.
(** [ASSERT( condition )] and [KernelPanic()]. *)
Definition assert (b : bool) : St S unit := if b then mret tt else fail FPanic.
Definition panic {A} : St S A := fail FPanic.

Lemma st_bind_ok {A B} (m : St S A) (f : A -> St S B) s a s' :
  m s = Ok (a, s') -> (m ≫= f) s = f a s'.
Proof. unfold mbind, st_bind. by intros ->. Qed.

Lemma st_bind_inv {A B} (m : St S A) (f : A -> St S B) s b s' :
  (m ≫= f) s = Ok (b, s') ->
  exists a s1, m s = Ok (a, s1) /\ f a s1 = Ok (b, s').
Proof.
  unfold mbind, st_bind. destruct (m s) as [[a s1]|e]; [|done].
  intros H. by exists a, s1.
Qed.

Lemma liftr_ok {A} (r : res A) a s : r = Ok a -> liftr r s = Ok (a, s).
Proof. by intros ->. Qed.

Lemma assert_true b s : b = true -> assert b s = Ok (tt, s).
Proof. by intros ->. Qed.
End state.

(** ** Arrays *)

Definition arr_get {A} (l : list A) (i : Z) : res A :=
  if i <? 0 then Err FBounds else
  match l !! Z.to_nat i with Some a => Ok a | None => Err FBounds end.

Definition arr_set {A} (l : list A) (i : Z) (a : A) : res (list A) :=
  if (0 <=? i) && (i <? Z.of_nat (length l)) then Ok (<[Z.to_nat i := a]> l)
  else Err FBounds.

Definition zlen {A} (l : list A) : Z := Z.of_nat (length l).

(** [slice l a b] is the segment of [l] at the indices [a, a+1, ..., b-1]. *)
Definition slice {A} (l : list A) (a b : Z) : list A :=
  take (Z.to_nat (b - a)) (drop (Z.to_nat a) l).

(** [splice l i d] is [l] with the elements from index [i] overwritten by [d]. *)
Definition splice {A} (l : list A) (i : Z) (d : list A) : list A :=
  take (Z.to_nat i) l ++ d ++ drop (Z.to_nat i + length d) l.

Section arrays.
Context {A : Type}.
Implicit Types l d : list A.

Lemma arr_get_ok l i a : 0 <= i -> l !! Z.to_nat i = Some a -> arr_get l i = Ok a.
Proof.
  intros Hi Hl. unfold arr_get. destruct (Z.ltb_spec i 0); [lia|]. by rewrite Hl.
Qed.

Lemma arr_get_inb l i : 0 <= i < zlen l -> exists a, arr_get l i = Ok a /\ l !! Z.to_nat i = Some a.
Proof.
  intros Hi. unfold zlen in Hi.
  destruct (lookup_lt_is_Some_2 l (Z.to_nat i)) as [a Ha]; [lia|].
  exists a. split; [apply arr_get_ok; [lia|done] | done].
Qed.

Lemma arr_set_ok l i a : 0 <= i < zlen l -> arr_set l i a = Ok (<[Z.to_nat i := a]> l).
Proof.
  intros Hi. unfold arr_set, zlen in *.
  destruct (Z.leb_spec 0 i), (Z.ltb_spec i (Z.of_nat (length l))); simpl; done || lia.
Qed.

Lemma slice_nil l a b : b <= a -> slice l a b = [].
Proof. intros H. unfold slice. by replace (Z.to_nat (b - a)) with 0%nat by lia. Qed.

Lemma slice_length l a b :
  0 <= a <= b -> b <= zlen l -> length (slice l a b) = Z.to_nat (b - a).
Proof. intros. unfold slice, zlen in *. rewrite length_take, length_drop. lia. Qed.

Lemma slice_app l a b c :
  0 <= a <= b -> b <= c -> c <= zlen l -> slice l a b ++ slice l b c = slice l a c.
Proof.
  intros. unfold slice, zlen in *.
  rewrite <- (take_drop (Z.to_nat (b - a)) (take (Z.to_nat (c - a)) (drop (Z.to_nat a) l))).
  f_equal.
  - rewrite take_take. f_equal. lia.
  - rewrite skipn_firstn_comm, drop_drop. f_equal; [lia|]. f_equal. lia.
Qed.

Lemma slice_cons l a b x :
  0 <= a < b -> l !! Z.to_nat a = Some x -> slice l a b = x :: slice l (a + 1) b.
Proof.
  intros H Hx. unfold slice. rewrite (drop_S _ _ _ Hx).
  replace (Z.to_nat (b - a)) with (S (Z.to_nat (b - (a + 1)))) by lia.
  replace (Z.to_nat (a + 1)) with (S (Z.to_nat a)) by lia. done.
Qed.

Lemma slice_take l a b n :
  0 <= n <= b - a -> take (Z.to_nat n) (slice l a b) = slice l a (a + n).
Proof. intros. unfold slice. rewrite take_take. f_equal. lia. Qed.

Lemma slice_drop l a b n :
  0 <= a -> 0 <= n <= b - a -> drop (Z.to_nat n) (slice l a b) = slice l (a + n) b.
Proof.
  intros. unfold slice. rewrite skipn_firstn_comm, drop_drop.
  f_equal; [lia|]. f_equal. lia.
Qed.

Lemma slice_full l : slice l 0 (zlen l) = l.
Proof. unfold slice, zlen. rewrite drop_0, take_ge; [done|lia]. Qed.

Lemma splice_length l i d :
  0 <= i -> i + zlen d <= zlen l -> length (splice l i d) = length l.
Proof.
  intros. unfold splice, zlen in *.
  rewrite !length_app, length_take, length_drop. lia.
Qed.

Lemma splice_nil l i : splice l i [] = l.
Proof. unfold splice. simpl. rewrite Nat.add_0_r. apply take_drop. Qed.

Lemma splice_cons l i x d :
  0 <= i < zlen l ->
  splice (<[Z.to_nat i := x]> l) (i + 1) d = splice l i (x :: d).
Proof.
  intros H. unfold splice, zlen in *.
  replace (Z.to_nat (i + 1)) with (S (Z.to_nat i)) by lia.
  rewrite (take_S_r _ _ x) by (apply list_lookup_insert_eq; lia).
  rewrite take_insert_ge by lia. rewrite drop_insert_lt by lia.
  rewrite <- app_assoc. simpl. do 4 f_equal. lia.
Qed.

Lemma slice_splice_before l i d a b :
  0 <= a -> b <= i -> i <= zlen l -> slice (splice l i d) a b = slice l a b.
Proof.
  intros. unfold slice, splice, zlen in *.
  destruct (decide (b <= a)) as [Hle|Hgt].
  { by replace (Z.to_nat (b - a)) with 0%nat by lia. }
  rewrite drop_app_le by (rewrite length_take; lia).
  rewrite take_app_le by (rewrite length_drop, length_take; lia).
  rewrite skipn_firstn_comm, take_take. f_equal. lia.
Qed.

Lemma slice_splice_at l i d :
  0 <= i <= zlen l -> slice (splice l i d) i (i + zlen d) = d.
Proof.
  intros. unfold slice, splice, zlen in *.
  rewrite drop_app_ge by (rewrite length_take; lia).
  rewrite length_take. replace (Z.to_nat i - _)%nat with 0%nat by lia.
  rewrite drop_0. replace (Z.to_nat (i + Z.of_nat (length d) - i)) with (length d) by lia.
  apply take_app_length.
Qed.

Lemma slice_splice_after l i d a b :
  0 <= i -> i + zlen d <= a -> a <= zlen l -> slice (splice l i d) a b = slice l a b.
Proof.
  intros. unfold slice, splice, zlen in *. f_equal.
  rewrite app_assoc, drop_app_ge by (rewrite length_app, length_take; lia).
  rewrite drop_drop, length_app, length_take. f_equal. lia.
Qed.
End arrays.

Lemma elem_of_tail {A} (x : A) l : x ∈ tail l -> x ∈ l.
Proof. destruct l; [done|]. intros H. by apply list_elem_of_further. Qed.

Lemma NoDup_tail {A} (l : list A) : NoDup l -> NoDup (tail l).
Proof. destruct l; [done|]. by intros [_ ?]%NoDup_cons. Qed.

(** ** Automation *)

Create HintDb panic.
#[export] Hint Resolve w64_u64 : panic.
#[export] Hint Rewrite @length_insert @length_app @length_take @length_drop : panic.

(** Case analysis on every boolean integer comparison of the goal. *)
Ltac zcase :=
  match goal with
  | |- context [?a =? ?b] => destruct (Z.eqb_spec a b)
  | |- context [?a <? ?b] => destruct (Z.ltb_spec a b)
  | |- context [?a <=? ?b] => destruct (Z.leb_spec a b)
  | |- context [?a >? ?b] => rewrite (Z.gtb_ltb a b)
  | |- context [?a >=? ?b] => rewrite (Z.geb_leb a b)
  end.
Ltac zcases := repeat zcase.
(** The same, reducing record projections and conditionals between the cases. *)
Ltac szcases := simpl; repeat (zcase; simpl).

(** Closes arithmetic goals and goals with contradictory arithmetic hypotheses. *)
Ltac arith := first [done | lia | exfalso; lia].

(** [lia] with division and modulo by constants. *)
Ltac dlia := Z.to_euclidean_division_equations; lia.

(** Inverts an equation [(m ≫= f) s = Ok (b, s')] into its two halves. *)
Ltac st_inv H :=
  let a := fresh "a" in let s := fresh "s" in let H1 := fresh "Hm" in
  apply st_bind_inv in H as (a & s & H1 & H); simpl in H.

(** One step of a stateful computation: the first component runs as [lem] says, whose
    hypotheses are closed by [tac]. *)
Tactic Notation "st_step" uconstr(lem) "by" tactic3(tac) :=
  erewrite st_bind_ok by (apply lem; tac); cbv beta.
Tactic Notation "st_step" uconstr(lem) := st_step lem by done.

(** ** Transition systems *)

Section transitions.
Context {S : Type} (step : S -> S -> Prop).

Inductive steps : S -> S -> Prop :=
| steps_refl s : steps s s
| steps_next s t u : step s t -> steps t u -> steps s u.

Lemma steps_one s t : step s t -> steps s t.
Proof. eauto using steps. Qed.

Lemma steps_trans s t u : steps s t -> steps t u -> steps s u.
Proof. induction 1; eauto using steps. Qed.

(** An inductive invariant holds in every reachable state. *)
Lemma steps_invariant (I : S -> Prop) s t :
  (forall x y, I x -> step x y -> I y) -> I s -> steps s t -> I t.
Proof. intros Hstep Hs. induction 1; eauto. Qed.
End transitions.

#[export] Hint Constructors steps : panic.
