(* ===== verification/RingBuffer.v ===== *)
(** * The ring buffer (utils/ringbuffer.c, utils/ringbuffer.h)

    A byte queue in a caller-supplied array.  [ReadIndex = WriteIndex] means either
    empty or full; the flag [Empty] tells which.  The C functions copy through a
    [char *buff]: a read returns the list of the bytes stored at [buff[0..]], a
    write takes the list of the bytes at [buff[0..size-1]]. *)

From S2P Require Import Prelude.

Record RING_BUFFER := mkRing {
  Buffer : list Z;
  Size : Z;
  ReadIndex : Z;
  WriteIndex : Z;
  Empty : bool
}.

Definition set_ReadIndex (i : Z) (r : RING_BUFFER) : RING_BUFFER :=
  mkRing (Buffer r) (Size r) i (WriteIndex r) (Empty r).
Definition set_WriteIndex (i : Z) (r : RING_BUFFER) : RING_BUFFER :=
  mkRing (Buffer r) (Size r) (ReadIndex r) i (Empty r).
Definition set_Buffer (b : list Z) (r : RING_BUFFER) : RING_BUFFER :=
  mkRing b (Size r) (ReadIndex r) (WriteIndex r) (Empty r).
Definition set_Empty (e : bool) (r : RING_BUFFER) : RING_BUFFER :=
  mkRing (Buffer r) (Size r) (ReadIndex r) (WriteIndex r) e.

Definition RingBufferInit (buff : list Z) (size : Z) : RING_BUFFER :=
  mkRing buff size 0 0 true.

Definition RingBufferIsEmpty (ring : RING_BUFFER) : bool := Empty ring.

Definition RingBufferIsFull (ring : RING_BUFFER) : bool :=
  negb (Empty ring) && (WriteIndex ring =? ReadIndex ring).

(** [for (; cur != end; cur++) buff[index++] = ring->Buffer[cur];] *)
Fixpoint ReadCopy (fuel : nat) (buf : list Z) (cur end_ : Z) : res (list Z) :=
  if cur =? end_ then Ok [] else
  match fuel with
  | O => Err FFuel
  | S fuel =>
      b ← arr_get buf cur;
      rest ← ReadCopy fuel buf (w64 (cur + 1)) end_;
      Ok (b :: rest)
  end.

Definition RingBufferReadSmall (size : Z) (ring : RING_BUFFER)
  : res (list Z * RING_BUFFER) :=
  let cur := ReadIndex ring in
  let end0 := w64 (ReadIndex ring + size) in
  let '(end_, ring') :=
    if ReadIndex ring <? WriteIndex ring then
      let e := if end0 >? WriteIndex ring then WriteIndex ring else end0 in
      (e, set_ReadIndex e ring)
    else if end0 >=? Size ring then (Size ring, set_ReadIndex 0 ring)
    else (end0, set_ReadIndex end0 ring) in
  out ← ReadCopy (length (Buffer ring)) (Buffer ring) cur end_;
  Ok (out, ring').

(** [for (; cur != end; cur++) ring->Buffer[cur] = buff[index++];] *)
Fixpoint WriteCopy (fuel : nat) (buff : list Z) (buf : list Z) (cur end_ : Z) (index : Z)
  : res (list Z * Z) :=
  if cur =? end_ then Ok (buf, index) else
  match fuel with
  | O => Err FFuel
  | S fuel =>
      b ← arr_get buff index;
      buf' ← arr_set buf cur b;
      WriteCopy fuel buff buf' (w64 (cur + 1)) end_ (w64 (index + 1))
  end.

Definition RingBufferWriteSmall (buff : list Z) (size : Z) (ring : RING_BUFFER)
  : res (Z * RING_BUFFER) :=
  let cur := WriteIndex ring in
  let end0 := w64 (WriteIndex ring + size) in
  let '(end_, ring') :=
    if WriteIndex ring <? ReadIndex ring then
      let e := if end0 >? ReadIndex ring then ReadIndex ring else end0 in
      (e, set_WriteIndex e ring)
    else if end0 >=? Size ring then (Size ring, set_WriteIndex 0 ring)
    else (end0, set_WriteIndex end0 ring) in
  '(buf', index) ← WriteCopy (length (Buffer ring)) buff (Buffer ring) cur end_ 0;
  Ok (index, set_Buffer buf' ring').

Definition RingBufferPeak (ring : RING_BUFFER) : res (option Z) :=
  if RingBufferIsEmpty ring then Ok None
  else c ← arr_get (Buffer ring) (ReadIndex ring); Ok (Some c).

(** The [while] loop of [RingBufferRead]: [out] is what was stored at
    [buff[0..read-1]] so far. *)
Fixpoint ReadLoop (fuel : nat) (size : Z) (out : list Z) (ring : RING_BUFFER)
  : res (list Z * RING_BUFFER) :=
  if (zlen out <? size) && negb (RingBufferIsEmpty ring) then
    match fuel with
    | O => Err FFuel
    | S fuel =>
        '(chunk, ring1) ← RingBufferReadSmall (size - zlen out) ring;
        let ring2 := if ReadIndex ring1 =? WriteIndex ring1
                     then set_Empty true ring1 else ring1 in
        ReadLoop fuel size (out ++ chunk) ring2
    end
  else Ok (out, ring).

(** At most two passes: up to the end of the array, then from its start. *)
Definition RingBufferRead (size : Z) (ring : RING_BUFFER) : res (list Z * RING_BUFFER) :=
  ReadLoop 2 size [] ring.

Fixpoint WriteLoop (fuel : nat) (buff : list Z) (size : Z) (write : Z) (ring : RING_BUFFER)
  : res (Z * RING_BUFFER) :=
  if (write <? size) && negb (RingBufferIsFull ring) then
    match fuel with
    | O => Err FFuel
    | S fuel =>
        '(n, ring1) ← RingBufferWriteSmall (drop (Z.to_nat write) buff) (size - write) ring;
        WriteLoop fuel buff size (w64 (write + n)) (set_Empty false ring1)
    end
  else Ok (write, ring).

Definition RingBufferWrite (buff : list Z) (size : Z) (ring : RING_BUFFER)
  : res (Z * RING_BUFFER) :=
  WriteLoop 2 buff size 0 ring.

(** ** Abstract view: a bounded queue of bytes *)

(** The well-formedness invariant: the indices are inside an array of [Size] bytes
    and an empty ring has equal indices. *)
Definition ring_wf (r : RING_BUFFER) : Prop :=
  zlen (Buffer r) = Size r /\ 0 < Size r < 2 ^ 63 /\
  0 <= ReadIndex r < Size r /\ 0 <= WriteIndex r < Size r /\
  (Empty r = true -> ReadIndex r = WriteIndex r).

(** The queued bytes, oldest first. *)
Definition contents (r : RING_BUFFER) : list Z :=
  if Empty r then []
  else if ReadIndex r <? WriteIndex r then slice (Buffer r) (ReadIndex r) (WriteIndex r)
  else slice (Buffer r) (ReadIndex r) (Size r) ++ slice (Buffer r) 0 (WriteIndex r).

Definition free (r : RING_BUFFER) : Z := Size r - zlen (contents r).

(** How many passes a read (a write) still needs to drain (to fill) the ring. *)
Definition read_passes (r : RING_BUFFER) : nat :=
  if Empty r then 0 else if ReadIndex r <? WriteIndex r then 1 else 2.

Definition write_passes (r : RING_BUFFER) : nat :=
  if RingBufferIsFull r then 0 else if WriteIndex r <? ReadIndex r then 1 else 2.

(** ** Specification: a bounded FIFO of bytes *)

Inductive ring_op :=
| OpWrite (bytes : list Z)
| OpRead (size : Z)
| OpPeak.

(** What a caller observes: a count, the bytes read, or the byte peeked at. *)
Inductive ring_obs :=
| ObsCount (n : Z)
| ObsBytes (bytes : list Z)
| ObsPeak (b : option Z).

Definition ring_step (op : ring_op) (r : RING_BUFFER) : res (ring_obs * RING_BUFFER) :=
  match op with
  | OpWrite bytes =>
      '(n, r') ← RingBufferWrite bytes (zlen bytes) r; Ok (ObsCount n, r')
  | OpRead size =>
      '(out, r') ← RingBufferRead size r; Ok (ObsBytes out, r')
  | OpPeak => b ← RingBufferPeak r; Ok (ObsPeak b, r)
  end.

Definition fifo_step (capacity : Z) (op : ring_op) (q : list Z) : ring_obs * list Z :=
  match op with
  | OpWrite bytes =>
      let n := Z.min (zlen bytes) (capacity - zlen q) in
      (ObsCount n, q ++ take (Z.to_nat n) bytes)
  | OpRead size =>
      (ObsBytes (take (Z.to_nat size) q), drop (Z.to_nat size) q)
  | OpPeak => (ObsPeak (head q), q)
  end.

Fixpoint ring_run (ops : list ring_op) (r : RING_BUFFER) : res (list ring_obs * RING_BUFFER) :=
  match ops with
  | [] => Ok ([], r)
  | op :: ops =>
      '(o, r1) ← ring_step op r; '(os, r2) ← ring_run ops r1; Ok (o :: os, r2)
  end.

Fixpoint fifo_run (capacity : Z) (ops : list ring_op) (q : list Z) : list ring_obs * list Z :=
  match ops with
  | [] => ([], q)
  | op :: ops =>
      let '(o, q1) := fifo_step capacity op q in
      let '(os, q2) := fifo_run capacity ops q1 in (o :: os, q2)
  end.

(** Requests of less than [2^63] bytes. *)
Definition op_ok (op : ring_op) : Prop :=
  match op with
  | OpWrite bytes => zlen bytes < 2 ^ 63
  | OpRead size => 0 <= size < 2 ^ 63
  | OpPeak => True
  end.

(** A ring of four bytes that holds two, wrapped around the end of the array. *)
Definition ring4 : RING_BUFFER := mkRing [10; 11; 12; 13] 4 3 1 false.

(** ** Lemmas *)

Lemma ReadCopy_ok fuel buf cur end_ :
  0 <= cur <= end_ -> end_ <= zlen buf -> end_ < 2 ^ 64 -> end_ - cur <= Z.of_nat fuel ->
  ReadCopy fuel buf cur end_ = Ok (slice buf cur end_).
Proof.
  revert cur. induction fuel as [|fuel IH]; intros cur Hc He H64 Hf; simpl;
    destruct (Z.eqb_spec cur end_) as [->|Hne]; try lia; try by rewrite slice_nil by lia.
  destruct (arr_get_inb buf cur) as (b & -> & Hb); [lia|]. simpl.
  rewrite w64_small by (unfold u64; lia). rewrite IH by lia. simpl.
  rewrite (slice_cons _ cur end_ b); [done|lia|done].
Qed.

Lemma WriteCopy_ok fuel buff buf cur end_ index :
  0 <= cur <= end_ -> end_ <= zlen buf -> end_ < 2 ^ 64 -> end_ - cur <= Z.of_nat fuel ->
  0 <= index -> index + (end_ - cur) <= zlen buff -> zlen buff < 2 ^ 64 ->
  WriteCopy fuel buff buf cur end_ index =
    Ok (splice buf cur (slice buff index (index + (end_ - cur))), index + (end_ - cur)).
Proof.
  revert buf cur index.
  induction fuel as [|fuel IH]; intros buf cur index Hc He H64 Hf Hi Hb Hb64; simpl;
    destruct (Z.eqb_spec cur end_) as [->|Hne]; try lia;
    try (rewrite slice_nil, splice_nil by lia; do 2 f_equal; lia).
  destruct (arr_get_inb buff index) as (b & -> & Hl); [lia|]. simpl.
  rewrite arr_set_ok by lia. simpl.
  rewrite !w64_small by (unfold u64; lia).
  rewrite IH by (unfold zlen in *; rewrite ?length_insert; lia).
  rewrite (slice_cons _ index _ b); [|lia|done].
  rewrite splice_cons by (unfold zlen in *; lia).
  by replace (index + 1 + (end_ - (cur + 1))) with (index + (end_ - cur)) by lia.
Qed.

Lemma contents_length r :
  ring_wf r ->
  zlen (contents r) =
    if Empty r then 0
    else if ReadIndex r <? WriteIndex r then WriteIndex r - ReadIndex r
    else Size r - ReadIndex r + WriteIndex r.
Proof.
  intros (Hl & Hs & HR & HW & He). unfold contents, zlen in *.
  destruct (Empty r); [done|]. zcases;
    rewrite ?length_app, !slice_length by (unfold zlen; lia); lia.
Qed.

(** One pass of a read takes a non-empty prefix of the contents. *)
Lemma RingBufferReadSmall_spec size r :
  ring_wf r -> Empty r = false -> 0 < size < 2 ^ 63 ->
  exists n r1,
    RingBufferReadSmall size r = Ok (take (Z.to_nat n) (contents r), r1) /\
    let r2 := if ReadIndex r1 =? WriteIndex r1 then set_Empty true r1 else r1 in
    0 < n <= size /\ n <= zlen (contents r) /\ ring_wf r2 /\ Size r2 = Size r /\
    contents r2 = drop (Z.to_nat n) (contents r) /\
    (n = size \/ (read_passes r2 < read_passes r)%nat).
Proof.
  intros Hwf Hne Hsz. pose proof (contents_length r Hwf) as Hcl.
  destruct Hwf as (Hl & Hs & HR & HW & He).
  unfold RingBufferReadSmall. rewrite w64_small by (unfold u64; lia).
  set (f := length (Buffer r)). assert (Z.of_nat f = zlen (Buffer r)) as Hf by done.
  clearbody f. unfold contents, read_passes in *. destruct r as [b S R W E]; simpl in *; subst E.
  destruct (Z.ltb_spec R W) as [HRW|HRW]; rewrite ?Z.gtb_ltb, ?Z.geb_leb.
  - exists (Z.min size (W - R)).
    set (e := if W <? R + size then W else R + size).
    assert (e = R + Z.min size (W - R)) as -> by (unfold e; zcases; lia).
    eexists. rewrite ReadCopy_ok by lia. simpl.
    rewrite slice_take by lia. split; [done|]. unfold set_Empty, ring_wf. simpl.
    szcases; split_and?; try arith.
    + rewrite drop_ge; [done|]. rewrite slice_length; lia.
    + rewrite slice_drop by lia. done.
  - destruct (Z.leb_spec S (R + size)) as [Hwrap|Hwrap].
    + exists (S - R). eexists. rewrite ReadCopy_ok by lia. simpl.
      assert (length (slice b R S) = Z.to_nat (S - R)) as Hsl by (rewrite slice_length; lia).
      rewrite <- Hsl, take_app_length, drop_app_length.
      split; [done|]. unfold set_Empty, ring_wf. simpl.
      szcases; split_and?; try arith.
      all: try (subst; by rewrite slice_nil by lia).
    + exists size. eexists. rewrite ReadCopy_ok by lia. simpl.
      assert (length (slice b R S) = Z.to_nat (S - R)) as Hsl by (rewrite slice_length; lia).
      rewrite take_app_le, drop_app_le, slice_take, slice_drop by lia.
      split; [done|]. unfold set_Empty, ring_wf. simpl.
      szcases; split_and?; try arith.
Qed.

Lemma ReadLoop_done fuel size out r :
  size <= zlen out \/ Empty r = true -> ReadLoop fuel size out r = Ok (out, r).
Proof.
  intros H. destruct fuel; simpl; unfold RingBufferIsEmpty;
    destruct (Z.ltb_spec (zlen out) size), (Empty r); simpl; destruct H; arith.
Qed.

Lemma ReadLoop_spec fuel size out r :
  ring_wf r -> zlen out <= size < 2 ^ 63 -> (read_passes r <= fuel)%nat ->
  let n := Z.min (size - zlen out) (zlen (contents r)) in
  exists r', ReadLoop fuel size out r = Ok (out ++ take (Z.to_nat n) (contents r), r') /\
    ring_wf r' /\ Size r' = Size r /\ contents r' = drop (Z.to_nat n) (contents r).
Proof.
  revert out r. induction fuel as [|fuel IH]; intros out r Hwf Hsz Hp n.
  all: destruct (decide (size <= zlen out \/ Empty r = true)) as [Hdone|Hgo].
  1, 3: exists r; rewrite ReadLoop_done by done; assert (Z.to_nat n = 0%nat) as ->
    by (pose proof (contents_length r Hwf); destruct Hdone as [|He]; [|rewrite He in *]; lia);
    rewrite app_nil_r; done.
  all: assert (Empty r = false) as He by (destruct (Empty r); naive_solver).
  { unfold read_passes in Hp. rewrite He in Hp. destruct (ReadIndex r <? WriteIndex r); lia. }
  simpl. unfold RingBufferIsEmpty. rewrite He. destruct (Z.ltb_spec (zlen out) size); [|lia].
  destruct (RingBufferReadSmall_spec (size - zlen out) r) as (k & r1 & -> & Hk & Hkc & Hwf2 & Hsz2 & Hc & Hpass);
    [done|done|unfold zlen in *; lia|]. simpl.
  set (r2 := if ReadIndex r1 =? WriteIndex r1 then set_Empty true r1 else r1) in *.
  assert (zlen (out ++ take (Z.to_nat k) (contents r)) = zlen out + k) as Hz.
  { unfold zlen in *. rewrite length_app, length_take. lia. }
  assert (zlen (contents r2) = zlen (contents r) - k) as Hz2.
  { rewrite Hc. unfold zlen in *. rewrite length_drop. lia. }
  destruct (decide (k = size - zlen out)) as [Hall|Hmore].
  - exists r2. assert (n = k) as -> by lia. split; [|done].
    apply ReadLoop_done. lia.
  - destruct (IH (out ++ take (Z.to_nat k) (contents r)) r2) as (r' & -> & Hwf' & Hsz' & Hc');
      [done|lia|destruct Hpass; lia|].
    exists r'. rewrite Hz, Hz2 in *. rewrite Hc in Hc' |- *. split_and!; [|done|congruence|].
    + rewrite <- app_assoc, take_take_drop. do 4 f_equal. lia.
    + rewrite Hc', drop_drop. f_equal. lia.
Qed.

(** The two shapes of a ring that is not full. *)
Lemma contents_behind r :
  Empty r = false -> WriteIndex r <= ReadIndex r ->
  contents r = slice (Buffer r) (ReadIndex r) (Size r) ++ slice (Buffer r) 0 (WriteIndex r).
Proof. intros He H. unfold contents. rewrite He. zcases; arith. Qed.

Lemma contents_ahead r :
  ring_wf r -> RingBufferIsFull r = false -> ReadIndex r <= WriteIndex r ->
  contents r = slice (Buffer r) (ReadIndex r) (WriteIndex r).
Proof.
  unfold RingBufferIsFull, contents. intros (_ & _ & _ & _ & He) Hf H.
  destruct (Empty r); simpl in *.
  - rewrite slice_nil; [done|]. rewrite He by done. done.
  - revert Hf. zcases; arith.
Qed.

(** Storing [d] at index [W] of the array extends the segment that ends there. *)
Lemma slice_splice_extend {A} (b d : list A) R W :
  0 <= R <= W -> W + zlen d <= zlen b ->
  slice (splice b W d) R (W + zlen d) = slice b R W ++ d.
Proof.
  intros H Hle. pose proof (splice_length b W d) as Hlen. unfold zlen in *.
  rewrite <- (slice_app _ R W) by (unfold zlen; lia).
  f_equal.
  - apply slice_splice_before; unfold zlen; lia.
  - apply slice_splice_at; unfold zlen; lia.
Qed.

Lemma zlen_take {A} (l : list A) n : 0 <= n <= zlen l -> zlen (take (Z.to_nat n) l) = n.
Proof. unfold zlen. rewrite length_take. lia. Qed.

Lemma zlen_splice {A} (b d : list A) i :
  0 <= i -> i + zlen d <= zlen b -> zlen (splice b i d) = zlen b.
Proof. intros. unfold zlen. by rewrite splice_length. Qed.

(** One pass of a write appends a non-empty prefix of the data. *)
(** The copy of the first [n] bytes, up to the end of the memory at most. *)
Lemma WriteCopy_prefix data buf w n : 0 <= w -> 0 <= n <= zlen data -> w + n <= zlen buf -> zlen data < 2 ^ 63 -> zlen buf < 2 ^ 63 ->
  WriteCopy (length buf) data buf w (w + n) 0 = Ok (splice buf w (take (Z.to_nat n) data), n).
Proof.
  intros Hw Hn HWn Hd Hb. rewrite WriteCopy_ok by (unfold zlen in *; lia). replace (w + n - w) with n by lia.
  unfold slice. simpl. rewrite drop_0. do 4 f_equal. lia.
Qed.

Lemma RingBufferWriteSmall_spec data r :
  ring_wf r -> RingBufferIsFull r = false -> 0 < zlen data < 2 ^ 63 ->
  exists n r1,
    RingBufferWriteSmall data (zlen data) r = Ok (n, r1) /\
    let r2 := set_Empty false r1 in
    0 < n <= zlen data /\ n <= free r /\ ring_wf r2 /\ Size r2 = Size r /\
    contents r2 = contents r ++ take (Z.to_nat n) data /\
    (n = zlen data \/ (write_passes r2 < write_passes r)%nat).
Proof.
  intros Hwf Hnf Hd. pose proof (contents_length r Hwf) as Hcl. unfold free.
  unfold RingBufferWriteSmall. pose proof Hwf as (Hl & Hs & HR & HW & He).
  rewrite w64_small by (unfold u64; lia).
  assert (forall n, 0 <= n <= zlen data -> WriteIndex r + n <= Size r ->
    WriteCopy (length (Buffer r)) data (Buffer r) (WriteIndex r) (WriteIndex r + n) 0 =
    Ok (splice (Buffer r) (WriteIndex r) (take (Z.to_nat n) data), n)) as Hcopy by (intros; apply WriteCopy_prefix; lia).
  assert (forall n, 0 <= n <= zlen data -> WriteIndex r + n <= Size r ->
    zlen (splice (Buffer r) (WriteIndex r) (take (Z.to_nat n) data)) = Size r) as Hzl
    by (intros; rewrite zlen_splice; rewrite ?zlen_take; lia).
  unfold write_passes. rewrite Hnf.
  destruct (Z.ltb_spec (WriteIndex r) (ReadIndex r)) as [HRW|HRW]; rewrite ?Z.gtb_ltb, ?Z.geb_leb.
  - set (n := Z.min (zlen data) (ReadIndex r - WriteIndex r)).
    assert (Empty r = false) as HE by (destruct (Empty r); arith). exists n.
    set (e := if ReadIndex r <? _ then _ else _).
    assert (e = WriteIndex r + n) as -> by (unfold e; zcases; lia).
    eexists. rewrite Hcopy by lia. split; [done|].
    rewrite Hcl, HE.
    destruct (Z.ltb_spec (ReadIndex r) (WriteIndex r)); [lia|].
    unfold RingBufferIsFull, ring_wf. rewrite contents_behind by (simpl; lia || done). simpl.
    rewrite Hzl, (contents_behind r HE) by lia. szcases; split_and?; try arith.
    all: replace (WriteIndex r + n) with (WriteIndex r + zlen (take (Z.to_nat n) data))
      by (rewrite zlen_take; lia).
    all: rewrite slice_splice_extend by (rewrite ?zlen_take; lia).
    all: rewrite slice_splice_after, app_assoc by (rewrite ?zlen_take; lia); done.
  - rewrite (contents_ahead r) by done.
    assert (zlen (slice (Buffer r) (ReadIndex r) (WriteIndex r)) = WriteIndex r - ReadIndex r) as Hc0
      by (unfold zlen; rewrite slice_length; lia).
    destruct (Z.leb_spec (Size r) (WriteIndex r + zlen data)) as [Hwrap|Hwrap].
    + set (n := Size r - WriteIndex r). exists n.
      specialize (Hcopy n). replace (WriteIndex r + n) with (Size r) in Hcopy by lia.
      eexists. rewrite Hcopy by lia. split; [done|].
      rewrite Hc0. unfold RingBufferIsFull, ring_wf.
      rewrite contents_behind by (simpl; lia || done). simpl. rewrite Hzl by lia.
      assert (slice (splice (Buffer r) (WriteIndex r) (take (Z.to_nat n) data)) (ReadIndex r) (Size r) =
        slice (Buffer r) (ReadIndex r) (WriteIndex r) ++ take (Z.to_nat n) data) as ->.
      { rewrite <- slice_splice_extend by (rewrite ?zlen_take; lia). f_equal. rewrite zlen_take; lia. }
      rewrite (slice_nil _ 0 0), app_nil_r by lia.
      szcases; split_and?; arith.
    + exists (zlen data). eexists. rewrite Hcopy by lia. split; [done|].
      rewrite Hc0. unfold RingBufferIsFull, ring_wf, contents. simpl. rewrite Hzl by lia.
      replace (slice _ _ (WriteIndex r + zlen data)) with
        (slice (Buffer r) (ReadIndex r) (WriteIndex r) ++ take (Z.to_nat (zlen data)) data)
        by (rewrite <- slice_splice_extend by (rewrite ?zlen_take; lia); f_equal; rewrite zlen_take; lia).
      szcases; split_and?; arith.
Qed.

Lemma WriteLoop_done fuel buff size write r :
  size <= write \/ RingBufferIsFull r = true ->
  WriteLoop fuel buff size write r = Ok (write, r).
Proof.
  intros H. destruct fuel; simpl; destruct (Z.ltb_spec write size),
    (RingBufferIsFull r); simpl; destruct H; arith.
Qed.

Lemma write_passes_free r :
  ring_wf r -> RingBufferIsFull r = false -> (0 < write_passes r)%nat /\ 0 < free r.
Proof.
  intros Hwf Hf. pose proof (contents_length r Hwf) as Hc. unfold write_passes, free.
  rewrite Hf, Hc. destruct Hwf as (_ & Hs & HR & HW & He).
  unfold RingBufferIsFull in Hf. revert Hf.
  destruct (Empty r); simpl; [|zcases]; simpl; split; zcases; arith.
Qed.

Lemma full_free r : ring_wf r -> RingBufferIsFull r = true -> free r = 0.
Proof.
  intros Hwf Hf. pose proof (contents_length r Hwf) as Hc. unfold free. rewrite Hc.
  destruct Hwf as (_ & Hs & HR & HW & He). unfold RingBufferIsFull in Hf. revert Hf.
  destruct (Empty r); simpl; [done|zcases; arith].
Qed.

Lemma free_nonneg r : ring_wf r -> 0 <= free r.
Proof.
  intros Hwf. destruct (RingBufferIsFull r) eqn:Hf.
  - rewrite full_free by done. lia.
  - destruct (write_passes_free r Hwf Hf). lia.
Qed.

Lemma WriteLoop_spec fuel buff write r :
  ring_wf r -> 0 <= write <= zlen buff -> zlen buff < 2 ^ 63 -> (write_passes r <= fuel)%nat ->
  let n := Z.min (zlen buff - write) (free r) in
  exists r', WriteLoop fuel buff (zlen buff) write r = Ok (write + n, r') /\
    ring_wf r' /\ Size r' = Size r /\
    contents r' = contents r ++ slice buff write (write + n).
Proof.
  revert write r. induction fuel as [|fuel IH]; intros write r Hwf Hw Hb Hp n.
  all: pose proof (free_nonneg r Hwf) as Hfree.
  all: destruct (decide (zlen buff <= write \/ RingBufferIsFull r = true)) as [Hdone|Hgo].
  1, 3: exists r; rewrite WriteLoop_done by done; assert (n = 0) as ->
    by (pose proof (full_free r Hwf); naive_solver lia);
    rewrite slice_nil, app_nil_r, Z.add_0_r by lia; done.
  all: assert (RingBufferIsFull r = false) as Hf by (destruct (RingBufferIsFull r); naive_solver).
  { pose proof (write_passes_free r Hwf Hf). lia. }
  simpl. rewrite Hf. destruct (Z.ltb_spec write (zlen buff)); [|lia]. simpl.
  assert (zlen (drop (Z.to_nat write) buff) = zlen buff - write) as Hd.
  { unfold zlen in *. rewrite length_drop. lia. }
  destruct (RingBufferWriteSmall_spec (drop (Z.to_nat write) buff) r)
    as (k & r1 & Heq & Hk & Hkf & Hwf2 & Hsz & Hc & Hpass); [done|done|lia|].
  rewrite Hd in *. rewrite Heq. simpl.
  rewrite w64_small by (unfold u64; lia).
  set (r2 := set_Empty false r1) in *.
  assert (free r2 = free r - k) as Hf2.
  { unfold free. rewrite Hsz, Hc. unfold zlen in *. rewrite length_app, length_take, length_drop. lia. }
  assert (take (Z.to_nat k) (drop (Z.to_nat write) buff) = slice buff write (write + k)) as Hs.
  { unfold slice. f_equal. lia. }
  rewrite Hs in Hc.
  destruct (decide (k = zlen buff - write)) as [Hall|Hmore].
  - exists r2. assert (n = k) as -> by lia. split; [|done]. rewrite WriteLoop_done; [done|lia].
  - destruct (IH (write + k) r2) as (r' & -> & Hwf' & Hsz' & Hc'); [done|lia|lia|destruct Hpass; lia|].
    exists r'. rewrite Hf2 in *. split_and!; [do 2 f_equal; lia|done|congruence|].
    rewrite Hc', Hc, <- app_assoc, slice_app by lia. do 2 f_equal. lia.
Qed.

Lemma RingBufferWrite_ok buff r :
  ring_wf r -> zlen buff < 2 ^ 63 ->
  let n := Z.min (zlen buff) (free r) in
  exists r', RingBufferWrite buff (zlen buff) r = Ok (n, r') /\
    ring_wf r' /\ Size r' = Size r /\ contents r' = contents r ++ take (Z.to_nat n) buff.
Proof.
  intros Hwf Hb n.
  destruct (WriteLoop_spec 2 buff 0 r) as (r' & Heq & Hwf' & Hs & Hc);
    [done|unfold zlen in *; lia|done|unfold write_passes; repeat case_match; lia|].
  rewrite Z.sub_0_r, Z.add_0_l in *. exists r'. split_and!; try done.
  rewrite Hc. unfold slice. simpl. rewrite drop_0, Z.sub_0_r. done.
Qed.

Lemma RingBufferRead_ok size r :
  ring_wf r -> 0 <= size < 2 ^ 63 ->
  exists r', RingBufferRead size r = Ok (take (Z.to_nat size) (contents r), r') /\
    ring_wf r' /\ Size r' = Size r /\ contents r' = drop (Z.to_nat size) (contents r).
Proof.
  intros Hwf Hsz.
  destruct (ReadLoop_spec 2 size [] r) as (r' & Heq & Hwf' & Hs & Hc);
    [done|unfold zlen; simpl; lia|unfold read_passes; repeat case_match; lia|].
  change (zlen []) with 0 in *. rewrite Z.sub_0_r, app_nil_l in *. unfold zlen in *.
  exists r'. unfold RingBufferRead. rewrite Heq, Hc. split_and!; try done.
  - do 2 f_equal. destruct (Z.min_spec size (Z.of_nat (length (contents r)))) as [[? ->]|[? ->]]; [done|].
    rewrite !take_ge by lia. done.
  - destruct (Z.min_spec size (Z.of_nat (length (contents r)))) as [[? ->]|[? ->]]; [done|].
    rewrite !drop_ge by lia. done.
Qed.

Lemma empty_contents r : ring_wf r -> RingBufferIsEmpty r = true <-> contents r = [].
Proof.
  intros Hwf. pose proof (contents_length r Hwf) as Hc. destruct Hwf as (_ & Hs & HR & HW & He).
  unfold RingBufferIsEmpty. destruct (Empty r) eqn:E; [split; [|done]; intros _; by unfold contents; rewrite E|].
  split; [done|]. intros Hn. rewrite Hn in Hc. change (zlen []) with 0 in Hc.
  destruct (Z.ltb_spec (ReadIndex r) (WriteIndex r)); lia.
Qed.

Lemma full_contents r : ring_wf r -> RingBufferIsFull r = true <-> zlen (contents r) = Size r.
Proof.
  intros Hwf. split; [intros H; pose proof (full_free r Hwf H) as Hf; unfold free in Hf; lia|].
  intros H. destruct (RingBufferIsFull r) eqn:Hf; [done|]. destruct (write_passes_free r Hwf Hf). unfold free in *. lia.
Qed.

Lemma RingBufferPeak_ok r : ring_wf r -> RingBufferPeak r = Ok (head (contents r)).
Proof.
  intros (Hl & Hs & HR & HW & He). unfold RingBufferPeak, RingBufferIsEmpty, contents.
  destruct (Empty r); [done|].
  destruct (arr_get_inb (Buffer r) (ReadIndex r)) as (b & -> & Hb); [lia|]. simpl.
  zcases; rewrite (slice_cons _ _ _ b) by (lia || done); done.
Qed.

Lemma ring_step_refines op r :
  ring_wf r -> op_ok op ->
  let '(o, q) := fifo_step (Size r) op (contents r) in
  exists r', ring_step op r = Ok (o, r') /\ ring_wf r' /\ Size r' = Size r /\ contents r' = q.
Proof.
  intros Hwf Hop. destruct op as [bytes|size|]; simpl in *.
  - destruct (RingBufferWrite_ok bytes r Hwf Hop) as (r' & -> & H). by exists r'.
  - destruct (RingBufferRead_ok size r Hwf Hop) as (r' & -> & H). by exists r'.
  - rewrite RingBufferPeak_ok by done. by exists r.
Qed.

(** ** Properties *)

(** a write of fewer than 2^63 bytes terminates without a fault, stores exactly
    as many bytes as are free, appends them to the contents in order and keeps the
    ring well formed. *)
Theorem RingBufferWrite_correct buff r :
  ring_wf r -> zlen buff < 2 ^ 63 ->
  exists r', RingBufferWrite buff (zlen buff) r = Ok (Z.min (zlen buff) (free r), r') /\
    ring_wf r' /\ Size r' = Size r /\
    contents r' = contents r ++ take (Z.to_nat (Z.min (zlen buff) (free r))) buff.
Proof. apply RingBufferWrite_ok. Qed.

Lemma ring4_wf : ring_wf ring4.
Proof. unfold ring_wf, zlen. simpl. lia. Qed.

Lemma RingBufferWrite_witness :
  ring_wf ring4 /\
  exists r', RingBufferWrite [1; 2; 3] 3 ring4 = Ok (2, r') /\ contents r' = [13; 10; 1; 2].
Proof.
  split; [exact ring4_wf|].
  destruct (RingBufferWrite_correct [1; 2; 3] ring4 ring4_wf ltac:(vm_compute; done))
    as (r' & Hw & _ & _ & Hc).
  exists r'. split; [exact Hw | exact Hc].
Defined.

(** C23: any sequence of writes, reads and peeks on a ring behaves exactly like the
    bounded first-in first-out queue of its contents: no fault, the same counts and
    bytes, in the same order. *)
Theorem ring_refines_fifo ops r :
  ring_wf r -> Forall op_ok ops ->
  let '(os, q) := fifo_run (Size r) ops (contents r) in
  exists r', ring_run ops r = Ok (os, r') /\ ring_wf r' /\ contents r' = q.
Proof.
  intros Hwf Hops. revert r Hwf.
  induction Hops as [|op ops Hop Hops IH]; intros r Hwf; simpl; [by exists r|].
  pose proof (ring_step_refines op r Hwf Hop) as Hstep.
  destruct (fifo_step (Size r) op (contents r)) as [o q].
  destruct Hstep as (r1 & -> & Hwf1 & Hs1 & Hc1). simpl.
  specialize (IH r1 Hwf1). rewrite Hs1, Hc1 in IH.
  destruct (fifo_run (Size r) ops q) as [os q2].
  destruct IH as (r2 & -> & Hwf2 & Hc2). by exists r2.
Qed.

Lemma ring_refines_fifo_witness :
  let ops := [OpWrite [1; 2; 3]; OpRead 3; OpPeak; OpWrite [7; 8]; OpRead 9] in
  exists r', ring_run ops ring4 =
    Ok ([ObsCount 2; ObsBytes [13; 10; 1]; ObsPeak (Some 2); ObsCount 2; ObsBytes [2; 7; 8]], r')
    /\ contents r' = [].
Proof.
  assert (Forall op_ok [OpWrite [1; 2; 3]; OpRead 3; OpPeak; OpWrite [7; 8]; OpRead 9]) as H
    by (repeat constructor; done).
  pose proof (ring_refines_fifo _ ring4 ring4_wf H) as Hr.
  destruct Hr as (r' & Hr & _ & Hc). exists r'. split; [exact Hr | exact Hc].
Defined.
