(* ===== verification/RingTest.v ===== *)
(** * The test of the ring buffer (utils/ringtest.c)

    Bytes of one array go through a ring buffer into another, in parts of random sizes.  [rand] is
    the sequence of numbers that the library function of this name returns, [fresh] the
    contents of new memory. *)

From stdpp Require Import strings pretty.
From S2P Require Import Prelude RingBuffer.

#[local] Open Scope Z_scope.

Section ringtest.
Context (rand : nat -> Z) (fresh : Z -> list Z).

(** The variables of the file; [calls] counts the calls of [rand]. *)
Record TEST := mkTest { calls : nat; TEST_SIZE : Z; RING_SIZE : Z; Ring : RING_BUFFER; In : list Z; Out : list Z }.

Definition InitBuffers (calls : nat) : TEST :=
  let size := rand calls mod 128 in
  let ring := rand (S calls) mod 32 in
  mkTest (S (S calls) + Z.to_nat size) size ring (RingBufferInit (fresh ring) ring)
    ((fun i => 97 + rand (S (S calls) + i)%nat mod 26) <$> seq 0 (Z.to_nat size))
    (replicate (Z.to_nat size) 120).

(** One character of the picture. *)
Definition RingChar (ring : RING_BUFFER) (cur : Z) : string :=
  let w := WriteIndex ring in let r := ReadIndex ring in
  if (w =? cur) && (r =? cur) then "b"
  else if w =? cur then "w"
  else if r =? cur then "r"
  else if Empty ring then "-"
  else if r <? w then (if (cur >? r) && (cur <? w) then "+" else "-")
  else (if (cur >? r) || (cur <? w) then "+" else "-").

Definition PrintRing (size : Z) (ring : RING_BUFFER) : string :=
  (if Empty ring then "E" else " ") +:+ "[" +:+
  String.concat "" (RingChar ring ∘ Z.of_nat <$> seq 0 (Z.to_nat size)) +:+ "]" +:+ String (Ascii.ascii_of_nat 10) "".

(** [%2ld] of a number that is not negative. *)
Definition pad2 (v : Z) : string := if v <? 10 then " " +:+ pretty v else pretty v.

Definition rand_mod (a b : Z) : res Z := if b =? 0 then Err FDiv else Ok (a mod b).

(** The two halves of the loop body. *)
Definition WritePart (part write : Z) (t : TEST) : res (list string * Z * TEST) :=
  if write <? TEST_SIZE t then
    let size := Z.min part (TEST_SIZE t - write) in
    '(delta, ring) ← RingBufferWrite (slice (In t) write (write + size)) size (Ring t);
    let write := w64 (write + delta) in
    _ ← assertr (delta <=? part);
    Ok (["write(" +:+ pad2 part +:+ ") returned " +:+ pad2 delta +:+ " total " +:+ pad2 write; PrintRing (RING_SIZE t) ring], write,
        mkTest (calls t) (TEST_SIZE t) (RING_SIZE t) ring (In t) (Out t))
  else Ok ([], write, t).

Definition ReadPart (part read : Z) (t : TEST) : res (list string * Z * TEST) :=
  if read <? TEST_SIZE t then
    '(data, ring) ← RingBufferRead (Z.min part (TEST_SIZE t - read)) (Ring t);
    let delta := zlen data in
    let out := splice (Out t) read data in
    let read := w64 (read + delta) in
    _ ← assertr (delta <=? part);
    Ok (["read (" +:+ pad2 part +:+ ") returned " +:+ pad2 delta +:+ " total " +:+ pad2 read; PrintRing (RING_SIZE t) ring], read,
        mkTest (calls t) (TEST_SIZE t) (RING_SIZE t) ring (In t) out)
  else Ok ([], read, t).

Fixpoint TestLoop (fuel : nat) (read write : Z) (t : TEST) : res (list string * Z * Z * TEST) :=
  if (read <? TEST_SIZE t) || (write <? TEST_SIZE t) then
    match fuel with
    | O => Err FFuel
    | S fuel =>
        a ← rand_mod (rand (calls t)) (TEST_SIZE t);
        b ← rand_mod (rand (S (calls t))) (TEST_SIZE t);
        let t := mkTest (S (S (calls t))) (TEST_SIZE t) (RING_SIZE t) (Ring t) (In t) (Out t) in
        '(out1, write, t) ← WritePart (a + 1) write t;
        '(out2, read, t) ← ReadPart (b + 1) read t;
        '(out, read, write, t) ← TestLoop fuel read write t;
        Ok (out1 ++ out2 ++ out, read, write, t)
    end
  else Ok ([], read, write, t).

(** [%c] *)
Definition show_char (c : Z) : string := String (Ascii.ascii_of_nat (Z.to_nat c)) "".

(** The loop that compares, [n] bytes left; the line for the first byte that is not the same. *)
Fixpoint Verify (n : nat) (index : Z) (t : TEST) : res (option string) :=
  match n with
  | O => Ok None
  | S n =>
      a ← arr_get (In t) index; b ← arr_get (Out t) index;
      if a =? b then Verify n (index + 1) t
      else Ok (Some ("Failed index " +:+ pretty index +:+ " : in=" +:+ show_char a +:+ " out=" +:+ show_char b))
  end.

Definition Test (fuel : nat) (t : TEST) : res (list string * Z * TEST) :=
  '(out, read, write, t) ← TestLoop fuel 0 0 t;
  _ ← assertr (read =? TEST_SIZE t);
  _ ← assertr (write =? TEST_SIZE t);
  failed ← Verify (Z.to_nat (TEST_SIZE t)) 0 t;
  match failed with
  | None => Ok (out ++ ["test passed"], 0, t)
  | Some line => Ok (out ++ [line], 1, t)
  end.

Definition NUM_TESTS : nat := 4.

(** What [InitBuffers] prints. *)
Definition InitLines (t : TEST) : list string :=
  ["Test on buffer size " +:+ pretty (TEST_SIZE t) +:+ ", ring size " +:+ pretty (RING_SIZE t); PrintRing (RING_SIZE t) (Ring t); "Initing buffers"].

(** The rounds of main, [n] left: what they print and what main returns. *)
Fixpoint Rounds (fuel n calls0 : nat) : res (list string * Z) :=
  match n with
  | O => Ok (["test round passed"], 0)
  | S n =>
      let t := InitBuffers calls0 in
      let before := "---------------------------------------------------------------" :: InitLines t in
      '(out, failed, t) ← Test fuel t;
      if failed =? 0 then '(outs, code) ← Rounds fuel n (calls t); Ok (before ++ out ++ ["passed"] ++ outs, code)
      else Ok (before ++ out, 1)
  end.

Definition main (fuel : nat) : res (list string * Z) := Rounds fuel NUM_TESTS 0.

(** ** The test passes *)

Context (rand_ok : forall k, 0 <= rand k) (fresh_ok : forall n, 0 <= n -> zlen (fresh n) = n).

(** [read] bytes have come out and [write] have gone in; the ring holds those in between. *)
Record underway (read write : Z) (t : TEST) : Prop := {
  uw_range : 0 <= read <= write /\ write <= TEST_SIZE t < 2 ^ 31;
  uw_in : zlen (In t) = TEST_SIZE t;
  uw_out : zlen (Out t) = TEST_SIZE t;
  uw_done : slice (Out t) 0 read = slice (In t) 0 read;
  uw_ring : ring_wf (Ring t);
  uw_held : contents (Ring t) = slice (In t) read write
}.

Lemma InitBuffers_underway k : rand (S k) mod 32 <> 0 -> underway 0 0 (InitBuffers k).
Proof.
  intros Hring. pose proof (Z.mod_pos_bound (rand k) 128 ltac:(lia)). pose proof (Z.mod_pos_bound (rand (S k)) 32 ltac:(lia)).
  constructor; unfold InitBuffers; cbn [TEST_SIZE In Out Ring].
  - lia.
  - unfold zlen. rewrite length_fmap, length_seq. lia.
  - unfold zlen. rewrite length_replicate. lia.
  - done.
  - unfold ring_wf, RingBufferInit. simpl. rewrite fresh_ok by lia. lia.
  - done.
Qed.

Lemma WritePart_ok part read write t : 1 <= part -> underway read write t ->
  exists out write' t', WritePart part write t = Ok (out, write', t') /\ underway read write' t' /\
    TEST_SIZE t' = TEST_SIZE t /\ In t' = In t /\ (read < TEST_SIZE t -> read < write').
Proof.
  intros Hp [Hr Hin Hout Hdone Hwf Hheld]. unfold WritePart. destruct (Z.ltb_spec write (TEST_SIZE t)) as [Hlt|Hge].
  2: { exists [], write, t. split; [done|]. split; [by constructor|]. split; [done|]. split; [done|lia]. }
  set (size := Z.min part (TEST_SIZE t - write)).
  assert (zlen (slice (In t) write (write + size)) = size) as Hz.
  { unfold zlen. rewrite slice_length by lia. lia. }
  destruct (RingBufferWrite_ok (slice (In t) write (write + size)) (Ring t) Hwf) as (ring & Hrun & Hwf' & _ & Hc); [lia|].
  rewrite Hz in Hrun, Hc. rewrite Hrun. cbn [mbind res_bind]. pose proof (free_nonneg (Ring t) Hwf) as Hfree.
  set (k := Z.min size (free (Ring t))) in *. rewrite (proj2 (Z.leb_le k part)) by lia. cbn [assertr mbind res_bind].
  assert (contents ring = slice (In t) read (write + k)) as Hc'.
  { rewrite Hc, Hheld. rewrite <- (slice_app (In t) read write (write + k)) by lia. f_equal. by rewrite slice_take by lia. }
  eexists _, _, _. split; [reflexivity|]. rewrite w64_small by (unfold u64; lia).
  split; [constructor; cbn [TEST_SIZE In Out Ring]; try done; lia|]. split; [done|]. split; [done|]. intros _.
  destruct (decide (read = write)) as [->|]; [|lia].
  assert (contents (Ring t) = []) as He by (rewrite Hheld; by apply slice_nil). 
  assert (free (Ring t) = Size (Ring t)) as Ef by (unfold free; rewrite He; unfold zlen; simpl; lia).
  destruct Hwf as (_ & Hs & _). lia.
Qed.

Lemma ReadPart_ok part read write t : 1 <= part -> underway read write t ->
  exists out read' t', ReadPart part read t = Ok (out, read', t') /\ underway read' write t' /\
    TEST_SIZE t' = TEST_SIZE t /\ In t' = In t /\ (read < write -> read < read').
Proof.
  intros Hp [Hr Hin Hout Hdone Hwf Hheld]. unfold ReadPart. destruct (Z.ltb_spec read (TEST_SIZE t)) as [Hlt|Hge].
  2: { exists [], read, t. split; [done|]. split; [by constructor|]. split; [done|]. split; [done|lia]. }
  set (size := Z.min part (TEST_SIZE t - read)).
  destruct (RingBufferRead_ok size (Ring t) Hwf) as (ring & Hrun & Hwf' & _ & Hc); [lia|]. rewrite Hrun. cbn [mbind res_bind].
  set (k := Z.min size (write - read)).
  assert (take (Z.to_nat size) (contents (Ring t)) = slice (In t) read (read + k)) as Ht.
  { rewrite Hheld. unfold slice. rewrite take_take. f_equal. lia. }
  rewrite Ht in *. assert (zlen (slice (In t) read (read + k)) = k) as Hk by (unfold zlen; rewrite slice_length by lia; lia).
  rewrite Hk. rewrite (proj2 (Z.leb_le k part)) by lia. cbn [assertr mbind res_bind].
  eexists _, _, _. split; [reflexivity|]. rewrite w64_small by (unfold u64; lia).
  split; [|split; [done|split; [done|lia]]]. constructor; cbn [TEST_SIZE In Out Ring]; try done; [lia|by rewrite zlen_splice by lia| |].
  - rewrite <- (slice_app (splice _ _ _) 0 read (read + k)) by (rewrite ?zlen_splice; lia).
    rewrite <- (slice_app (In t) 0 read (read + k)) by lia. f_equal; [by rewrite slice_splice_before by lia|].
    rewrite <- Hk at 2. apply slice_splice_at. lia.
  - rewrite Hc, Hheld. destruct (decide (size <= write - read)).
    + rewrite slice_drop by lia. f_equal. lia.
    + rewrite drop_ge by (unfold zlen; rewrite slice_length by lia; lia). symmetry. apply slice_nil. lia.
Qed.

(** The loop ends: every round reads at least one byte. *)
Lemma TestLoop_ok fuel read write t : (Z.to_nat (TEST_SIZE t - read) <= fuel)%nat -> underway read write t ->
  exists out t', TestLoop fuel read write t = Ok (out, TEST_SIZE t, TEST_SIZE t, t') /\
    underway (TEST_SIZE t) (TEST_SIZE t) t' /\ TEST_SIZE t' = TEST_SIZE t /\ In t' = In t.
Proof.
  revert read write t. induction fuel as [|fuel IH]; intros read write t Hf Hu; pose proof (uw_range _ _ _ Hu) as Hr; cbn [TestLoop].
  - rewrite (proj2 (Z.ltb_ge _ _)), (proj2 (Z.ltb_ge _ _)) by lia. simpl. assert (read = TEST_SIZE t) as -> by lia.
    assert (write = TEST_SIZE t) as -> by lia. by eexists _, _.
  - destruct (Z.ltb_spec read (TEST_SIZE t)) as [Hlt|Hge]; simpl.
    2: { rewrite (proj2 (Z.ltb_ge _ _)) by lia. assert (read = TEST_SIZE t) as -> by lia.
         assert (write = TEST_SIZE t) as -> by lia. by eexists _, _. }
    unfold rand_mod. rewrite (proj2 (Z.eqb_neq _ _)) by lia. cbn [mbind res_bind].
    pose proof (Z.mod_pos_bound (rand (calls t)) (TEST_SIZE t) ltac:(lia)).
    pose proof (Z.mod_pos_bound (rand (S (calls t))) (TEST_SIZE t) ltac:(lia)).
    set (t0 := mkTest _ _ _ _ _ _). assert (underway read write t0) as Hu0 by (by destruct Hu).
    destruct (WritePart_ok (rand (calls t) mod TEST_SIZE t + 1) read write t0) as (o1 & w1 & t1 & -> & Hu1 & Es1 & Ei1 & Hw); [lia|done|].
    cbn [mbind res_bind].
    destruct (ReadPart_ok (rand (S (calls t)) mod TEST_SIZE t + 1) read w1 t1) as (o2 & r2 & t2 & -> & Hu2 & Es2 & Ei2 & Hrd); [lia|done|].
    cbn [mbind res_bind]. change (TEST_SIZE t0) with (TEST_SIZE t) in *. change (In t0) with (In t) in *.
    destruct (IH r2 w1 t2) as (o3 & t3 & -> & Hu3 & Es3 & Ei3); [rewrite Es2, Es1; specialize (Hw Hlt); specialize (Hrd Hw); lia|done|].
    cbn [mbind res_bind]. rewrite Es2, Es1 in *. eexists _, _. split; [reflexivity|]. split; [done|]. split; congruence.
Qed.

Lemma Verify_ok n i t : 0 <= i -> i + Z.of_nat n <= zlen (In t) -> Out t = In t -> Verify n i t = Ok None.
Proof.
  revert i. induction n as [|n IH]; intros i Hi Hn He; [done|]. cbn [Verify]. rewrite He.
  destruct (arr_get_inb (In t) i) as (a & -> & _); [lia|]. cbn [mbind res_bind]. rewrite Z.eqb_refl. apply IH; done || lia.
Qed.

(** ** Properties *)

(** The test passes, whatever the random numbers, when the size of the ring is not zero: the bytes
    come out as they went in, no assertion fails, and as many rounds as there are bytes suffice. *)
Lemma Test_passes fuel k : rand (S k) mod 32 <> 0 -> (128 <= fuel)%nat ->
  exists out t, Test fuel (InitBuffers k) = Ok (out, 0, t) /\ Out t = In (InitBuffers k).
Proof.
  intros Hring Hf. pose proof (InitBuffers_underway k Hring) as Hu. pose proof (Z.mod_pos_bound (rand k) 128 ltac:(lia)) as Hm.
  destruct (TestLoop_ok fuel 0 0 (InitBuffers k)) as (out & t & Hrun & [Hr Hin Hout Hdone _ _] & Hs & Hi); [simpl; lia|done|].
  unfold Test. rewrite Hrun. cbn [mbind res_bind]. rewrite Hs, Z.eqb_refl. cbn [assertr mbind res_bind].
  rewrite Hs in *. rewrite <- Hin in Hdone at 2. rewrite <- Hout in Hdone at 1. rewrite !slice_full in Hdone.
  rewrite Verify_ok by (done || lia). cbn [mbind res_bind]. eexists _, t. split; [reflexivity|]. congruence.
Qed.

(** So does the program, when no ring has the size zero. *)
Theorem ring_main_passes fuel : (forall k, rand (S k) mod 32 <> 0) -> (128 <= fuel)%nat -> exists out, main fuel = Ok (out, 0).
Proof.
  intros Hring Hf. unfold main. generalize 0%nat as k, NUM_TESTS as n. intros k n. revert k. induction n as [|n IH]; intros k; [by eexists|].
  cbn [Rounds]. cbv zeta. destruct (Test_passes fuel k (Hring k) Hf) as (out & t & -> & _). cbn [mbind res_bind].
  destruct (IH (calls t)) as (outs & ->). by eexists.
Qed.

(** A ring of size zero takes nothing but is no longer empty, then gives nothing and is. *)
Lemma stalled_write buff k : 0 < k < 2 ^ 63 -> RingBufferWrite buff k (RingBufferInit [] 0) = Ok (0, mkRing [] 0 0 0 false).
Proof.
  intros Hk. unfold RingBufferWrite. cbn [WriteLoop]. rewrite (proj2 (Z.ltb_lt 0 k)) by lia. simpl andb. cbv iota.
  unfold RingBufferWriteSmall. cbn [RingBufferInit WriteIndex ReadIndex Size Buffer]. pose proof (w64_u64 (0 + (k - 0))) as Hw. unfold u64 in Hw.
  rewrite Z.ltb_irrefl, Z.geb_leb, (proj2 (Z.leb_le _ _)) by lia. simpl. by rewrite andb_false_r.
Qed.

Lemma stalled_read k : 0 < k < 2 ^ 63 -> RingBufferRead k (mkRing [] 0 0 0 false) = Ok ([], RingBufferInit [] 0).
Proof.
  intros Hk. unfold RingBufferRead. cbn [ReadLoop]. change (zlen []) with 0. rewrite (proj2 (Z.ltb_lt 0 k)) by lia. simpl andb. cbv iota.
  unfold RingBufferReadSmall. cbn [WriteIndex ReadIndex Size Buffer]. pose proof (w64_u64 (0 + (k - 0))) as Hw. unfold u64 in Hw.
  rewrite Z.ltb_irrefl, Z.geb_leb, (proj2 (Z.leb_le _ _)) by lia. simpl. by rewrite andb_false_r.
Qed.

Lemma stalled_loop fuel t : 0 < TEST_SIZE t < 2 ^ 31 -> Ring t = RingBufferInit [] 0 -> TestLoop fuel 0 0 t = Err FFuel.
Proof.
  revert t. induction fuel as [|fuel IH]; intros t Ht Hr; cbn [TestLoop]; rewrite (proj2 (Z.ltb_lt 0 (TEST_SIZE t))) by lia; simpl orb; cbv iota; [done|].
  unfold rand_mod. rewrite (proj2 (Z.eqb_neq _ _)) by lia. cbn [mbind res_bind].
  pose proof (Z.mod_pos_bound (rand (calls t)) (TEST_SIZE t) ltac:(lia)) as H1.
  pose proof (Z.mod_pos_bound (rand (S (calls t))) (TEST_SIZE t) ltac:(lia)) as H2.
  unfold WritePart. cbn [TEST_SIZE Ring In RING_SIZE Out calls]. rewrite (proj2 (Z.ltb_lt 0 (TEST_SIZE t))) by lia.
  rewrite Hr, stalled_write by lia. cbn [mbind res_bind]. rewrite (proj2 (Z.leb_le 0 _)) by lia. cbn [assertr mbind res_bind].
  unfold ReadPart. cbn [TEST_SIZE Ring In RING_SIZE Out calls]. rewrite (proj2 (Z.ltb_lt 0 (TEST_SIZE t))) by lia.
  rewrite stalled_read by lia. cbn [mbind res_bind]. change (zlen []) with 0. rewrite (proj2 (Z.leb_le 0 _)) by lia. cbn [assertr mbind res_bind].
  change (w64 (0 + 0)) with 0. rewrite IH by done. done.
Qed.

(** With a ring of size zero, which one number in 32 gives, nothing ever gets through and the test
    does not end. *)
Theorem ring_test_stalls fuel k : rand (S k) mod 32 = 0 -> rand k mod 128 <> 0 -> Test fuel (InitBuffers k) = Err FFuel.
Proof.
  intros Hring Hsize. pose proof (Z.mod_pos_bound (rand k) 128 ltac:(lia)) as Hm. unfold Test.
  rewrite stalled_loop; [done|simpl; lia|]. unfold InitBuffers. cbn [Ring]. rewrite Hring.
  assert (fresh 0 = []) as -> by (apply nil_length_inv; pose proof (fresh_ok 0 ltac:(lia)); unfold zlen in *; lia). done.
Qed.
End ringtest.
