(* ===== verification/Bitmap.v ===== *)
(** * Bitmaps (utils/bitmap.h, utils/bitmap.c)

    A bitmap is an array of 32-bit words ([BITMAP_WORD] is [int]).  A word is kept as
    its bit pattern, an integer in [0, 2^32): the code only tests, sets, clears and
    toggles single bits and compares words with zero, which does not depend on the
    sign.  An access outside the array is the fault [FBounds]. *)

From S2P Require Import Prelude.

Definition BitmapWordSize : Z := 32.

Definition BitmapIndex (i : Z) : Z := i / BitmapWordSize.
Definition BitmapOffset (i : Z) : Z := i mod BitmapWordSize.
Definition BitmapGenerateMask (offset : Z) : Z := Z.shiftl 1 offset.

Definition BitmapSize (n : Z) : Z :=
  n / BitmapWordSize + (if n mod BitmapWordSize =? 0 then 0 else 1).

Definition BitmapGet (map : list Z) (i : Z) : res bool :=
  w ← arr_get map (BitmapIndex i);
  Ok (negb (Z.land w (BitmapGenerateMask (BitmapOffset i)) =? 0)).

Definition BitmapOn (map : list Z) (i : Z) : res (list Z) :=
  w ← arr_get map (BitmapIndex i);
  arr_set map (BitmapIndex i) (Z.lor w (BitmapGenerateMask (BitmapOffset i))).

Definition BitmapOff (map : list Z) (i : Z) : res (list Z) :=
  w ← arr_get map (BitmapIndex i);
  arr_set map (BitmapIndex i) (Z.land w (Z.lnot (BitmapGenerateMask (BitmapOffset i)))).

Definition BitmapToggle (map : list Z) (i : Z) : res (list Z) :=
  w ← arr_get map (BitmapIndex i);
  arr_set map (BitmapIndex i) (Z.lxor w (BitmapGenerateMask (BitmapOffset i))).

(** [for( cur=0; cur<end; cur++ ) map[cur] = 0;], [n] iterations left. *)
Fixpoint ClearLoop (n : nat) (map : list Z) (cur : Z) : res (list Z) :=
  match n with
  | O => Ok map
  | S n => map' ← arr_set map cur 0; ClearLoop n map' (cur + 1)
  end.

Definition BitmapClear (map : list Z) (numBits : Z) : res (list Z) :=
  ClearLoop (Z.to_nat (BitmapSize numBits)) map 0.

(** The inner loop over the offsets of one word; [-2] when no bit is found. *)
Fixpoint FirstOffset (n : nat) (map : list Z) (index offset : Z) : res Z :=
  match n with
  | O => Ok (w64 (-2))
  | S n =>
      b ← BitmapGet map (index * BitmapWordSize + offset);
      if (b : bool) then Ok (index * BitmapWordSize + offset)
      else FirstOffset n map index (offset + 1)
  end.

(** The outer loop over the words; [-1] when every word is zero. *)
Fixpoint FirstWord (n : nat) (map : list Z) (index : Z) : res Z :=
  match n with
  | O => Ok (w64 (-1))
  | S n =>
      w ← arr_get map index;
      if negb (w =? 0) then FirstOffset (Z.to_nat BitmapWordSize) map index 0
      else FirstWord n map (index + 1)
  end.

Definition BitmapGetFirstFlag (map : list Z) (numBits : Z) : res Z :=
  FirstWord (Z.to_nat (BitmapSize numBits)) map 0.

(** ** Abstract view: a set of bit indices *)

Definition bit (map : list Z) (i : Z) : bool :=
  match map !! Z.to_nat (BitmapIndex i) with
  | Some w => Z.testbit w (BitmapOffset i)
  | None => false
  end.

Definition bits_in (map : list Z) (i : Z) : Prop := 0 <= i < BitmapWordSize * zlen map.

(** Words are 32-bit patterns. *)
Definition words_ok (map : list Z) : Prop := Forall (fun w => 0 <= w < 2 ^ 32) map.

(** The index found is the least set bit of the scanned words. *)
Definition first_flag (map : list Z) (lo hi r : Z) : Prop :=
  (r = w64 (-1) /\ forall j, lo <= j < hi -> bit map j = false) \/
  (lo <= r < hi /\ bit map r = true /\ forall j, lo <= j < r -> bit map j = false).

(** A map of two words with the bits 3 and 40. *)
Definition map2 : list Z := [8; 256].

(** ** Lemmas *)

Lemma BitmapOffset_range i : 0 <= BitmapOffset i < 32.
Proof. apply Z.mod_pos_bound. done. Qed.

Lemma BitmapIndex_in map i : bits_in map i -> 0 <= BitmapIndex i < zlen map.
Proof.
  unfold bits_in, BitmapIndex, BitmapWordSize. intros H.
  split; [apply Z.div_pos; lia | apply Z.div_lt_upper_bound; lia].
Qed.

Lemma bits_in_of_index map i : 0 <= i -> BitmapIndex i < zlen map -> bits_in map i.
Proof.
  unfold bits_in, BitmapIndex, BitmapWordSize. intros H Hi. split; [done|].
  pose proof (Z.mul_succ_div_gt i 32). lia.
Qed.

Lemma index_offset_inj i j :
  BitmapIndex i = BitmapIndex j -> BitmapOffset i = BitmapOffset j -> i = j.
Proof.
  unfold BitmapIndex, BitmapOffset, BitmapWordSize. intros H1 H2.
  rewrite (Z.div_mod i 32), (Z.div_mod j 32) by lia. congruence.
Qed.

Lemma index_offset_mk k o : 0 <= o < 32 ->
  BitmapIndex (k * 32 + o) = k /\ BitmapOffset (k * 32 + o) = o.
Proof.
  intros Ho. unfold BitmapIndex, BitmapOffset, BitmapWordSize. split.
  - rewrite Z.div_add_l, Z.div_small by lia. lia.
  - rewrite Z.add_comm, Z_mod_plus_full. apply Z.mod_small. done.
Qed.

Lemma mask_testbit o j : 0 <= o -> Z.testbit (BitmapGenerateMask o) j = (o =? j).
Proof.
  intros Ho. unfold BitmapGenerateMask. rewrite Z.shiftl_1_l. apply Z.pow2_bits_eqb. done.
Qed.

Lemma land_mask_zero w o : 0 <= o ->
  negb (Z.land w (BitmapGenerateMask o) =? 0) = Z.testbit w o.
Proof.
  intros Ho. destruct (Z.testbit w o) eqn:Hb.
  - apply negb_true_iff, Z.eqb_neq. intros H.
    assert (Z.testbit (Z.land w (BitmapGenerateMask o)) o = true) as Ht
      by (rewrite Z.land_spec, Hb, mask_testbit, Z.eqb_refl by done; done).
    by rewrite H, Z.testbit_0_l in Ht.
  - apply negb_false_iff, Z.eqb_eq, Z.bits_inj'. intros j Hj.
    rewrite Z.land_spec, mask_testbit, Z.testbit_0_l by done.
    destruct (Z.eqb_spec o j) as [->|]; [by rewrite Hb | apply andb_false_r].
Qed.

Lemma bits_small w : 0 <= w < 2 ^ 32 <-> 0 <= w /\ forall j, 32 <= j -> Z.testbit w j = false.
Proof.
  split.
  - intros [H0 H]. split; [done|]. intros j Hj.
    destruct (decide (w = 0)) as [->|Hne]; [apply Z.testbit_0_l|].
    apply Z.bits_above_log2; [done|]. assert (Z.log2 w < 32); [|lia].
    apply Z.log2_lt_pow2; lia.
  - intros [H0 H]. split; [done|].
    destruct (decide (w = 0)) as [->|Hne]; [done|].
    apply Z.log2_lt_pow2; [lia|]. destruct (Z.lt_ge_cases (Z.log2 w) 32) as [|Hge]; [done|].
    pose proof (Z.bit_log2 w ltac:(lia)) as Hb. by rewrite H in Hb.
Qed.

Lemma BitmapGet_ok map i : bits_in map i -> BitmapGet map i = Ok (bit map i).
Proof.
  intros Hi. unfold BitmapGet, bit.
  destruct (arr_get_inb map (BitmapIndex i)) as (w & -> & ->); [by apply BitmapIndex_in|].
  simpl. rewrite land_mask_zero; [done|]. apply BitmapOffset_range.
Qed.

(** The three updates share one shape: a word [f w] replaces the word of [i], and
    [f] changes no bit but the one at the offset of [i]. *)
Lemma update_ok map i (f : Z -> Z) (g : bool -> bool) :
  bits_in map i -> words_ok map ->
  (forall w, 0 <= w -> 0 <= f w) ->
  (forall w j, 0 <= j -> Z.testbit (f w) j =
     if BitmapOffset i =? j then g (Z.testbit w j) else Z.testbit w j) ->
  exists map',
    (w ← arr_get map (BitmapIndex i); arr_set map (BitmapIndex i) (f w)) = Ok map' /\
    zlen map' = zlen map /\ words_ok map' /\
    forall j, 0 <= j -> bit map' j = if i =? j then g (bit map i) else bit map j.
Proof.
  intros Hi Hw Hf Hbits. pose proof (BitmapIndex_in map i Hi) as Hin.
  destruct (arr_get_inb map (BitmapIndex i) Hin) as (w & -> & Hwl). simpl.
  rewrite arr_set_ok by done. eexists. split; [done|].
  pose proof (BitmapOffset_range i) as Ho. unfold zlen in *. split_and!.
  - by rewrite length_insert.
  - apply Forall_insert; [done|].
    pose proof (Forall_lookup_1 _ _ _ _ Hw Hwl) as Hww. simpl in Hww.
    apply bits_small. split; [apply Hf; lia|]. intros j Hj. rewrite Hbits by lia.
    destruct (Z.eqb_spec (BitmapOffset i) j); [lia|]. by apply bits_small.
  - intros j Hj. unfold bit. rewrite list_lookup_insert.
    assert (0 <= BitmapIndex j) by (apply Z.div_pos; done).
    destruct (Z.eqb_spec i j) as [<-|Hne]; [|case_decide as Hd].
    + rewrite decide_True by lia. by rewrite Hwl, Hbits, Z.eqb_refl by lia.
    + destruct Hd as [Hd _]. assert (BitmapIndex j = BitmapIndex i) as Hji by lia.
      rewrite Hbits by (apply BitmapOffset_range). rewrite Hji, Hwl.
      destruct (Z.eqb_spec (BitmapOffset i) (BitmapOffset j)) as [He|]; [|done].
      by destruct Hne; apply index_offset_inj.
    + done.
Qed.

Lemma BitmapOn_ok map i :
  bits_in map i -> words_ok map ->
  exists map', BitmapOn map i = Ok map' /\ zlen map' = zlen map /\ words_ok map' /\
    forall j, 0 <= j -> bit map' j = if i =? j then true else bit map j.
Proof.
  intros Hi Hw. pose proof (BitmapOffset_range i).
  apply (update_ok map i (fun w => Z.lor w (BitmapGenerateMask (BitmapOffset i))) (fun _ => true));
    try done.
  - intros w Hw0. apply Z.lor_nonneg. split; [done|].
    unfold BitmapGenerateMask. apply Z.shiftl_nonneg. done.
  - intros w j Hj. rewrite Z.lor_spec, mask_testbit by lia.
    zcases; [apply orb_true_r | apply orb_false_r].
Qed.

Lemma BitmapOff_ok map i :
  bits_in map i -> words_ok map ->
  exists map', BitmapOff map i = Ok map' /\ zlen map' = zlen map /\ words_ok map' /\
    forall j, 0 <= j -> bit map' j = if i =? j then false else bit map j.
Proof.
  intros Hi Hw. pose proof (BitmapOffset_range i).
  apply (update_ok map i (fun w => Z.land w (Z.lnot (BitmapGenerateMask (BitmapOffset i)))) (fun _ => false));
    try done.
  - intros w Hw0. apply Z.land_nonneg. by left.
  - intros w j Hj. rewrite Z.land_spec, Z.lnot_spec, mask_testbit by lia.
    zcases; [apply andb_false_r | apply andb_true_r].
Qed.

Lemma BitmapToggle_ok map i :
  bits_in map i -> words_ok map ->
  exists map', BitmapToggle map i = Ok map' /\ zlen map' = zlen map /\ words_ok map' /\
    forall j, 0 <= j -> bit map' j = if i =? j then negb (bit map i) else bit map j.
Proof.
  intros Hi Hw. pose proof (BitmapOffset_range i).
  apply (update_ok map i (fun w => Z.lxor w (BitmapGenerateMask (BitmapOffset i))) negb); try done.
  - intros w Hw0. apply Z.lxor_nonneg. split; [|done]. intros _.
    unfold BitmapGenerateMask. apply Z.shiftl_nonneg. done.
  - intros w j Hj. rewrite Z.lxor_spec, mask_testbit by lia.
    zcases; [apply xorb_true_r | apply xorb_false_r].
Qed.

Lemma BitmapSize_spec n : 0 <= n ->
  0 <= BitmapSize n /\ n <= 32 * BitmapSize n < n + 32.
Proof.
  intros Hn. unfold BitmapSize, BitmapWordSize.
  pose proof (Z.div_mod n 32 ltac:(lia)). pose proof (Z.mod_pos_bound n 32 ltac:(lia)).
  pose proof (Z.div_pos n 32 Hn ltac:(lia)). zcases; lia.
Qed.

Lemma words_ok_insert map k w : words_ok map -> 0 <= w < 2 ^ 32 -> words_ok (<[k := w]> map).
Proof. intros. by apply Forall_insert. Qed.

Lemma ClearLoop_ok n map cur :
  0 <= cur -> cur + Z.of_nat n <= zlen map -> words_ok map ->
  exists map', ClearLoop n map cur = Ok map' /\ zlen map' = zlen map /\ words_ok map' /\
    forall j, 0 <= j -> bit map' j =
      if (cur <=? BitmapIndex j) && (BitmapIndex j <? cur + Z.of_nat n) then false else bit map j.
Proof.
  revert map cur. induction n as [|n IH]; intros map cur Hc Hl Hw; simpl.
  - exists map. split_and!; try done. intros j Hj. zcases; simpl; arith.
  - rewrite arr_set_ok by lia. simpl.
    destruct (IH (<[Z.to_nat cur:=0]> map) (cur + 1)) as (map' & -> & Hz & Hw' & Hb);
      [lia|unfold zlen in *; rewrite length_insert; lia|by apply words_ok_insert|].
    exists map'. split_and!; [done|unfold zlen in *; by rewrite Hz, length_insert|done|].
    intros j Hj. rewrite Hb by done. unfold bit. rewrite list_lookup_insert.
    assert (0 <= BitmapIndex j) by (apply Z.div_pos; done).
    unfold zlen in *. case_decide; [rewrite Z.testbit_0_l|]; zcases; simpl; arith.
Qed.

Lemma BitmapClear_ok map n :
  0 <= n -> BitmapSize n <= zlen map -> words_ok map ->
  exists map', BitmapClear map n = Ok map' /\ zlen map' = zlen map /\ words_ok map' /\
    forall j, 0 <= j -> bit map' j = if j <? 32 * BitmapSize n then false else bit map j.
Proof.
  intros Hn Hl Hw. pose proof (BitmapSize_spec n Hn) as [Hs _].
  destruct (ClearLoop_ok (Z.to_nat (BitmapSize n)) map 0) as (map' & Heq & Hz & Hw' & Hb);
    [lia|lia|done|].
  exists map'. split_and!; try done. intros j Hj. rewrite Hb by done.
  assert (0 <= BitmapIndex j) by (apply Z.div_pos; done).
  assert (BitmapIndex j < BitmapSize n <-> j < 32 * BitmapSize n).
  { unfold BitmapIndex, BitmapWordSize. split; intros H0.
    - pose proof (Z.mul_succ_div_gt j 32). lia.
    - apply Z.div_lt_upper_bound; lia. }
  zcases; simpl; arith.
Qed.

Lemma FirstOffset_ok n map index offset :
  0 <= index < zlen map -> 0 <= offset -> offset + Z.of_nat n = 32 ->
  (exists o, offset <= o < 32 /\ bit map (index * 32 + o) = true) ->
  exists o, FirstOffset n map index offset = Ok (index * 32 + o) /\ offset <= o < 32 /\
    bit map (index * 32 + o) = true /\
    forall o', offset <= o' < o -> bit map (index * 32 + o') = false.
Proof.
  revert offset. induction n as [|n IH]; intros offset Hi Ho Hn (o & Hor & Hb); [lia|].
  simpl. unfold BitmapWordSize. rewrite BitmapGet_ok by (unfold bits_in, BitmapWordSize; lia).
  simpl. destruct (bit map (index * 32 + offset)) eqn:Hoff.
  - exists offset. split_and!; try done; lia.
  - destruct (IH (offset + 1)) as (o1 & Heq & Hr & Hb1 & Hleast); [done|lia|lia| |].
    { exists o. split; [|done]. destruct (decide (o = offset)) as [->|]; [congruence|lia]. }
    exists o1. split_and!; try done; try lia. intros o' Ho'.
    destruct (decide (o' = offset)) as [->|]; [done|]. apply Hleast. lia.
Qed.

Lemma nonzero_word_bit w : 0 <= w < 2 ^ 32 -> w <> 0 -> exists o, 0 <= o < 32 /\ Z.testbit w o = true.
Proof.
  intros Hw Hne. exists (Z.log2 w). split; [|apply Z.bit_log2; lia].
  split; [apply Z.log2_nonneg|]. apply Z.log2_lt_pow2; lia.
Qed.

Lemma bit_word_zero map k j :
  map !! Z.to_nat k = Some 0 -> k * 32 <= j < (k + 1) * 32 -> bit map j = false.
Proof.
  intros Hk Hj. unfold bit.
  destruct (index_offset_mk k (j - k * 32)) as [Hi _]; [lia|].
  replace (k * 32 + (j - k * 32)) with j in Hi by lia. rewrite Hi, Hk. apply Z.testbit_0_l.
Qed.

Lemma FirstWord_ok n map index :
  words_ok map -> 0 <= index -> index + Z.of_nat n <= zlen map ->
  exists r, FirstWord n map index = Ok r /\
    first_flag map (index * 32) ((index + Z.of_nat n) * 32) r.
Proof.
  intros Hw. revert index. induction n as [|n IH]; intros index Hi Hl; simpl.
  - eexists. split; [done|]. left. split; [done|]. lia.
  - destruct (arr_get_inb map index) as (w & -> & Hwl); [lia|]. simpl.
    pose proof (Forall_lookup_1 _ _ _ _ Hw Hwl) as Hww. simpl in Hww.
    destruct (Z.eqb_spec w 0) as [->|Hne]; simpl.
    + destruct (IH (index + 1)) as (r & -> & Hr); [lia|lia|]. exists r. split; [done|].
      pose proof (bit_word_zero map index) as Hz. destruct Hr as [[-> Hr]|(Hr & Hb & Hleast)].
      * left. split; [done|]. intros j Hj.
        destruct (decide (j < (index + 1) * 32)); [apply Hz; [done|lia]|apply Hr; lia].
      * right. split_and!; [lia|lia|done|]. intros j Hj.
        destruct (decide (j < (index + 1) * 32)); [apply Hz; [done|lia]|apply Hleast; lia].
    + assert (forall o, 0 <= o < 32 -> bit map (index * 32 + o) = Z.testbit w o) as Hbit.
      { intros o Ho. unfold bit. destruct (index_offset_mk index o Ho) as [-> ->]. by rewrite Hwl. }
      destruct (nonzero_word_bit w Hww Hne) as (o & Ho & Hob).
      destruct (FirstOffset_ok 32 map index 0) as (o1 & Heq & Ho1 & Hb1 & Hleast);
        [lia|lia|done|exists o; by rewrite Hbit|].
      exists (index * 32 + o1). split; [done|]. right. split_and!; [lia|lia|done|].
      intros j Hj. replace j with (index * 32 + (j - index * 32)) by lia. apply Hleast. lia.
Qed.

Lemma BitmapGetFirstFlag_ok map n :
  words_ok map -> 0 <= n -> BitmapSize n <= zlen map ->
  exists r, BitmapGetFirstFlag map n = Ok r /\ first_flag map 0 (BitmapSize n * 32) r.
Proof.
  intros Hw Hn Hl. pose proof (BitmapSize_spec n Hn) as [Hs _].
  destruct (FirstWord_ok (Z.to_nat (BitmapSize n)) map 0) as (r & Heq & Hr); [done|lia|lia|].
  exists r. split; [done|]. rewrite Z2Nat.id in Hr by done. done.
Qed.

(** ** Properties *)

(** [BitmapOn], [BitmapOff] and [BitmapToggle] on an index of the map succeed and
    change the bit that [BitmapGet] reads at that index, and no other bit. *)
Theorem Bitmap_update_correct map i j :
  bits_in map i -> bits_in map j -> words_ok map ->
  (m ← BitmapOn map i; BitmapGet m j) = Ok (if i =? j then true else bit map j) /\
  (m ← BitmapOff map i; BitmapGet m j) = Ok (if i =? j then false else bit map j) /\
  (m ← BitmapToggle map i; BitmapGet m j) = Ok (if i =? j then negb (bit map i) else bit map j) /\
  BitmapGet map j = Ok (bit map j).
Proof.
  intros Hi Hj Hw.
  destruct (BitmapOn_ok map i Hi Hw) as (m1 & -> & Hz1 & _ & H1).
  destruct (BitmapOff_ok map i Hi Hw) as (m2 & -> & Hz2 & _ & H2).
  destruct (BitmapToggle_ok map i Hi Hw) as (m3 & -> & Hz3 & _ & H3).
  simpl. unfold bits_in in *.
  rewrite !BitmapGet_ok by (unfold bits_in; lia). rewrite H1, H2, H3 by lia. done.
Qed.

Lemma Bitmap_update_witness :
  bits_in map2 40 /\ (m ← BitmapOff map2 40; BitmapGet m 40) = Ok false.
Proof.
  assert (bits_in map2 40) as H by (vm_compute; split; congruence).
  split; [exact H|].
  refine (proj1 (proj2 (Bitmap_update_correct map2 40 40 H H _))).
  repeat constructor; lia.
Defined.

(** [BitmapGetFirstFlag] terminates without a fault and returns the least index of
    a set bit in the words that hold [numBits] bits, or [-1] when they are all clear;
    the [-2] of the inner loop is never returned. *)
Theorem BitmapGetFirstFlag_correct map numBits :
  words_ok map -> 0 <= numBits -> BitmapSize numBits <= zlen map ->
  exists r, BitmapGetFirstFlag map numBits = Ok r /\
    first_flag map 0 (BitmapSize numBits * 32) r.
Proof. apply BitmapGetFirstFlag_ok. Qed.

Lemma BitmapGetFirstFlag_witness :
  exists r, BitmapGetFirstFlag map2 64 = Ok r /\ first_flag map2 0 64 r.
Proof.
  apply (BitmapGetFirstFlag_correct map2 64).
  - repeat constructor; lia.
  - discriminate.
  - vm_compute. discriminate.
Defined.
