(* ===== verification/Printing.v ===== *)
(** * Text

    The texts that the printing functions produce, in the order of their calls of printf, and
    BitmapPrint (utils/bitmap.c). *)

From stdpp Require Import strings pretty.
From S2P Require Import Prelude Bitmap.

#[local] Open Scope Z_scope.

Abbreviation text := (list string).

(** [for( i; n times; i += step ) body( i )], the texts one behind the other. *)
Fixpoint each (n : nat) (i step : Z) (body : Z -> res text) : res text :=
  match n with
  | O => Ok []
  | S n => l ← body i; r ← each n (w64 (i + step)) step body; Ok (l ++ r)
  end.

Definition newline : string := String (Ascii.ascii_of_nat 10) "".

Definition hex_digit (d : Z) : string := default "" (["0"; "1"; "2"; "3"; "4"; "5"; "6"; "7"; "8"; "9"; "a"; "b"; "c"; "d"; "e"; "f"] !! Z.to_nat d).

(** [%3x] of a byte. *)
Definition hex3 (v : Z) : string :=
  if v <? 16 then "  " +:+ hex_digit v else " " +:+ hex_digit (v / 16) +:+ hex_digit (v mod 16).

(** [%lx] of a 64-bit number: [n] more digits at most. *)
Fixpoint hex_digits (n : nat) (v : Z) : string :=
  match n with
  | O => ""
  | S n => (if v <? 16 then "" else hex_digits n (v / 16)) +:+ hex_digit (v mod 16)
  end.
Definition hex (v : Z) : string := hex_digits 16 v.

Definition BitmapPrint (map : list Z) (numBits : Z) : res text :=
  l ← each (Z.to_nat numBits) 0 1 (fun count => b ← BitmapGet map count; Ok [if (b : bool) then "+" else "-"]);
  Ok (["|"] ++ l ++ ["|"; newline]).

(** ** Texts that cannot fail *)

Fixpoint texts (n : nat) (i step : Z) (f : Z -> text) : text :=
  match n with
  | O => []
  | S n => f i ++ texts n (w64 (i + step)) step f
  end.

Lemma each_texts n i step body f : 0 <= i -> (forall j, 0 <= j -> body j = Ok (f j)) -> each n i step body = Ok (texts n i step f).
Proof.
  intros Hi Hb. revert i Hi. induction n as [|n IH]; intros i Hi; [done|]. cbn [each texts].
  rewrite Hb by done. cbn [mbind res_bind]. rewrite IH; [done|]. pose proof (w64_u64 (i + step)) as H. unfold u64 in H. lia.
Qed.

(** A loop that counts up. *)
Lemma each_up n i body (f : Z -> text) : 0 <= i -> i + Z.of_nat n < 2 ^ 64 -> (forall j, i <= j < i + Z.of_nat n -> body j = Ok (f j)) ->
  each n i 1 body = Ok (mjoin (f <$> seqZ i (Z.of_nat n))).
Proof.
  revert i. induction n as [|n IH]; intros i Hi Hn Hb; [done|]. cbn [each]. rewrite Hb by lia. cbn [mbind res_bind].
  rewrite w64_small by (unfold u64; lia). rewrite IH; [|lia|lia|intros j Hj; apply Hb; lia].
  cbn [mbind res_bind]. rewrite (seqZ_cons i (Z.of_nat (S n))) by lia. rewrite fmap_cons. cbn [mjoin list_join].
  replace (Z.pred (Z.of_nat (S n))) with (Z.of_nat n) by lia. replace (Z.succ i) with (i + 1) by lia. done.
Qed.

(** The bits are shown in order, a plus for each that is set. *)
Lemma BitmapPrint_ok map n : 0 <= n <= 32 * zlen map -> n < 2 ^ 64 ->
  BitmapPrint map n = Ok (["|"] ++ ((fun i => if bit map i then "+" else "-") <$> seqZ 0 n) ++ ["|"; newline]).
Proof.
  intros Hn H64. unfold BitmapPrint. rewrite (each_up _ 0 _ (fun i => [if bit map i then "+" else "-"])); [|lia|lia|].
  - cbn [mbind res_bind]. do 3 f_equal. rewrite Z2Nat.id by lia. f_equal. induction (seqZ 0 n) as [|z l IH]; [done|].
    rewrite !fmap_cons. cbn [mjoin list_join]. by rewrite <- IH.
  - intros j Hj. rewrite BitmapGet_ok; [done|]. unfold bits_in, BitmapWordSize. lia.
Qed.
