(* ===== verification/BitmapTest.v ===== *)
(** * The test of the bitmaps (utils/bitmaptest.c)

    A program that sets, clears and looks up the flags that are entered.  [malloc] gives the
    contents of new memory of a number of words; the questions the program asks are left out. *)

From stdpp Require Import strings pretty.
From S2P Require Import Prelude Bitmap Printing.

#[local] Open Scope Z_scope.

(** ** The program *)

(** The loop, on the numbers that are entered; what is printed for each of them, behind the picture
    of the flags. *)
Fixpoint Loop (inputs : list Z) (flags : list Z) (numFlags : Z) : res (list text) :=
  match inputs with
  | [] => Ok []
  | input :: inputs =>
      p ← BitmapPrint flags numFlags;
      if input =? 1 then
        match inputs with
        | [] => Ok [p]
        | i :: inputs => flags ← BitmapOn flags (w64 i); outs ← Loop inputs flags numFlags; Ok (p :: outs)
        end
      else if input =? 2 then
        match inputs with
        | [] => Ok [p]
        | i :: inputs => flags ← BitmapOff flags (w64 i); outs ← Loop inputs flags numFlags; Ok (p :: outs)
        end
      else if input =? 3 then
        r ← BitmapGetFirstFlag flags numFlags;
        outs ← Loop inputs flags numFlags;
        Ok ((p ++ ["first flag was " +:+ pretty (int32 r)]) :: outs)
      else if input =? 4 then
        match inputs with
        | [] => Ok [p]
        | i :: inputs => b ← BitmapGet flags (w64 i); outs ← Loop inputs flags numFlags; Ok ((p ++ [if (b : bool) then "SET" else "CLEAR"]) :: outs)
        end
      else if input =? 5 then Ok [p ++ ["have a good day"]]
      else outs ← Loop inputs flags numFlags; Ok (p :: outs)
  end.

Definition main (malloc : Z -> list Z) (numFlags : Z) (inputs : list Z) : res (list text) :=
  outs ← Loop inputs (malloc (BitmapSize numFlags)) numFlags;
  Ok (["Need " +:+ pretty (w64 (BitmapSize numFlags * 4)) +:+ " bytes"] :: outs).

(** ** What it should show *)

(** The picture of the set [B] of flags. *)
Definition picture (B : Z -> bool) (numFlags : Z) : text :=
  ["|"] ++ ((fun i => if B i then "+" else "-") <$> seqZ 0 numFlags) ++ ["|"; newline].

Definition set_flag (i : Z) (state : bool) (B : Z -> bool) : Z -> bool := fun j => if i =? j then state else B j.

(** The least flag of the words that hold the flags, or [-1]. *)
Definition is_first (B : Z -> bool) (limit r : Z) : Prop :=
  (r = -1 /\ forall j, 0 <= j < limit -> B j = false) \/ (0 <= r < limit /\ B r = true /\ forall j, 0 <= j < r -> B j = false).

(** What is shown for the numbers that are entered, when the set of the flags is [B]. *)
Inductive shows (n : Z) : list Z -> (Z -> bool) -> list text -> Prop :=
  | shows_end B : shows n [] B []
  | shows_set i inputs B outs :
      shows n inputs (set_flag i true B) outs -> shows n (1 :: i :: inputs) B (picture B n :: outs)
  | shows_clear i inputs B outs :
      shows n inputs (set_flag i false B) outs -> shows n (2 :: i :: inputs) B (picture B n :: outs)
  | shows_first r inputs B outs :
      is_first B (32 * BitmapSize n) r -> shows n inputs B outs ->
      shows n (3 :: inputs) B ((picture B n ++ ["first flag was " +:+ pretty r]) :: outs)
  | shows_get i inputs B outs :
      shows n inputs B outs -> shows n (4 :: i :: inputs) B ((picture B n ++ [if B i then "SET" else "CLEAR"]) :: outs)
  | shows_cut c B : c = 1 \/ c = 2 \/ c = 4 -> shows n [c] B [picture B n]
  | shows_quit inputs B : shows n (5 :: inputs) B [picture B n ++ ["have a good day"]]
  | shows_other c inputs B outs : ~ 1 <= c <= 5 -> shows n inputs B outs -> shows n (c :: inputs) B (picture B n :: outs).

(** Every index that is entered is one of the flags. *)
Fixpoint in_range (n : Z) (inputs : list Z) : Prop :=
  match inputs with
  | [] => True
  | c :: inputs =>
      if (c =? 1) || (c =? 2) || (c =? 4) then
        match inputs with [] => True | i :: inputs => 0 <= i < n /\ in_range n inputs end
      else if c =? 5 then True else in_range n inputs
  end.

(** ** The program shows the set of the flags *)

(** The words [flags] hold the set [B] of [n] flags. *)
Definition holds (flags : list Z) (n : Z) (B : Z -> bool) : Prop :=
  words_ok flags /\ zlen flags = BitmapSize n /\ forall j, 0 <= j -> bit flags j = B j.

Section loop.
Variable n : Z.
Hypothesis Hn : 0 <= n.
Hypothesis Hmax : 32 * BitmapSize n <= 2 ^ 31.

Lemma flag_in flags B i : holds flags n B -> 0 <= i < n -> bits_in flags i.
Proof. intros (_ & Hz & _) Hi. pose proof (BitmapSize_spec n Hn). unfold bits_in, BitmapWordSize. lia. Qed.

Lemma flag_w64 i : 0 <= i < n -> w64 i = i.
Proof. intros Hi. pose proof (BitmapSize_spec n Hn). apply w64_small. unfold u64. lia. Qed.

Lemma print_holds flags B : holds flags n B -> BitmapPrint flags n = Ok (picture B n).
Proof.
  intros (_ & Hz & HB). pose proof (BitmapSize_spec n Hn). rewrite BitmapPrint_ok by lia. unfold picture. do 3 f_equal.
  apply list_fmap_ext. intros k x Hx. apply lookup_seqZ in Hx as [-> Hk]. by rewrite HB by lia.
Qed.

Lemma get_holds flags B i : holds flags n B -> 0 <= i < n -> BitmapGet flags (w64 i) = Ok (B i).
Proof. intros Hh Hi. rewrite flag_w64, BitmapGet_ok by eauto using flag_in. destruct Hh as (_ & _ & HB). by rewrite HB by lia. Qed.

Lemma first_holds flags B : holds flags n B ->
  exists r, BitmapGetFirstFlag flags n = Ok r /\ is_first B (32 * BitmapSize n) (int32 r).
Proof.
  intros (Hw & Hz & HB). destruct (BitmapGetFirstFlag_ok flags n) as (r & -> & Hr); [done|done|lia|]. exists r. split; [done|].
  destruct Hr as [[-> Hr]|(Hr & Hb & Hl)]; [left|right].
  - split; [by vm_compute|]. intros j Hj. rewrite <- HB by lia. apply Hr. lia.
  - rewrite int32_small by lia. split; [lia|]. rewrite <- HB by lia. split; [done|]. intros j Hj. rewrite <- HB by lia. apply Hl. lia.
Qed.

Lemma set_holds flags B i : holds flags n B -> 0 <= i < n ->
  (exists flags', BitmapOn flags (w64 i) = Ok flags' /\ holds flags' n (set_flag i true B)) /\
  (exists flags', BitmapOff flags (w64 i) = Ok flags' /\ holds flags' n (set_flag i false B)).
Proof.
  intros Hh Hi. pose proof (flag_in _ _ _ Hh Hi) as Hin. destruct Hh as (Hw & Hz & HB). rewrite flag_w64 by done.
  destruct (BitmapOn_ok flags i Hin Hw) as (f1 & -> & Hz1 & Hw1 & H1), (BitmapOff_ok flags i Hin Hw) as (f2 & -> & Hz2 & Hw2 & H2).
  split; [exists f1|exists f2]; (split; [done|]); (split; [done|]); (split; [congruence|]); intros j Hj; unfold set_flag;
    rewrite ?H1, ?H2 by done; by rewrite HB.
Qed.

Lemma Loop_shows k inputs : (length inputs <= k)%nat -> forall flags B, holds flags n B -> in_range n inputs ->
  exists outs, Loop inputs flags n = Ok outs /\ shows n inputs B outs.
Proof.
  revert inputs. induction k as [|k IH]; intros [|c inputs] Hk flags B Hh Hr; try (simpl in Hk; lia);
    try (exists []; split; [done|constructor]).
  simpl in Hk. cbn [Loop in_range] in *. rewrite (print_holds _ _ Hh). cbn [mbind res_bind].
  assert (forall flags B, holds flags n B -> in_range n inputs -> exists outs, Loop inputs flags n = Ok outs /\ shows n inputs B outs) as IH1
    by (apply IH; lia).
  assert (forall i rest, inputs = i :: rest -> forall flags B, holds flags n B -> in_range n rest ->
    exists outs, Loop rest flags n = Ok outs /\ shows n rest B outs) as IH2 by (intros i rest ->; apply IH; simpl in Hk; lia).
  destruct (Z.eqb_spec c 1) as [->|?]; [|destruct (Z.eqb_spec c 2) as [->|?]; [|destruct (Z.eqb_spec c 3) as [->|?];
    [|destruct (Z.eqb_spec c 4) as [->|?]; [|destruct (Z.eqb_spec c 5) as [->|?] ] ] ] ]; cbn [orb Z.eqb] in Hr; simpl in Hr.
  1, 2, 4: destruct inputs as [|i rest]; [eexists; split; [done|constructor; tauto]|]; destruct Hr as [Hi Hr].
  - destruct (set_holds _ _ i Hh Hi) as [(f & -> & Hf) _]. destruct (IH2 i rest eq_refl _ _ Hf Hr) as (o & Ho & Hs).
    cbn [mbind res_bind]. rewrite Ho. eexists. split; [done|by constructor].
  - destruct (set_holds _ _ i Hh Hi) as [_ (f & -> & Hf)]. destruct (IH2 i rest eq_refl _ _ Hf Hr) as (o & Ho & Hs).
    cbn [mbind res_bind]. rewrite Ho. eexists. split; [done|by constructor].
  - rewrite (get_holds _ _ _ Hh Hi). destruct (IH2 i rest eq_refl _ _ Hh Hr) as (o & Ho & Hs).
    cbn [mbind res_bind]. rewrite Ho. eexists. split; [done|by constructor].
  - destruct (first_holds _ _ Hh) as (r & -> & Hf). destruct (IH1 _ _ Hh Hr) as (o & Ho & Hs).
    cbn [mbind res_bind]. rewrite Ho. eexists. split; [done|by constructor].
  - eexists. split; [done|constructor].
  - destruct (IH1 _ _ Hh Hr) as (o & Ho & Hs). rewrite Ho. eexists. split; [done|apply shows_other; [lia|done] ].
Qed.
End loop.

(** The program shows a set of flags, the one that the words of the new memory happen to hold, and
    what every command makes of it, as long as the indices that are entered are flags. *)
Theorem bitmap_test_shows malloc n inputs :
  0 <= n -> 32 * BitmapSize n <= 2 ^ 31 -> words_ok (malloc (BitmapSize n)) -> zlen (malloc (BitmapSize n)) = BitmapSize n ->
  in_range n inputs ->
  exists first outs, main malloc n inputs = Ok (first :: outs) /\ shows n inputs (bit (malloc (BitmapSize n))) outs.
Proof.
  intros Hn Hmax Hw Hz Hr. destruct (Loop_shows n Hn Hmax _ inputs (le_n _) _ (bit (malloc (BitmapSize n))) ltac:(done) Hr) as (outs & Ho & Hs).
  unfold main. rewrite Ho. by eexists _, _.
Qed.

Definition ones (words : Z) : list Z := repeat (2 ^ 32 - 1) (Z.to_nat words).

(** With the bits of the new memory set, all the flags are shown as set. *)
Lemma bitmap_test_shows_witness : exists first outs, main ones 40 [2; 0; 3; 5] = Ok (first :: outs) /\ shows 40 [2; 0; 3; 5] (bit (ones 2)) outs.
Proof.
  apply (bitmap_test_shows ones 40); [lia|by vm_compute|repeat constructor; lia|by vm_compute|].
  repeat split; lia.
Defined.

(** The indices are not checked: one behind the last word is an access outside of the memory. *)
Example index_not_checked : main ones 40 [1; 64] = Err FBounds.
Proof. by vm_compute. Qed.
