(* ===== verification/LinkedList.v ===== *)
(** * The circular doubly linked list (utils/linkedlist.c, utils/link.h)

    The kernel threads every queue through intrusive links, so the links of all lists
    live in one store.  The store maps an address to a [LINKED_LIST_LINK]; the C
    functions become stateful computations over it that read and write one field at
    a time.  [queues_refine] shows that, as long as a link is on at most one list, the
    store behaves as a family of independent FIFO queues: this is the view of the
    lists that the models of the kernel units use ([lq_push], [lq_enqueue], [lq_pop]). *)

From S2P Require Import Prelude.

(** ** Store *)

Abbreviation loc := positive.
(** A pointer: [None] is [NULL]. *)
Abbreviation ptr := (option positive).

Record LINKED_LIST_LINK := mkLink { Next : ptr; Prev : ptr }.
Record LINKED_LIST := mkList { Head : ptr }.

Abbreviation store := (gmap loc LINKED_LIST_LINK).

(** Reads a link through a pointer. *)
Definition load (p : ptr) : St store LINKED_LIST_LINK := fun m =>
  match p ≫= (m !!.) with Some k => Ok (k, m) | None => Err FNull end.

(** [p->Next = v] and [p->Prev = v]. *)
Definition store_Next (p v : ptr) : St store unit := fun m =>
  match p with
  | Some a => match m !! a with
              | Some k => Ok (tt, <[a := mkLink v (Prev k)]> m)
              | None => Err FNull
              end
  | None => Err FNull
  end.

Definition store_Prev (p v : ptr) : St store unit := fun m =>
  match p with
  | Some a => match m !! a with
              | Some k => Ok (tt, <[a := mkLink (Next k) v]> m)
              | None => Err FNull
              end
  | None => Err FNull
  end.

(** ** Operations *)

Definition LinkedListInsert (node list : ptr) : St store unit :=
  assert (bool_decide (node <> None));;
  if decide (list = None) then
    store_Next node node;;
    store_Prev node node
  else
    store_Next node list;;
    l ← load list;
    store_Prev node (Prev l);;
    l ← load list;
    store_Next (Prev l) node;;
    store_Prev list node.

Definition LinkedListRemove (node : ptr) : St store unit :=
  assert (bool_decide (node <> None));;
  k ← load node;
  store_Next (Prev k) (Next k);;
  k ← load node;
  store_Prev (Next k) (Prev k);;
  store_Next node node;;
  store_Prev node node.

Definition LinkedListPush (node : ptr) (list : LINKED_LIST) : St store LINKED_LIST :=
  LinkedListInsert node (Head list);;
  mret (mkList node).

Definition LinkedListPop (list : LINKED_LIST) : St store (ptr * LINKED_LIST) :=
  if decide (Head list = None) then mret (None, list) else
  let top := Head list in
  k ← load (Head list);
  if decide (Head list = Next k) then mret (top, mkList None)
  else
    k ← load top;
    LinkedListRemove top;;
    mret (top, mkList (Next k)).

Definition LinkedListEnqueue (node : ptr) (list : LINKED_LIST) : St store LINKED_LIST :=
  LinkedListInsert node (Head list);;
  k ← load node;
  mret (mkList (Next k)).

Definition LinkedListIsEmpty (list : LINKED_LIST) : bool :=
  if decide (Head list = None) then true else false.

Definition LinkedListInit : LINKED_LIST := mkList None.

Definition LinkedListPeek (list : LINKED_LIST) : ptr := Head list.

(** ** The queue a list stands for *)

Definition lq_push {A} (n : A) (l : list A) : list A := n :: l.
Definition lq_enqueue {A} (n : A) (l : list A) : list A := l ++ [n].
Definition lq_pop {A} (l : list A) : option A * list A := (head l, tail l).
Definition lq_is_empty {A} (l : list A) : bool := match l with [] => true | _ => false end.
Definition lq_peek {A} (l : list A) : option A := head l.

(** ** Representation *)

Definition nxt (m : store) (a : loc) : ptr := m !! a ≫= Next.
Definition prv (m : store) (a : loc) : ptr := m !! a ≫= Prev.

(** [a] and [b] are neighbours: [a->Next == b] and [b->Prev == a]. *)
Definition adj (m : store) (a b : loc) : Prop := nxt m a = Some b /\ prv m b = Some a.

Fixpoint path (m : store) (xs : list loc) : Prop :=
  match xs with
  | a :: (b :: _) as t => adj m a b /\ path m t
  | _ => True
  end.

(** The links [xs], in order, form one ring whose first element is the head. *)
Definition ring_of (m : store) (l : LINKED_LIST) (xs : list loc) : Prop :=
  NoDup xs /\
  match xs with
  | [] => Head l = None
  | x :: t => Head l = Some x /\ path m (x :: t ++ [x])
  end.

(** ** A family of lists in one store *)

Inductive list_op :=
| LPush (i : nat) (n : loc)
| LEnqueue (i : nat) (n : loc)
| LPop (i : nat)
| LPeek (i : nat)
| LIsEmpty (i : nat).

Inductive list_obs := ONone | OPtr (p : ptr) | OBool (b : bool).

(** One call on list number [i] of the family [ls]. *)
Definition list_step (op : list_op) (s : store * list LINKED_LIST)
  : res (list_obs * (store * list LINKED_LIST)) :=
  let '(m, ls) := s in
  match op with
  | LPush i n =>
      l ← arr_get ls (Z.of_nat i);
      '(l', m') ← LinkedListPush (Some n) l m; Ok (ONone, (m', <[i := l']> ls))
  | LEnqueue i n =>
      l ← arr_get ls (Z.of_nat i);
      '(l', m') ← LinkedListEnqueue (Some n) l m; Ok (ONone, (m', <[i := l']> ls))
  | LPop i =>
      l ← arr_get ls (Z.of_nat i);
      '((p, l'), m') ← LinkedListPop l m; Ok (OPtr p, (m', <[i := l']> ls))
  | LPeek i => l ← arr_get ls (Z.of_nat i); Ok (OPtr (LinkedListPeek l), s)
  | LIsEmpty i => l ← arr_get ls (Z.of_nat i); Ok (OBool (LinkedListIsEmpty l), s)
  end.

Definition queue_step (op : list_op) (qs : list (list loc)) : list_obs * list (list loc) :=
  match op with
  | LPush i n => (ONone, <[i := lq_push n (qs !!! i)]> qs)
  | LEnqueue i n => (ONone, <[i := lq_enqueue n (qs !!! i)]> qs)
  | LPop i => let '(p, q) := lq_pop (qs !!! i) in (OPtr p, <[i := q]> qs)
  | LPeek i => (OPtr (lq_peek (qs !!! i)), qs)
  | LIsEmpty i => (OBool (lq_is_empty (qs !!! i)), qs)
  end.

(** The discipline of the callers: the list exists and a link that is added is an
    object that is on no list. *)
Definition list_op_ok (op : list_op) (m : store) (qs : list (list loc)) : Prop :=
  match op with
  | LPush i n | LEnqueue i n => (i < length qs)%nat /\ is_Some (m !! n) /\ n ∉ mjoin qs
  | LPop i | LPeek i | LIsEmpty i => (i < length qs)%nat
  end.

(** The family [ls] in store [m] stands for the queues [qs]; no link is on two. *)
Definition lists_rep (m : store) (ls : list LINKED_LIST) (qs : list (list loc)) : Prop :=
  Forall2 (ring_of m) ls qs /\ NoDup (mjoin qs).

(** A whole history of calls; each call must respect the discipline when it is made. *)
Fixpoint list_run (ops : list list_op) (s : store * list LINKED_LIST)
  : res (list list_obs * (store * list LINKED_LIST)) :=
  match ops with
  | [] => Ok ([], s)
  | op :: ops =>
      '(o, s1) ← list_step op s; '(os, s2) ← list_run ops s1; Ok (o :: os, s2)
  end.

Fixpoint queue_run (ops : list list_op) (qs : list (list loc)) : list list_obs * list (list loc) :=
  match ops with
  | [] => ([], qs)
  | op :: ops =>
      let '(o, qs1) := queue_step op qs in
      let '(os, qs2) := queue_run ops qs1 in (o :: os, qs2)
  end.

Fixpoint list_ops_ok (ops : list list_op) (m : store) (qs : list (list loc)) : Prop :=
  match ops with
  | [] => True
  | op :: ops => list_op_ok op m qs /\ list_ops_ok ops m (queue_step op qs).2
  end.

(** Three unlinked links, and two empty lists. *)
Definition store3 : store :=
  {[ 1%positive := mkLink None None; 2%positive := mkLink None None;
     3%positive := mkLink None None ]}.

(** Stores after one field assignment. *)
Definition set_nxt (a : loc) (v : ptr) (m : store) : store :=
  alter (fun k => mkLink v (Prev k)) a m.
Definition set_prv (a : loc) (v : ptr) (m : store) : store :=
  alter (fun k => mkLink (Next k) v) a m.

(** ** Lemmas *)

Lemma store_Next_ok a v m :
  is_Some (m !! a) -> store_Next (Some a) v m = Ok (tt, set_nxt a v m).
Proof.
  intros [k Hk]. simpl. rewrite Hk. unfold set_nxt. do 2 f_equal.
  symmetry. apply map_eq. intros b. destruct (decide (a = b)) as [<-|].
  - by rewrite lookup_alter_eq, lookup_insert_eq, Hk.
  - by rewrite lookup_alter_ne, lookup_insert_ne.
Qed.

Lemma store_Prev_ok a v m :
  is_Some (m !! a) -> store_Prev (Some a) v m = Ok (tt, set_prv a v m).
Proof.
  intros [k Hk]. simpl. rewrite Hk. unfold set_prv. do 2 f_equal.
  symmetry. apply map_eq. intros b. destruct (decide (a = b)) as [<-|].
  - by rewrite lookup_alter_eq, lookup_insert_eq, Hk.
  - by rewrite lookup_alter_ne, lookup_insert_ne.
Qed.

Lemma load_ok a m : is_Some (m !! a) ->
  load (Some a) m = Ok (mkLink (nxt m a) (prv m a), m).
Proof.
  intros [[n p] Hk]. unfold load, nxt, prv. simpl. rewrite Hk. done.
Qed.

Lemma nxt_set_nxt a v m b : is_Some (m !! a) ->
  nxt (set_nxt a v m) b = if decide (b = a) then v else nxt m b.
Proof.
  intros [k Hk]. unfold nxt, set_nxt. case_decide as Hd.
  - subst b. by rewrite lookup_alter_eq, Hk.
  - by rewrite lookup_alter_ne by congruence.
Qed.

Lemma prv_set_prv a v m b : is_Some (m !! a) ->
  prv (set_prv a v m) b = if decide (b = a) then v else prv m b.
Proof.
  intros [k Hk]. unfold prv, set_prv. case_decide as Hd.
  - subst b. by rewrite lookup_alter_eq, Hk.
  - by rewrite lookup_alter_ne by congruence.
Qed.

Lemma prv_set_nxt a v m b : prv (set_nxt a v m) b = prv m b.
Proof.
  unfold prv, set_nxt. rewrite lookup_alter. case_decide as Hd; [subst b|done].
  by destruct (m !! a).
Qed.

Lemma nxt_set_prv a v m b : nxt (set_prv a v m) b = nxt m b.
Proof.
  unfold nxt, set_prv. rewrite lookup_alter. case_decide as Hd; [subst b|done].
  by destruct (m !! a).
Qed.

Lemma set_nxt_other a v m b : b <> a -> set_nxt a v m !! b = m !! b.
Proof. intros. unfold set_nxt. by rewrite lookup_alter_ne by congruence. Qed.

Lemma set_prv_other a v m b : b <> a -> set_prv a v m !! b = m !! b.
Proof. intros. unfold set_prv. by rewrite lookup_alter_ne by congruence. Qed.

Lemma set_nxt_dom a v m b : is_Some (set_nxt a v m !! b) <-> is_Some (m !! b).
Proof.
  unfold set_nxt. destruct (decide (a = b)) as [<-|].
  - rewrite lookup_alter_eq, fmap_is_Some. done.
  - by rewrite lookup_alter_ne.
Qed.

Lemma set_prv_dom a v m b : is_Some (set_prv a v m !! b) <-> is_Some (m !! b).
Proof.
  unfold set_prv. destruct (decide (a = b)) as [<-|].
  - rewrite lookup_alter_eq, fmap_is_Some. done.
  - by rewrite lookup_alter_ne.
Qed.

(** Closes [is_Some (m' !! a)] when [m'] is [m] after some assignments. *)
Ltac links_dom := rewrite ?set_prv_dom, ?set_nxt_dom; repeat rewrite ?set_prv_dom, ?set_nxt_dom; done.

Lemma adj_dom m a b : adj m a b -> is_Some (m !! a) /\ is_Some (m !! b).
Proof.
  unfold adj, nxt, prv. intros [Ha Hb]. split.
  - destruct (m !! a); [done|]. simpl in Ha. done.
  - destruct (m !! b); [done|]. simpl in Hb. done.
Qed.

Lemma path_snoc m xs a b : path m (xs ++ [a; b]) <-> path m (xs ++ [a]) /\ adj m a b.
Proof.
  induction xs as [|x xs IH]; simpl; [tauto|].
  destruct xs as [|y xs]; simpl in *; [tauto|]. rewrite IH. tauto.
Qed.

(** A path survives changes that leave the forward pointers of all its links but the
    last and the back pointers of all but the first. *)
Lemma path_frame m m' xs l :
  path m (xs ++ [l]) ->
  (forall a, a ∈ xs -> nxt m' a = nxt m a) ->
  (forall b, b ∈ tail (xs ++ [l]) -> prv m' b = prv m b) ->
  path m' (xs ++ [l]).
Proof.
  induction xs as [|x xs IH]; intros Hp Hn Hb; [done|].
  destruct xs as [|y xs]; simpl in *.
  - destruct Hp as [[H1 H2] _]. unfold adj. rewrite Hn, Hb by set_solver. done.
  - destruct Hp as [[H1 H2] Hp]. split.
    + unfold adj. rewrite Hn, Hb by set_solver. done.
    + apply IH; [done|set_solver|]. intros b Hb'. apply Hb. set_solver.
Qed.

(** A non-empty ring seen from both ends: [x] is its head and [l] its last link. *)
Lemma ring_ends (x : loc) (t : list loc) : exists ys l, x :: t = ys ++ [l].
Proof. destruct (exists_last (l := x :: t) ltac:(done)) as (ys & l & ->). eauto. Qed.

Lemma ring_dom m x t a : path m (x :: t ++ [x]) -> a ∈ x :: t -> is_Some (m !! a).
Proof.
  revert x. assert (forall z xs, path m (xs ++ [z]) -> a ∈ xs -> is_Some (m !! a)) as H.
  { induction xs as [|y xs IH]; simpl; [set_solver|]. intros Hp Ha.
    destruct xs as [|w xs]; simpl in *; destruct Hp as [Hadj Hp];
      (apply elem_of_cons in Ha as [->|Ha]; [by apply adj_dom in Hadj as [? _]|]).
    - set_solver.
    - by apply IH. }
  intros x Hp Ha. apply (H x (x :: t)); done.
Qed.

(** [LinkedListInsert] on a non-empty ring puts the node between the last link and the
    head, and touches no other link. *)
Lemma insert_ring m n x t ys l :
  x :: t = ys ++ [l] -> NoDup (x :: t) -> path m (x :: t ++ [x]) ->
  n ∉ x :: t -> is_Some (m !! n) ->
  exists m', LinkedListInsert (Some n) (Some x) m = Ok (tt, m') /\
    path m' (x :: t) /\ adj m' l n /\ adj m' n x /\
    (forall a, a ∉ n :: x :: t -> m' !! a = m !! a) /\
    (forall a, is_Some (m' !! a) <-> is_Some (m !! a)).
Proof.
  intros Heq Hnd Hp Hn Hdn.
  assert (path m (ys ++ [l]) /\ adj m l x) as [Hpys Hlx].
  { apply path_snoc. change (ys ++ [l; x]) with (ys ++ [l] ++ [x]). rewrite app_assoc, <- Heq. done. }
  destruct (adj_dom _ _ _ Hlx) as [Hdl Hdx].
  assert (l ∈ x :: t) as Hl by (rewrite Heq; set_solver).
  assert (n <> x) as Hnx by set_solver. assert (n <> l) as Hnl by set_solver.
  exists (set_prv x (Some n) (set_nxt l (Some n) (set_prv n (Some l) (set_nxt n (Some x) m)))).
  split.
  { unfold LinkedListInsert. st_step assert_true. rewrite decide_False by done.
    st_step store_Next_ok.
    st_step load_ok by links_dom. simpl Prev. rewrite prv_set_nxt, (proj2 Hlx).
    st_step store_Prev_ok by links_dom.
    st_step load_ok by links_dom. simpl Prev.
    rewrite prv_set_prv by links_dom. rewrite decide_False, prv_set_nxt, (proj2 Hlx) by congruence.
    st_step store_Next_ok by links_dom.
    apply store_Prev_ok. links_dom. }
  set (m' := set_prv _ _ _).
  assert (forall a, nxt m' a = if decide (a = l) then Some n
                               else if decide (a = n) then Some x else nxt m a) as Hnx'.
  { intros a. unfold m'. rewrite nxt_set_prv, nxt_set_nxt by links_dom.
    case_decide; [done|]. rewrite nxt_set_prv, nxt_set_nxt by done. done. }
  assert (forall a, prv m' a = if decide (a = x) then Some n
                               else if decide (a = n) then Some l else prv m a) as Hpr'.
  { intros a. unfold m'. rewrite prv_set_prv by links_dom. case_decide; [done|].
    rewrite prv_set_nxt, prv_set_prv by links_dom. by rewrite prv_set_nxt. }
  assert (x ∉ t) as Hxt by (by apply NoDup_cons in Hnd as [??]).
  rewrite Heq in Hnd, Hn. apply NoDup_app in Hnd as (Hndy & Hdis & _).
  split_and!.
  - rewrite Heq. apply path_frame with m; [done| |].
    + intros a Ha. rewrite Hnx'. rewrite !decide_False by set_solver. done.
    + intros b Hb. rewrite Hpr'. rewrite <- Heq in Hb. simpl in Hb.
      rewrite !decide_False; [done| |].
      * intros ->. apply Hn. rewrite <- Heq. set_solver.
      * by intros ->.
  - unfold adj. rewrite Hnx', Hpr', decide_True by done.
    rewrite decide_False, decide_True by done. done.
  - unfold adj. rewrite Hnx', Hpr'. rewrite decide_False, !decide_True by done. done.
  - intros a Ha. unfold m'.
    rewrite set_prv_other, set_nxt_other, set_prv_other, set_nxt_other by set_solver. done.
  - intros a. unfold m'. by rewrite set_prv_dom, set_nxt_dom, set_prv_dom, set_nxt_dom.
Qed.

(** The same on an empty list: the node becomes a ring of its own. *)
Lemma insert_empty m n :
  is_Some (m !! n) ->
  exists m', LinkedListInsert (Some n) None m = Ok (tt, m') /\ adj m' n n /\
    (forall a, a <> n -> m' !! a = m !! a) /\
    (forall a, is_Some (m' !! a) <-> is_Some (m !! a)).
Proof.
  intros Hdn. exists (set_prv n (Some n) (set_nxt n (Some n) m)). split_and!.
  - unfold LinkedListInsert. st_step assert_true. rewrite decide_True by done.
    st_step store_Next_ok. apply store_Prev_ok. links_dom.
  - unfold adj. rewrite nxt_set_prv, nxt_set_nxt by done.
    rewrite prv_set_prv by links_dom. by rewrite !decide_True.
  - intros a Ha. by rewrite set_prv_other, set_nxt_other.
  - intros a. by rewrite set_prv_dom, set_nxt_dom.
Qed.

(** [LinkedListRemove] of the head of a ring with at least two links closes the ring of
    the others. *)
Lemma remove_head m x y t :
  NoDup (x :: y :: t) -> path m (x :: y :: t ++ [x]) ->
  exists m', LinkedListRemove (Some x) m = Ok (tt, m') /\
    path m' (y :: t ++ [y]) /\
    (forall a, a ∉ x :: y :: t -> m' !! a = m !! a) /\
    (forall a, is_Some (m' !! a) <-> is_Some (m !! a)).
Proof.
  intros Hnd Hp. destruct (ring_ends y t) as (ys & l & Heq).
  assert (adj m x y) as Hxy by apply Hp.
  assert (path m (ys ++ [l]) /\ adj m l x) as [Hpys Hlx].
  { apply path_snoc. change (ys ++ [l; x]) with (ys ++ [l] ++ [x]).
    rewrite app_assoc, <- Heq. apply Hp. }
  destruct (adj_dom _ _ _ Hlx) as [Hdl Hdx]. destruct (adj_dom _ _ _ Hxy) as [_ Hdy].
  apply NoDup_cons in Hnd as [Hx Hnd]. assert (y ∉ t) as Hyt by (by apply NoDup_cons in Hnd as [??]).
  assert (l ∈ y :: t) as Hl by (rewrite Heq; set_solver).
  assert (l <> x) as Hlx' by set_solver. assert (y <> x) as Hyx by set_solver.
  exists (set_prv x (Some x) (set_nxt x (Some x) (set_prv y (Some l) (set_nxt l (Some y) m)))).
  split.
  { unfold LinkedListRemove. st_step assert_true.
    st_step load_ok. simpl. rewrite (proj1 Hxy), (proj2 Hlx).
    st_step store_Next_ok. st_step load_ok by links_dom. simpl.
    rewrite prv_set_nxt, nxt_set_nxt, decide_False, (proj1 Hxy), (proj2 Hlx) by done.
    st_step store_Prev_ok by links_dom. st_step store_Next_ok by links_dom.
    apply store_Prev_ok. links_dom. }
  set (m' := set_prv _ _ _).
  assert (forall a, a <> x -> nxt m' a = if decide (a = l) then Some y else nxt m a) as Hnx'.
  { intros a Ha. unfold m'. rewrite nxt_set_prv, nxt_set_nxt by links_dom.
    rewrite decide_False by done. by rewrite nxt_set_prv, nxt_set_nxt. }
  assert (forall a, a <> x -> prv m' a = if decide (a = y) then Some l else prv m a) as Hpr'.
  { intros a Ha. unfold m'. rewrite prv_set_prv by links_dom. rewrite decide_False by done.
    by rewrite prv_set_nxt, prv_set_prv, prv_set_nxt by links_dom. }
  rewrite Heq in Hnd, Hx. apply NoDup_app in Hnd as (Hndy & Hdis & _).
  split_and!.
  - change (y :: t ++ [y]) with ((y :: t) ++ [y]). rewrite Heq, <- app_assoc. apply path_snoc.
    split; [apply path_frame with m; [done| |]|].
    + intros a Ha. rewrite Hnx', decide_False by set_solver. done.
    + intros b Hb. rewrite <- Heq in Hb. simpl in Hb. rewrite <- Heq in Hx.
      rewrite Hpr', decide_False by set_solver. done.
    + unfold adj. rewrite Hnx', Hpr', !decide_True by done. done.
  - intros a Ha. unfold m'.
    rewrite set_prv_other, set_nxt_other, set_prv_other, set_nxt_other by set_solver. done.
  - intros a. unfold m'. by rewrite set_prv_dom, set_nxt_dom, set_prv_dom, set_nxt_dom.
Qed.

(** What an operation leaves alone. *)
Definition frame (m m' : store) (touched : list loc) : Prop :=
  (forall a, a ∉ touched -> m' !! a = m !! a) /\
  (forall a, is_Some (m' !! a) <-> is_Some (m !! a)).

Lemma insert_spec m l n xs :
  ring_of m l xs -> n ∉ xs -> is_Some (m !! n) ->
  exists m', LinkedListInsert (Some n) (Head l) m = Ok (tt, m') /\ frame m m' (n :: xs) /\
    NoDup (n :: xs) /\ NoDup (xs ++ [n]) /\ path m' (n :: xs ++ [n]) /\
    nxt m' n = Some (default n (head xs)).
Proof.
  intros [Hnd Hr] Hn Hdn.
  assert (NoDup (n :: xs)) as Hnd1 by (by apply NoDup_cons).
  assert (NoDup (xs ++ [n])) as Hnd2 by (by rewrite (Permutation_app_comm xs [n])).
  destruct xs as [|x t].
  - rewrite Hr. destruct (insert_empty m n Hdn) as (m' & -> & Hadj & Hf & Hd).
    exists m'. split; [done|]. split; [by split; [set_solver|]|].
    split_and!; try done. apply Hadj.
  - destruct Hr as [-> Hp]. destruct (ring_ends x t) as (ys & l0 & Heq).
    destruct (insert_ring m n x t ys l0) as (m' & -> & Hp' & Hln & Hnx & Hf & Hd); try done.
    exists m'. split; [done|]. split; [by split|]. split_and!; try done; [|apply Hnx].
    change (path m' (n :: (x :: t) ++ [n])). simpl. split; [done|].
    change (path m' ((x :: t) ++ [n])). rewrite Heq in *. rewrite <- app_assoc.
    by apply path_snoc.
Qed.

Lemma push_ok m l n xs :
  ring_of m l xs -> n ∉ xs -> is_Some (m !! n) ->
  exists l' m', LinkedListPush (Some n) l m = Ok (l', m') /\
    ring_of m' l' (lq_push n xs) /\ frame m m' (n :: xs).
Proof.
  intros Hr Hn Hd. destruct (insert_spec m l n xs Hr Hn Hd) as (m' & Hi & Hf & Hnd & _ & Hp & _).
  exists (mkList (Some n)), m'. split; [|done].
  unfold LinkedListPush. by erewrite st_bind_ok by exact Hi.
Qed.

Lemma enqueue_ok m l n xs :
  ring_of m l xs -> n ∉ xs -> is_Some (m !! n) ->
  exists l' m', LinkedListEnqueue (Some n) l m = Ok (l', m') /\
    ring_of m' l' (lq_enqueue n xs) /\ frame m m' (n :: xs).
Proof.
  intros Hr Hn Hd.
  destruct (insert_spec m l n xs Hr Hn Hd) as (m' & Hi & Hf & _ & Hnd & Hp & Hnxt).
  exists (mkList (nxt m' n)), m'. split_and!; [| |done].
  - unfold LinkedListEnqueue. erewrite st_bind_ok by exact Hi.
    st_step load_ok by (by apply Hf). done.
  - split; [done|]. unfold lq_enqueue. rewrite Hnxt. destruct xs as [|x t]; simpl in *; [done|].
    split; [done|]. destruct Hp as [Hnx Hp].
    change (path m' ((x :: t ++ [n]) ++ [x])).
    change (x :: t ++ [n]) with ((x :: t) ++ [n]). rewrite <- app_assoc. by apply path_snoc.
Qed.

Lemma pop_ok m l xs :
  ring_of m l xs ->
  exists l' m', LinkedListPop l m = Ok ((head xs, l'), m') /\
    ring_of m' l' (tail xs) /\ frame m m' xs.
Proof.
  intros [Hnd Hr]. unfold LinkedListPop. destruct xs as [|x [|y t]].
  - rewrite Hr. exists l, m. rewrite decide_True by done. split_and!; done.
  - destruct Hr as [Hh [[Hn _] _]]. rewrite Hh, decide_False by done.
    exists (mkList None), m. split_and!; [|by split; [apply NoDup_nil|]|done].
    st_step load_ok by (unfold nxt in Hn; by destruct (m !! x)). simpl.
    by rewrite decide_True by done.
  - destruct Hr as [Hh Hp]. rewrite Hh, decide_False by done.
    assert (nxt m x = Some y) as Hxy by apply Hp.
    assert (is_Some (m !! x)) as Hdx by (apply (ring_dom m x (y :: t)); [done|set_solver]).
    destruct (remove_head m x y t) as (m' & Hrm & Hp' & Hf & Hd); [done|done|].
    exists (mkList (Some y)), m'. split_and!.
    + st_step load_ok. simpl. rewrite Hxy, decide_False.
      * st_step load_ok. erewrite st_bind_ok by exact Hrm. simpl. by rewrite Hxy.
      * apply NoDup_cons in Hnd as [Hx _]. set_solver.
    + split; [by apply NoDup_cons in Hnd as [_ ?]|]. done.
    + by split.
Qed.

Lemma ring_frame m m' l xs :
  (forall a, a ∈ xs -> m' !! a = m !! a) -> ring_of m l xs -> ring_of m' l xs.
Proof.
  intros Hf [Hnd Hr]. split; [done|]. destruct xs as [|x t]; [done|].
  destruct Hr as [Hh Hp]. split; [done|].
  change (x :: t ++ [x]) with ((x :: t) ++ [x]) in *. apply path_frame with m; [done| |].
  - intros a Ha. unfold nxt. by rewrite Hf.
  - intros b Hb. unfold prv. rewrite Hf; [done|]. simpl in Hb. set_solver.
Qed.

(** *** Families of lists *)

Lemma mjoin_split {A} (qs : list (list A)) i q :
  qs !! i = Some q -> mjoin qs ≡ₚ q ++ mjoin (delete i qs).
Proof. intros Hi. by rewrite (delete_Permutation qs i q Hi) at 1. Qed.

Lemma mjoin_insert {A} (qs : list (list A)) i q q' :
  qs !! i = Some q -> mjoin (<[i := q']> qs) ≡ₚ q' ++ mjoin (delete i qs).
Proof.
  intros Hi. pose proof (lookup_lt_Some _ _ _ Hi).
  rewrite (mjoin_split (<[i := q']> qs) i q') by (apply list_lookup_insert_eq; done).
  rewrite !delete_take_drop, take_insert_ge, drop_insert_lt by lia. done.
Qed.

Lemma mjoin_delete_elem {A} (qs : list (list A)) i j qj a :
  i <> j -> qs !! j = Some qj -> a ∈ qj -> a ∈ mjoin (delete i qs).
Proof.
  intros Hij Hj Ha. apply list_elem_of_join. exists qj. split; [done|].
  apply list_elem_of_lookup. destruct (decide (j < i)%nat).
  - exists j. by rewrite list_lookup_delete_lt.
  - exists (j - 1)%nat. rewrite list_lookup_delete_ge by lia.
    by replace (S (j - 1)) with j by lia.
Qed.

(** Replacing list [i] after an operation that touches only its own links and [n]. *)
Lemma lists_rep_update m m' ls qs i l q l' q' touched :
  lists_rep m ls qs -> ls !! i = Some l -> qs !! i = Some q ->
  ring_of m' l' q' -> frame m m' touched ->
  (forall a, a ∈ touched -> a ∈ q \/ a ∉ mjoin qs) ->
  NoDup (q' ++ mjoin (delete i qs)) ->
  lists_rep m' (<[i := l']> ls) (<[i := q']> qs).
Proof.
  intros [Hall Hnd] Hl Hq Hr [Hf _] Ht Hnd'. split.
  - apply Forall2_lookup. intros j. rewrite !list_lookup_insert.
    pose proof (Forall2_length _ _ _ Hall) as Hlen.
    destruct (decide (i = j)) as [<-|Hne].
    + pose proof (lookup_lt_Some _ _ _ Hl). rewrite !decide_True by lia. by constructor.
    + rewrite !decide_False by naive_solver.
      destruct (ls !! j) as [lj|] eqn:Hlj, (qs !! j) as [qj|] eqn:Hqj.
      2, 3: apply lookup_lt_Some in Hlj || apply lookup_ge_None in Hlj;
            apply lookup_lt_Some in Hqj || apply lookup_ge_None in Hqj; lia.
      2: constructor.
      constructor. apply ring_frame with m; [|by eapply Forall2_lookup_lr].
      intros a Ha. apply Hf. intros Hat.
      pose proof (mjoin_delete_elem qs i j qj a Hne Hqj Ha) as Hin.
      rewrite (mjoin_split qs i q Hq) in Hnd. apply NoDup_app in Hnd as (_ & Hdis & _).
      destruct (Ht a Hat) as [Haq|Hna]; [by apply (Hdis a)|].
      apply Hna. rewrite (mjoin_split qs i q Hq). set_solver.
  - by rewrite (mjoin_insert qs i q q' Hq).
Qed.

Lemma list_step_refines op m ls qs :
  lists_rep m ls qs -> list_op_ok op m qs ->
  let '(o, qs') := queue_step op qs in
  exists m' ls', list_step op (m, ls) = Ok (o, (m', ls')) /\ lists_rep m' ls' qs' /\
    (forall a, is_Some (m' !! a) <-> is_Some (m !! a)).
Proof.
  intros Hrep Hok. pose proof Hrep as [Hall Hnd]. pose proof (Forall2_length _ _ _ Hall) as Hlen.
  assert (forall i, (i < length qs)%nat -> exists l q, ls !! i = Some l /\ qs !! i = Some q /\
    arr_get ls (Z.of_nat i) = Ok l /\ qs !!! i = q /\ ring_of m l q) as Hget.
  { intros i Hi. destruct (lookup_lt_is_Some_2 qs i Hi) as [q Hq].
    destruct (lookup_lt_is_Some_2 ls i ltac:(lia)) as [l Hl]. exists l, q.
    split_and!; try done.
    - apply arr_get_ok; [lia|]. by rewrite Nat2Z.id.
    - by apply list_lookup_total_correct.
    - by eapply Forall2_lookup_lr. }
  destruct op as [i n|i n|i|i|i]; simpl in Hok; try destruct Hok as (Hi & Hdn & Hn);
    destruct (Hget i) as (l & q & Hl & Hq & Ha & Ht & Hr); try done; simpl; rewrite ?Ha, ?Ht.
  all: try assert (n ∉ q) as Hnq by (intros Hnq; apply Hn; rewrite (mjoin_split qs i q Hq); set_solver).
  all: try assert (NoDup (n :: q ++ mjoin (delete i qs))) as Hnd1
    by (apply NoDup_cons; rewrite (mjoin_split qs i q Hq) in Hn, Hnd; done).
  all: pose proof (mjoin_split qs i q Hq) as Hsplit.
  - destruct (push_ok m l n q Hr Hnq Hdn) as (l' & m' & Hp & Hr' & Hf). simpl.
    rewrite Hp. simpl. exists m', (<[i:=l']> ls). split_and!; [done| |apply Hf].
    eapply lists_rep_update; try done. intros a Haq. apply elem_of_cons in Haq as [->|]; auto.
  - destruct (enqueue_ok m l n q Hr Hnq Hdn) as (l' & m' & Hp & Hr' & Hf). simpl.
    rewrite Hp. simpl. exists m', (<[i:=l']> ls). split_and!; [done| |apply Hf].
    eapply lists_rep_update; try done.
    + intros a Haq. apply elem_of_cons in Haq as [->|]; auto.
    + unfold lq_enqueue. rewrite (Permutation_app_comm q [n]). done.
  - destruct (pop_ok m l q Hr) as (l' & m' & Hp & Hr' & Hf). simpl.
    rewrite Hp. simpl. exists m', (<[i:=l']> ls). split_and!; [done| |apply Hf].
    eapply lists_rep_update; try done; [by left|].
    rewrite Hsplit in Hnd. destruct q as [|x q]; [done|]. by apply NoDup_cons in Hnd as [_ ?].
  - exists m, ls. split; [|done]. destruct Hr as [_ Hr], l as [h], q; simpl in *;
      [|destruct Hr as [Hr _]]; by subst.
  - exists m, ls. split; [|done]. destruct Hr as [_ Hr], l as [h], q; simpl in *;
      [|destruct Hr as [Hr _]]; by subst.
Qed.

Lemma list_op_ok_dom op m m' qs :
  (forall a, is_Some (m' !! a) <-> is_Some (m !! a)) -> list_op_ok op m qs -> list_op_ok op m' qs.
Proof. destruct op; simpl; naive_solver. Qed.

Lemma list_ops_ok_dom ops m m' qs :
  (forall a, is_Some (m' !! a) <-> is_Some (m !! a)) ->
  list_ops_ok ops m qs -> list_ops_ok ops m' qs.
Proof.
  intros Hd. revert qs. induction ops as [|op ops IH]; intros qs; simpl; [done|].
  intros [H1 H2]. split; [by eapply list_op_ok_dom|by apply IH].
Qed.

Lemma store3_rep : lists_rep store3 [LinkedListInit; LinkedListInit] [[]; []].
Proof. split; [|apply NoDup_nil_2]. repeat constructor. Qed.

(** ** Properties *)

(** C22: the family of circular lists in one link store behaves, under any history of
    pushes, enqueues, pops, peeks and emptiness tests in which a link that is added is
    on no list, as a family of independent queues: no NULL is dereferenced, no
    assertion fails and every result is that of the queues. *)
Theorem queues_refine ops m ls qs :
  lists_rep m ls qs -> list_ops_ok ops m qs ->
  let '(os, qs') := queue_run ops qs in
  exists m' ls', list_run ops (m, ls) = Ok (os, (m', ls')) /\ lists_rep m' ls' qs'.
Proof.
  revert m ls qs. induction ops as [|op ops IH]; intros m ls qs Hrep Hok.
  { by exists m, ls. }
  simpl queue_run.
  destruct Hok as [Hop Hops]. pose proof (list_step_refines op m ls qs Hrep Hop) as Hstep.
  change (list_run (op :: ops) (m, ls)) with
    ('(o, s1) ← list_step op (m, ls); '(os, s2) ← list_run ops s1; Ok (o :: os, s2)).
  destruct (queue_step op qs) as [o qs1]. destruct Hstep as (m1 & ls1 & -> & Hrep1 & Hd).
  specialize (IH m1 ls1 qs1 Hrep1 (list_ops_ok_dom _ _ _ _ Hd Hops)). simpl in *.
  destruct (queue_run ops qs1) as [os qs2]. destruct IH as (m2 & ls2 & -> & Hrep2).
  by exists m2, ls2.
Qed.

Lemma queues_refine_witness :
  let ops := [LEnqueue 0 1%positive; LEnqueue 0 2%positive; LPush 0 3%positive; LPop 0;
              LEnqueue 1 3%positive; LPop 0; LPop 1; LIsEmpty 1; LPeek 0] in
  list_ops_ok ops store3 [[]; []] /\
  exists m' ls', list_run ops (store3, [LinkedListInit; LinkedListInit]) =
    Ok ([ONone; ONone; ONone; OPtr (Some 3%positive); ONone; OPtr (Some 1%positive);
         OPtr (Some 3%positive); OBool true; OPtr (Some 2%positive)], (m', ls')).
Proof.
  assert (list_ops_ok [LEnqueue 0 1%positive; LEnqueue 0 2%positive; LPush 0 3%positive; LPop 0;
              LEnqueue 1 3%positive; LPop 0; LPop 1; LIsEmpty 1; LPeek 0] store3 [[]; []]) as H.
  { cbn -[is_Some lookup store3 not elem_of].
    split_and!; try lia; try (by eexists; reflexivity); set_solver by lia. }
  split; [exact H|].
  destruct (queues_refine _ store3 _ _ store3_rep H) as (m' & ls' & Hr & _).
  exists m', ls'. exact Hr.
Defined.

(** ** A link on a list twice *)

(** Enqueueing the last link of a list again makes it a ring of its own: every other
    link of the list is lost. *)
Theorem relink_loses m x ys t :
  ring_of m (mkList (Some x)) (x :: ys ++ [t]) ->
  exists m', LinkedListEnqueue (Some t) (mkList (Some x)) m = Ok (mkList (Some t), m') /\
    ring_of m' (mkList (Some t)) [t].
Proof.
  intros (Hnd & _ & Hp).
  assert (path m ((x :: ys ++ [t]) ++ [x])) as Hp' by exact Hp.
  change (x :: ys ++ [t]) with ((x :: ys) ++ [t]) in Hp'. rewrite <- app_assoc in Hp'.
  apply path_snoc in Hp' as [_ Htx]. destruct (adj_dom _ _ _ Htx) as [Hdt Hdx].
  assert (x <> t) as Hne.
  { apply NoDup_cons in Hnd as [Hx _]. intros ->. apply Hx. apply elem_of_app. right. by apply list_elem_of_singleton. }
  set (m' := set_prv x (Some t) (set_nxt t (Some t) (set_prv t (Some t) (set_nxt t (Some x) m)))).
  assert (LinkedListInsert (Some t) (Some x) m = Ok (tt, m')) as Hins.
  { unfold LinkedListInsert. st_step assert_true. rewrite decide_False by done.
    st_step store_Next_ok.
    st_step load_ok by links_dom. cbn [Prev]. rewrite prv_set_nxt, (proj2 Htx).
    st_step store_Prev_ok by links_dom.
    st_step load_ok by links_dom. cbn [Prev].
    rewrite prv_set_prv by links_dom. rewrite decide_False, prv_set_nxt, (proj2 Htx) by congruence.
    st_step store_Next_ok by links_dom. apply store_Prev_ok. links_dom. }
  assert (nxt m' t = Some t /\ prv m' t = Some t) as [Hn Hpv].
  { unfold m'. split.
    - rewrite nxt_set_prv, nxt_set_nxt by links_dom. by rewrite decide_True.
    - rewrite prv_set_prv by links_dom. rewrite decide_False by congruence.
      rewrite prv_set_nxt, prv_set_prv by links_dom. by rewrite decide_True. }
  exists m'. split.
  - unfold LinkedListEnqueue. cbn [Head]. erewrite st_bind_ok by exact Hins.
    st_step load_ok by (unfold m'; links_dom). cbn [Next]. by rewrite Hn.
  - split; [apply NoDup_singleton|]. split; [done|]. by split.
Qed.

(** Two threads wait; the second one is put on the queue again. *)
Definition ring12 : store :=
  {[ 1%positive := mkLink (Some 2%positive) (Some 2%positive); 2%positive := mkLink (Some 1%positive) (Some 1%positive) ]}.

Lemma relink_loses_witness :
  exists m', LinkedListEnqueue (Some 2%positive) (mkList (Some 1%positive)) ring12 = Ok (mkList (Some 2%positive), m') /\
    ring_of m' (mkList (Some 2%positive)) [2%positive].
Proof.
  apply (relink_loses ring12 1%positive [] 2%positive). split.
  - apply (bool_decide_unpack _). vm_compute. exact I.
  - split; [reflexivity|]. split; [split; reflexivity|]. split; [split; reflexivity|]. exact I.
Defined.
