(* ===== verification/AtomicList.v ===== *)
(** * The lock-free stack (utils/atomiclist.c, utils/types.c)

    The two operations as machines whose steps are the accesses to the shared list, so
    that interrupts can run between any two of them. *)

From S2P Require Import Prelude LinkedList.

(** ** Memory *)

(** On the modelled target [DOUBLE_COUNT] is 64 bits wide, so [Head.Atomic] overlays
    [Head.Tuple.Pointer] only; [Generation] lies behind it. *)
Record ATOMIC_LIST := mkAL { Pointer : ptr; Generation : Z; Nexts : gmap loc ptr }.

Definition set_Pointer (p : ptr) (s : ATOMIC_LIST) := mkAL p (Generation s) (Nexts s).
Definition set_Next (n : loc) (p : ptr) (s : ATOMIC_LIST) := mkAL (Pointer s) (Generation s) (<[n := p]> (Nexts s)).
Definition next_in (s : ATOMIC_LIST) (n : loc) : ptr := default None (Nexts s !! n).

(** utils/types.c: both return the value that was there. *)
Definition CompareAndSwapPtrs (old next : ptr) (s : ATOMIC_LIST) : ptr * ATOMIC_LIST :=
  (Pointer s, if bool_decide (Pointer s = old) then set_Pointer next s else s).
Definition DoubleCompareAndSwap (old next : ptr) (s : ATOMIC_LIST) : ptr * ATOMIC_LIST :=
  CompareAndSwapPtrs old next s.

Definition AtomicListInit (s : ATOMIC_LIST) : ATOMIC_LIST := mkAL None 0 (Nexts s).

(** ** Push *)

(** Before [node->Next = list->Head.Tuple.Pointer], before the second read of the head
    (the [old] argument), before the swap, and after the loop. *)
Inductive push_pc := PRead | PReread | PSwap (old : ptr) | PDone.

Definition push_step (node : loc) (pc : push_pc) (s : ATOMIC_LIST) : push_pc * ATOMIC_LIST :=
  match pc with
  | PRead => (PReread, set_Next node (Pointer s) s)
  | PReread => (PSwap (Pointer s), s)
  | PSwap old =>
      let '(ret, s) := CompareAndSwapPtrs old (Some node) s in
      (if bool_decide (next_in s node = ret) then PDone else PRead, s)
  | PDone => (PDone, s)
  end.

(** A push without interrupts; three steps are one round of the loop. *)
Definition AtomicListPush (node : loc) (s : ATOMIC_LIST) : ATOMIC_LIST :=
  let '(pc, s) := push_step node PRead s in
  let '(pc, s) := push_step node pc s in
  (push_step node pc s).2.



(** ** Pop *)

Inductive pop_pc := ORead | ONext (node : loc) | OSwap (node : loc) (next : ptr) | ODone (r : ptr).

Definition pop_step (pc : pop_pc) (s : ATOMIC_LIST) : pop_pc * ATOMIC_LIST :=
  match pc with
  | ORead => (match Pointer s with Some n => ONext n | None => ODone None end, s)
  | ONext n => (OSwap n (next_in s n), s)
  | OSwap n next =>
      let '(ret, s) := DoubleCompareAndSwap (Some n) next s in
      (if bool_decide (Some n = ret) then ODone (Some n) else ORead, s)
  | ODone r => (ODone r, s)
  end.

Definition AtomicListPop (s : ATOMIC_LIST) : ptr * ATOMIC_LIST :=
  let '(pc, s) := pop_step ORead s in
  let '(pc, s) := pop_step pc s in
  let '(pc, s) := pop_step pc s in
  (match pc with ODone r => r | _ => None end, s).


(** ** The stack it stands for *)

(** The nodes from [p] on. *)
Fixpoint chain (s : ATOMIC_LIST) (p : ptr) (xs : list loc) : Prop :=
  match xs with
  | [] => p = None
  | x :: xs => p = Some x /\ chain s (next_in s x) xs
  end.

Definition stack (s : ATOMIC_LIST) (xs : list loc) : Prop := NoDup xs /\ chain s (Pointer s) xs.



(** ** Lemmas *)

Lemma next_in_set n p s m : next_in (set_Next n p s) m = if decide (n = m) then p else next_in s m.
Proof. unfold next_in, set_Next. simpl. rewrite lookup_insert. by case_decide. Qed.

Lemma next_in_Pointer p s m : next_in (set_Pointer p s) m = next_in s m.
Proof. done. Qed.

Lemma chain_frame s s' p xs : (forall x, x ∈ xs -> next_in s' x = next_in s x) -> chain s p xs -> chain s' p xs.
Proof.
  revert p. induction xs as [|x xs IH]; intros p Hf; [done|]. intros [-> Hc]. split; [done|].
  rewrite Hf by set_solver. apply IH; [set_solver|done].
Qed.

Lemma chain_set_other n q s p xs : n ∉ xs -> chain s p xs -> chain (set_Next n q s) p xs.
Proof.
  intros Hn. apply chain_frame. intros x Hx. rewrite next_in_set. rewrite decide_False; [done|]. by intros ->.
Qed.

(** Without interrupts a push puts its node on top. *)
Lemma AtomicListPush_eq n s : AtomicListPush n s = set_Pointer (Some n) (set_Next n (Pointer s) s).
Proof.
  unfold AtomicListPush, push_step, CompareAndSwapPtrs. simpl. by rewrite bool_decide_true.
Qed.

Lemma push_stack n s xs : stack s xs -> n ∉ xs -> stack (AtomicListPush n s) (n :: xs).
Proof.
  intros [Hnd Hc] Hn. rewrite AtomicListPush_eq. split; [by apply NoDup_cons|]. split; [done|].
  rewrite next_in_Pointer, next_in_set, decide_True by done.
  apply chain_frame with (set_Next n (Pointer s) s); [done|]. by apply chain_set_other.
Qed.




(** ** Push with interrupts *)
















(** ** Pop *)

Lemma pop_stack s xs : stack s xs -> exists s', AtomicListPop s = (head xs, s') /\ stack s' (tail xs).
Proof.
  intros [Hnd Hc]. unfold AtomicListPop, pop_step, DoubleCompareAndSwap, CompareAndSwapPtrs.
  destruct xs as [|x xs]; simpl in Hc.
  - rewrite Hc. exists s. by split.
  - destruct Hc as [Hp Hc]. rewrite Hp. rewrite !bool_decide_true by done.
    exists (set_Pointer (next_in s x) s). split; [done|]. apply NoDup_cons in Hnd as [_ Hnd]. split; [done|].
    by apply chain_frame with s.
Qed.










(** ** Properties *)


Definition list0 : ATOMIC_LIST := mkAL None 0 ∅.






(** C35: the generation does not protect a pop from other pops: when its node is popped
    with the next one and pushed back before the swap, the swap succeeds and puts the next
    node, which its new owner uses, back on the list. *)
Theorem pop_aba s a b xs :
  stack s (a :: b :: xs) ->
  exists s1 s2, AtomicListPop s = (Some a, s1) /\ AtomicListPop s1 = (Some b, s2) /\
    pop_step ORead s = (ONext a, s) /\ pop_step (ONext a) s = (OSwap a (Some b), s) /\
    stack (AtomicListPush a s2) (a :: xs) /\
    exists s3, pop_step (OSwap a (Some b)) (AtomicListPush a s2) = (ODone (Some a), s3) /\ Pointer s3 = Some b.
Proof.
  intros Hs. destruct (pop_stack s _ Hs) as (s1 & H1 & Hs1). destruct (pop_stack s1 _ Hs1) as (s2 & H2 & Hs2).
  simpl in *. exists s1, s2. split; [done|]. split; [done|]. pose proof Hs as [Hnd [Hp [Hn _]]].
  split; [by rewrite Hp|]. split; [by rewrite Hn|]. split; [|].
  - apply push_stack; [done|]. apply NoDup_cons in Hnd as [Ha _]. set_solver.
  - exists (set_Pointer (Some b) (AtomicListPush a s2)). split; [|done].
    unfold DoubleCompareAndSwap, CompareAndSwapPtrs. assert (Pointer (AtomicListPush a s2) = Some a) as ->
      by (by rewrite AtomicListPush_eq). by rewrite !bool_decide_true.
Qed.

Lemma pop_aba_witness :
  exists s1 s2 : ATOMIC_LIST, exists s3, AtomicListPop (AtomicListPush 1 (AtomicListPush 2 list0)) = (Some 1%positive, s1) /\
    pop_step (OSwap 1%positive (Some 2%positive)) (AtomicListPush 1 s2) = (ODone (Some 1%positive), s3) /\ Pointer s3 = Some 2%positive.
Proof.
  destruct (pop_aba (AtomicListPush 1 (AtomicListPush 2 list0)) 1%positive 2%positive [])
    as (s1 & s2 & H1 & _ & _ & _ & _ & s3 & H2 & H3).
  - apply push_stack; [apply push_stack|].
    + split; [apply NoDup_nil_2|reflexivity].
    + apply not_elem_of_nil.
    + apply (bool_decide_unpack _). vm_compute. exact I.
  - exact (ex_intro _ s1 (ex_intro _ s2 (ex_intro _ s3 (conj H1 (conj H2 H3))))).
Defined.
