(* ===== verification/WeightedLink.v ===== *)
(** * Weighted links (utils/link.h)

    The store of [struct WEIGHTED_LINK] nodes that the heap (timers) and the search
    tree thread through their elements, with one primitive per field access. *)

From S2P Require Import Prelude.

Abbreviation loc := positive.
Abbreviation ptr := (option positive).

Record WEIGHTED_LINK := mkWL {
  Left : ptr;
  Right : ptr;
  Parent : ptr;
  Weight : Z
}.

Abbreviation wstore := (gmap loc WEIGHTED_LINK).

(** [*p]. *)
Definition wload (p : ptr) : St wstore WEIGHTED_LINK := fun m =>
  match p ≫= (m !!.) with Some k => Ok (k, m) | None => Err FNull end.

(** [p->field = v], as an update of the node. *)
Definition wstore_with (f : WEIGHTED_LINK -> WEIGHTED_LINK) (p : ptr) : St wstore unit := fun m =>
  match p ≫= (m !!.), p with
  | Some k, Some a => Ok (tt, <[a := f k]> m)
  | _, _ => Err FNull
  end.

Definition with_Left (v : ptr) (k : WEIGHTED_LINK) := mkWL v (Right k) (Parent k) (Weight k).
Definition with_Right (v : ptr) (k : WEIGHTED_LINK) := mkWL (Left k) v (Parent k) (Weight k).
Definition with_Parent (v : ptr) (k : WEIGHTED_LINK) := mkWL (Left k) (Right k) v (Weight k).
Definition with_Weight (w : Z) (k : WEIGHTED_LINK) := mkWL (Left k) (Right k) (Parent k) w.

Definition set_Left (p v : ptr) : St wstore unit := wstore_with (with_Left v) p.
Definition set_Right (p v : ptr) : St wstore unit := wstore_with (with_Right v) p.
Definition set_Parent (p v : ptr) : St wstore unit := wstore_with (with_Parent v) p.
Definition set_Weight (p : ptr) (w : Z) : St wstore unit := wstore_with (with_Weight w) p.

(** The weight of a node (0 for an address that holds none). *)
Definition weight (m : wstore) (a : loc) : Z :=
  match m !! a with Some k => Weight k | None => 0 end.

(** [m'] holds the same nodes with the same weights, and differs at most at [touched]. *)
Definition same_weights (m m' : wstore) : Prop :=
  (forall a, is_Some (m' !! a) <-> is_Some (m !! a)) /\ (forall a, weight m' a = weight m a).

Lemma wload_ok m a k : m !! a = Some k -> wload (Some a) m = Ok (k, m).
Proof. intros H. unfold wload. simpl. by rewrite H. Qed.

Lemma wstore_with_ok f m a k :
  m !! a = Some k -> wstore_with f (Some a) m = Ok (tt, <[a := f k]> m).
Proof. intros H. unfold wstore_with. simpl. by rewrite H. Qed.

Lemma same_weights_refl m : same_weights m m.
Proof. by split. Qed.

Lemma same_weights_trans m1 m2 m3 :
  same_weights m1 m2 -> same_weights m2 m3 -> same_weights m1 m3.
Proof. intros [H1 H2] [H3 H4]. split; intros a; [rewrite H3; apply H1|rewrite H4; apply H2]. Qed.

(** A field update other than the weight keeps all weights. *)
Lemma same_weights_insert m a k k' :
  m !! a = Some k -> Weight k' = Weight k -> same_weights m (<[a := k']> m).
Proof.
  intros Hk Hw. split; intros b.
  - rewrite lookup_insert_is_Some'. split; [intros [->|]; eauto|auto].
  - unfold weight. rewrite lookup_insert. case_decide as Hd; [subst b; by rewrite Hk|done].
Qed.

#[export] Instance same_weights_preorder : PreOrder same_weights.
Proof. split; [intros m; apply same_weights_refl|intros m1 m2 m3; apply same_weights_trans]. Qed.

(** The store after an update through a pointer that may be [NULL]. *)
Definition upd (p : ptr) (f : WEIGHTED_LINK -> WEIGHTED_LINK) (m : wstore) : wstore :=
  match p with Some a => alter f a m | None => m end.

Definition valid_ptr (m : wstore) (p : ptr) : Prop :=
  match p with Some a => is_Some (m !! a) | None => True end.

Lemma upd_lookup p f m x :
  upd p f m !! x = if decide (p = Some x) then f <$> m !! x else m !! x.
Proof.
  destruct p as [a|]; simpl; [|done]. rewrite lookup_alter.
  destruct (decide (a = x)) as [->|]; [by rewrite decide_True|by rewrite decide_False by congruence].
Qed.

Lemma upd_valid p f m q : valid_ptr m q -> valid_ptr (upd p f m) q.
Proof.
  destruct q as [x|]; [|done]. simpl. rewrite upd_lookup. case_decide; [|done].
  by rewrite fmap_is_Some.
Qed.

Lemma wstore_upd f p m :
  p <> None -> valid_ptr m p -> wstore_with f p m = Ok (tt, upd p f m).
Proof.
  destruct p as [a|]; [|done]. intros _ [k Hk]. rewrite (wstore_with_ok f m a k Hk).
  do 2 f_equal. simpl. symmetry. apply map_eq. intros b. rewrite lookup_alter, lookup_insert.
  case_decide; [subst; by rewrite Hk|done].
Qed.

(** [if( p != NULL ) p->Parent = v;] *)
Lemma cond_set_Parent p v m :
  valid_ptr m p ->
  (if decide (p <> None) then set_Parent p v else mret tt) m = Ok (tt, upd p (with_Parent v) m).
Proof.
  intros Hv. destruct p as [a|].
  - rewrite decide_True by done. by apply wstore_upd.
  - by rewrite decide_False by auto.
Qed.

(** One field or another, by a condition. *)
Lemma cond_upd (P : Prop) `{!Decision P} f g p m :
  p <> None -> valid_ptr m p ->
  (if decide P then wstore_with f p else wstore_with g p) m = Ok (tt, upd p (if bool_decide P then f else g) m).
Proof.
  intros Hp Hv. case_decide; [rewrite bool_decide_true by done|rewrite bool_decide_false by done]; by apply wstore_upd.
Qed.

Lemma upd_same_weights p f m :
  (forall k, Weight (f k) = Weight k) -> same_weights m (upd p f m).
Proof.
  intros Hf. split; intros x; unfold weight; rewrite upd_lookup; case_decide.
  - by rewrite fmap_is_Some.
  - done.
  - destruct (m !! x); simpl; [apply Hf|done].
  - done.
Qed.

Ltac solve_valid := first [done | repeat apply upd_valid; auto; done].

(** ** Numbers as weights *)

Definition is_int (z : Z) : Prop := - 2 ^ 31 <= z < 2 ^ 31.

(** [%ld] of an unsigned number. *)
Definition signed64 (z : Z) : Z := (z + 2 ^ 63) mod 2 ^ 64 - 2 ^ 63.

Lemma weight_int v : is_int v -> w64 v = if v <? 0 then v + 2 ^ 64 else v.
Proof.
  unfold is_int, wrap. intros H. zcases; [|apply Z.mod_small; lia].
  rewrite <- (Z.mod_add v 1) by lia. apply Z.mod_small. lia.
Qed.

Lemma weight_inj v w : is_int v -> is_int w -> w64 v = w64 w -> v = w.
Proof. intros Hv Hw. rewrite !weight_int by done. unfold is_int in *. zcases; lia. Qed.

Lemma signed64_weight v : is_int v -> signed64 (w64 v) = v.
Proof.
  intros Hv. rewrite weight_int by done. unfold is_int, signed64 in *. zcases.
  - rewrite <- (Z.mod_add _ (-1)) by lia. rewrite Z.mod_small; lia.
  - rewrite Z.mod_small; lia.
Qed.

Lemma fmap_Some_perm {A} (l k : list A) : Some <$> l ≡ₚ Some <$> k -> l ≡ₚ k.
Proof.
  assert (forall l : list A, omap id (Some <$> l) = l) as E by (intros l'; induction l' as [|x l' IH]; [done|]; cbn; f_equal; exact IH).
  intros H. by rewrite <- (E l), <- (E k), H.
Qed.

