(* ===== verification/Avl.v ===== *)
(** * The search tree (utils/avl.c)

    An unbalanced binary search tree of weighted links with parent pointers.  The
    operations refine functions on inductive trees; a deletion is read through the
    context of the deleted node. *)

From stdpp Require Import sorting.
From S2P Require Import Prelude WeightedLink.

Record AVL_TREE := mkTree { Head : ptr }.

(** ** Operations *)

(** The [while( true )] loop of [AvlAdd]. *)
Fixpoint AddDescend (fuel : nat) (node parent : ptr) : St wstore ptr :=
  match fuel with
  | O => fail FFuel
  | S fuel =>
      n ← wload node;
      p ← wload parent;
      if Weight n >? Weight p then
        if decide (Right p <> None) then AddDescend fuel node (Right p) else mret parent
      else
        if decide (Left p <> None) then AddDescend fuel node (Left p) else mret parent
  end.

Definition AvlAdd (w : Z) (node : ptr) (tree : AVL_TREE) : St wstore AVL_TREE :=
  assert (bool_decide (node <> None));;
  set_Weight node w;;
  set_Left node None;;
  set_Right node None;;
  let parent := Head tree in
  if decide (parent = None) then
    set_Parent node None;;
    mret (mkTree node)
  else
    fuel ← gets size;
    parent ← AddDescend fuel node parent;
    assert (bool_decide (parent <> None));;
    n ← wload node;
    p ← wload parent;
    (if Weight n >? Weight p then
      assert (bool_decide (Right p = None));;
      set_Right parent node;;
      set_Parent node parent
    else
      assert (bool_decide (Left p = None));;
      set_Left parent node;;
      set_Parent node parent);;
    mret tree.

Fixpoint FindFrom (fuel : nat) (w : Z) (node : ptr) : St wstore ptr :=
  if decide (node = None) then mret None else
  match fuel with
  | O => fail FFuel
  | S fuel =>
      n ← wload node;
      if Weight n =? w then mret node
      else if w >? Weight n then FindFrom fuel w (Right n)
      else FindFrom fuel w (Left n)
  end.

Definition AvlFind (w : Z) (tree : AVL_TREE) : St wstore ptr :=
  fuel ← gets size;
  FindFrom fuel w (Head tree).

Definition AvlInit : AVL_TREE := mkTree None.

(** [while( rightMost->Right != NULL ) rightMost = rightMost->Right;] *)
Fixpoint RightMost (fuel : nat) (node : ptr) : St wstore ptr :=
  match fuel with
  | O => fail FFuel
  | S fuel =>
      n ← wload node;
      if decide (Right n <> None) then RightMost fuel (Right n) else mret node
  end.

(** The link from [parent], or the head, to [node] becomes [child]. *)
Definition Relink (parent node child : ptr) (tree : AVL_TREE) : St wstore AVL_TREE :=
  if decide (parent <> None) then
    p ← wload parent;
    (if decide (Left p = node) then set_Left parent child
    else
      assert (bool_decide (Right p = node));;
      set_Right parent child);;
    mret tree
  else
    assert (bool_decide (Head tree = node));;
    mret (mkTree child).

(** The last case of [AvlDelete] asserts [parent->Right = node], an assignment. *)
Definition RelinkRight (parent node child : ptr) (tree : AVL_TREE) : St wstore AVL_TREE :=
  if decide (parent <> None) then
    p ← wload parent;
    (if decide (Left p = node) then set_Left parent child
    else
      set_Right parent node;;
      assert (bool_decide (node <> None));;
      set_Right parent child);;
    mret tree
  else
    assert (bool_decide (Head tree = node));;
    mret (mkTree child).

(** The four cases of [AvlDelete], which take [node] out of the tree. *)
Definition Unlink (node parent left right : ptr) (tree : AVL_TREE) : St wstore AVL_TREE :=
  if decide (left = None /\ right = None) then Relink parent node None tree
  else if decide (left <> None /\ right <> None) then
    set_Parent left parent;;
    tree ← Relink parent node left tree;
    fuel ← gets size;
    rightMost ← RightMost fuel left;
    set_Right rightMost right;;
    set_Parent right rightMost;;
    mret tree
  else if decide (left <> None) then
    set_Parent left parent;;
    Relink parent node left tree
  else
    assert (bool_decide (right <> None /\ left = None));;
    set_Parent right parent;;
    RelinkRight parent node right tree.

Definition AvlDelete (node : ptr) (tree : AVL_TREE) : St wstore AVL_TREE :=
  assert (bool_decide (node <> None));;
  n ← wload node;
  tree ← Unlink node (Parent n) (Left n) (Right n) tree;
  set_Parent node None;;
  set_Left node None;;
  set_Right node None;;
  mret tree.

(** ** Trees *)

Inductive tree := Leaf | Node (l : tree) (a : loc) (r : tree).

Fixpoint inorder (t : tree) : list loc :=
  match t with Leaf => [] | Node l a r => inorder l ++ a :: inorder r end.

(** [p] points to the tree [t] whose root has the parent [par]. *)
Fixpoint trep (m : wstore) (par p : ptr) (t : tree) : Prop :=
  match t with
  | Leaf => p = None
  | Node l a r => p = Some a /\ exists k, m !! a = Some k /\ Parent k = par /\
      trep m (Some a) (Left k) l /\ trep m (Some a) (Right k) r
  end.

Definition sorted (m : wstore) (xs : list loc) : Prop := StronglySorted (fun a b => weight m a <= weight m b) xs.

Definition avl_rep (m : wstore) (tr : AVL_TREE) (t : tree) : Prop :=
  trep m None (Head tr) t /\ NoDup (inorder t).

Fixpoint tree_insert (wt : loc -> Z) (n : loc) (t : tree) : tree :=
  match t with
  | Leaf => Node Leaf n Leaf
  | Node l a r => if wt n >? wt a then Node l a (tree_insert wt n r) else Node (tree_insert wt n l) a r
  end.

(** [r] below the rightmost node of [l]. *)
Fixpoint graft (l r : tree) : tree :=
  match l with
  | Leaf => r
  | Node ll x lr => Node ll x (graft lr r)
  end.

(** The position of a subtree. *)
Inductive tctx := Top | InLeft (c : tctx) (x : loc) (r : tree) | InRight (l : tree) (x : loc) (c : tctx).

Fixpoint plug (c : tctx) (t : tree) : tree :=
  match c with
  | Top => t
  | InLeft c x r => plug c (Node t x r)
  | InRight l x c => plug c (Node l x t)
  end.

Fixpoint before (c : tctx) : list loc :=
  match c with Top => [] | InLeft c _ _ => before c | InRight l x c => before c ++ inorder l ++ [x] end.
Fixpoint behind (c : tctx) : list loc :=
  match c with Top => [] | InLeft c x r => x :: inorder r ++ behind c | InRight _ _ c => behind c end.

(** The context is in the store, its hole is reached from [par] through [p]. *)
Fixpoint crep (m : wstore) (h : ptr) (c : tctx) (par p : ptr) : Prop :=
  match c with
  | Top => par = None /\ p = h
  | InLeft c x r => par = Some x /\ exists k, m !! x = Some k /\ Left k = p /\
      trep m (Some x) (Right k) r /\ crep m h c (Parent k) (Some x)
  | InRight l x c => par = Some x /\ exists k, m !! x = Some k /\ Right k = p /\
      trep m (Some x) (Left k) l /\ crep m h c (Parent k) (Some x)
  end.

(** ** Lemmas *)

Lemma trep_frame m m' par p t : (forall a, a ∈ inorder t -> m' !! a = m !! a) -> trep m par p t -> trep m' par p t.
Proof.
  revert par p. induction t as [|l IHl a r IHr]; intros par p Hf; [done|]. intros (-> & k & Hk & Hp & Hl & Hr).
  split; [done|]. exists k. simpl in Hf. split; [rewrite Hf; [done|set_solver]|]. split; [done|].
  split; [apply IHl; [set_solver|done]|apply IHr; [set_solver|done]].
Qed.

Lemma crep_frame m m' h c par p :
  (forall a, a ∈ before c ++ behind c -> m' !! a = m !! a) -> crep m h c par p -> crep m' h c par p.
Proof.
  revert par p. induction c as [|c IH x r|l x c IH]; intros par p Hf; [done|..]; simpl in Hf;
    intros (-> & k & Hk & Hp & Ht & Hc); (split; [done|]); exists k;
    (split; [rewrite Hf; [done|set_solver]|]); (split; [done|]);
    (split; [eapply trep_frame; [|done]; set_solver|apply IH; [set_solver|done]]).
Qed.

Lemma plug_inorder c t : inorder (plug c t) = before c ++ inorder t ++ behind c.
Proof.
  revert t. induction c as [|c IH x r|l x c IH]; intros t; simpl; [by rewrite app_nil_r|..]; rewrite IH; simpl;
    by rewrite <- !app_assoc.
Qed.

Lemma plug_trep m h c t :
  trep m None h (plug c t) <-> exists par p, crep m h c par p /\ trep m par p t.
Proof.
  revert t. induction c as [|c IH x r|l x c IH]; intros t; simpl.
  - split; [intros H; by exists None, h|by intros (par & p & [-> ->] & H)].
  - rewrite IH. split.
    + intros (par & p & Hc & -> & k & Hk & <- & Hl & Hr). exists (Some x), (Left k). split; [|done].
      split; [done|]. by exists k.
    + intros (par & p & (-> & k & Hk & <- & Hr & Hc) & Ht). exists (Parent k), (Some x). split; [done|].
      split; [done|]. by exists k.
  - rewrite IH. split.
    + intros (par & p & Hc & -> & k & Hk & <- & Hl & Hr). exists (Some x), (Right k). split; [|done].
      split; [done|]. by exists k.
    + intros (par & p & (-> & k & Hk & <- & Hr & Hc) & Ht). exists (Parent k), (Some x). split; [done|].
      split; [done|]. by exists k.
Qed.

Lemma find_ctx t a : a ∈ inorder t -> exists c l r, t = plug c (Node l a r).
Proof.
  assert (forall c, a ∈ inorder t -> exists c' l r, plug c t = plug c' (Node l a r)) as H; [|intros Ha; apply (H Top Ha)].
  induction t as [|l IHl x r IHr]; intros c; simpl; [by intros ?%not_elem_of_nil|].
  intros [Ha|Ha]%elem_of_app; [by apply (IHl (InLeft c x r))|].
  apply elem_of_cons in Ha as [->|Ha]; [by exists c, l, r|by apply (IHr (InRight l x c))].
Qed.

Lemma graft_inorder l r : inorder (graft l r) = inorder l ++ inorder r.
Proof. induction l as [|ll _ x lr IH]; simpl; [done|]. by rewrite IH, <- app_assoc. Qed.

(** A path of the tree is no longer than the store. *)
Fixpoint height (t : tree) : nat := match t with Leaf => 0 | Node l _ r => S (Nat.max (height l) (height r)) end.

Lemma height_length t : (height t <= length (inorder t))%nat.
Proof. induction t; simpl; [lia|]. rewrite length_app. simpl. lia. Qed.

Lemma trep_dom m par p t a : trep m par p t -> a ∈ inorder t -> is_Some (m !! a).
Proof.
  revert par p. induction t as [|l IHl x r IHr]; intros par p; simpl; [by intros _ ?%not_elem_of_nil|].
  intros (_ & k & Hk & _ & Hl & Hr) [Ha|[->|Ha]%elem_of_cons]%elem_of_app; eauto.
Qed.

Lemma trep_height m par p t : trep m par p t -> NoDup (inorder t) -> (height t <= size m)%nat.
Proof.
  intros Ht Hnd. etransitivity; [apply height_length|].
  assert (list_to_set (inorder t) ⊆ dom m) as Hsub.
  { intros a. rewrite elem_of_list_to_set, elem_of_dom. by apply trep_dom with par p. }
  apply subseteq_size in Hsub. rewrite size_list_to_set in Hsub by done. by rewrite size_dom in Hsub.
Qed.

(** ** Search *)

Fixpoint tree_find (wt : loc -> Z) (w : Z) (t : tree) : ptr :=
  match t with
  | Leaf => None
  | Node l a r => if wt a =? w then Some a else if w >? wt a then tree_find wt w r else tree_find wt w l
  end.

Lemma weight_at m a k : m !! a = Some k -> weight m a = Weight k.
Proof. unfold weight. by intros ->. Qed.

Lemma FindFrom_ok fuel w m par p t :
  trep m par p t -> (height t <= fuel)%nat -> FindFrom fuel w p m = Ok (tree_find (weight m) w t, m).
Proof.
  revert fuel par p. induction t as [|l IHl a r IHr]; intros fuel par p.
  - intros -> _. by destruct fuel.
  - intros (-> & k & Hk & _ & Hl & Hr) Hf. destruct fuel as [|fuel]; simpl in Hf; [lia|].
    cbn [FindFrom tree_find]. rewrite decide_False by done. st_step wload_ok by exact Hk.
    rewrite (weight_at m a k Hk). destruct (Weight k =? w); [done|].
    destruct (w >? Weight k); [eapply IHr|eapply IHl]; try done; lia.
Qed.

Lemma sorted_app m xs a ys : sorted m (xs ++ a :: ys) ->
  sorted m xs /\ sorted m ys /\ (forall x, x ∈ xs -> weight m x <= weight m a) /\
  forall y, y ∈ ys -> weight m a <= weight m y.
Proof.
  unfold sorted. induction xs as [|x xs IH]; simpl; intros H; apply StronglySorted_inv in H as [H1 H2].
  - split; [constructor|]. split; [done|]. split; [by intros x ?%not_elem_of_nil|]. by rewrite Forall_forall in H2.
  - destruct (IH H1) as (H3 & H4 & H5 & H6). rewrite Forall_forall in H2. split.
    + constructor; [done|]. rewrite Forall_forall. intros y Hy. apply H2. set_solver.
    + split; [done|]. split; [|done]. intros y [->|Hy]%elem_of_cons; [|by apply H5]. apply H2. set_solver.
Qed.

Lemma tree_find_spec m w t : sorted m (inorder t) ->
  match tree_find (weight m) w t with
  | Some a => a ∈ inorder t /\ weight m a = w
  | None => forall a, a ∈ inorder t -> weight m a <> w
  end.
Proof.
  induction t as [|l IHl a r IHr]; simpl; intros Hs; [by intros a ?%not_elem_of_nil|].
  apply sorted_app in Hs as (Hl & Hr & Hlt & Hgt).
  destruct (Z.eqb_spec (weight m a) w) as [E|E]; [split; [set_solver|done]|].
  rewrite Z.gtb_ltb. destruct (Z.ltb_spec (weight m a) w) as [Hlw|Hlw].
  - specialize (IHr Hr). destruct (tree_find (weight m) w r) as [b|]; [split; [set_solver|apply IHr]|].
    intros b [Hb|[->|Hb]%elem_of_cons]%elem_of_app; [specialize (Hlt b Hb); lia|done|by apply IHr].
  - specialize (IHl Hl). destruct (tree_find (weight m) w l) as [b|]; [split; [set_solver|apply IHl]|].
    intros b [Hb|[->|Hb]%elem_of_cons]%elem_of_app; [by apply IHl|done|specialize (Hgt b Hb); lia].
Qed.

(** ** Insertion *)

(** The link of the leaf position: [q]'s pointer on the side of [n]. *)
Definition hang (right : bool) (n : loc) (k : WEIGHTED_LINK) : WEIGHTED_LINK :=
  if right then with_Right (Some n) k else with_Left (Some n) k.

Lemma AddDescend_ok fuel n m par x t :
  trep m par (Some x) t -> NoDup (inorder t) -> is_Some (m !! n) -> n ∉ inorder t -> (height t <= fuel)%nat ->
  exists q k, AddDescend fuel (Some n) (Some x) m = Ok (Some q, m) /\ m !! q = Some k /\ q ∈ inorder t /\
    (if weight m n >? weight m q then Right k = None else Left k = None) /\
    forall m' w, (forall a, a ∈ inorder t -> a <> q -> m' !! a = m !! a) ->
      m' !! q = Some (hang (weight m n >? weight m q) n k) -> m' !! n = Some (mkWL None None (Some q) w) ->
      trep m' par (Some x) (tree_insert (weight m) n t).
Proof.
  intros Ht Hnd [kn Hkn] Hn. revert fuel par x Ht. induction t as [|l IHl a r IHr]; intros fuel par x Ht Hf; [done|].
  destruct Ht as ([= <-] & k & Hk & Hpar & Hl & Hr). simpl in Hnd, Hn, Hf.
  apply NoDup_app in Hnd as (Hndl & Hd & Hnd). apply NoDup_cons in Hnd as [Hxr Hndr].
  assert (x ∉ inorder l) as Hxl by (intros ?; apply (Hd x); set_solver).
  destruct fuel as [|fuel]; [lia|]. cbn [AddDescend].
  st_step wload_ok by exact Hkn. st_step wload_ok by exact Hk. cbn [tree_insert].
  rewrite <- (weight_at m n kn Hkn), <- (weight_at m x k Hk).
  destruct (weight m n >? weight m x) eqn:Hside.
  - destruct (Right k) as [y|] eqn:Hy.
    + rewrite decide_True by done. destruct r as [|rl y' rr]; [done|].
      destruct (IHr Hndr ltac:(set_solver) fuel (Some x) y Hr ltac:(lia)) as (q & kq & Hrun & Hq & Hin & Hnone & Hins).
      exists q, kq. split; [done|]. split; [done|]. split; [simpl in *; set_solver|]. split; [done|].
      intros m' w Hf' Hq' Hn'. split; [done|]. exists k. assert (q <> x) as Hqx by (intros ->; done).
      split; [rewrite Hf'; [done|simpl; set_solver|done]|]. split; [done|]. split.
      * eapply trep_frame; [|exact Hl]. intros b Hb. apply Hf'; [simpl; set_solver|].
        intros ->. apply (Hd q Hb). set_solver.
      * rewrite Hy. apply Hins with w; [|done|done]. intros b Hb. apply Hf'. simpl in *. set_solver.
    + rewrite decide_False by auto. exists x, k. split; [done|]. split; [done|]. split; [set_solver|]. rewrite Hside.
      split; [done|]. intros m' w Hf' Hq' Hn'. split; [done|]. exists (with_Right (Some n) k). split; [done|]. split; [done|].
      destruct r as [|]; [|by destruct Hr]. split.
      * eapply trep_frame; [|exact Hl]. intros b Hb. apply Hf'; [simpl; set_solver|]. by intros ->.
      * simpl. split; [done|]. by exists (mkWL None None (Some x) w).
  - destruct (Left k) as [y|] eqn:Hy.
    + rewrite decide_True by done. destruct l as [|ll y' lr]; [done|].
      destruct (IHl Hndl ltac:(set_solver) fuel (Some x) y Hl ltac:(lia)) as (q & kq & Hrun & Hq & Hin & Hnone & Hins).
      exists q, kq. split; [done|]. split; [done|]. split; [simpl in *; set_solver|]. split; [done|].
      intros m' w Hf' Hq' Hn'. split; [done|]. exists k. assert (q <> x) as Hqx by (intros ->; done).
      split; [rewrite Hf'; [done|simpl; set_solver|done]|]. split; [done|]. split.
      * rewrite Hy. apply Hins with w; [|done|done]. intros b Hb. apply Hf'. simpl in *. set_solver.
      * eapply trep_frame; [|exact Hr]. intros b Hb. apply Hf'; [simpl; set_solver|].
        intros ->. apply (Hd q Hin). set_solver.
    + rewrite decide_False by auto. exists x, k. split; [done|]. split; [done|]. split; [set_solver|]. rewrite Hside.
      split; [done|]. intros m' w Hf' Hq' Hn'. split; [done|]. exists (with_Left (Some n) k). split; [done|]. split; [done|].
      destruct l as [|]; [|by destruct Hl]. split.
      * simpl. split; [done|]. by exists (mkWL None None (Some x) w).
      * eapply trep_frame; [|exact Hr]. intros b Hb. apply Hf'; [simpl; set_solver|]. by intros ->.
Qed.

Lemma tree_insert_inorder m n t : sorted m (inorder t) ->
  exists xs ys, inorder t = xs ++ ys /\ inorder (tree_insert (weight m) n t) = xs ++ n :: ys /\
    (forall x, x ∈ xs -> weight m x < weight m n) /\ forall y, y ∈ ys -> weight m n <= weight m y.
Proof.
  induction t as [|l IHl a r IHr]; simpl; intros Hs.
  { exists [], []. split_and!; try done; by intros x ?%not_elem_of_nil. }
  apply sorted_app in Hs as (Hl & Hr & Hlt & Hgt). rewrite Z.gtb_ltb. destruct (Z.ltb_spec (weight m a) (weight m n)) as [H|H].
  - destruct (IHr Hr) as (xs & ys & E1 & E2 & Hx & Hy). exists (inorder l ++ a :: xs), ys. simpl. rewrite E1, E2, <- !app_assoc.
    split; [done|]. split; [done|]. split; [|done].
    intros x [Hx'|[->|Hx']%elem_of_cons]%elem_of_app; [specialize (Hlt x Hx'); lia|done|by apply Hx].
  - destruct (IHl Hl) as (xs & ys & E1 & E2 & Hx & Hy). exists xs, (ys ++ a :: inorder r). simpl. rewrite E1, E2, <- !app_assoc.
    split; [done|]. split; [done|]. split; [done|].
    intros y [Hy'|[->|Hy']%elem_of_cons]%elem_of_app; [by apply Hy|done|specialize (Hgt y Hy'); lia].
Qed.

Lemma tree_insert_perm wt n t : inorder (tree_insert wt n t) ≡ₚ n :: inorder t.
Proof.
  induction t as [|l IHl a r IHr]; simpl; [done|]. destruct (wt n >? wt a); simpl.
  - rewrite IHr. rewrite (Permutation_swap n a), Permutation_middle. done.
  - by rewrite IHl.
Qed.

Lemma tree_insert_ext wt wt' n t : (forall a, wt a = wt' a) -> tree_insert wt n t = tree_insert wt' n t.
Proof. intros H. induction t as [|l IHl a r IHr]; simpl; [done|]. by rewrite !H, IHl, IHr. Qed.

(** The new link below [q], on the side [right]. *)
Definition hung (right : bool) (q n : loc) (kq : WEIGHTED_LINK) (w : Z) (m : wstore) : wstore :=
  <[n := mkWL None None (Some q) w]> (<[q := hang right n kq]> m).

Lemma hang_run m (right : bool) q n kq p w :
  m !! q = Some kq -> m !! n = Some (mkWL None None p w) -> q <> n -> (if right then Right kq = None else Left kq = None) ->
  (if right then assert (bool_decide (Right kq = None));; set_Right (Some q) (Some n);; set_Parent (Some n) (Some q)
   else assert (bool_decide (Left kq = None));; set_Left (Some q) (Some n);; set_Parent (Some n) (Some q)) m
  = Ok (tt, hung right q n kq w m).
Proof.
  intros Hq Hn Hne Hnone. unfold hung, hang. destruct right; (st_step assert_true by (by apply bool_decide_eq_true));
    unfold set_Right, set_Left, set_Parent; (st_step wstore_with_ok by exact Hq);
    (rewrite (wstore_with_ok _ _ n (mkWL None None p w)); [done|by rewrite lookup_insert_ne]).
Qed.

Lemma hung_weight m right q n kq p w a :
  m !! q = Some kq -> m !! n = Some (mkWL None None p w) -> weight (hung right q n kq w m) a = weight m a.
Proof.
  intros Hq Hn. unfold hung, weight. rewrite !lookup_insert. case_decide as E1; [subst a; by rewrite Hn|].
  case_decide as E2; [subst a; rewrite Hq; unfold hang; by destruct right|done].
Qed.

(** The first link of a tree. *)
Lemma hung_first m n k w : let m' := <[n := mkWL None None None w]> (<[n := k]> m) in
  avl_rep m' (mkTree (Some n)) (Node Leaf n Leaf) /\ weight m' n = w /\ forall a, a <> n -> m' !! a = m !! a.
Proof.
  cbv zeta. rewrite insert_insert_eq. split; [split|split].
  - split; [done|]. eexists. split; [apply lookup_insert_eq|done].
  - apply NoDup_singleton.
  - unfold weight. by rewrite lookup_insert_eq.
  - intros a Ha. by rewrite lookup_insert_ne.
Qed.

Lemma AvlAdd_ok m tr t n w :
  avl_rep m tr t -> is_Some (m !! n) -> n ∉ inorder t ->
  exists m' tr', AvlAdd w (Some n) tr m = Ok (tr', m') /\
    avl_rep m' tr' (tree_insert (weight m') n t) /\ weight m' n = w /\
    (forall a, a <> n -> weight m' a = weight m a) /\ (forall a, a ∉ n :: inorder t -> m' !! a = m !! a).
Proof.
  intros [Ht Hnd] [k0 Hk0] Hn. set (m1 := <[n := mkWL None None (Parent k0) w]> m).
  assert (m1 !! n = Some (mkWL None None (Parent k0) w)) as Hn1 by apply lookup_insert_eq.
  assert (forall a, a <> n -> m1 !! a = m !! a) as Hf1 by (intros a Ha; unfold m1; by rewrite lookup_insert_ne).
  assert (trep m1 None (Head tr) t) as Ht1 by (eapply trep_frame; [|exact Ht]; intros a Ha; apply Hf1; by intros ->).
  unfold AvlAdd. st_step assert_true. unfold set_Weight, set_Left, set_Right.
  st_step wstore_with_ok by exact Hk0. st_step wstore_with_ok by apply lookup_insert_eq.
  st_step wstore_with_ok by apply lookup_insert_eq. rewrite !insert_insert_eq. fold m1.
  destruct (Head tr) as [x|] eqn:Hh.
  - rewrite decide_False by done. unfold mbind at 1, st_bind at 1, gets at 1.
    destruct (AddDescend_ok (size m1) n m1 None x t Ht1 Hnd) as (q & kq & Hrun & Hq & Hin & Hnone & Hins);
      [by eexists|done|by apply trep_height with None (Some x)|].
    rewrite (st_bind_ok _ _ _ _ _ Hrun). st_step assert_true. st_step wload_ok by exact Hn1. st_step wload_ok by exact Hq.
    assert (q <> n) as Hqn by (by intros ->). cbn [Weight]. pose proof (weight_at m1 n _ Hn1 : weight m1 n = w) as Hw1.
    set (b := weight m1 n >? weight m1 q) in *.
    assert ((w >? Weight kq) = b) as -> by (unfold b; by rewrite Hw1, (weight_at m1 q kq Hq)).
    rewrite (st_bind_ok _ _ _ _ _ (hang_run m1 b q n kq _ w Hq Hn1 Hqn Hnone)).
    exists (hung b q n kq w m1), tr. split; [done|].
    assert (forall a, weight (hung b q n kq w m1) a = weight m1 a) as Hwt by (intros a; by apply hung_weight with (Parent k0)).
    rewrite (tree_insert_ext _ _ n t Hwt). split; [split|split; [by rewrite Hwt|split]].
    + rewrite Hh. apply Hins with w; unfold hung; [|by rewrite lookup_insert_ne, lookup_insert_eq|apply lookup_insert_eq].
      intros a Ha Haq. rewrite !lookup_insert_ne by (intros <-; done). done.
    + rewrite tree_insert_perm. by apply NoDup_cons.
    + intros a Ha. rewrite Hwt. unfold weight. by rewrite Hf1.
    + intros a Ha. unfold hung. rewrite !lookup_insert_ne by set_solver. apply Hf1. set_solver.
  - rewrite decide_True by done. unfold set_Parent. st_step wstore_with_ok by exact Hn1.
    destruct t as [|]; [|by destruct Ht1]. destruct (hung_first m n (mkWL None None (Parent k0) w) w) as (Hrep & Hw & Hf).
    fold m1 in Hrep, Hw, Hf.
    eexists _, _. split; [reflexivity|]. split; [exact Hrep|]. split; [exact Hw|]. split.
    + intros a Ha. unfold weight. by rewrite <- (Hf a Ha).
    + intros a Ha. apply Hf. set_solver.
Qed.

(** ** Deletion *)

Lemma trep_root m par p l x r : trep m par p (Node l x r) -> p = Some x.
Proof. by intros [-> _]. Qed.

Lemma trep_not_root m par p t a : trep m par p t -> a ∉ inorder t -> p <> Some a.
Proof. destruct t as [|l x r]; simpl; [by intros -> _|]. intros [-> _] Ha [= ->]. apply Ha. set_solver. Qed.

Lemma assert_bind {S A} (b : bool) (k : St S A) : b = true -> (assert b;; k) = k.
Proof. by intros ->. Qed.

(** The tree below a node whose parent link changes. *)
Lemma trep_reparent m par par' x k t :
  trep m par (Some x) t -> NoDup (inorder t) -> m !! x = Some k ->
  trep (<[x := with_Parent par' k]> m) par' (Some x) t.
Proof.
  destruct t as [|l y r]; [done|]. intros ([= ->] & k' & Hk' & _ & Hl & Hr) Hnd Hk.
  assert (k' = k) as -> by congruence. simpl in Hnd.
  apply NoDup_app in Hnd as (_ & Hd & Hnd). apply NoDup_cons in Hnd as [Hyr _].
  split; [done|]. exists (with_Parent par' k). rewrite lookup_insert_eq. split; [done|]. split; [done|].
  split; (eapply trep_frame; [|done]); intros b Hb; rewrite lookup_insert_ne; try done.
  - intros <-. apply (Hd y Hb). set_solver.
  - by intros <-.
Qed.

Definition same_at (m m' : wstore) (b : loc) : Prop := m' !! b = m !! b.

Lemma Relink_ok m tr c par a np :
  crep m (Head tr) c par (Some a) -> NoDup (before c ++ behind c) -> a ∉ before c ++ behind c ->
  exists m' tr', Relink par (Some a) np tr m = Ok (tr', m') /\ crep m' (Head tr') c par np /\
    same_weights m m' /\ forall b, b ∉ before c ++ behind c -> m' !! b = m !! b.
Proof.
  intros Hc Hnd Ha. unfold Relink. destruct c as [|c x r|l x c].
  - destruct Hc as [-> Hh]. rewrite decide_False by auto. st_step assert_true by (by apply bool_decide_eq_true).
    exists m, (mkTree np). by split_and!.
  - destruct Hc as (-> & k & Hk & Hlk & Hr & Hc). rewrite decide_True by done. st_step wload_ok by exact Hk.
    rewrite decide_True by done. unfold set_Left. st_step wstore_with_ok by exact Hk.
    exists (<[x := with_Left np k]> m), tr. split; [done|]. simpl in Hnd, Ha.
    assert (x ∉ before c ++ inorder r ++ behind c) as Hx.
    { rewrite <- Permutation_middle in Hnd. by apply NoDup_cons in Hnd as [? _]. }
    split; [|split; [by apply same_weights_insert with k|intros b Hb; rewrite lookup_insert_ne; set_solver]].
    split; [done|]. exists (with_Left np k). rewrite lookup_insert_eq. split; [done|]. split; [done|]. split.
    + eapply trep_frame; [|exact Hr]. intros b Hb. rewrite lookup_insert_ne; [done|]. intros <-. apply Hx. set_solver.
    + eapply crep_frame; [|exact Hc]. intros b Hb. rewrite lookup_insert_ne; [done|]. intros <-. apply Hx. set_solver.
  - destruct Hc as (-> & k & Hk & Hrk & Hl & Hc). rewrite decide_True by done. st_step wload_ok by exact Hk.
    simpl in Hnd, Ha. rewrite decide_False by (eapply trep_not_root; [exact Hl|set_solver]).
    rewrite assert_bind by (by apply bool_decide_eq_true). unfold set_Right. st_step wstore_with_ok by exact Hk.
    exists (<[x := with_Right np k]> m), tr. split; [done|].
    assert (x ∉ before c ++ inorder l ++ behind c) as Hx.
    { assert ((before c ++ inorder l ++ [x]) ++ behind c ≡ₚ x :: before c ++ inorder l ++ behind c) as Hp.
      { rewrite <- !app_assoc. simpl. rewrite <- !Permutation_middle. done. }
      rewrite Hp in Hnd. by apply NoDup_cons in Hnd as [? _]. }
    split; [|split; [by apply same_weights_insert with k|intros b Hb; rewrite lookup_insert_ne; set_solver]].
    split; [done|]. exists (with_Right np k). rewrite lookup_insert_eq. split; [done|]. split; [done|]. split.
    + eapply trep_frame; [|exact Hl]. intros b Hb. rewrite lookup_insert_ne; [done|]. intros <-. apply Hx. set_solver.
    + eapply crep_frame; [|exact Hc]. intros b Hb. rewrite lookup_insert_ne; [done|]. intros <-. apply Hx. set_solver.
Qed.

(** The assignment in the assertion stores what is there already. *)
Lemma RelinkRight_eq m tr c par a np :
  crep m (Head tr) c par (Some a) -> a ∉ before c ++ behind c ->
  RelinkRight par (Some a) np tr m = Relink par (Some a) np tr m.
Proof.
  intros Hc Ha. unfold RelinkRight, Relink. destruct c as [|c x r|l x c].
  - destruct Hc as [-> Hh]. by rewrite !decide_False by auto.
  - destruct Hc as (-> & k & Hk & Hlk & Hr & Hc). rewrite !decide_True by done.
    rewrite !(st_bind_ok _ _ _ _ _ (wload_ok m x k Hk)). by rewrite !decide_True.
  - destruct Hc as (-> & k & Hk & Hrk & Hl & Hc). rewrite !decide_True by done.
    rewrite !(st_bind_ok _ _ _ _ _ (wload_ok m x k Hk)). simpl in Ha.
    rewrite !decide_False by (eapply trep_not_root; [exact Hl|set_solver]). unfold set_Right, mbind, st_bind.
    rewrite (wstore_with_ok _ m x k Hk). rewrite !assert_true by (by apply bool_decide_eq_true).
    rewrite (wstore_with_ok _ _ x (with_Right (Some a) k)) by apply lookup_insert_eq.
    by rewrite (wstore_with_ok _ m x k Hk), insert_insert_eq.
Qed.

Lemma RightMost_ok fuel m par x l :
  trep m par (Some x) l -> NoDup (inorder l) -> (height l <= fuel)%nat ->
  exists z k, RightMost fuel (Some x) m = Ok (Some z, m) /\ m !! z = Some k /\ Right k = None /\ z ∈ inorder l /\
    forall m' pr r, (forall b, b ∈ inorder l -> b <> z -> m' !! b = m !! b) -> m' !! z = Some (with_Right pr k) ->
      trep m' (Some z) pr r -> trep m' par (Some x) (graft l r).
Proof.
  revert fuel par x. induction l as [|ll _ y lr IH]; intros fuel par x; [done|].
  intros ([= <-] & k & Hk & Hpar & Hl & Hr) Hnd Hf. simpl in Hnd, Hf. destruct fuel as [|fuel]; [lia|].
  apply NoDup_app in Hnd as (Hndl & Hd & Hnd). apply NoDup_cons in Hnd as [Hxr Hndr].
  assert (x ∉ inorder ll) as Hxl by (intros ?; apply (Hd x); set_solver).
  cbn [RightMost graft]. st_step wload_ok by exact Hk. destruct (Right k) as [y'|] eqn:Hy.
  - rewrite decide_True by done.
    destruct (IH fuel (Some x) y' Hr Hndr ltac:(lia)) as (z & kz & Hrun & Hz & Hnone & Hin & Hgr).
    exists z, kz. split; [done|]. split; [done|]. split; [done|]. split; [simpl; set_solver|].
    intros m' pr r Hf' Hz' Hpr. split; [done|]. exists k. assert (z <> x) as Hzx by (by intros ->).
    split; [rewrite Hf'; [done|simpl; set_solver|done]|]. split; [done|]. split.
    + eapply trep_frame; [|exact Hl]. intros b Hb. apply Hf'; [simpl; set_solver|].
      intros ->. apply (Hd z Hb). set_solver.
    + rewrite Hy. apply Hgr with pr; [|done|done]. intros b Hb. apply Hf'. simpl. set_solver.
  - rewrite decide_False by auto. exists x, k. split; [done|]. split; [done|]. split; [done|]. split; [simpl; set_solver|].
    intros m' pr r Hf' Hx' Hpr. split; [done|]. exists (with_Right pr k). split; [done|]. split; [done|].
    destruct lr as [|]; [|by destruct Hr]. split; [|done].
    eapply trep_frame; [|exact Hl]. intros b Hb. apply Hf'; [simpl; set_solver|]. by intros ->.
Qed.

Lemma graft_nil l : graft l Leaf = l.
Proof. induction l as [|ll _ x lr IH]; simpl; [done|]. by rewrite IH. Qed.

(** The final resets of the deleted node. *)
Lemma reset_ok m tr a k :
  m !! a = Some k ->
  (set_Parent (Some a) None;; set_Left (Some a) None;; set_Right (Some a) None;; mret tr : St wstore AVL_TREE) m
  = Ok (tr, <[a := mkWL None None None (Weight k)]> m).
Proof.
  intros Hk. unfold set_Parent, set_Left, set_Right.
  st_step wstore_with_ok by exact Hk. st_step wstore_with_ok by apply lookup_insert_eq.
  st_step wstore_with_ok by apply lookup_insert_eq. by rewrite !insert_insert_eq.
Qed.

(** The links around a node, those below it and the node are apart. *)
Lemma node_apart (b l r f : list loc) a :
  NoDup (b ++ (l ++ a :: r) ++ f) ->
  (NoDup (b ++ f) /\ NoDup l /\ NoDup r /\ NoDup (b ++ (l ++ r) ++ f)) /\
  (a ∉ b ++ f /\ a ∉ l /\ a ∉ r) /\
  (forall x, x ∈ l -> x ∉ r /\ x ∉ b ++ f) /\ forall x, x ∈ r -> x ∉ b ++ f.
Proof.
  rewrite !NoDup_app, NoDup_cons. intros (Hb & Hbd & ((Hl & Hld & Har & Hr) & Hlrd & Hf)).
  split_and!; try done; try set_solver.
Qed.

(** Replacing the link to the node, when a child's parent link is set already. *)
Lemma lift_child m tr c par a x k t :
  crep m (Head tr) c par (Some a) -> trep m (Some a) (Some x) t -> m !! x = Some k ->
  NoDup (before c ++ behind c) -> NoDup (inorder t) -> a ∉ before c ++ behind c ->
  (forall b, b ∈ inorder t -> b ∉ before c ++ behind c) ->
  exists m' tr', Relink par (Some a) (Some x) tr (<[x := with_Parent par k]> m) = Ok (tr', m') /\
    RelinkRight par (Some a) (Some x) tr (<[x := with_Parent par k]> m) = Ok (tr', m') /\
    crep m' (Head tr') c par (Some x) /\ trep m' par (Some x) t /\ same_weights m m' /\
    forall b, b <> x -> b ∉ before c ++ behind c -> m' !! b = m !! b.
Proof.
  intros Hc Ht Hk Hnd Hndt Ha Hd. set (m1 := <[x := with_Parent par k]> m).
  assert (x ∈ inorder t) as Hx by (destruct t as [|? y ?]; [done|destruct Ht as [[= ->] _]; simpl; set_solver]).
  assert (crep m1 (Head tr) c par (Some a)) as Hc1.
  { eapply crep_frame; [|exact Hc]. intros b Hb. unfold m1. rewrite lookup_insert_ne; [done|].
    intros <-. by apply (Hd x Hx). }
  assert (trep m1 par (Some x) t) as Ht1 by (by apply trep_reparent with (Some a)).
  destruct (Relink_ok m1 tr c par a (Some x) Hc1 Hnd Ha) as (m' & tr' & Hrun & Hc' & Hw & Hf).
  exists m', tr'. split; [done|]. split; [by rewrite (RelinkRight_eq m1 tr c par a (Some x) Hc1 Ha)|].
  split; [done|]. split; [eapply trep_frame; [|exact Ht1]; intros b Hb; by apply Hf, Hd|]. split.
  - etransitivity; [|exact Hw]. unfold m1. by apply same_weights_insert with k.
  - intros b Hbx Hb. rewrite Hf by done. unfold m1. by rewrite lookup_insert_ne.
Qed.

(** The right subtree goes below the rightmost link of the left one. *)
Lemma graft_ok m (tr : AVL_TREE) par x l pr y r :
  trep m par (Some x) l -> trep m pr (Some y) r -> NoDup (inorder l) -> NoDup (inorder r) ->
  (forall b, b ∈ inorder l -> b ∉ inorder r) ->
  exists m', (fuel ← gets size; rightMost ← RightMost fuel (Some x);
      set_Right rightMost (Some y);; set_Parent (Some y) rightMost;; mret tr) m = Ok (tr, m') /\
    trep m' par (Some x) (graft l r) /\ same_weights m m' /\
    forall b, b ∉ inorder l -> b ∉ inorder r -> m' !! b = m !! b.
Proof.
  intros Hl Hr Hndl Hndr Hd.
  destruct (RightMost_ok (size m) m par x l Hl Hndl (trep_height _ _ _ _ Hl Hndl)) as (z & kz & Hrun & Hz & _ & Hzl & Hg).
  assert (y ∈ inorder r) as Hyr by (destruct r as [|? y' ?]; [done|destruct Hr as [[= ->] _]; simpl; set_solver]).
  destruct (trep_dom m _ _ _ y Hr Hyr) as [ky Hky].
  assert (z <> y) as Hzy by (intros ->; by apply (Hd y Hzl)).
  set (m1 := <[z := with_Right (Some y) kz]> m). set (m2 := <[y := with_Parent (Some z) ky]> m1).
  assert (m1 !! y = Some ky) as Hky1 by (unfold m1; by rewrite lookup_insert_ne).
  exists m2. unfold mbind at 1, st_bind at 1, gets at 1. split; [|split; [|split]].
  - rewrite (st_bind_ok _ _ _ _ _ Hrun). unfold set_Right, set_Parent.
    st_step wstore_with_ok by exact Hz. st_step wstore_with_ok by exact Hky1. done.
  - apply (Hg m2 (Some y) r).
    + intros b Hb Hbz. unfold m2, m1. rewrite !lookup_insert_ne; [done|done|]. intros ->. by apply (Hd b Hb).
    + unfold m2, m1. by rewrite lookup_insert_ne, lookup_insert_eq.
    + apply trep_reparent with pr; [|done|done]. eapply trep_frame; [|exact Hr].
      intros b Hb. unfold m1. rewrite lookup_insert_ne; [done|]. intros ->. by apply (Hd b Hzl).
  - transitivity m1; [by apply same_weights_insert with kz|by apply same_weights_insert with ky].
  - intros b Hbl Hbr. unfold m2, m1. rewrite !lookup_insert_ne; [done|by intros ->..].
Qed.

(** The case of two children: the left one takes the place of the node. *)
Lemma unlink_both m tr c ll x lr a rl y rr k :
  let l := Node ll x lr in let r := Node rl y rr in
  crep m (Head tr) c (Parent k) (Some a) -> trep m (Some a) (Left k) l -> trep m (Some a) (Right k) r ->
  NoDup (before c ++ (inorder l ++ a :: inorder r) ++ behind c) ->
  exists m' tr' np, Unlink (Some a) (Parent k) (Left k) (Right k) tr m = Ok (tr', m') /\
    crep m' (Head tr') c (Parent k) np /\ trep m' (Parent k) np (graft l r) /\ same_weights m m' /\ m' !! a = m !! a /\
    forall b, b ∉ before c ++ (inorder l ++ a :: inorder r) ++ behind c -> m' !! b = m !! b.
Proof.
  intros l r Hc Hl Hr Hnd. destruct (node_apart _ _ _ _ _ Hnd) as ((Hnc & Hnl & Hnr & _) & (Hac & Hal & Har) & Hdl & Hdr).
  assert (x ∈ inorder l) as Hx by (simpl; set_solver). destruct (trep_dom m _ _ _ x Hl Hx) as [kx Hkx].
  pose proof (trep_root _ _ _ _ _ _ Hl) as El. pose proof (trep_root _ _ _ _ _ _ Hr) as Er. rewrite El, Er in *.
  unfold Unlink. rewrite decide_False, decide_True by naive_solver.
  destruct (lift_child m tr c (Parent k) a x kx l Hc Hl Hkx) as (m' & tr' & Hrun & _ & Hc' & Ht' & Hw & Hf); try done.
  { intros b Hb. by apply Hdl. }
  assert (forall b, b ∈ inorder r -> m' !! b = m !! b) as Hfr.
  { intros b Hb. apply Hf; [|by apply Hdr]. intros ->. by apply (proj1 (Hdl x Hx)). }
  destruct (graft_ok m' tr' (Parent k) x l (Some a) y r Ht') as (m2 & Hrun2 & Ht2 & Hw2 & Hf2); try done.
  { eapply trep_frame; [|exact Hr]. exact Hfr. }
  { intros b Hb. by apply Hdl. }
  exists m2, tr', (Some x). split.
  { unfold set_Parent at 1. st_step wstore_with_ok by exact Hkx. rewrite (st_bind_ok _ _ _ _ _ Hrun). exact Hrun2. }
  split; [|split; [done|split; [by transitivity m'|split]]].
  - eapply crep_frame; [|exact Hc']. intros b Hb. apply Hf2; [intros H; by apply (Hdl b H)|intros H; by apply (Hdr b H)].
  - rewrite Hf2, Hf by (done || by intros ->). done.
  - intros b Hb. rewrite Hf2, Hf; [done|set_solver..].
Qed.

Lemma Unlink_ok m tr c l a r k :
  crep m (Head tr) c (Parent k) (Some a) -> trep m (Some a) (Left k) l -> trep m (Some a) (Right k) r ->
  NoDup (before c ++ (inorder l ++ a :: inorder r) ++ behind c) ->
  exists m' tr' np, Unlink (Some a) (Parent k) (Left k) (Right k) tr m = Ok (tr', m') /\
    crep m' (Head tr') c (Parent k) np /\ trep m' (Parent k) np (graft l r) /\ same_weights m m' /\ m' !! a = m !! a /\
    forall b, b ∉ inorder (plug c (Node l a r)) -> m' !! b = m !! b.
Proof.
  intros Hc Hl Hr Hnd. rewrite plug_inorder.
  destruct (node_apart _ _ _ _ _ Hnd) as ((Hnc & Hnl & Hnr & Hnd') & (Hac & Hal & Har) & Hdl & Hdr). unfold Unlink.
  destruct l as [|ll x lr], r as [|rl y rr].
  - (* a leaf *)
    rewrite Hl, Hr, decide_True by done.
    destruct (Relink_ok m tr c (Parent k) a None Hc Hnc Hac) as (m' & tr' & Hrun & Hc' & Hw & Hf).
    exists m', tr', None. split_and!; try done; [by apply Hf|]. intros b Hb. apply Hf. simpl in Hb. set_solver.
  - (* only a right child *)
    destruct (trep_dom m _ _ _ y Hr) as [ky Hky]; [simpl; set_solver|].
    pose proof (trep_root _ _ _ _ _ _ Hr) as Er. rewrite Hl, Er in *.
    rewrite !decide_False, !assert_bind by naive_solver.
    destruct (lift_child m tr c (Parent k) a y ky (Node rl y rr) Hc Hr Hky) as (m' & tr' & _ & Hrun & Hc' & Ht' & Hw & Hf); try done.
    exists m', tr', (Some y). split; [unfold set_Parent; st_step wstore_with_ok by exact Hky; exact Hrun|].
    split_and!; try done; [apply Hf; [|done]; intros ->; apply Har; simpl; set_solver|].
    intros b Hb. apply Hf; simpl in Hb; set_solver.
  - (* only a left child *)
    destruct (trep_dom m _ _ _ x Hl) as [kx Hkx]; [simpl; set_solver|].
    pose proof (trep_root _ _ _ _ _ _ Hl) as El. rewrite Hr, El in *. rewrite graft_nil.
    rewrite decide_False, decide_False, decide_True by naive_solver.
    destruct (lift_child m tr c (Parent k) a x kx (Node ll x lr) Hc Hl Hkx) as (m' & tr' & Hrun & _ & Hc' & Ht' & Hw & Hf); try done.
    { intros b Hb. by apply Hdl. }
    exists m', tr', (Some x). split; [unfold set_Parent; st_step wstore_with_ok by exact Hkx; exact Hrun|].
    split_and!; try done; [apply Hf; [|done]; intros ->; apply Hal; simpl; set_solver|].
    intros b Hb. apply Hf; simpl in Hb; set_solver.
  - (* both *)
    by apply unlink_both.
Qed.

Lemma AvlDelete_ok m tr c l a r :
  avl_rep m tr (plug c (Node l a r)) ->
  exists m' tr', AvlDelete (Some a) tr m = Ok (tr', m') /\ avl_rep m' tr' (plug c (graft l r)) /\
    same_weights m m' /\ (exists w, m' !! a = Some (mkWL None None None w)) /\
    forall b, b ∉ inorder (plug c (Node l a r)) -> m' !! b = m !! b.
Proof.
  intros [Ht Hnd]. apply plug_trep in Ht as (par & p & Hc & -> & k & Hk & <- & Hl & Hr).
  pose proof Hnd as Hnd0. rewrite plug_inorder in Hnd. simpl in Hnd.
  destruct (node_apart _ _ _ _ _ Hnd) as ((_ & _ & _ & Hnd') & (Hac & Hal & Har) & _).
  destruct (Unlink_ok m tr c l a r k Hc Hl Hr Hnd) as (m1 & tr1 & np & Hrun & Hc1 & Ht1 & Hw1 & Ha1 & Hf1).
  unfold AvlDelete. rewrite assert_bind by done. st_step wload_ok by exact Hk. rewrite (st_bind_ok _ _ _ _ _ Hrun).
  assert (a ∉ before c ++ behind c /\ a ∉ inorder (graft l r)) as [Hac' Hag] by (rewrite graft_inorder; set_solver).
  exists (<[a := mkWL None None None (Weight k)]> m1), tr1. rewrite Hk in Ha1. split; [by apply reset_ok|].
  split; [split; [|by rewrite plug_inorder, graft_inorder]|split; [|split]].
  - apply plug_trep. exists (Parent k), np. split; [eapply crep_frame; [|exact Hc1]|eapply trep_frame; [|exact Ht1]];
      intros b Hb; rewrite lookup_insert_ne; (done || by intros <-).
  - transitivity m1; [done|by apply same_weights_insert with k].
  - eexists. apply lookup_insert_eq.
  - intros b Hb. rewrite lookup_insert_ne; [by apply Hf1|]. intros <-. apply Hb. rewrite plug_inorder. simpl. set_solver.
Qed.

(** ** Properties *)

Lemma sorted_ext m m' xs : (forall a, a ∈ xs -> weight m' a = weight m a) -> sorted m xs -> sorted m' xs.
Proof.
  unfold sorted. induction xs as [|x xs IH]; intros Hw H; [constructor|].
  apply StronglySorted_inv in H as [H1 H2]. constructor; [apply IH; [set_solver|done]|].
  rewrite Forall_forall in *. intros y Hy. rewrite !Hw by set_solver. by apply H2.
Qed.

Lemma sorted_insert m xs n ys :
  sorted m (xs ++ ys) -> (forall x, x ∈ xs -> weight m x < weight m n) -> (forall y, y ∈ ys -> weight m n <= weight m y) ->
  sorted m (xs ++ n :: ys).
Proof.
  unfold sorted. induction xs as [|x xs IH]; simpl; intros Hs Hx Hy.
  - constructor; [done|]. by rewrite Forall_forall.
  - apply StronglySorted_inv in Hs as [H1 H2]. constructor; [apply IH; [done|set_solver|done]|].
    rewrite Forall_forall in *. intros b [Hb|[->|Hb]%elem_of_cons]%elem_of_app.
    + apply H2. set_solver.
    + specialize (Hx x ltac:(set_solver)). lia.
    + apply H2. set_solver.
Qed.

Lemma sorted_delete m xs a ys : sorted m (xs ++ a :: ys) -> sorted m (xs ++ ys).
Proof.
  unfold sorted. induction xs as [|x xs IH]; simpl; intros H; apply StronglySorted_inv in H as [H1 H2]; [done|].
  constructor; [by apply IH|]. rewrite Forall_forall in *. intros y Hy. apply H2. set_solver.
Qed.

(** The tree [tr] holds the links [xs], in the order of their weights. *)
Definition holds (m : wstore) (tr : AVL_TREE) (xs : list loc) : Prop :=
  exists t, avl_rep m tr t /\ inorder t = xs /\ sorted m xs.

Lemma AvlAdd_holds m tr zs n w :
  holds m tr zs -> is_Some (m !! n) -> n ∉ zs ->
  exists m' tr' xs ys, AvlAdd w (Some n) tr m = Ok (tr', m') /\ zs = xs ++ ys /\ holds m' tr' (xs ++ n :: ys) /\
    (forall x, x ∈ xs -> weight m' x < w) /\ (forall y, y ∈ ys -> w <= weight m' y) /\
    forall a, weight m' a = if decide (a = n) then w else weight m a.
Proof.
  intros (t & Hrep & <- & Hs) Hn Hnt.
  destruct (AvlAdd_ok m tr t n w Hrep Hn Hnt) as (m' & tr' & Hrun & Hrep' & Hwn & Hw & _).
  assert (sorted m' (inorder t)) as Hs' by (eapply sorted_ext; [|exact Hs]; intros a Ha; apply Hw; by intros ->).
  destruct (tree_insert_inorder m' n t Hs') as (xs & ys & E1 & E2 & Hx & Hy). rewrite Hwn in Hx, Hy.
  exists m', tr', xs, ys. split; [done|]. split; [done|]. split; [|split; [done|split; [done|]]].
  - exists (tree_insert (weight m') n t). split; [done|]. split; [done|]. rewrite E1 in Hs'.
    apply sorted_insert; rewrite ?Hwn; done.
  - intros a. case_decide as Ha; [by subst|by apply Hw].
Qed.

(** AvlAdd of a link that is not in the tree completes, stores the weight and puts
    the link between the lighter links and those at least as heavy; the contents stay
    sorted and no other link changes its weight. *)
Theorem AvlAdd_correct m tr zs n w :
  holds m tr zs -> is_Some (m !! n) -> n ∉ zs ->
  exists m' tr' xs ys, AvlAdd w (Some n) tr m = Ok (tr', m') /\ zs = xs ++ ys /\ holds m' tr' (xs ++ n :: ys) /\
    (forall x, x ∈ xs -> weight m' x < w) /\ (forall y, y ∈ ys -> w <= weight m' y) /\
    forall a, weight m' a = if decide (a = n) then w else weight m a.
Proof. apply AvlAdd_holds. Qed.

(** AvlFind on a sorted tree returns a link of the wanted weight, or NULL exactly when
    the tree has none, and changes nothing. *)
Theorem AvlFind_correct m tr xs w :
  holds m tr xs ->
  exists p, AvlFind w tr m = Ok (p, m) /\
    match p with Some a => a ∈ xs /\ weight m a = w | None => forall a, a ∈ xs -> weight m a <> w end.
Proof.
  intros (t & [Ht Hnd] & <- & Hs). exists (tree_find (weight m) w t). split; [|by apply tree_find_spec].
  unfold AvlFind, mbind, st_bind, gets. apply FindFrom_ok with None; [done|by eapply trep_height].
Qed.

Lemma AvlDelete_holds m tr zs a :
  holds m tr zs -> a ∈ zs ->
  exists m' tr' xs ys w, AvlDelete (Some a) tr m = Ok (tr', m') /\ zs = xs ++ a :: ys /\ holds m' tr' (xs ++ ys) /\
    m' !! a = Some (mkWL None None None w) /\ forall b, weight m' b = weight m b.
Proof.
  intros (t & Hrep & <- & Hs) Ha. destruct (find_ctx t a Ha) as (c & l & r & ->).
  destruct (AvlDelete_ok m tr c l a r Hrep) as (m' & tr' & Hrun & Hrep' & [_ Hw] & [w Hwa] & _).
  exists m', tr', (before c ++ inorder l), (inorder r ++ behind c), w. rewrite plug_inorder in *. simpl in *.
  rewrite <- !app_assoc in *. simpl in *. split; [done|]. split; [done|]. split; [|by split].
  exists (plug c (graft l r)). rewrite plug_inorder, graft_inorder, <- !app_assoc. split; [done|]. split; [done|].
  eapply sorted_ext; [intros b _; apply Hw|]. rewrite app_assoc in Hs |- *. by apply sorted_delete with a.
Qed.

(** C31: AvlDelete of a link of the tree completes in each of its four cases, takes just
    that link out of the order, resets its pointers and changes no weight. *)
Theorem AvlDelete_correct m tr zs a :
  holds m tr zs -> a ∈ zs ->
  exists m' tr' xs ys w, AvlDelete (Some a) tr m = Ok (tr', m') /\ zs = xs ++ a :: ys /\ holds m' tr' (xs ++ ys) /\
    m' !! a = Some (mkWL None None None w) /\ forall b, weight m' b = weight m b.
Proof. apply AvlDelete_holds. Qed.

(** A tree of three links with a spare one, by the operations themselves. *)
Definition demo : St wstore AVL_TREE :=
  tree ← AvlAdd 5 (Some 1%positive) AvlInit;
  tree ← AvlAdd 3 (Some 2%positive) tree;
  AvlAdd 9 (Some 3%positive) tree.

Definition store4 : wstore := list_to_map ((fun a => (a, mkWL None None None 0)) <$> [1; 2; 3; 4]%positive).

Definition demo_store : wstore := match demo store4 with Ok (_, m) => m | Err _ => ∅ end.

Lemma demo_holds : holds demo_store (mkTree (Some 1%positive)) [2; 1; 3]%positive.
Proof.
  exists (Node (Node Leaf 2 Leaf) 1 (Node Leaf 3 Leaf)). split; [split|split; [done|]].
  - vm_compute. repeat (split; [reflexivity|]; eexists; split; [reflexivity|]; split; [reflexivity|]); repeat split;
      eexists; repeat split.
  - apply (bool_decide_unpack _). vm_compute. exact I.
  - unfold sorted. repeat constructor; vm_compute; discriminate.
Defined.

Lemma AvlAdd_witness :
  exists m' tr' xs ys, AvlAdd 7 (Some 4%positive) (mkTree (Some 1%positive)) demo_store = Ok (tr', m') /\
    [2; 1; 3]%positive = xs ++ ys /\ holds m' tr' (xs ++ 4%positive :: ys) /\
    (forall x, x ∈ xs -> weight m' x < 7) /\ (forall y, y ∈ ys -> 7 <= weight m' y) /\
    forall a, weight m' a = if decide (a = 4%positive) then 7 else weight demo_store a.
Proof.
  apply (AvlAdd_correct demo_store (mkTree (Some 1%positive)) [2; 1; 3]%positive 4 7 demo_holds).
  - vm_compute. eexists. reflexivity.
  - apply (bool_decide_unpack _). vm_compute. exact I.
Defined.

Lemma AvlFind_witness :
  exists p, AvlFind 3 (mkTree (Some 1%positive)) demo_store = Ok (p, demo_store) /\
    match p with Some a => a ∈ [2; 1; 3]%positive /\ weight demo_store a = 3
    | None => forall a, a ∈ [2; 1; 3]%positive -> weight demo_store a <> 3 end.
Proof. exact (AvlFind_correct demo_store (mkTree (Some 1%positive)) [2; 1; 3]%positive 3 demo_holds). Defined.

Lemma AvlDelete_witness :
  exists m' tr' xs ys w, AvlDelete (Some 1%positive) (mkTree (Some 1%positive)) demo_store = Ok (tr', m') /\
    [2; 1; 3]%positive = xs ++ 1%positive :: ys /\ holds m' tr' (xs ++ ys) /\
    m' !! 1%positive = Some (mkWL None None None w) /\ forall b, weight m' b = weight demo_store b.
Proof.
  apply (AvlDelete_correct demo_store (mkTree (Some 1%positive)) [2; 1; 3]%positive 1 demo_holds).
  apply (bool_decide_unpack _). vm_compute. exact I.
Defined.
