(* ===== verification/TreeTest.v ===== *)
(** * The test of the search tree (utils/treetest.c)

    A program that adds numbers to a tree and removes them.  [malloc] picks an address that is not
    in use, [junk] is the contents of new memory; the lines of the menu are left out. *)

From stdpp Require Import strings pretty sorting.
From S2P Require Import Prelude WeightedLink Avl.

#[local] Open Scope Z_scope.

(** ** The program *)

(** The memory of the elements, by their members ([Used]: the addresses that are taken), and the
    tree. *)
Record TREETEST := mkTT { Used : gset loc; Data : gmap loc Z; Weights : wstore; avl : AVL_TREE }.

Definition get_Data (a : loc) (t : TREETEST) : res Z := match Data t !! a with Some v => Ok v | None => Err FNull end.

(** The lines of [TraverseTree]: how far to the right, and the weight or "null node". *)
Fixpoint TraverseTree (fuel : nat) (link : ptr) (tab : nat) (m : wstore) : res (list (nat * option Z)) :=
  match link with
  | None => Ok [(tab, None)]
  | Some _ =>
      match fuel with
      | O => Err FFuel
      | S fuel =>
          '(k, _) ← wload link m;
          l ← TraverseTree fuel (Left k) (S tab) m;
          r ← TraverseTree fuel (Right k) (S tab) m;
          Ok ((tab, Some (signed64 (Weight k))) :: l ++ r)
      end
  end.

Definition TreeLine (l : nat * option Z) : string :=
  String.concat "" (replicate l.1 "   ") +:+ match l.2 with Some w => pretty w | None => "null node" end.

(** A path is not longer than the number of the elements. *)
Definition DumpAvl (t : TREETEST) : res (list string) :=
  match Head (avl t) with
  | None => Ok ["dumping avl"; "empty avl"; "done"; ""]
  | Some _ => ls ← TraverseTree (size (Weights t)) (Head (avl t)) 0 (Weights t); Ok (["dumping avl"] ++ (TreeLine <$> ls) ++ ["done"; ""])
  end.

Definition Remove (value : Z) (t : TREETEST) : res (list string * TREETEST) :=
  '(avlLink, _) ← AvlFind (w64 value) (avl t) (Weights t);
  match avlLink with
  | Some element =>
      data ← get_Data element t;
      _ ← assertr (data =? value);
      '(tree, weights) ← AvlDelete (Some element) (avl t) (Weights t);
      Ok (["avl returned  " +:+ pretty data], mkTT (Used t) (Data t) weights tree)
  | None => Ok (["avl returned null"], t)
  end.

Section treetest.
Context (malloc : gset loc -> loc) (junk : WEIGHTED_LINK).

Definition Add (value : Z) (t : TREETEST) : res TREETEST :=
  let element := malloc (Used t) in
  '(tree, weights) ← AvlAdd (w64 value) (Some element) (avl t) (<[element := junk]> (Weights t));
  Ok (mkTT ({[element]} ∪ Used t) (<[element := value]> (Data t)) weights tree).

(** The loop of main on the numbers that are entered; a removal takes two.  The result are the
    lines that each command prints. *)
Fixpoint Commands (inputs : list Z) (t : TREETEST) : res (list (list string)) :=
  match inputs with
  | [] => Ok []
  | data :: inputs =>
      if data =? 0 then Ok []
      else if data =? 1 then
        match inputs with
        | [] => Ok []
        | temp :: inputs => '(out, t) ← Remove temp t; outs ← Commands inputs t; Ok (out :: outs)
        end
      else if data =? 2 then out ← DumpAvl t; outs ← Commands inputs t; Ok (out :: outs)
      else t ← Add data t; outs ← Commands inputs t; Ok ([] :: outs)
  end.

Definition main (inputs : list Z) : res (list (list string)) := Commands inputs (mkTT ∅ ∅ ∅ AvlInit).
End treetest.

(** ** What it should answer *)

Fixpoint remove_one (v : Z) (l : list Z) : list Z :=
  match l with [] => [] | x :: l => if x =? v then l else x :: remove_one v l end.

(** A multiset of numbers; the picture of the tree may be any that has them. *)
Fixpoint answers (inputs : list Z) (l : list Z) (outs : list (list string)) : Prop :=
  match inputs with
  | [] => outs = []
  | data :: inputs =>
      if data =? 0 then outs = []
      else if data =? 1 then
        match inputs with
        | [] => outs = []
        | v :: inputs => exists outs', answers inputs (remove_one v l) outs' /\
            outs = [if bool_decide (v ∈ l) then "avl returned  " +:+ pretty v else "avl returned null"] :: outs'
        end
      else if data =? 2 then
        exists picture outs', answers inputs l outs' /\ outs = (["dumping avl"] ++ picture ++ ["done"; ""]) :: outs' /\
          if decide (l = []) then picture = ["empty avl"] else exists ls, picture = TreeLine <$> ls /\ omap snd ls ≡ₚ l
      else exists outs', answers inputs (data :: l) outs' /\ outs = [] :: outs'
  end.

(** ** Proofs *)

Definition val (t : TREETEST) (a : loc) : option Z := Data t !! a.

(** The nodes [zs], in order, make up the tree, whose numbers are [l]. *)
Record stores (t : TREETEST) (l : list Z) (zs : list loc) : Prop := {
  st_tree : holds (Weights t) (avl t) zs;
  st_used : forall a, a ∈ zs -> a ∈ Used t;
  st_vals : val t <$> zs ≡ₚ Some <$> l;
  st_weights : forall a, a ∈ zs -> exists v, val t a = Some v /\ weight (Weights t) a = w64 v;
  st_ints : Forall is_int l
}.

Lemma holds_frame m m' tr zs : (forall a, a ∈ zs -> m' !! a = m !! a) -> holds m tr zs -> holds m' tr zs.
Proof.
  intros Hf (t & [Ht Hnd] & <- & Hs). exists t. split; [split; [by apply trep_frame with m|done]|]. split; [done|].
  eapply sorted_ext; [|exact Hs]. intros a Ha. unfold weight. by rewrite Hf.
Qed.

Lemma holds_NoDup m tr zs : holds m tr zs -> NoDup zs.
Proof. by intros (t & [_ Hnd] & <- & _). Qed.

Lemma remove_one_perm v l l' : l ≡ₚ v :: l' -> remove_one v l ≡ₚ l'.
Proof.
  intros H. apply (Permutation_cons_inv (a := v)). rewrite <- H. assert (v ∈ l) as Hv by (rewrite H; set_solver). clear H.
  induction l as [|x l IH]; [by apply elem_of_nil in Hv|]. simpl. destruct (Z.eqb_spec x v) as [->|Hx]; [done|].
  apply elem_of_cons in Hv as [->|Hv]; [done|]. rewrite Permutation_swap. by rewrite IH.
Qed.

Lemma remove_one_absent v l : v ∉ l -> remove_one v l = l.
Proof.
  induction l as [|x l IH]; [done|]. simpl. intros [Hx Hv]%not_elem_of_cons. destruct (Z.eqb_spec x v); [congruence|].
  by rewrite IH.
Qed.

(** What is in the tree is in the list, and the other way round. *)
Lemma stores_elem t l zs v : stores t l zs -> v ∈ l <-> exists a, a ∈ zs /\ val t a = Some v.
Proof.
  intros []. rewrite <- (list_elem_of_fmap_inj Some), <- st_vals0, list_elem_of_fmap. split; intros (a & H1 & H2); by exists a.
Qed.

Lemma stores_int t l zs a v : stores t l zs -> a ∈ zs -> val t a = Some v -> is_int v.
Proof.
  intros Hs Ha Hv. assert (v ∈ l) as Hin by (apply (stores_elem t l zs v Hs); by exists a). destruct Hs as [].
  rewrite Forall_forall in st_ints0. by apply st_ints0.
Qed.

(** A value is found where it is, and taken out. *)
Lemma Remove_ok t l zs v : stores t l zs -> is_int v ->
  exists out t' zs', Remove v t = Ok (out, t') /\ stores t' (remove_one v l) zs' /\
    out = [if bool_decide (v ∈ l) then "avl returned  " +:+ pretty v else "avl returned null"].
Proof.
  intros Hs Hv. pose proof Hs as []. unfold Remove. destruct (AvlFind_correct _ _ _ (w64 v) st_tree0) as (p & -> & Hp).
  cbn [mbind res_bind]. destruct p as [a|].
  - destruct Hp as [Ha Hw]. destruct (st_weights0 a Ha) as (v' & Hva & Hwa).
    assert (v' = v) as -> by (apply weight_inj; [by apply (stores_int t l zs a)|done|congruence]).
    unfold get_Data. unfold val in Hva. rewrite Hva. cbn [mbind res_bind]. rewrite Z.eqb_refl. cbn [assertr mbind res_bind].
    destruct (AvlDelete_holds (Weights t) (avl t) zs a st_tree0 Ha) as (m' & tr' & xs & ys & w & -> & -> & Hh & _ & Hw').
    cbn [mbind res_bind]. eexists _, _, (xs ++ ys). split; [reflexivity|].
    assert (forall b, b ∈ xs ++ ys -> b ∈ xs ++ a :: ys) as Hsub by (intros b; set_solver). split.
    + assert (val t <$> xs ++ ys ≡ₚ Some <$> remove_one v l) as Hperm.
      { rewrite <- Permutation_middle, fmap_cons in st_vals0. unfold val at 1 in st_vals0. rewrite Hva in st_vals0.
        assert (v ∈ l) as Hin by (apply (stores_elem t _ _ v Hs); exists a; split; [set_solver|done]).
        apply list_elem_of_split in Hin as (l1 & l2 & ->). rewrite <- Permutation_middle, fmap_cons in st_vals0.
        apply Permutation_cons_inv in st_vals0. rewrite st_vals0, (remove_one_perm v _ (l1 ++ l2)); [done|].
        symmetry. apply Permutation_middle. }
      constructor; [done|auto|done| |].
      * intros b Hb. destruct (st_weights0 b (Hsub b Hb)) as (u & Hu & Hwu). exists u. split; [done|]. simpl. by rewrite Hw'.
      * apply Forall_forall. intros u Hu. apply (list_elem_of_fmap_2 Some) in Hu. rewrite <- Hperm in Hu.
        apply list_elem_of_fmap in Hu as (b & Hb & Hin). by apply (stores_int t l (xs ++ a :: ys) b u Hs (Hsub b Hin)).
    + rewrite bool_decide_true; [done|]. apply (stores_elem t l _ v Hs). by exists a.
  - assert (v ∉ l) as Hnot.
    { intros (a & Ha & Hva)%(stores_elem t l zs v Hs). apply (Hp a Ha). destruct (st_weights0 a Ha) as (u & Hu & ->). congruence. }
    exists ["avl returned null"], t, zs. split; [done|]. rewrite remove_one_absent, bool_decide_false by done. done.
Qed.

Lemma TraverseTree_ok fuel m par p tr tab : trep m par p tr -> (height tr <= fuel)%nat ->
  exists ls, TraverseTree fuel p tab m = Ok ls /\ omap snd ls ≡ₚ signed64 ∘ weight m <$> inorder tr.
Proof.
  revert fuel par p tab. induction tr as [|l IHl a r IHr]; intros fuel par p tab Ht Hf.
  - simpl in Ht. rewrite Ht. exists [(tab, None)]. by destruct fuel.
  - destruct Ht as (-> & k & Hk & _ & Hl & Hr). simpl in Hf. destruct fuel as [|fuel]; [lia|]. cbn [TraverseTree].
    rewrite (wload_ok m a k Hk). cbn [mbind res_bind].
    destruct (IHl fuel _ _ (S tab) Hl) as (ll & -> & Hll); [lia|]. cbn [mbind res_bind].
    destruct (IHr fuel _ _ (S tab) Hr) as (lr & -> & Hlr); [lia|]. cbn [mbind res_bind].
    eexists. split; [reflexivity|]. cbn [inorder]. rewrite fmap_app, fmap_cons. cbn. rewrite omap_app, Hll, Hlr.
    rewrite Permutation_middle. by rewrite <- (weight_at m a k Hk).
Qed.

Lemma DumpAvl_ok t l zs : stores t l zs ->
  exists picture, DumpAvl t = Ok ("dumping avl" :: picture ++ ["done"; ""]) /\
    if decide (l = []) then picture = ["empty avl"] else exists ls, picture = TreeLine <$> ls /\ omap snd ls ≡ₚ l.
Proof.
  intros Hs. pose proof Hs as [(tr & [Ht Hnd] & E & _) _ Hv Hw _]. unfold DumpAvl.
  pose proof (Permutation_length Hv) as Hlen. rewrite !length_fmap in Hlen. destruct (Head (avl t)) as [a|] eqn:Eh.
  - destruct (TraverseTree_ok (size (Weights t)) (Weights t) None (Some a) tr 0 Ht) as (ls & -> & Hls).
    { by apply trep_height with None (Some a). }
    cbn [mbind res_bind]. exists (TreeLine <$> ls). split; [done|]. rewrite decide_False.
    2: { intros ->. destruct tr as [|tl b tr']; [done|]. simpl in E. destruct zs; [by destruct (inorder tl)|done]. }
    exists ls. split; [done|]. rewrite Hls, E. apply fmap_Some_perm. rewrite <- Hv, <- list_fmap_compose.
    apply Permutation_refl', list_fmap_ext. intros i b Hb%list_elem_of_lookup_2. destruct (Hw b Hb) as (v & Hvb & Hwb).
    simpl. rewrite Hwb, Hvb, signed64_weight; [done|]. by apply (stores_int t l zs b).
  - exists ["empty avl"]. split; [done|]. rewrite decide_True; [done|]. destruct tr as [|tl b tr']; [|by destruct Ht].
    simpl in E. subst zs. by destruct l.
Qed.

Section runs.
Context (malloc : gset loc -> loc) (junk : WEIGHTED_LINK) (malloc_new : forall X, malloc X ∉ X).

Lemma AddTree_ok v t l zs : stores t l zs -> is_int v ->
  exists t' zs', Add malloc junk v t = Ok t' /\ stores t' (v :: l) zs'.
Proof.
  intros Hs Hv. pose proof Hs as []. unfold Add. set (a := malloc (Used t)). pose proof (malloc_new (Used t) : a ∉ Used t) as Ha.
  assert (forall b, b ∈ zs -> b <> a) as Hne by (intros b Hb ->; auto).
  destruct (AvlAdd_holds (<[a := junk]> (Weights t)) (avl t) zs a (w64 v)) as (m' & tr' & xs & ys & -> & Ezs & Hh & _ & _ & Hw).
  { apply holds_frame with (Weights t); [|done]. intros b Hb. apply lookup_insert_ne. symmetry. by apply Hne. }
  { rewrite lookup_insert_eq. by eexists. }
  { intros H. by apply (Hne a H). }
  cbn [mbind res_bind]. eexists _, (xs ++ a :: ys). split; [reflexivity|].
  assert (forall b, b ∈ xs ++ a :: ys -> b = a \/ b ∈ zs) as Hin by (rewrite Ezs; set_solver).
  set (t' := mkTT _ _ _ _). assert (forall b, val t' b = if decide (b = a) then Some v else val t b) as Hval.
  { intros b. unfold val, t'. simpl. rewrite lookup_insert. by repeat case_decide; subst. }
  constructor; [done| | | |by constructor].
  - intros b [->|Hb]%Hin; simpl; [set_solver|]. specialize (st_used0 b Hb). set_solver.
  - rewrite <- Permutation_middle, <- Ezs, !fmap_cons, Hval, decide_True by done. f_equiv. rewrite <- st_vals0.
    apply Permutation_refl', list_fmap_ext. intros i b Hb%list_elem_of_lookup_2. rewrite Hval, decide_False; [done|by apply Hne].
  - intros b Hb%Hin. rewrite Hval. simpl. rewrite Hw. case_decide as E; [by exists v|]. destruct Hb as [|Hb]; [done|].
    destruct (st_weights0 b Hb) as (u & Hu & Hwu). exists u. split; [done|]. rewrite <- Hwu. unfold weight. by rewrite lookup_insert_ne.
Qed.

Lemma CommandsTree_ok n inputs t l zs : (length inputs <= n)%nat -> stores t l zs -> Forall is_int inputs ->
  exists outs, Commands malloc junk inputs t = Ok outs /\ answers inputs l outs.
Proof.
  revert inputs t l zs. induction n as [|n IH]; intros [|data inputs] t l zs Hn Hs Hin; try (by exists []); [simpl in Hn; lia|].
  apply Forall_cons in Hin as [Hd Hin]. simpl in Hn. cbn [Commands answers]. destruct (Z.eqb_spec data 0) as [|Hd0]; [by exists []|].
  destruct (Z.eqb_spec data 1) as [->|Hd1]; [|destruct (Z.eqb_spec data 2) as [->|Hd2]].
  - destruct inputs as [|v inputs]; [by exists []|]. apply Forall_cons in Hin as [Hv Hin]. simpl in Hn.
    destruct (Remove_ok t l zs v Hs Hv) as (out & t' & zs' & -> & Hs' & ->). cbn [mbind res_bind].
    destruct (IH inputs t' (remove_one v l) zs') as (outs & -> & Houts); [lia|done|done|]. eexists. split; [reflexivity|]. by exists outs.
  - destruct (DumpAvl_ok t l zs Hs) as (picture & -> & Hp). cbn [mbind res_bind].
    destruct (IH inputs t l zs) as (outs & -> & Houts); [lia|done|done|]. eexists. split; [reflexivity|]. by exists picture, outs.
  - destruct (AddTree_ok data t l zs Hs Hd) as (t' & zs' & -> & Hs'). cbn [mbind res_bind].
    destruct (IH inputs t' (data :: l) zs') as (outs & -> & Houts); [lia|done|done|]. eexists. split; [reflexivity|]. by exists outs.
Qed.

(** Whatever numbers are entered, the program answers like a multiset of numbers: a number is
    removed exactly when it is there, the assertion on it holds, nothing faults, and the picture
    shows the right numbers. *)
Theorem tree_test_answers inputs : Forall is_int inputs ->
  exists outs, main malloc junk inputs = Ok outs /\ answers inputs [] outs.
Proof.
  intros Hin. apply (CommandsTree_ok (length inputs) inputs _ [] []); [done| |done]. constructor; [|set_solver|done|set_solver|by apply Forall_nil].
  exists Leaf. split; [split; [done|apply NoDup_nil_2]|]. split; [done|constructor].
Qed.
End runs.

(** With stdpp's choice of a fresh address. *)
Lemma tree_test_answers_witness :
  exists outs, main fresh (mkWL None None None 0) [5; -3; 7; 5; 2; 1; 5; 1; 9; 1; 7; 2; 0] = Ok outs /\
    answers [5; -3; 7; 5; 2; 1; 5; 1; 9; 1; 7; 2; 0] [] outs.
Proof.
  apply (tree_test_answers fresh); [apply is_fresh|]. repeat (apply Forall_cons; split; [unfold is_int; lia|]). by apply Forall_nil.
Defined.
