(* ===== verification/HeapTree.v ===== *)
(** * The binary heap (utils/heap.c): operations, representation, promotion

    A complete binary tree of [WEIGHTED_LINK] nodes with parent pointers.  The proofs
    read the tree as the array of its nodes in level order: the node with index [i]
    has its children at the indices [2i] and [2i+1] ([tree_of]); [HeapPromote] is then
    the exchange of two neighbouring positions. *)

From S2P Require Import Prelude WeightedLink.

Record HEAP := mkHeap { Head : ptr; Size : Z }.

(** ** Operations *)

Definition HeapPromote (node : ptr) : St wstore unit :=
  n ← wload node;
  assert (bool_decide (Parent n <> None));;
  let parent := Parent n in
  p ← wload parent;
  let grandParent := Parent p in
  let nodeLeft := Left n in
  let nodeRight := Right n in
  let sibling := if decide (Left p <> node) then Left p else Right p in
  (if decide (grandParent <> None) then
     g ← wload grandParent;
     if decide (Left g = parent) then set_Left grandParent node
     else set_Right grandParent node
   else mret tt);;
  set_Parent node grandParent;;
  set_Parent parent node;;
  (if decide (sibling <> None) then set_Parent sibling node else mret tt);;
  p ← wload parent;
  (if decide (Left p = node) then
     set_Left node parent;; set_Right node sibling
   else
     set_Left node sibling;; set_Right node parent);;
  set_Left parent nodeLeft;;
  set_Right parent nodeRight;;
  (if decide (nodeLeft <> None) then set_Parent nodeLeft parent else mret tt);;
  (if decide (nodeRight <> None) then set_Parent nodeRight parent else mret tt).

(** [WEIGHT w; if( n != NULL ) w = n->Weight; else w = -1;] *)
Definition weight_or_max (n : ptr) : St wstore Z :=
  if decide (n <> None) then k ← wload n; mret (Weight k) else mret (w64 (-1)).

Definition HeapSmallest (n1 n2 n3 : ptr) : St wstore ptr :=
  w1 ← weight_or_max n1;
  w2 ← weight_or_max n2;
  w3 ← weight_or_max n3;
  mret (if (w1 <=? w2) && (w1 <=? w3) then n1
        else if (w2 <=? w1) && (w2 <=? w3) then n2
        else if (w3 <=? w1) && (w3 <=? w2) then n3
        else None).

(** [for( ; tmp != 1; tmp/=2 ) steps++;] on a 64-bit index. *)
Fixpoint CountSteps (fuel : nat) (tmp steps : Z) : res Z :=
  if tmp =? 1 then Ok steps else
  match fuel with
  | O => Err FFuel
  | S fuel => CountSteps fuel (tmp / 2) (w64 (steps + 1))
  end.

(** [for(mask = ( 1 << steps )/2 ; mask > 0; mask/=2 ) ...]; [mask] is a 32-bit
    [unsigned int]. *)
Fixpoint Descend (fuel : nat) (mask index : Z) (cur : ptr) : St wstore ptr :=
  if mask >? 0 then
    match fuel with
    | O => fail FFuel
    | S fuel =>
        k ← wload cur;
        Descend fuel (mask / 2) index
          (if Z.land mask index =? 0 then Left k else Right k)
    end
  else mret cur.

Definition HeapFindElement (index : Z) (heap : HEAP) : St wstore ptr :=
  assert ((index <=? Size heap) && negb (index =? 0));;
  steps ← liftr (CountSteps 64 index 0);
  if steps =? 0 then mret (Head heap)
  else Descend 64 (w32 (Z.quot (int32 (Z.shiftl 1 steps)) 2)) index (Head heap).

(** [while( node->Parent != NULL && node->Weight < node->Parent->Weight )
     HeapPromote( node );] *)
Fixpoint PercolateUp (fuel : nat) (node : ptr) : St wstore unit :=
  n ← wload node;
  if decide (Parent n <> None) then
    p ← wload (Parent n);
    if Weight n <? Weight p then
      match fuel with
      | O => fail FFuel
      | S fuel => HeapPromote node;; PercolateUp fuel node
      end
    else mret tt
  else mret tt.

Definition HeapAdd (w : Z) (node : ptr) (heap : HEAP) : St wstore HEAP :=
  set_Weight node w;;
  set_Left node None;;
  set_Right node None;;
  let heap := mkHeap (Head heap) (w64 (Size heap + 1)) in
  if Size heap =? 1 then
    set_Parent node None;;
    mret (mkHeap node (Size heap))
  else
    parent ← HeapFindElement (Size heap / 2) heap;
    p ← wload parent;
    assert (bool_decide (Left p = None) || bool_decide (Right p = None));;
    (if decide (Left p = None) then set_Left parent node else set_Right parent node);;
    set_Parent node parent;;
    PercolateUp (Z.to_nat (Size heap)) node;;
    n ← wload node;
    mret (if decide (Parent n = None) then mkHeap node (Size heap) else heap).

(** The [for] loop of [HeapPop] that lets [tail] sink. *)
Fixpoint PercolateDown (fuel : nat) (tail : ptr) (heap : HEAP) : St wstore HEAP :=
  t ← wload tail;
  smallest ← HeapSmallest tail (Left t) (Right t);
  if decide (smallest = tail) then mret heap else
  match fuel with
  | O => fail FFuel
  | S fuel =>
      HeapPromote smallest;;
      s ← wload smallest;
      let heap := if decide (Parent s = None) then mkHeap smallest (Size heap) else heap in
      PercolateDown fuel tail heap
  end.

Definition HeapPop (heap : HEAP) : St wstore (ptr * HEAP) :=
  if Size heap =? 0 then mret (None, heap) else
  tail ← HeapFindElement (Size heap) heap;
  assert (bool_decide (tail <> None));;
  t ← wload tail;
  assert (bool_decide (Left t = None) && bool_decide (Right t = None));;
  if decide (Parent t <> None) then
    p ← wload (Parent t);
    (if decide (Right p = tail) then set_Right (Parent t) None
     else set_Left (Parent t) None);;
    let popped := Head heap in
    let heap := mkHeap tail (w64 (Size heap - 1)) in
    set_Parent tail None;;
    h ← wload popped;
    set_Left tail (Left h);;
    h ← wload popped;
    set_Right tail (Right h);;
    t ← wload tail;
    (if decide (Left t <> None) then set_Parent (Left t) tail else mret tt);;
    (if decide (Right t <> None) then set_Parent (Right t) tail else mret tt);;
    heap ← PercolateDown (Z.to_nat (Size heap)) tail heap;
    mret (popped, heap)
  else mret (tail, mkHeap None 0).

Definition HeapHeadWeight (heap : HEAP) : St wstore Z :=
  h ← wload (Head heap); mret (Weight h).

Definition HeapInit : HEAP := mkHeap None 0.

Definition HeapSize (heap : HEAP) : Z := Size heap.

(** ** Representation: the nodes in level order *)

(** The node with index [i] (the root has index 1); [NULL] outside the tree. *)
Definition at_ (A : list loc) (i : Z) : ptr :=
  if i <=? 0 then None else A !! Z.to_nat (i - 1).

Definition node_ok (m : wstore) (A : list loc) (i : Z) (a : loc) : Prop :=
  exists w, m !! a = Some (mkWL (at_ A (2 * i)) (at_ A (2 * i + 1)) (at_ A (i / 2)) w).

Definition tree_of (m : wstore) (A : list loc) : Prop :=
  NoDup A /\ forall i a, at_ A i = Some a -> node_ok m A i a.

Definition heap_of (m : wstore) (h : HEAP) (A : list loc) : Prop :=
  tree_of m A /\ Size h = zlen A /\ Head h = at_ A 1.

(** No node weighs less than its parent. *)
Definition heap_ordered (m : wstore) (A : list loc) : Prop :=
  forall i a p, at_ A i = Some a -> at_ A (i / 2) = Some p -> weight m p <= weight m a.

(** Exchange of the positions [i] and [j]. *)
Definition swap (A : list loc) (i j : Z) : list loc :=
  match at_ A i, at_ A j with
  | Some a, Some b => <[Z.to_nat (i - 1) := b]> (<[Z.to_nat (j - 1) := a]> A)
  | _, _ => A
  end.

(** ** Lemmas on positions *)

Lemma at_spec A i a :
  at_ A i = Some a <-> 1 <= i <= zlen A /\ A !! Z.to_nat (i - 1) = Some a.
Proof.
  unfold at_, zlen. zcases; split; try done.
  - intros [? _]. lia.
  - intros Ha. split; [|done]. apply lookup_lt_Some in Ha. lia.
  - by intros [_ ?].
Qed.

Lemma at_range A i a : at_ A i = Some a -> 1 <= i <= zlen A.
Proof. intros H. by apply at_spec in H as [? _]. Qed.

Lemma at_in A i : 1 <= i <= zlen A -> exists a, at_ A i = Some a.
Proof.
  intros Hi. unfold zlen in Hi. destruct (lookup_lt_is_Some_2 A (Z.to_nat (i - 1))) as [a Ha]; [lia|].
  exists a. by apply at_spec.
Qed.

Lemma at_out A i : ~ (1 <= i <= zlen A) -> at_ A i = None.
Proof.
  intros Hi. destruct (at_ A i) as [a|] eqn:H; [|done]. apply at_range in H. lia.
Qed.

Lemma at_inj A i j a : NoDup A -> at_ A i = Some a -> at_ A j = Some a -> i = j.
Proof.
  intros Hnd Hi Hj. apply at_spec in Hi as [? Hi], Hj as [? Hj].
  pose proof (NoDup_lookup A _ _ a Hnd Hi Hj). lia.
Qed.

Lemma at_swap A i j a b k :
  at_ A i = Some a -> at_ A j = Some b ->
  at_ (swap A i j) k = if decide (k = i) then Some b else if decide (k = j) then Some a else at_ A k.
Proof.
  intros Hi Hj. unfold swap. rewrite Hi, Hj. apply at_spec in Hi as [? Hi], Hj as [? Hj].
  unfold at_, zlen in *. destruct (Z.leb_spec k 0).
  { by rewrite !decide_False by lia. }
  rewrite !list_lookup_insert, length_insert. repeat case_decide; try done; try lia.
Qed.

Lemma swap_length A i j : zlen (swap A i j) = zlen A.
Proof. unfold swap, zlen. repeat case_match; by rewrite ?length_insert. Qed.

Lemma swap_perm A i j a b :
  at_ A i = Some a -> at_ A j = Some b -> swap A i j ≡ₚ A.
Proof.
  intros Hi Hj. unfold swap. rewrite Hi, Hj.
  apply at_spec in Hi as [? Hi], Hj as [? Hj]. by apply Permutation_insert_swap.
Qed.

Lemma tree_lookup m A i a :
  tree_of m A -> at_ A i = Some a ->
  m !! a = Some (mkWL (at_ A (2 * i)) (at_ A (2 * i + 1)) (at_ A (i / 2)) (weight m a)).
Proof.
  intros [_ Ht] Hi. destruct (Ht i a Hi) as [w Hw]. unfold weight. by rewrite Hw.
Qed.

Lemma tree_valid m A i : tree_of m A -> valid_ptr m (at_ A i).
Proof.
  intros Ht. destruct (at_ A i) as [a|] eqn:Hi; [|done]. simpl. by rewrite (tree_lookup m A i a Ht Hi).
Qed.

(** Pointer comparisons between nodes of the tree compare their positions. *)
Lemma at_eq_dec A i a j :
  NoDup A -> at_ A i = Some a -> (at_ A j = Some a <-> j = i).
Proof. intros Hnd Hi. split; [intros Hj; by eapply at_inj|by intros ->]. Qed.

(** The child pointer of a grandparent that is redirected from [parent] to [node]. *)
Definition redirect (parent node : ptr) (k : WEIGHTED_LINK) : WEIGHTED_LINK :=
  if decide (Left k = parent) then with_Left node k else with_Right node k.

(** The children of a promoted node: its old parent on its own side, its old sibling on
    the other. *)
Definition adopt (parent sibling : ptr) (left : bool) (k : WEIGHTED_LINK) : WEIGHTED_LINK :=
  if left then with_Right sibling (with_Left parent k)
  else with_Right parent (with_Left sibling k).

Lemma redirect_ok g parent node m :
  valid_ptr m g ->
  (if decide (g <> None) then
     k ← wload g;
     if decide (Left k = parent) then set_Left g node else set_Right g node
   else mret tt) m = Ok (tt, upd g (redirect parent node) m).
Proof.
  intros Hv. destruct g as [x|]; [|by rewrite decide_False by auto].
  rewrite decide_True by done. destruct Hv as [k Hk]. st_step wload_ok by exact Hk.
  assert (upd (Some x) (redirect parent node) m = <[x := redirect parent node k]> m) as ->.
  { apply map_eq. intros y. rewrite upd_lookup, lookup_insert.
    destruct (decide (x = y)) as [<-|]; [by rewrite decide_True, Hk|by rewrite decide_False by congruence]. }
  unfold redirect. case_decide; by apply wstore_with_ok.
Qed.

Lemma adopt_ok node parent sibling k m :
  is_Some (m !! node) ->
  (if decide (Left k = Some node) then
     set_Left (Some node) parent;; set_Right (Some node) sibling
   else
     set_Left (Some node) sibling;; set_Right (Some node) parent) m =
  Ok (tt, upd (Some node) (adopt parent sibling (bool_decide (Left k = Some node))) m).
Proof.
  intros Hv. unfold set_Left, set_Right.
  assert (forall f g, upd (Some node) f (upd (Some node) g m) = upd (Some node) (fun k => f (g k)) m) as Hc.
  { intros f g. apply map_eq. intros y. rewrite !upd_lookup. repeat case_decide; [|done].
    by destruct (m !! y). }
  case_decide as Hd; [rewrite bool_decide_true by done|rewrite bool_decide_false by done].
  all: erewrite st_bind_ok by (apply wstore_upd; done).
  all: rewrite wstore_upd by (done || by apply (upd_valid _ _ _ (Some node))).
  all: by rewrite Hc.
Qed.

(** The store after [HeapPromote]: [a] is promoted over [p]; [g], [s], [l] and [r] are
    the grandparent, the sibling and the children. *)
Definition promoted (m : wstore) (a p : loc) (g s l r : ptr) (left : bool) : wstore :=
  upd r (with_Parent (Some p)) (upd l (with_Parent (Some p))
    (upd (Some p) (with_Right r) (upd (Some p) (with_Left l)
      (upd (Some a) (adopt (Some p) s left)
        (upd s (with_Parent (Some a)) (upd (Some p) (with_Parent (Some a))
          (upd (Some a) (with_Parent g) (upd g (redirect (Some p) (Some a)) m)))))))).

Lemma HeapPromote_runs m A i a p :
  tree_of m A -> at_ A i = Some a -> at_ A (i / 2) = Some p -> 2 <= i ->
  HeapPromote (Some a) m = Ok (tt,
    promoted m a p (at_ A (i / 2 / 2))
      (if decide (at_ A (2 * (i / 2)) <> Some a) then at_ A (2 * (i / 2)) else at_ A (2 * (i / 2) + 1))
      (at_ A (2 * i)) (at_ A (2 * i + 1)) (bool_decide (at_ A (2 * (i / 2)) = Some a))).
Proof.
  intros Ht Hi Hp Hge. pose proof Ht as [Hnd _].
  pose proof (tree_lookup m A i a Ht Hi) as Hma. pose proof (tree_lookup m A _ p Ht Hp) as Hmp.
  assert (valid_ptr m (Some a)) as Hva by (by eexists).
  assert (valid_ptr m (Some p)) as Hvp by (by eexists).
  pose proof (fun j => tree_valid m A j Ht) as Hv.
  set (s := if decide (at_ A (2 * (i / 2)) <> Some a) then at_ A (2 * (i / 2)) else at_ A (2 * (i / 2) + 1)).
  assert (valid_ptr m s) as Hvs by (unfold s; case_decide; apply Hv).
  unfold HeapPromote. st_step wload_ok by exact Hma. simpl. rewrite Hp.
  st_step assert_true. st_step wload_ok by exact Hmp. simpl. fold s.
  st_step redirect_ok by done.
  st_step (wstore_upd (with_Parent _) (Some a)) by solve_valid.
  st_step (wstore_upd (with_Parent _) (Some p)) by solve_valid.
  st_step cond_set_Parent by solve_valid.
  set (m4 := upd s _ _).
  assert (exists k, m4 !! p = Some k /\ Left k = at_ A (2 * (i / 2))) as (k & Hk & Hl).
  { unfold m4. rewrite !upd_lookup, Hmp.
    rewrite (decide_False (P := at_ A (i / 2 / 2) = Some p))
      by (intros H; apply (at_inj A _ (i / 2)) in H; [dlia|done|done]).
    rewrite (decide_False (P := Some a = Some p)) by (intros [= ->]; pose proof (at_inj A _ _ _ Hnd Hi Hp); dlia).
    rewrite (decide_True (P := Some p = Some p)) by done.
    destruct (decide (s = Some p)); by eexists. }
  st_step wload_ok by exact Hk.
  unfold m4. st_step adopt_ok by (apply (upd_valid _ _ _ (Some a)); solve_valid). rewrite Hl.
  st_step (wstore_upd (with_Left _) (Some p)) by solve_valid.
  st_step (wstore_upd (with_Right _) (Some p)) by solve_valid.
  st_step cond_set_Parent by solve_valid.
  apply cond_set_Parent. solve_valid.
Qed.

(** The position a node moves to when the positions [i] and [i / 2] are exchanged. *)
Lemma promoted_tree m A i a p :
  tree_of m A -> at_ A i = Some a -> at_ A (i / 2) = Some p -> 2 <= i ->
  tree_of (promoted m a p (at_ A (i / 2 / 2))
      (if decide (at_ A (2 * (i / 2)) <> Some a) then at_ A (2 * (i / 2)) else at_ A (2 * (i / 2) + 1))
      (at_ A (2 * i)) (at_ A (2 * i + 1)) (bool_decide (at_ A (2 * (i / 2)) = Some a)))
    (swap A i (i / 2)).
Proof.
  intros Ht Hi Hp Hge. pose proof Ht as [Hnd _]. split.
  { by rewrite (swap_perm A i (i / 2) a p). }
  intros k x Hx. unfold node_ok. rewrite !(at_swap A i (i / 2) a p) by done.
  rewrite (at_swap A i (i / 2) a p) in Hx by done.
  (* [x] was at position [j] *)
  assert (exists j, at_ A j = Some x /\
    ((k = i /\ j = i / 2) \/ (k = i / 2 /\ j = i) \/ (k <> i /\ k <> i / 2 /\ j = k))) as (j & Hj & Hcase).
  { repeat case_decide; naive_solver. }
  pose proof (tree_lookup m A j x Ht Hj) as Hm. exists (weight m x).
  pose proof (at_range A i a Hi). pose proof (at_range A j x Hj).
  assert (forall r, at_ A r = Some x <-> r = j) as Dx by (intros; by apply at_eq_dec).
  assert (forall r, at_ A r = Some a <-> r = i) as Da by (intros; by apply at_eq_dec).
  assert (forall r, at_ A r = Some p <-> r = i / 2) as Dp by (intros; by apply at_eq_dec).
  assert (Some p = Some x <-> i / 2 = j) as Dpx by (rewrite <- Dx, Hp; done).
  assert (Some a = Some x <-> i = j) as Dax by (rewrite <- Dx, Hi; done).
  clear Hx. unfold promoted. rewrite !upd_lookup, Hm.
  assert (i = 2 * (i / 2) \/ i = 2 * (i / 2) + 1) as Hpar by dlia.
  set (q := i / 2) in *. assert (2 * q <= i <= 2 * q + 1) by lia. clearbody q.
  set (g := q / 2) in *. assert (2 * g <= q <= 2 * g + 1) by (unfold g; dlia). clearbody g.
  set (j2 := j / 2) in *. assert (2 * j2 <= j <= 2 * j2 + 1) by (unfold j2; dlia). clearbody j2.
  set (k2 := k / 2) in *. assert (2 * k2 <= k <= 2 * k2 + 1) by (unfold k2; dlia). clearbody k2.
  destruct Hpar as [Hpar|Hpar];
    [rewrite (decide_False (P := at_ A (2 * q) <> Some a)) by (rewrite Da; lia);
     rewrite (bool_decide_true (at_ A (2 * q) = Some a)) by (rewrite Da; lia)
    |rewrite (decide_True (P := at_ A (2 * q) <> Some a)) by (rewrite Da; lia);
     rewrite (bool_decide_false (at_ A (2 * q) = Some a)) by (rewrite Da; lia)].
  all: destruct Hcase as [[-> ->]|[[-> ->]|(Hki & Hkq & ->)]].
  all: repeat (match goal with
    | |- context [decide (at_ ?B ?r = Some ?z)] =>
        let H := fresh in destruct (decide (at_ B r = Some z)) as [H|H]; rewrite Dx in H
    | |- context [decide (Some ?y = Some ?z)] =>
        let H := fresh in
        destruct (decide (Some y = Some z)) as [H|H]; first [rewrite Dpx in H | rewrite Dax in H]
    end; try (exfalso; lia)).
  all: unfold redirect, adopt, with_Left, with_Right, with_Parent; simpl.
  all: repeat (match goal with
    | |- context [decide (at_ ?B ?r = Some ?z)] =>
        let H := fresh in destruct (decide (at_ B r = Some z)) as [H|H]; rewrite Dp in H
    | |- context [decide (?y = ?z :> Z)] => destruct (decide (y = z))
    end; try (exfalso; lia)); simpl.
  all: do 2 f_equal; first [done | apply Dp; lia | apply Da; lia | f_equal; lia | symmetry; apply Dp; lia | symmetry; apply Da; lia].
Qed.

Lemma upd_other p f m x : p <> Some x -> upd p f m !! x = m !! x.
Proof. intros H. rewrite upd_lookup. by rewrite decide_False. Qed.

Lemma promoted_frame m a p g s l r lft x :
  Some a <> Some x -> Some p <> Some x -> g <> Some x -> s <> Some x -> l <> Some x -> r <> Some x ->
  promoted m a p g s l r lft !! x = m !! x.
Proof. intros. unfold promoted. by rewrite !upd_other. Qed.

Lemma promoted_weights m a p g s l r lft : same_weights m (promoted m a p g s l r lft).
Proof.
  unfold promoted.
  repeat (etransitivity; [|apply upd_same_weights; intros k; try done;
    unfold redirect, adopt; repeat case_match; done]). reflexivity.
Qed.

Lemma at_elem A i x : at_ A i = Some x -> x ∈ A.
Proof. intros H. apply at_spec in H as [_ H]. by eapply list_elem_of_lookup_2. Qed.

(** [HeapPromote] of the node at position [i] exchanges it with its parent, keeps all
    weights and touches no node outside the tree. *)
Lemma HeapPromote_ok m A i a p :
  tree_of m A -> at_ A i = Some a -> at_ A (i / 2) = Some p -> 2 <= i ->
  exists m', HeapPromote (Some a) m = Ok (tt, m') /\ tree_of m' (swap A i (i / 2)) /\
    same_weights m m' /\ (forall x, x ∉ A -> m' !! x = m !! x).
Proof.
  intros Ht Hi Hp Hge. eexists. split; [by apply HeapPromote_runs|].
  split; [by apply promoted_tree|]. split; [apply promoted_weights|].
  intros x Hx. assert (forall j, at_ A j <> Some x) as Hn by (intros j H; apply Hx; by eapply at_elem).
  apply promoted_frame; [rewrite <- Hi|rewrite <- Hp|..]; try case_decide; apply Hn.
Qed.
