(* ===== verification/Heap.v ===== *)
(** * The binary heap (utils/heap.c): ordering and priority-queue behaviour

    The heap represents its nodes in level order ([heap_of]); [HeapAdd] and [HeapPop]
    keep the tree complete and ordered, add exactly the new node and remove exactly a
    node of least weight. *)

From S2P Require Import Prelude WeightedLink HeapTree.

(** ** Finding a position *)

Lemma CountSteps_ok fuel tmp steps :
  1 <= tmp -> Z.log2 tmp <= Z.of_nat fuel -> 0 <= steps -> steps + Z.log2 tmp < 2 ^ 64 ->
  CountSteps fuel tmp steps = Ok (steps + Z.log2 tmp).
Proof.
  revert tmp steps. induction fuel as [|fuel IH]; intros tmp steps Ht Hf Hs Hb; simpl.
  all: destruct (Z.eqb_spec tmp 1) as [->|Hne]; [by rewrite Z.add_0_r|].
  all: assert (Z.log2 tmp = 1 + Z.log2 (tmp / 2)) as Hl
    by (pose proof (Z.log2_shiftr tmp 1 ltac:(lia)) as Hl; rewrite Z.shiftr_div_pow2 in Hl by lia;
        pose proof (Z.log2_le_mono 2 tmp ltac:(lia)) as H2; change (Z.log2 2) with 1 in H2;
        change (2 ^ 1) with 2 in Hl; lia).
  all: pose proof (Z.log2_nonneg (tmp / 2)).
  { lia. }
  rewrite w64_small by (unfold u64; lia). rewrite IH by (try lia; dlia). f_equal. lia.
Qed.

(** The mask of a descent with [k] steps to go. *)
Definition descend_mask (k : Z) : Z := if k =? 0 then 0 else 2 ^ (k - 1).

Lemma Descend_ok fuel m A index k :
  tree_of m A -> 0 <= k <= Z.of_nat fuel -> k <= Z.log2 index -> 1 <= index <= zlen A ->
  Descend fuel (descend_mask k) index (at_ A (index / 2 ^ k)) m = Ok (at_ A index, m).
Proof.
  intros Ht. revert k. induction fuel as [|fuel IH]; intros k Hk Hl Hi; simpl.
  all: unfold descend_mask; destruct (Z.eqb_spec k 0) as [->|Hne]; [by rewrite Z.pow_0_r, Z.div_1_r|].
  { lia. }
  rewrite Z.gtb_ltb. destruct (Z.ltb_spec 0 (2 ^ (k - 1))); [|lia].
  assert (1 <= index / 2 ^ k <= zlen A) as Hr.
  { split.
    - apply Z.div_le_lower_bound; [lia|]. rewrite Z.mul_1_r. apply Z.log2_le_pow2; lia.
    - transitivity index; [|lia]. apply Z.div_le_upper_bound; [lia|].
      rewrite <- (Z.mul_1_l index) at 1. apply Z.mul_le_mono_nonneg_r; lia. }
  destruct (at_in A _ Hr) as [x Hx]. rewrite Hx.
  st_step wload_ok by (by apply (tree_lookup m A)). simpl.
  assert (index / 2 ^ (k - 1) = 2 * (index / 2 ^ k) + Z.b2z (Z.testbit index (k - 1))) as Hstep.
  { rewrite Z.testbit_spec' by lia. replace (2 ^ k) with (2 ^ (k - 1) * 2)
      by (replace k with (k - 1 + 1) at 2 by lia; by rewrite Z.pow_add_r by lia).
    rewrite <- Z.div_div by lia. apply Z.div_mod. lia. }
  assert (2 ^ (k - 1) / 2 = descend_mask (k - 1)) as ->.
  { unfold descend_mask. destruct (Z.eqb_spec (k - 1) 0) as [->|]; [done|].
    replace (k - 1) with (k - 1 - 1 + 1) at 1 by lia. rewrite Z.pow_add_r by lia.
    by rewrite Z.div_mul by lia. }
  assert (Z.land (2 ^ (k - 1)) index =? 0 = negb (Z.testbit index (k - 1))) as ->.
  { rewrite <- Z.shiftl_1_l, Z.land_comm.
    destruct (Z.testbit index (k - 1)) eqn:Hb; simpl.
    - apply Z.eqb_neq. intros H0. assert (Z.testbit (Z.land index (Z.shiftl 1 (k - 1))) (k - 1) = true)
        as Ht1 by (rewrite Z.land_spec, Hb, Z.shiftl_spec, Z.sub_diag by lia; done).
      by rewrite H0, Z.testbit_0_l in Ht1.
    - apply Z.eqb_eq, Z.bits_inj'. intros j Hj. rewrite Z.land_spec, Z.shiftl_1_l, Z.testbit_0_l.
      rewrite Z.pow2_bits_eqb by lia. destruct (Z.eqb_spec (k - 1) j) as [<-|]; [by rewrite Hb|].
      apply andb_false_r. }
  assert ((if negb (Z.testbit index (k - 1)) then at_ A (2 * (index / 2 ^ k))
           else at_ A (2 * (index / 2 ^ k) + 1)) = at_ A (index / 2 ^ (k - 1))) as ->.
  { rewrite Hstep. destruct (Z.testbit index (k - 1)); simpl; f_equal; lia. }
  apply IH; lia.
Qed.

Lemma HeapFindElement_ok m A h index :
  tree_of m A -> Head h = at_ A 1 -> 1 <= index <= zlen A -> index <= Size h -> zlen A < 2 ^ 31 ->
  HeapFindElement index h m = Ok (at_ A index, m).
Proof.
  intros Ht Hh Hi Hs Hb. unfold HeapFindElement.
  pose proof (Z.log2_nonneg index). pose proof (Z.log2_lt_pow2 index 31 ltac:(lia)) as [Hl _].
  st_step assert_true by (zcases; simpl; lia).
  rewrite (st_bind_ok _ _ _ _ _ (liftr_ok _ _ m (CountSteps_ok 64 index 0 ltac:(lia) ltac:(lia) ltac:(lia) ltac:(lia)))).
  rewrite Z.add_0_l.
  destruct (Z.eqb_spec (Z.log2 index) 0) as [H0|H0].
  - assert (index = 1) as -> by (apply Z.log2_null in H0; lia). by rewrite Hh.
  - assert (w32 (Z.quot (int32 (Z.shiftl 1 (Z.log2 index))) 2) = descend_mask (Z.log2 index)) as ->.
    { rewrite Z.shiftl_1_l. pose proof (Z.pow_lt_mono_r 2 (Z.log2 index) 31 ltac:(lia) ltac:(lia) ltac:(lia)).
      pose proof (Z.pow_pos_nonneg 2 (Z.log2 index) ltac:(lia) ltac:(lia)).
      rewrite int32_small by lia. unfold descend_mask. destruct (Z.eqb_spec (Z.log2 index) 0); [lia|].
      rewrite Z.quot_div_nonneg by lia.
      assert (2 ^ Z.log2 index = 2 ^ (Z.log2 index - 1) * 2) as Hp
        by (rewrite <- (Z.pow_add_r 2 _ 1) by lia; f_equal; lia).
      rewrite Hp, Z.div_mul by lia. apply wrap_small. lia. }
    rewrite Hh. replace 1 with (index / 2 ^ Z.log2 index) at 1.
    + apply Descend_ok; [done|lia|lia|lia].
    + pose proof (Z.log2_spec index ltac:(lia)) as [H1 H2].
      apply Z.le_antisymm; [|apply Z.div_le_lower_bound; lia].
      apply Z.lt_succ_r, Z.div_lt_upper_bound; [lia|]. rewrite Z.pow_succ_r in H2 by lia. lia.
Qed.

(** ** Ordering *)

(** Ordered except that the node at position [i] may be lighter than its parent. *)
Definition up_ordered (m : wstore) (A : list loc) (i : Z) : Prop :=
  (forall j b p, j <> i -> at_ A j = Some b -> at_ A (j / 2) = Some p -> weight m p <= weight m b) /\
  (forall c b p, c / 2 = i -> at_ A c = Some b -> at_ A (i / 2) = Some p -> weight m p <= weight m b).

(** Ordered except that the node at position [i] may be heavier than its children. *)
Definition down_ordered (m : wstore) (A : list loc) (i : Z) : Prop :=
  (forall j b p, j / 2 <> i -> at_ A j = Some b -> at_ A (j / 2) = Some p -> weight m p <= weight m b) /\
  (forall c b p, c / 2 = i -> at_ A c = Some b -> at_ A (i / 2) = Some p -> weight m p <= weight m b).

(** The exchange of a node with a heavier parent moves the disorder one level up. *)
Lemma up_ordered_swap m m' A i a p :
  same_weights m m' -> 2 <= i -> at_ A i = Some a -> at_ A (i / 2) = Some p ->
  weight m a < weight m p -> up_ordered m A i -> up_ordered m' (swap A i (i / 2)) (i / 2).
Proof.
  intros [_ Hw] Hge Hi Hp Hlt [H1 H2]. split.
  - intros j b p' Hj Hb Hp'. rewrite !(at_swap A i (i / 2) a p) in * by done. rewrite !Hw.
    destruct (decide (j = i)) as [->|Hji].
    { injection Hb as <-. rewrite decide_False, decide_True in Hp' by (done || dlia).
      injection Hp' as <-. lia. }
    rewrite decide_False in Hb by done. destruct (decide (j / 2 = i)) as [Hc|Hc].
    { injection Hp' as <-. by apply (H2 j b p). }
    destruct (decide (j / 2 = i / 2)) as [Hs|Hs]; [|by apply (H1 j b p')].
    injection Hp' as <-. pose proof (H1 j b p Hji Hb). rewrite Hs in *. specialize (H Hp). lia.
  - intros c b p' Hc Hb Hp'. rewrite !(at_swap A i (i / 2) a p) in * by done. rewrite !Hw.
    rewrite !(decide_False (P := i / 2 / 2 = _)) in Hp' by dlia.
    pose proof (H1 (i / 2) p p' ltac:(dlia) Hp Hp').
    destruct (decide (c = i)) as [->|Hci]; [by injection Hb as <-|].
    rewrite decide_False in Hb by dlia.
    pose proof (H1 c b p Hci Hb). rewrite Hc in *. specialize (H0 Hp). lia.
Qed.

(** The exchange of a node with its lightest child moves the disorder one level down. *)
Lemma down_ordered_swap m m' A i c s t :
  same_weights m m' -> 1 <= i -> c / 2 = i -> at_ A c = Some s -> at_ A i = Some t ->
  weight m s <= weight m t ->
  (forall d b, d / 2 = i -> at_ A d = Some b -> weight m s <= weight m b) ->
  down_ordered m A i -> down_ordered m' (swap A c (c / 2)) c.
Proof.
  intros [_ Hw] Hge Hc Hs Ht Hle Hmin [H1 H2]. rewrite Hc. split.
  - intros j b p' Hj Hb Hp'. rewrite !(at_swap A c i s t) in * by done. rewrite !Hw.
    rewrite (decide_False (P := j / 2 = c)) in Hp' by done.
    destruct (decide (j = c)) as [->|Hjc].
    { injection Hb as <-. rewrite decide_True in Hp' by done. by injection Hp' as <-. }
    destruct (decide (j = i)) as [->|Hji].
    { injection Hb as <-. rewrite decide_False in Hp' by dlia. by apply (H2 c s p'). }
    destruct (decide (j / 2 = i)) as [Hji2|Hji2]; [|by apply (H1 j b p')].
    injection Hp' as <-. by apply (Hmin j).
  - intros d b p' Hd Hb Hp'. rewrite !(at_swap A c i s t) in * by done. rewrite !Hw.
    rewrite !(decide_False (P := d = _)) in Hb by dlia.
    rewrite decide_False, decide_True in Hp' by (done || dlia). injection Hp' as <-.
    apply (H1 d b s); [dlia|done|by rewrite Hd].
Qed.

(** What an operation on the tree keeps. *)
Definition tree_step (m m' : wstore) (A A' : list loc) : Prop :=
  tree_of m' A' /\ A' ≡ₚ A /\ same_weights m m' /\ (forall x, x ∉ A -> m' !! x = m !! x).

Lemma tree_step_trans m1 m2 m3 A1 A2 A3 :
  tree_step m1 m2 A1 A2 -> tree_step m2 m3 A2 A3 -> tree_step m1 m3 A1 A3.
Proof.
  intros (T2 & P2 & W2 & F2) (T3 & P3 & W3 & F3). split_and!; [done|by rewrite P3|by etransitivity|].
  intros x Hx. rewrite F3, F2; [done|done|by rewrite P2].
Qed.

Lemma promote_step m A i a p :
  tree_of m A -> at_ A i = Some a -> at_ A (i / 2) = Some p -> 2 <= i ->
  exists m', HeapPromote (Some a) m = Ok (tt, m') /\ tree_step m m' A (swap A i (i / 2)) /\
    at_ (swap A i (i / 2)) (i / 2) = Some a /\ at_ (swap A i (i / 2)) i = Some p.
Proof.
  intros Ht Hi Hp Hge. destruct (HeapPromote_ok m A i a p Ht Hi Hp Hge) as (m' & Hr & Ht' & Hw & Hf).
  exists m'. split_and!; [done| |by rewrite (at_swap A i (i / 2) a p), decide_False, decide_True by (done || dlia)
    |by rewrite (at_swap A i (i / 2) a p), decide_True by done].
  split_and!; [done|by eapply swap_perm|done|done].
Qed.

(** *** Percolating up *)

Lemma PercolateUp_ok fuel m A i a :
  tree_of m A -> at_ A i = Some a -> i <= Z.of_nat fuel -> up_ordered m A i ->
  exists m' A', PercolateUp fuel (Some a) m = Ok (tt, m') /\ tree_step m m' A A' /\
    heap_ordered m' A' /\ (at_ A' 1 = Some a \/ (at_ A' 1 = at_ A 1 /\ i <> 1)).
Proof.
  revert m A i. induction fuel as [|fuel IH]; intros m A i Ht Hi Hf Hup.
  { pose proof (at_range _ _ _ Hi). lia. }
  pose proof (at_range _ _ _ Hi) as Hr. pose proof Hup as [H1 H2].
  simpl. st_step wload_ok by (by apply (tree_lookup m A i)). simpl.
  destruct (decide (i = 1)) as [->|Hne].
  { rewrite decide_False by auto. exists m, A. split_and!; [done|by split_and!| |by left].
    intros j b p Hb Hp. apply (H1 j b p); [|done|done].
    intros ->. apply at_range in Hp. dlia. }
  destruct (at_in A (i / 2)) as [p Hp]; [dlia|]. rewrite Hp, decide_True by done.
  st_step wload_ok by (by apply (tree_lookup m A (i / 2))). simpl.
  destruct (Z.ltb_spec (weight m a) (weight m p)) as [Hlt|Hge].
  - destruct (promote_step m A i a p Ht Hi Hp ltac:(lia)) as (m1 & Hrun & Hstep & Ha & _).
    erewrite st_bind_ok by exact Hrun. pose proof Hstep as (Ht1 & _ & Hw1 & _).
    destruct (IH m1 (swap A i (i / 2)) (i / 2)) as (m' & A' & -> & Hstep' & Hord & Hroot);
      [done|done|dlia|by apply (up_ordered_swap m m1 A i a p); [| lia | | | |]|].
    exists m', A'. split_and!; [done|by eapply tree_step_trans|done|].
    destruct Hroot as [|[Hroot Hq]]; [by left|]. right. split; [|done].
    rewrite Hroot, (at_swap A i (i / 2) a p), !decide_False by (done || lia). done.
  - exists m, A. split_and!; [done|by split_and!| |by right].
    intros j b p' Hb Hp'. destruct (decide (j = i)) as [->|Hji]; [|by apply (H1 j b p')].
    rewrite Hp in Hp'. injection Hp' as <-. rewrite Hi in Hb. by injection Hb as <-.
Qed.

(** *** Percolating down *)

Definition weights_u64 (m : wstore) (A : list loc) : Prop := forall a, a ∈ A -> u64 (weight m a).

(** The weight [HeapSmallest] compares: that of an absent child is the maximum. *)
Definition weight_of (m : wstore) (p : ptr) : Z :=
  match p with Some a => weight m a | None => max64 end.

Lemma weight_or_max_ok m p : valid_ptr m p -> weight_or_max p m = Ok (weight_of m p, m).
Proof.
  intros Hv. unfold weight_or_max. destruct p as [a|]; [|by rewrite decide_False by auto].
  destruct Hv as [k Hk]. rewrite decide_True by done. st_step wload_ok by exact Hk.
  simpl. unfold weight. by rewrite Hk.
Qed.

Lemma weight_of_bound m A i : weights_u64 m A -> 0 <= weight_of m (at_ A i) <= max64.
Proof.
  intros Hb. destruct (at_ A i) as [a|] eqn:Ha; simpl; [|unfold max64; lia].
  pose proof (Hb a (at_elem _ _ _ Ha)). unfold u64, max64 in *. lia.
Qed.

Lemma HeapSmallest_ok m A i t :
  tree_of m A -> weights_u64 m A -> at_ A i = Some t ->
  exists r, HeapSmallest (Some t) (at_ A (2 * i)) (at_ A (2 * i + 1)) m = Ok (r, m) /\
    ((r = Some t /\ forall d b, d / 2 = i -> at_ A d = Some b -> weight m t <= weight m b) \/
     (exists c s, c / 2 = i /\ at_ A c = Some s /\ r = Some s /\ s <> t /\ weight m s <= weight m t /\
        forall d b, d / 2 = i -> at_ A d = Some b -> weight m s <= weight m b)).
Proof.
  intros Ht Hb Hi. pose proof (at_range _ _ _ Hi). unfold HeapSmallest.
  st_step weight_or_max_ok by (rewrite <- Hi; by apply tree_valid).
  st_step weight_or_max_ok by (by apply tree_valid).
  st_step weight_or_max_ok by (by apply tree_valid).
  pose proof (weight_of_bound m A i Hb) as B1. pose proof (weight_of_bound m A (2 * i) Hb) as B2.
  pose proof (weight_of_bound m A (2 * i + 1) Hb) as B3. rewrite Hi in B1. simpl in B1 |- *.
  eexists. split; [done|].
  assert (forall x, at_ A (2 * i) = Some x \/ at_ A (2 * i + 1) = Some x -> x <> t) as Hne.
  { intros x Hx ->. destruct Ht as [Hnd _].
    destruct Hx as [Hx|Hx]; pose proof (at_inj A _ _ _ Hnd Hi Hx); lia. }
  assert (forall w, w <= weight_of m (at_ A (2 * i)) -> w <= weight_of m (at_ A (2 * i + 1)) ->
    forall d b, d / 2 = i -> at_ A d = Some b -> w <= weight m b) as Hmin.
  { intros w W2 W3 d b Hd Hdb. assert (d = 2 * i \/ d = 2 * i + 1) as [->| ->] by dlia.
    - by rewrite Hdb in W2.
    - by rewrite Hdb in W3. }
  destruct ((weight m t <=? weight_of m (at_ A (2 * i))) && (weight m t <=? weight_of m (at_ A (2 * i + 1)))) eqn:E1.
  { left. split; [done|]. apply andb_true_iff in E1 as [E1 E1']. apply Hmin; lia. }
  right. apply andb_false_iff in E1.
  destruct ((weight_of m (at_ A (2 * i)) <=? weight m t) &&
    (weight_of m (at_ A (2 * i)) <=? weight_of m (at_ A (2 * i + 1)))) eqn:E2.
  - apply andb_true_iff in E2 as [E2 E2'].
    destruct (at_ A (2 * i)) as [s|] eqn:Hs; simpl in *; [|lia].
    exists (2 * i), s. split_and!; [dlia|done|done|by auto|lia|apply Hmin; lia].
  - apply andb_false_iff in E2.
    assert ((weight_of m (at_ A (2 * i + 1)) <=? weight m t) &&
      (weight_of m (at_ A (2 * i + 1)) <=? weight_of m (at_ A (2 * i))) = true) as E3
      by (apply andb_true_iff; split; lia).
    rewrite E3. apply andb_true_iff in E3 as [E3 E3'].
    destruct (at_ A (2 * i + 1)) as [s|] eqn:Hs; simpl in *; [|lia].
    exists (2 * i + 1), s. split_and!; [dlia|done|done|by auto|lia|apply Hmin; lia].
Qed.

Lemma tree_step_u64 m m' A A' : tree_step m m' A A' -> weights_u64 m A -> weights_u64 m' A'.
Proof. intros (_ & Hp & [_ Hw] & _) Hb a Ha. rewrite Hw. apply Hb. by rewrite <- Hp. Qed.

Lemma PercolateDown_ok fuel m A h i t :
  heap_of m h A -> weights_u64 m A -> at_ A i = Some t -> zlen A - i <= Z.of_nat fuel ->
  down_ordered m A i ->
  exists m' A' h', PercolateDown fuel (Some t) h m = Ok (h', m') /\ tree_step m m' A A' /\
    heap_of m' h' A' /\ heap_ordered m' A'.
Proof.
  revert m A h i. induction fuel as [|fuel IH]; intros m A h i Hh Hb Hi Hf Hdn.
  all: pose proof Hh as (Ht & Hsz & Hhd); pose proof (at_range _ _ _ Hi) as Hr.
  all: destruct (HeapSmallest_ok m A i t Ht Hb Hi) as (r & Hsm & Hcase).
  all: simpl; st_step wload_ok by (by apply (tree_lookup m A i)); simpl.
  all: erewrite st_bind_ok by exact Hsm.
  all: destruct Hcase as [[-> Hmin]|(c & s & Hc & Hs & -> & Hne & Hle & Hmin)].
  1, 3: rewrite decide_True by done; exists m, A, h; split_and!; [done|by split_and!|done|];
    intros j b p Hjb Hjp; destruct (decide (j / 2 = i)) as [Hj|Hj];
      [rewrite Hj, Hi in Hjp; injection Hjp as <-; by apply (Hmin j)|by apply (proj1 Hdn j)].
  { pose proof (at_range _ _ _ Hs). dlia. }
  rewrite decide_False by congruence.
  assert (at_ A (c / 2) = Some t) as Hct by (by rewrite Hc).
  destruct (promote_step m A c s t Ht Hs Hct ltac:(dlia)) as (m1 & Hrun & Hstep & Has & Hat).
  erewrite st_bind_ok by exact Hrun. pose proof Hstep as (Ht1 & _ & Hw1 & _).
  st_step wload_ok by (by apply (tree_lookup m1 (swap A c (c / 2)) (c / 2))). simpl.
  set (h1 := if decide _ then _ else h).
  assert (heap_of m1 h1 (swap A c (c / 2))) as Hh1.
  { rewrite Hc in *. split_and!; [done|unfold h1; case_decide; simpl; by rewrite swap_length|].
    unfold h1. rewrite Hc, !(at_swap A c i s t) by done. destruct (decide (i = 1)) as [->|Hi1].
    - rewrite !(decide_False (P := 1 / 2 = _)) by dlia.
      rewrite (decide_True (P := at_ A (1 / 2) = None)) by (apply at_out; dlia).
      by rewrite (decide_False (P := 1 = c)), (decide_True (P := 1 = 1)) by dlia.
    - assert (1 <= i / 2) by dlia. destruct (at_in A (i / 2)) as [g Hg]; [dlia|].
      rewrite !(decide_False (P := 1 = _)) by dlia.
      rewrite !(decide_False (P := i / 2 = _)) by dlia. by rewrite Hg, decide_False by done. }
  destruct (IH m1 (swap A c (c / 2)) h1 c) as (m' & A' & h' & -> & Hstep' & Hh' & Hord).
  - done.
  - by eapply tree_step_u64.
  - done.
  - rewrite swap_length. pose proof (at_range _ _ _ Hs). dlia.
  - by apply (down_ordered_swap m m1 A i c s t); [| lia | | | | | |].
  - exists m', A', h'. split_and!; [done|by eapply tree_step_trans|done|done].
Qed.

(** ** Adding *)

Lemma at_app A n0 j :
  at_ (A ++ [n0]) j = if decide (j = zlen A + 1) then Some n0 else at_ A j.
Proof.
  unfold at_, zlen. case_decide as Hj.
  - destruct (Z.leb_spec j 0); [lia|]. rewrite lookup_app_r by lia.
    by replace (Z.to_nat (j - 1) - length A)%nat with 0%nat by lia.
  - destruct (Z.leb_spec j 0); [done|].
    destruct (decide (j <= Z.of_nat (length A))).
    + by rewrite lookup_app_l by lia.
    + rewrite !lookup_ge_None_2; rewrite ?length_app; simpl; try done; lia.
Qed.

Lemma tree_frame m m' A :
  (forall x, x ∈ A -> m' !! x = m !! x) -> tree_of m A -> tree_of m' A.
Proof.
  intros Hf [Hnd Ht]. split; [done|]. intros i a Hi. destruct (Ht i a Hi) as [w Hw].
  exists w. rewrite Hf; [done|by eapply at_elem].
Qed.

(** The store once the new node [n0] hangs below the last position. *)
Definition attached (m : wstore) (n0 p : loc) (q : ptr) (w : Z) (left : bool) : wstore :=
  upd (Some n0) (with_Parent (Some p))
    (upd (Some p) (if left then with_Left (Some n0) else with_Right (Some n0))
      (<[n0 := mkWL None None q w]> m)).

Lemma attached_tree m A n0 p q w k0 left :
  tree_of m A -> n0 ∉ A -> m !! n0 = Some k0 -> at_ A ((zlen A + 1) / 2) = Some p ->
  left = bool_decide (at_ A (2 * ((zlen A + 1) / 2)) = None) ->
  tree_of (attached m n0 p q w left) (A ++ [n0]).
Proof.
  intros Ht Hn Hk Hp ->. pose proof Ht as [Hnd _]. split.
  { rewrite (Permutation_app_comm A [n0]). by apply NoDup_cons. }
  set (k := (zlen A + 1) / 2) in *. set (n := zlen A) in *.
  pose proof (at_range _ _ _ Hp) as Hkr. assert (2 * k <= n + 1 <= 2 * k + 1) as Hkn by (unfold k; dlia).
  clearbody k. fold n in Hkr.
  assert (p <> n0) as Hpn by (intros ->; apply Hn; by eapply at_elem).
  intros j x Hx. unfold node_ok. rewrite !at_app in *. fold n in Hx |- *. unfold attached.
  rewrite !upd_lookup, lookup_insert. destruct (decide (j = n + 1)) as [->|Hj].
  - injection Hx as <-. exists w. rewrite (decide_False (P := Some p = Some n0)) by congruence.
    rewrite !(decide_True (P := n0 = n0)), (decide_True (P := Some n0 = Some n0)) by done. simpl.
    rewrite !(decide_False (P := 2 * (n + 1) = _)), (decide_False (P := 2 * (n + 1) + 1 = _)) by lia.
    rewrite (decide_False (P := (n + 1) / 2 = _)) by dlia.
    rewrite (at_out A (2 * (n + 1))), (at_out A (2 * (n + 1) + 1)) by (fold n; lia).
    assert ((n + 1) / 2 = k) as -> by dlia. by rewrite Hp.
  - assert (x <> n0) as Hxn by (intros ->; apply Hn; by eapply at_elem).
    exists (weight m x).
    rewrite (decide_False (P := Some n0 = Some x)), (decide_False (P := n0 = x)) by congruence.
    rewrite (tree_lookup m A j x Ht Hx).
    pose proof (at_range _ _ _ Hx) as Hjr. fold n in Hjr.
    rewrite (decide_False (P := j / 2 = _)) by dlia.
    destruct (decide (Some p = Some x)) as [Heq|Hne].
    + injection Heq as <-. assert (j = k) as -> by (by apply (at_inj A _ _ p)).
      destruct (decide (2 * k = n + 1)) as [H2|H2].
      * rewrite bool_decide_true by (apply at_out; fold n; lia). simpl.
        by rewrite (decide_False (P := 2 * k + 1 = _)) by lia.
      * destruct (at_in A (2 * k)) as [y Hy]; [fold n; lia|].
        rewrite bool_decide_false by (by rewrite Hy). simpl.
        by rewrite (decide_True (P := 2 * k + 1 = _)) by lia.
    + assert (j <> k) by (intros ->; congruence).
      by rewrite !decide_False by lia.
Qed.

Lemma heap_ordered_up m m' A n0 :
  NoDup (A ++ [n0]) -> (forall a, a ∈ A -> weight m' a = weight m a) -> heap_ordered m A ->
  up_ordered m' (A ++ [n0]) (zlen A + 1).
Proof.
  intros Hnd Hw Hord. split.
  - intros j b p Hj Hb Hp. rewrite !at_app in *. rewrite decide_False in Hb by done.
    pose proof (at_range _ _ _ Hb). rewrite decide_False in Hp by dlia.
    rewrite !Hw by (by eapply at_elem). by apply (Hord j).
  - intros c b p Hc Hb Hp. apply at_range in Hb. unfold zlen in *. rewrite length_app in Hb. simpl in Hb. dlia.
Qed.

Lemma attached_weights m n0 p q w left a :
  a <> n0 -> weight (attached m n0 p q w left) a = weight m a.
Proof.
  intros Ha. unfold weight, attached. rewrite !upd_lookup, lookup_insert_ne by done.
  rewrite (decide_False (P := Some n0 = Some a)) by congruence.
  case_decide; [|done]. by destruct (m !! a), left.
Qed.

Lemma attached_new m n0 p q w left :
  p <> n0 -> attached m n0 p q w left !! n0 = Some (mkWL None None (Some p) w).
Proof.
  intros Hp. unfold attached. rewrite !upd_lookup, lookup_insert_eq, decide_True by done.
  by rewrite decide_False by congruence.
Qed.

(** The head after a node with the index [j] has gone up: the node when it has no parent. *)
Lemma raised_head A A' n0 head size j :
  NoDup A' -> at_ A' j = Some n0 -> head = at_ A 1 -> 1 <= zlen A -> at_ A' 1 = Some n0 \/ at_ A' 1 = at_ (A ++ [n0]) 1 ->
  Head (if decide (at_ A' (j / 2) = None) then mkHeap (Some n0) size else mkHeap head size) = at_ A' 1.
Proof.
  intros Hnd Hj -> Hlen Hroot. pose proof (at_range _ _ _ Hj). destruct (decide (j = 1)) as [->|Hj1].
  - rewrite decide_True by (apply at_out; dlia). by rewrite Hj.
  - destruct (at_in A' (j / 2)) as [g ->]; [dlia|]. rewrite decide_False by done. simpl. destruct Hroot as [Hroot| ->].
    + exfalso. apply Hj1. by eapply at_inj.
    + by rewrite at_app, decide_False by lia.
Qed.

Lemma elem_at (A : list loc) x : x ∈ A -> exists j, at_ A j = Some x.
Proof.
  intros [j Hj]%list_elem_of_lookup. exists (Z.of_nat j + 1). apply at_spec. unfold zlen. split.
  - apply lookup_lt_Some in Hj. lia.
  - by replace (Z.to_nat (Z.of_nat j + 1 - 1)) with j by lia.
Qed.

(** The last node goes up and becomes the head where it has no parent. *)
Lemma HeapAdd_raise m A n0 head size :
  tree_of m (A ++ [n0]) -> up_ordered m (A ++ [n0]) (zlen A + 1) -> head = at_ A 1 -> 1 <= zlen A -> size = zlen A + 1 ->
  exists m' h' A',
    (PercolateUp (Z.to_nat size) (Some n0);; n ← wload (Some n0);
     mret (if decide (Parent n = None) then mkHeap (Some n0) size else mkHeap head size)) m = Ok (h', m') /\
    heap_of m' h' A' /\ heap_ordered m' A' /\ tree_step m m' (A ++ [n0]) A'.
Proof.
  intros Ht Hup Hhd Hlen ->. assert (at_ (A ++ [n0]) (zlen A + 1) = Some n0) as Hlast by (by rewrite at_app, decide_True).
  destruct (PercolateUp_ok (Z.to_nat (zlen A + 1)) _ _ (zlen A + 1) n0 Ht Hlast ltac:(lia) Hup)
    as (m' & A' & Hrun & Hstep & Hord & Hroot). pose proof Hstep as (Ht' & Hperm & _).
  rewrite (st_bind_ok _ _ _ _ _ Hrun); cbv beta.
  destruct (elem_at A' n0) as [j Hj]; [rewrite Hperm; set_solver|].
  st_step wload_ok by (by apply (tree_lookup m' A' j n0)). cbn [Parent].
  assert (zlen A' = zlen A + 1) as Hz by (unfold zlen; rewrite Hperm, length_app; simpl; lia).
  eexists m', _, A'. split_and!; [done| |done|done].
  split_and!; [done|destruct (decide (at_ A' (j / 2) = None)); simpl; lia|].
  apply (raised_head A A' n0 head (zlen A + 1) j); [by destruct Ht'|done|done|lia|]. by destruct Hroot as [?|[? _]]; [left|right].
Qed.

(** [HeapAdd] below an existing node, from the point where the fields of the node are set. *)
Lemma HeapAdd_below m h A n0 q w :
  heap_of m h A -> heap_ordered m A -> n0 ∉ A -> is_Some (m !! n0) ->
  1 <= zlen A < 2 ^ 31 - 1 ->
  exists m' h' A',
    (let heap := mkHeap (Head h) (zlen A + 1) in
     parent ← HeapFindElement (Size heap / 2) heap;
     p ← wload parent;
     assert (bool_decide (Left p = None) || bool_decide (Right p = None));;
     (if decide (Left p = None) then set_Left parent (Some n0) else set_Right parent (Some n0));;
     set_Parent (Some n0) parent;;
     PercolateUp (Z.to_nat (Size heap)) (Some n0);;
     n ← wload (Some n0);
     mret (if decide (Parent n = None) then mkHeap (Some n0) (Size heap) else heap))
      (<[n0 := mkWL None None q w]> m) = Ok (h', m') /\
    heap_of m' h' A' /\ A' ≡ₚ n0 :: A /\ heap_ordered m' A' /\ weight m' n0 = w /\
    (forall a, a <> n0 -> weight m' a = weight m a) /\
    (forall x, x ∉ n0 :: A -> m' !! x = m !! x).
Proof.
  intros (Ht & Hsz & Hhd) Hord Hn [k0 Hk] Hlen. cbv zeta. cbn [Size Head].
  set (m1 := <[n0 := mkWL None None q w]> m).
  assert (tree_of m1 A) as Ht1.
  { eapply tree_frame; [|exact Ht]. intros x Hx. apply lookup_insert_ne. by intros ->. }
  set (k := (zlen A + 1) / 2). assert (1 <= k <= zlen A) as Hkr by (unfold k; dlia).
  assert (2 * k <= zlen A + 1 <= 2 * k + 1) as Hkn by (unfold k; dlia).
  destruct (at_in A k Hkr) as [p Hp].
  assert (p <> n0) as Hpn by (intros ->; apply Hn; by eapply at_elem).
  rewrite (st_bind_ok _ _ _ _ _ (HeapFindElement_ok m1 A (mkHeap (Head h) (zlen A + 1)) k Ht1 Hhd Hkr
    ltac:(simpl; lia) ltac:(lia))). rewrite Hp.
  st_step wload_ok by (by apply (tree_lookup m1 A k)). cbn [Left Right].
  st_step assert_true by (apply orb_true_iff; right; apply bool_decide_eq_true, at_out; lia).
  unfold set_Left, set_Right. st_step cond_upd by first [done | rewrite <- Hp; by apply tree_valid].
  st_step (wstore_upd (with_Parent _) (Some n0))
    by (first [done | apply (upd_valid _ _ _ (Some n0)); exists (mkWL None None q w); apply lookup_insert_eq]).
  set (left := bool_decide (at_ A (2 * k) = None)). change (upd (Some n0) _ _) with (attached m n0 p q w left).
  pose proof (attached_tree m A n0 p q w k0 left Ht Hn Hk Hp eq_refl) as Hat.
  pose proof (attached_weights m n0 p q w left) as Hw2.
  pose proof (attached_new m n0 p q w left Hpn) as Hnew.
  destruct (HeapAdd_raise (attached m n0 p q w left) A n0 (Head h) (zlen A + 1) Hat)
    as (m' & h' & A' & -> & Hh' & Hord' & (_ & Hperm & [_ Hws] & Hfr)); [|done|lia|done|].
  { apply (heap_ordered_up m); [by destruct Hat| |done]. intros a Ha. apply Hw2. by intros ->. }
  exists m', h', A'. split_and!; [done|done|rewrite Hperm; apply Permutation_app_comm|done| | |].
  - rewrite Hws. unfold weight. by rewrite Hnew.
  - intros a Ha. rewrite Hws. by apply Hw2.
  - intros x Hx. assert (x <> n0 /\ x ∉ A) as [Hx1 Hx2] by set_solver.
    rewrite Hfr by set_solver. unfold attached. rewrite !upd_other.
    + by apply lookup_insert_ne.
    + intros [= ->]. apply Hx2. by eapply at_elem.
    + congruence.
Qed.

Lemma HeapAdd_ok m h A n0 w :
  heap_of m h A -> heap_ordered m A -> n0 ∉ A -> is_Some (m !! n0) -> zlen A < 2 ^ 31 - 1 ->
  exists m' h' A', HeapAdd w (Some n0) h m = Ok (h', m') /\ heap_of m' h' A' /\
    A' ≡ₚ n0 :: A /\ heap_ordered m' A' /\ weight m' n0 = w /\
    (forall a, a <> n0 -> weight m' a = weight m a) /\
    (forall x, x ∉ n0 :: A -> m' !! x = m !! x).
Proof.
  intros (Ht & Hsz & Hhd) Hord Hn [k0 Hk] Hlen. pose proof (Zle_0_nat (length A)). unfold HeapAdd.
  st_step wstore_with_ok by exact Hk.
  st_step wstore_with_ok by apply lookup_insert_eq. rewrite insert_insert_eq.
  st_step wstore_with_ok by apply lookup_insert_eq. rewrite insert_insert_eq.
  simpl. unfold with_Right, with_Left, with_Weight. simpl.
  rewrite Hsz, w64_small by (unfold u64, zlen in *; lia).
  destruct (Z.eqb_spec (zlen A + 1) 1) as [H0|H0].
  - assert (A = []) as -> by (destruct A; [done|unfold zlen in *; simpl in *; lia]).
    st_step wstore_with_ok by apply lookup_insert_eq. rewrite insert_insert_eq. unfold with_Parent. simpl.
    exists (<[n0 := mkWL None None None w]> m), (mkHeap (Some n0) 1), [n0].
    assert (forall i a, at_ [n0] i = Some a -> i = 1 /\ a = n0) as H1.
    { intros i a Hi. apply at_spec in Hi as [Hr Hi]. unfold zlen in Hr. simpl in Hr.
      assert (i = 1) as -> by lia. by injection Hi as <-. }
    split_and!; try done.
    + split_and!; [|done|done]. split; [apply NoDup_singleton|]. intros i a Hi.
      destruct (H1 i a Hi) as [-> ->]. exists w. by rewrite lookup_insert_eq.
    + intros i a p Hi Hp. apply H1 in Hi as [-> ->], Hp as [? ?]. dlia.
    + unfold weight. by rewrite lookup_insert_eq.
    + intros a Ha. unfold weight. by rewrite lookup_insert_ne.
    + intros x Hx. rewrite lookup_insert_ne; [done|set_solver].
  - apply (HeapAdd_below m h A n0 (Parent k0) w); [done|done|done|by eexists|unfold zlen in *; lia].
Qed.

(** ** Removing *)

(** The level order after the last node [t] took the place of the first. *)
Lemma at_replaced r C t j :
  at_ (t :: C) j = if decide (j = 1) then Some t else
    if decide (j = zlen (r :: C ++ [t])) then None else at_ (r :: C ++ [t]) j.
Proof.
  assert (zlen (r :: C ++ [t]) = zlen C + 2) as Hz by (unfold zlen; simpl; rewrite length_app; simpl; lia).
  rewrite Hz. pose proof (Zle_0_nat (length C)).
  case_decide as H1; [by subst|]. unfold at_. destruct (Z.leb_spec j 0).
  { rewrite decide_False by (unfold zlen; lia). done. }
  replace (Z.to_nat (j - 1)) with (S (Z.to_nat (j - 2))) by lia. simpl. unfold zlen in *.
  case_decide as H2; [apply lookup_ge_None_2; lia|].
  destruct (decide (j - 2 < Z.of_nat (length C))).
  - by rewrite lookup_app_l by lia.
  - rewrite !lookup_ge_None_2; rewrite ?length_app; simpl; try done; lia.
Qed.

(** The store once the last node [t] is cut from its parent [p] and linked as the root,
    with [l] and [r] as its children. *)
Definition detached (m : wstore) (t p : loc) (l r : ptr) (right : bool) : wstore :=
  upd r (with_Parent (Some t)) (upd l (with_Parent (Some t))
    (upd (Some t) (with_Right r) (upd (Some t) (with_Left l) (upd (Some t) (with_Parent None)
      (upd (Some p) (if right then with_Right None else with_Left None) m))))).

Lemma detached_weights m t p l r right : same_weights m (detached m t p l r right).
Proof.
  unfold detached. repeat (etransitivity; [|apply upd_same_weights; by intros k]).
  apply upd_same_weights. intros k. by destruct right.
Qed.

Lemma last_at r0 C t : at_ (r0 :: C ++ [t]) (zlen (r0 :: C ++ [t])) = Some t.
Proof.
  apply at_spec. unfold zlen. simpl. rewrite length_app. simpl. split; [lia|].
  replace (Z.to_nat _) with (S (length C)) by lia. simpl. by apply list_lookup_middle.
Qed.

Lemma detached_tree m r0 C t p :
  tree_of m (r0 :: C ++ [t]) -> at_ (r0 :: C ++ [t]) (zlen (r0 :: C ++ [t]) / 2) = Some p ->
  tree_of (detached m t p (at_ (t :: C) 2) (at_ (t :: C) 3)
    (bool_decide (at_ (r0 :: C ++ [t]) (2 * (zlen (r0 :: C ++ [t]) / 2) + 1) = Some t))) (t :: C).
Proof.
  intros Ht Hp. pose proof Ht as [Hnd _]. pose proof Hnd as Hnd0. apply NoDup_cons in Hnd0 as [_ Hnd0].
  pose proof (at_replaced r0 C t) as Hat. set (A := r0 :: C ++ [t]) in *. set (n := zlen A) in *.
  assert (2 <= n) as Hn by (unfold n, A, zlen; simpl; rewrite length_app; simpl; lia).
  pose proof (last_at r0 C t : at_ A n = Some t) as Hlast.
  set (k := n / 2) in *. assert (2 * k <= n <= 2 * k + 1) as Hk by (unfold k; dlia). clearbody k.
  assert (forall s, at_ A s = Some t <-> s = n) as Dt by (intros; by apply at_eq_dec).
  split.
  { by rewrite (Permutation_app_comm C [t]) in Hnd0. }
  intros j x Hx. unfold node_ok. rewrite Hat in Hx.
  exists (weight m x). unfold detached. rewrite !upd_lookup, !Hat.
  rewrite !(decide_False (P := 2 = 1)), !(decide_False (P := 3 = 1)) by lia.
  destruct (decide (j = 1)) as [->|Hj1].
  - injection Hx as <-. rewrite (tree_lookup m A n t Ht Hlast).
    rewrite (decide_True (P := Some t = Some t)) by done.
    assert (forall s, (if decide (s = n) then None else at_ A s) <> Some t) as Hno
      by (intros s; case_decide; [done|by rewrite Dt]).
    rewrite !(decide_False (P := (if decide _ then None else _) = _)) by apply Hno.
    change (2 * 1) with 2. change (2 + 1) with 3. change (1 / 2) with 0.
    rewrite (decide_False (P := 0 = n)), (decide_False (P := 0 = 1)) by lia.
    rewrite (at_out A 0) by lia.
    destruct (decide (Some p = Some t)) as [[= ->]|].
    { apply Dt in Hp. lia. }
    by rewrite !(decide_True (P := Some t = Some t)) by done.
  - destruct (decide (j = n)) as [|Hjn]; [done|].
    assert (forall s, at_ A s = Some x <-> s = j) as Dx by (intros; by apply at_eq_dec).
    rewrite !(decide_False (P := Some t = Some x)) by (intros [= ->]; apply Hjn; by apply Dt).
    rewrite (tree_lookup m A j x Ht Hx). pose proof (at_range _ _ _ Hx) as Hjr. fold n in Hjr.
    assert (Some p = Some x <-> k = j) as Dpx by (rewrite <- Dx, Hp; done).
    set (j2 := j / 2). assert (2 * j2 <= j <= 2 * j2 + 1) by (unfold j2; dlia). clearbody j2.
    rewrite !(decide_False (P := 2 * j = 1)), !(decide_False (P := 2 * j + 1 = 1)) by lia.
    assert (bool_decide (at_ A (2 * k + 1) = Some t) = bool_decide (n = 2 * k + 1)) as ->
      by (apply bool_decide_ext; rewrite Dt; lia).
    repeat (match goal with
      | |- context [decide (Some p = Some x)] =>
          let H := fresh in destruct (decide (Some p = Some x)) as [H|H]; rewrite Dpx in H
      | |- context [decide (at_ ?B ?r = Some x)] =>
          let H := fresh in destruct (decide (at_ B r = Some x)) as [H|H]; rewrite Dx in H
      | |- context [decide (None = Some x)] => rewrite (decide_False (P := None = Some x)) by done
      | |- context [decide (?y = ?z :> Z)] => destruct (decide (y = z))
      end; try (exfalso; lia)); simpl.
    all: repeat (case_bool_decide; try (exfalso; lia)); simpl.
    all: do 2 f_equal; try (f_equal; lia); try done.
    all: apply at_out; lia.
Qed.

Lemma replaced_down_ordered m m' r0 C t :
  same_weights m m' -> heap_ordered m (r0 :: C ++ [t]) -> down_ordered m' (t :: C) 1.
Proof.
  intros [_ Hw] Hord. split.
  - intros j b p Hj Hb Hp. pose proof (at_range _ _ _ Hp). rewrite !Hw.
    rewrite (at_replaced r0 C t) in Hb. rewrite (at_replaced r0 C t) in Hp.
    rewrite decide_False in Hb by dlia. rewrite decide_False in Hp by done.
    repeat case_decide; try done. by apply (Hord j).
  - intros c b p _ _ Hp. by rewrite at_out in Hp by dlia.
Qed.

(** In an ordered tree no node is lighter than the root. *)
Lemma root_least m A r :
  heap_ordered m A -> at_ A 1 = Some r -> forall a, a ∈ A -> weight m r <= weight m a.
Proof.
  intros Hord Hr.
  assert (forall n i a, (Z.to_nat i <= n)%nat -> at_ A i = Some a -> weight m r <= weight m a) as Hall.
  { induction n as [|n IH]; intros i a Hn Ha; pose proof (at_range _ _ _ Ha); [lia|].
    destruct (decide (i = 1)) as [->|Hi]; [rewrite Hr in Ha; by injection Ha as ->|].
    destruct (at_in A (i / 2)) as [p Hp]; [dlia|].
    transitivity (weight m p); [apply (IH (i / 2)); [dlia|done]|by apply (Hord i)]. }
  intros a Ha. apply list_elem_of_lookup in Ha as [j Hj].
  apply (Hall (S j) (Z.of_nat j + 1)); [lia|]. apply at_spec. split.
  - apply lookup_lt_Some in Hj. unfold zlen. lia.
  - by replace (Z.to_nat (Z.of_nat j + 1 - 1)) with j by lia.
Qed.

(** The children of the old root that the new root takes over. *)
Lemma popped_children m r0 C t p :
  tree_of m (r0 :: C ++ [t]) -> at_ (r0 :: C ++ [t]) (zlen (r0 :: C ++ [t]) / 2) = Some p -> t <> r0 ->
  exists k, upd (Some t) (with_Parent None) (upd (Some p)
      (if bool_decide (at_ (r0 :: C ++ [t]) (2 * (zlen (r0 :: C ++ [t]) / 2) + 1) = Some t)
       then with_Right None else with_Left None) m) !! r0 = Some k /\
    Left k = at_ (t :: C) 2 /\ Right k = at_ (t :: C) 3.
Proof.
  intros Ht Hp Hne. pose proof Ht as [Hnd _]. rewrite !(at_replaced r0 C t).
  set (A := r0 :: C ++ [t]) in *. set (n := zlen A) in *.
  assert (2 <= n) as Hn by (unfold n, A, zlen; simpl; rewrite length_app; simpl; lia).
  assert (at_ A 1 = Some r0) as Hr by done.
  pose proof (last_at r0 C t : at_ A n = Some t) as Hlast.
  set (k := n / 2) in *. assert (2 * k <= n <= 2 * k + 1) as Hk by (unfold k; dlia). clearbody k.
  assert (forall s, at_ A s = Some t <-> s = n) as Dt by (intros; by apply at_eq_dec).
  rewrite !upd_lookup, (decide_False (P := Some t = Some r0)) by congruence.
  rewrite (tree_lookup m A 1 r0 Ht Hr).
  assert (Some p = Some r0 <-> k = 1) as Dp.
  { rewrite <- Hp. rewrite (at_eq_dec A 1 r0 k Hnd Hr). done. }
  assert (bool_decide (at_ A (2 * k + 1) = Some t) = bool_decide (n = 2 * k + 1)) as ->
    by (apply bool_decide_ext; rewrite Dt; lia).
  rewrite !(decide_False (P := 2 = 1)), !(decide_False (P := 3 = 1)) by lia.
  destruct (decide (Some p = Some r0)) as [H|H]; rewrite Dp in H; simpl.
  - subst k. case_bool_decide; (eexists; split; [done|]); simpl;
      repeat case_decide; try lia; split; try done; apply at_out; fold n; lia.
  - rewrite !decide_False by lia. by eexists.
Qed.

(** The removal of the last node changes nothing outside of the heap, and keeps the root. *)
Lemma popped_frame m r0 C t p k right x :
  let A := r0 :: C ++ [t] in at_ A k = Some p -> x ∉ A -> detached m t p (at_ (t :: C) 2) (at_ (t :: C) 3) right !! x = m !! x.
Proof.
  intros A Hp Hx. pose proof (last_at r0 C t) as Hlast. fold A in Hlast.
  assert (forall j, at_ A j <> Some x) as Hno by (intros j H; apply Hx; by eapply at_elem).
  assert (forall j, at_ (t :: C) j <> Some x) as Hno'.
  { intros j. rewrite (at_replaced r0). fold A.
    destruct (decide (j = 1)); [by rewrite <- Hlast|]. destruct (decide (j = zlen A)); [done|apply Hno]. }
  unfold detached. rewrite !upd_other;
    first [done | apply Hno' | rewrite <- Hp; apply Hno | rewrite <- Hlast; apply Hno].
Qed.

Lemma popped_kept m r0 C t p right :
  let A := r0 :: C ++ [t] in tree_of m A -> (exists k, at_ A k = Some p) -> detached m t p (at_ (t :: C) 2) (at_ (t :: C) 3) right !! r0 <> None.
Proof.
  intros A Ht [k Hp] Hnone. pose proof (last_at r0 C t) as Hlast. fold A in Hlast.
  assert (valid_ptr m (Some r0)) as Hvr by (change (Some r0) with (at_ A 1); by apply tree_valid).
  assert (valid_ptr m (Some p)) as Hvp by (rewrite <- Hp; by apply tree_valid).
  assert (valid_ptr m (Some t)) as Hvt by (rewrite <- Hlast; by apply tree_valid).
  assert (forall j, valid_ptr m (at_ (t :: C) j)) as Hv.
  { intros j. rewrite (at_replaced r0). fold A. destruct (decide (j = 1)); [done|]. destruct (decide (j = zlen A)); [done|by apply tree_valid]. }
  assert (valid_ptr (detached m t p (at_ (t :: C) 2) (at_ (t :: C) 3) right) (Some r0)) as [? Hs] by (unfold detached; solve_valid).
  congruence.
Qed.

(** The new root takes over the children of the old one. *)
Lemma HeapPop_adopt {A} (K : St wstore A) m t p r0 f k l r :
  valid_ptr m (Some t) -> t <> r0 -> p <> t -> (forall v, valid_ptr m v -> valid_ptr (upd (Some p) f m) v) ->
  upd (Some t) (with_Parent None) (upd (Some p) f m) !! r0 = Some k -> Left k = l -> Right k = r ->
  valid_ptr m l -> valid_ptr m r ->
  (set_Parent (Some t) None;; h ← wload (Some r0); set_Left (Some t) (Left h);; h ← wload (Some r0); set_Right (Some t) (Right h);;
   t' ← wload (Some t);
   (if decide (Left t' <> None) then set_Parent (Left t') (Some t) else mret tt);;
   (if decide (Right t' <> None) then set_Parent (Right t') (Some t) else mret tt);; K) (upd (Some p) f m)
  = K (upd r (with_Parent (Some t)) (upd l (with_Parent (Some t))
      (upd (Some t) (with_Right r) (upd (Some t) (with_Left l) (upd (Some t) (with_Parent None) (upd (Some p) f m)))))).
Proof.
  intros Hvt Hne Hpt Hf Hk Hl Hr Hvl Hvr. pose proof (Hf _ Hvt) as [kt Hkt].
  st_step (wstore_upd (with_Parent _) (Some t)) by solve_valid. st_step wload_ok by exact Hk. rewrite Hl.
  st_step (wstore_upd (with_Left _) (Some t)) by solve_valid.
  st_step wload_ok by (rewrite upd_other by congruence; exact Hk). rewrite Hr.
  st_step (wstore_upd (with_Right _) (Some t)) by solve_valid.
  assert (exists kt, upd (Some t) (with_Right r) (upd (Some t) (with_Left l) (upd (Some t) (with_Parent None) (upd (Some p) f m)))
    !! t = Some kt /\ Left kt = l /\ Right kt = r) as (kt' & Hkt' & Hktl & Hktr).
  { rewrite !(upd_lookup (Some t)), !(decide_True (P := Some t = Some t)) by done. rewrite Hkt. by eexists. }
  st_step wload_ok by exact Hkt'. rewrite Hktl, Hktr.
  st_step cond_set_Parent by solve_valid. st_step cond_set_Parent by solve_valid. done.
Qed.

Lemma HeapPop_run m h r0 C t :
  heap_of m h (r0 :: C ++ [t]) -> zlen (r0 :: C ++ [t]) < 2 ^ 31 ->
  exists m1, HeapPop h m =
    (heap ← PercolateDown (Z.to_nat (zlen (t :: C))) (Some t) (mkHeap (Some t) (zlen (t :: C)));
     mret (Some r0, heap)) m1 /\
    tree_of m1 (t :: C) /\ same_weights m m1 /\ (forall x, x ∉ r0 :: C ++ [t] -> m1 !! x = m !! x) /\
    m1 !! r0 <> None.
Proof.
  intros (Ht & Hsz & Hhd) Hlen. pose proof Ht as [Hnd _].
  pose proof (detached_tree m r0 C t) as Hdt. pose proof (popped_children m r0 C t) as Hpc.
  assert (zlen (t :: C) = zlen (r0 :: C ++ [t]) - 1) as -> by (unfold zlen; simpl; rewrite length_app; simpl; lia).
  assert (t <> r0) as Hne.
  { intros ->. apply NoDup_cons in Hnd as [Hnd _]. set_solver. }
  set (A := r0 :: C ++ [t]) in *. set (n := zlen A) in *.
  assert (2 <= n) as Hn by (unfold n, A, zlen; simpl; rewrite length_app; simpl; lia).
  pose proof (last_at r0 C t : at_ A n = Some t) as Hlast.
  destruct (at_in A (n / 2)) as [p Hp]; [unfold n in *; dlia|].
  assert (p <> t) as Hpt by (intros ->; pose proof (at_inj A _ _ _ Hnd Hp Hlast); dlia).
  destruct (Hpc p Ht Hp Hne) as (k & Hk & Hkl & Hkr). specialize (Hdt p Ht Hp).
  pose proof (tree_lookup m A n t Ht Hlast) as Hmt. rewrite (at_out A (2 * n)), (at_out A (2 * n + 1)), Hp in Hmt
    by (fold n; lia).
  pose proof (tree_lookup m A (n / 2) p Ht Hp) as Hmp.
  assert (valid_ptr m (Some p)) as Hvp by (by eexists).
  assert (valid_ptr m (Some t)) as Hvt by (by eexists).
  assert (forall j, valid_ptr m (at_ (t :: C) j)) as Hv.
  { intros j. rewrite (at_replaced r0). fold A n.
    destruct (decide (j = 1)); [done|]. destruct (decide (j = n)); [done|by apply tree_valid]. }
  exists (detached m t p (at_ (t :: C) 2) (at_ (t :: C) 3)
    (bool_decide (at_ A (2 * (n / 2) + 1) = Some t))).
  split; [|split; [done|split; [apply detached_weights|split]]].
  - unfold HeapPop. rewrite Hsz. fold n. destruct (Z.eqb_spec n 0); [lia|].
    rewrite (st_bind_ok _ _ _ _ _ (HeapFindElement_ok m A h n Ht Hhd ltac:(lia) ltac:(lia) ltac:(lia))).
    rewrite Hlast. st_step assert_true. st_step wload_ok by exact Hmt. cbn [Left Right Parent].
    st_step assert_true. rewrite decide_True by done.
    st_step wload_ok by exact Hmp. cbn [Right].
    unfold set_Right at 1, set_Left at 1. st_step cond_upd. cbv beta zeta. rewrite w64_small by (unfold u64; lia).
    assert (Head h = Some r0) as -> by done.
    by apply HeapPop_adopt with k; try done; intros; apply upd_valid.
  - intros x Hx. by apply (popped_frame m r0 C t p (n / 2)).
  - apply (popped_kept m r0 C t p); [done|by exists (n / 2)].
Qed.

Lemma heap_of_nil m : heap_of m HeapInit [].
Proof.
  split_and!; [|done|done]. split; [apply NoDup_nil_2|].
  intros i a Hi. apply at_range in Hi. unfold zlen in Hi. simpl in Hi. lia.
Qed.

Lemma heap_ordered_nil m : heap_ordered m [].
Proof. intros i a p Hi. apply at_range in Hi. unfold zlen in Hi. simpl in Hi. lia. Qed.

Lemma HeapPop_ok m h A :
  heap_of m h A -> heap_ordered m A -> weights_u64 m A -> zlen A < 2 ^ 31 ->
  exists r m' h' A', HeapPop h m = Ok (r, h', m') /\ heap_of m' h' A' /\ heap_ordered m' A' /\
    same_weights m m' /\ (forall x, x ∉ A -> m' !! x = m !! x) /\
    match r with
    | None => A = [] /\ A' = []
    | Some a => A ≡ₚ a :: A' /\ forall b, b ∈ A -> weight m a <= weight m b
    end.
Proof.
  intros Hh Hord Hu Hlen. pose proof Hh as (Ht & Hsz & Hhd).
  destruct A as [|r0 B].
  { exists None, m, h, []. unfold HeapPop. rewrite Hsz. by split_and!. }
  destruct B as [|t C _] using rev_ind.
  - assert (at_ [r0] 1 = Some r0) as H1 by done.
    pose proof (tree_lookup m [r0] 1 r0 Ht H1) as Hm.
    rewrite (at_out [r0] (2 * 1)), (at_out [r0] (2 * 1 + 1)), (at_out [r0] (1 / 2)) in Hm
      by (unfold zlen; simpl; dlia).
    exists (Some r0), m, (mkHeap None 0), []. unfold HeapPop. rewrite Hsz.
    change (zlen [r0]) with 1. simpl.
    rewrite (st_bind_ok _ _ _ _ _ (HeapFindElement_ok m [r0] h 1 Ht Hhd ltac:(done) ltac:(by rewrite Hsz)
      ltac:(done))).
    rewrite H1. st_step assert_true. st_step wload_ok by exact Hm. st_step assert_true. simpl.
    split_and!; try done.
    + apply heap_of_nil.
    + apply heap_ordered_nil.
    + intros b Hb. apply list_elem_of_singleton in Hb as ->. lia.
  - destruct (HeapPop_run m h r0 C t Hh Hlen) as (m1 & -> & Ht1 & Hw1 & Hf1 & _).
    assert (A_perm : r0 :: C ++ [t] ≡ₚ r0 :: t :: C) by (by rewrite (Permutation_app_comm C [t])).
    destruct (PercolateDown_ok (Z.to_nat (zlen (t :: C))) m1 (t :: C)
      (mkHeap (Some t) (zlen (t :: C))) 1 t) as (m' & A' & h' & Hrun & Hstep & Hh' & Hord').
    + by split_and!.
    + intros a Ha. destruct Hw1 as [_ Hw1]. rewrite Hw1. apply Hu. rewrite A_perm. set_solver.
    + done.
    + lia.
    + by apply (replaced_down_ordered m m1 r0).
    + rewrite (st_bind_ok _ _ _ _ _ Hrun).
      destruct Hstep as (_ & Hp & Hw' & Hf').
      exists (Some r0), m', h', A'. split_and!; try done.
      * by etransitivity.
      * intros x Hx. rewrite Hf' by (rewrite A_perm in Hx; set_solver). by apply Hf1.
      * by rewrite A_perm, Hp.
      * by apply root_least.
Qed.

(** ** The priority queue the heap implements *)

(** The queue [Q] maps each node of the heap to its weight. *)
Definition queue_of (m : wstore) (h : HEAP) (Q : gmap loc Z) : Prop :=
  exists A, heap_of m h A /\ heap_ordered m A /\
    forall a w, Q !! a = Some w <-> a ∈ A /\ weight m a = w.

Definition queue_ok (Q : gmap loc Z) : Prop :=
  map_Forall (fun _ w => u64 w) Q /\ Z.of_nat (size Q) < 2 ^ 31.

(** What a removal from the queue may do: nothing on an empty queue, else take any entry
    of least weight. *)
Definition queue_pop (Q : gmap loc Z) (r : ptr) (Q' : gmap loc Z) : Prop :=
  match r with
  | None => Q = ∅ /\ Q' = ∅
  | Some a => Q' = delete a Q /\
      exists w, Q !! a = Some w /\ map_Forall (fun _ w' => w <= w') Q
  end.

Lemma queue_size m (A : list loc) (Q : gmap loc Z) :
  NoDup A -> (forall a w, Q !! a = Some w <-> a ∈ A /\ weight m a = w) -> Z.of_nat (size Q) = zlen A.
Proof.
  intros Hnd HQ. unfold zlen. rewrite <- size_dom. f_equal.
  rewrite <- (size_list_to_set (C := gset loc) A) by done. apply (f_equal size), set_eq.
  intros x. rewrite elem_of_dom, elem_of_list_to_set. split.
  - intros [w Hw]. by apply HQ in Hw as [? _].
  - intros Hx. exists (weight m x). by apply HQ.
Qed.

Lemma queue_init m : queue_of m HeapInit ∅.
Proof.
  exists []. split_and!; [apply heap_of_nil|apply heap_ordered_nil|].
  intros a w. rewrite lookup_empty. split; [done|]. intros [Ha _]. by apply elem_of_nil in Ha.
Qed.

Lemma queue_add m h Q n0 w :
  queue_of m h Q -> Q !! n0 = None -> is_Some (m !! n0) -> Z.of_nat (size Q) < 2 ^ 31 - 1 ->
  exists m' h', HeapAdd w (Some n0) h m = Ok (h', m') /\ queue_of m' h' (<[n0 := w]> Q) /\
    HeapSize h' = HeapSize h + 1 /\
    forall x, x <> n0 -> Q !! x = None -> m' !! x = m !! x.
Proof.
  intros (A & Hh & Hord & HQ) Hnew Hn0 Hsize. pose proof Hh as ((Hnd & _) & Hsz & _).
  rewrite (queue_size m A Q Hnd HQ) in Hsize.
  assert (forall x, Q !! x = None -> x ∉ A) as Hnin.
  { intros x Hx Hin. assert (Q !! x = Some (weight m x)) by (by apply HQ). congruence. }
  destruct (HeapAdd_ok m h A n0 w Hh Hord (Hnin _ Hnew) Hn0 Hsize)
    as (m' & h' & A' & Hrun & Hh' & Hp & Hord' & Hw & Hws & Hf).
  exists m', h'. split; [done|]. split; [|split].
  - exists A'. split_and!; [done|done|]. intros a v. rewrite Hp.
    destruct (decide (a = n0)) as [->|Ha].
    + rewrite lookup_insert_eq, Hw. set_solver.
    + rewrite lookup_insert_ne, HQ, Hws by done. set_solver.
  - unfold HeapSize. destruct Hh' as (_ & -> & _). rewrite Hsz. unfold zlen. rewrite Hp. simpl. lia.
  - intros x Hx Hq. apply Hf. specialize (Hnin x Hq). set_solver.
Qed.

Lemma queue_remove m h Q :
  queue_of m h Q -> queue_ok Q ->
  exists r m' h' Q', HeapPop h m = Ok (r, h', m') /\ queue_pop Q r Q' /\ queue_of m' h' Q' /\
    forall x, Q !! x = None -> m' !! x = m !! x.
Proof.
  intros (A & Hh & Hord & HQ) [Hu Hsize]. pose proof Hh as ((Hnd & _) & Hsz & _).
  rewrite (queue_size m A Q Hnd HQ) in Hsize.
  assert (weights_u64 m A) as Hu' by (intros a Ha; apply (Hu a); by apply HQ).
  destruct (HeapPop_ok m h A Hh Hord Hu' Hsize) as (r & m' & h' & A' & Hrun & Hh' & Hord' & [_ Hws] & Hf & Hr).
  assert (forall x, Q !! x = None -> m' !! x = m !! x) as Hframe.
  { intros x Hx. apply Hf. intros Hin. assert (Q !! x = Some (weight m x)) by (by apply HQ). congruence. }
  destruct r as [a|].
  - destruct Hr as [Hp Hleast]. exists (Some a), m', h', (delete a Q). split_and!; try done.
    + split; [done|]. exists (weight m a). split; [apply HQ; rewrite Hp; set_solver|].
      intros b w' Hb. apply HQ in Hb as [Hb <-]. by apply Hleast.
    + exists A'. split_and!; [done|done|]. intros b w. rewrite lookup_delete_Some, HQ, Hp, Hws.
      rewrite Hp in Hnd. apply NoDup_cons in Hnd as [Hna _]. set_solver.
  - destruct Hr as [-> ->]. exists None, m', h', ∅. split_and!; try done.
    + split; [|done]. apply map_eq. intros x. rewrite lookup_empty. destruct (Q !! x) eqn:Hx; [|done].
      apply HQ in Hx as [Hx _]. by apply elem_of_nil in Hx.
    + exists []. split_and!; [done|done|]. intros a w. rewrite lookup_empty. split; [done|].
      intros [Ha _]. by apply elem_of_nil in Ha.
Qed.

(** The weight at the head is the least one. *)
Lemma queue_head m h Q :
  queue_of m h Q -> Q <> ∅ ->
  exists a w, HeapHeadWeight h m = Ok (w, m) /\ Q !! a = Some w /\ map_Forall (fun _ w' => w <= w') Q.
Proof.
  intros (A & (Ht & Hsz & Hhd) & Hord & HQ) Hne. destruct A as [|r A].
  { exfalso. apply Hne, map_eq. intros x. rewrite lookup_empty. destruct (Q !! x) eqn:Hx; [|done].
    apply HQ in Hx as [Hx _]. by apply elem_of_nil in Hx. }
  exists r, (weight m r). assert (at_ (r :: A) 1 = Some r) as Hr by done. split_and!.
  - unfold HeapHeadWeight. rewrite Hhd, Hr. st_step wload_ok by (by apply (tree_lookup m (r :: A) 1)). done.
  - apply HQ. set_solver.
  - intros b w' Hb. apply HQ in Hb as [Hb <-]. by apply (root_least m (r :: A)).
Qed.

(** C20: [HeapAdd] of a node that is not in the queue always completes; afterwards the heap is
    again a complete, ordered tree that holds the old entries and the new one, and no
    other link of the store has changed. *)
Theorem HeapAdd_correct m h Q n0 w :
  queue_of m h Q -> Q !! n0 = None -> is_Some (m !! n0) -> Z.of_nat (size Q) < 2 ^ 31 - 1 ->
  exists m' h', HeapAdd w (Some n0) h m = Ok (h', m') /\ queue_of m' h' (<[n0 := w]> Q) /\
    HeapSize h' = HeapSize h + 1 /\
    forall x, x <> n0 -> Q !! x = None -> m' !! x = m !! x.
Proof. apply queue_add. Qed.

(** A store with three unlinked nodes. *)
Definition three_nodes : wstore :=
  <[1%positive := mkWL None None None 0]> (<[2%positive := mkWL None None None 0]>
    {[3%positive := mkWL None None None 0]}).

Lemma HeapAdd_witness :
  is_Some (three_nodes !! 2%positive) /\
  exists m' h', HeapAdd 7 (Some 2%positive) HeapInit three_nodes = Ok (h', m') /\
    queue_of m' h' (<[2%positive := 7]> ∅) /\ HeapSize h' = HeapSize HeapInit + 1 /\
    forall x, x <> 2%positive -> (∅ : gmap loc Z) !! x = None -> m' !! x = three_nodes !! x.
Proof.
  split; [by eexists|]. apply (HeapAdd_correct three_nodes HeapInit ∅ 2%positive 7).
  - apply queue_init.
  - reflexivity.
  - by eexists.
  - reflexivity.
Defined.

(** C19: [HeapPop] always completes; it returns [NULL] exactly on an empty heap and otherwise
    removes an entry of least weight, leaving a complete, ordered tree of the others. *)
Theorem HeapPop_correct m h Q :
  queue_of m h Q -> queue_ok Q ->
  exists r m' h' Q', HeapPop h m = Ok (r, h', m') /\ queue_pop Q r Q' /\ queue_of m' h' Q' /\
    forall x, Q !! x = None -> m' !! x = m !! x.
Proof. apply queue_remove. Qed.

Lemma two_queued :
  exists m h, queue_of m h (<[3%positive := 4]> (<[2%positive := 7]> ∅)).
Proof.
  destruct (queue_add three_nodes HeapInit ∅ 2%positive 7) as (m1 & h1 & _ & Hq1 & _ & Hf);
    [apply queue_init|done|by eexists|done|].
  destruct (queue_add m1 h1 _ 3%positive 4 Hq1) as (m2 & h2 & _ & Hq2 & _ & _).
  - reflexivity.
  - rewrite Hf by done. by eexists.
  - reflexivity.
  - by exists m2, h2.
Qed.

Lemma HeapPop_witness :
  exists m h r m' h' Q', HeapPop h m = Ok (r, h', m') /\
    queue_pop (<[3%positive := 4]> (<[2%positive := 7]> ∅)) r Q' /\ queue_of m' h' Q'.
Proof.
  destruct two_queued as (m & h & Hq). exists m, h.
  destruct (HeapPop_correct m h _ Hq) as (r & m' & h' & Q' & H1 & H2 & H3 & _).
  - split; [|reflexivity]. repeat apply map_Forall_insert_2; done.
  - by exists r, m', h', Q'.
Defined.
