(* ===== verification/LinkTest.v ===== *)
(** * The test of the lists and the heap (utils/linktest.c)

    A program that puts numbers into a queue, a stack, a lock-free stack and a heap and takes
    them out again.  [malloc] picks an address that is not in use,
    [junk] and [junkW] are the contents of new memory; the lines of the menu are left out. *)

From stdpp Require Import strings pretty sorting.
From S2P Require Import Prelude LinkedList AtomicList WeightedLink HeapTree Heap.

#[local] Open Scope Z_scope.

(** ** The program *)

(** The memory of the elements, by their members ([Used]: the addresses that are taken), and the
    variables of the file.  The union [Link] of an element is only ever used as one kind of link,
    so that the kinds have a memory each; the queue and the stack share theirs. *)
Record LINKTEST := mkLT {
  Used : gset loc; Data : gmap loc Z; Links : store; Atomics : ATOMIC_LIST; Weights : wstore;
  queueList : LINKED_LIST; stackList : LINKED_LIST; heap : HEAP
}.

Definition get_Data (a : loc) (t : LINKTEST) : res Z := match Data t !! a with Some v => Ok v | None => Err FNull end.

Section linktest.
Context (malloc : gset loc -> loc) (junk : LINKED_LIST_LINK) (junkW : WEIGHTED_LINK).

(** A new element and its data. *)
Definition NewElement (value : Z) (t : LINKTEST) : loc * LINKTEST :=
  let a := malloc (Used t) in
  (a, mkLT ({[a]} ∪ Used t) (<[a := value]> (Data t)) (<[a := junk]> (Links t)) (Atomics t) (<[a := junkW]> (Weights t))
        (queueList t) (stackList t) (heap t)).

Definition Add (value : Z) (t : LINKTEST) : res LINKTEST :=
  let '(queueNode, t) := NewElement value t in
  let '(stackNode, t) := NewElement value t in
  let '(atomicNode, t) := NewElement value t in
  let '(heapNode, t) := NewElement value t in
  '(stack, links) ← LinkedListPush (Some stackNode) (stackList t) (Links t);
  '(queue, links) ← LinkedListEnqueue (Some queueNode) (queueList t) links;
  let atomics := AtomicListPush atomicNode (Atomics t) in
  '(hp, weights) ← HeapAdd (w64 value) (Some heapNode) (heap t) (Weights t);
  Ok (mkLT (Used t) (Data t) links atomics weights queue stack hp).

(** The line for what a pop returned. *)
Definition Returned (returned null : string) (p : ptr) (t : LINKTEST) : res string :=
  match p with
  | Some a => v ← get_Data a t; Ok (returned +:+ pretty v)
  | None => Ok null
  end.

Definition Pop (t : LINKTEST) : res (list string * LINKTEST) :=
  '(queueNode, queue, links) ← LinkedListPop (queueList t) (Links t);
  '(stackNode, stack, links) ← LinkedListPop (stackList t) links;
  let '(atomicNode, atomics) := AtomicListPop (Atomics t) in
  '(heapNode, hp, weights) ← HeapPop (heap t) (Weights t);
  let t := mkLT (Used t) (Data t) links atomics weights queue stack hp in
  l1 ← Returned "queue returned " "queue returned null" queueNode t;
  l2 ← Returned "stack returned " "stack returned null" stackNode t;
  l3 ← Returned "atomic returned " "atomic returned null" atomicNode t;
  l4 ← Returned "heap returned  " "heap returned null" heapNode t;
  Ok ([l1; l2; l3; l4], t).

(** The loops of [DumpList] and [DumpAtomic]. *)
Fixpoint DumpRing (fuel : nat) (cur : loc) (head : ptr) (t : LINKTEST) : res (list Z) :=
  match fuel with
  | O => Err FFuel
  | S fuel =>
      v ← get_Data cur t;
      '(k, _) ← load (Some cur) (Links t);
      if decide (Next k = head) then Ok [v]
      else match Next k with
           | Some next => vs ← DumpRing fuel next head t; Ok (v :: vs)
           | None => Err FNull
           end
  end.

Fixpoint DumpChain (fuel : nat) (cur : loc) (t : LINKTEST) : res (list Z) :=
  match fuel with
  | O => Err FFuel
  | S fuel =>
      v ← get_Data cur t;
      match next_in (Atomics t) cur with
      | Some next => vs ← DumpChain fuel next t; Ok (v :: vs)
      | None => Ok [v]
      end
  end.

Definition numbers (vs : list Z) : string := match vs with [] => "null list" | _ => String.concat "" ((fun v => pretty v +:+ ",") <$> vs) end.

Definition DumpList (list : LINKED_LIST) (t : LINKTEST) : res string :=
  match LinkedList.Head list with
  | None => Ok (numbers [])
  | Some head => vs ← DumpRing (size (Links t)) head (Some head) t; Ok (numbers vs)
  end.

Definition DumpAtomic (t : LINKTEST) : res string :=
  match Pointer (Atomics t) with
  | None => Ok (numbers [])
  | Some head => vs ← DumpChain (size (Data t)) head t; Ok (numbers vs)
  end.

(** The lines of [TraverseHeap]: how far to the right, and the weight or "null node". *)
Fixpoint TraverseHeap (fuel : nat) (link : ptr) (tab : nat) (m : wstore) : res (list (nat * option Z)) :=
  match link with
  | None => Ok [(tab, None)]
  | Some _ =>
      match fuel with
      | O => Err FFuel
      | S fuel =>
          '(k, _) ← wload link m;
          l ← TraverseHeap fuel (Left k) (S tab) m;
          r ← TraverseHeap fuel (Right k) (S tab) m;
          Ok ((tab, Some (signed64 (Weight k))) :: l ++ r)
      end
  end.

Definition HeapLine (l : nat * option Z) : string :=
  String.concat "" (replicate l.1 "   ") +:+ match l.2 with Some w => pretty w | None => "null node" end.

(** The heap of a 31-bit number of nodes has no more than 32 levels. *)
Definition DumpHeap (t : LINKTEST) : res (list string) :=
  match HeapTree.Head (heap t) with
  | None => Ok ["dumping heap"; "empty heap"; "done"; ""]
  | Some _ => ls ← TraverseHeap 32 (HeapTree.Head (heap t)) 0 (Weights t); Ok (["dumping heap"] ++ (HeapLine <$> ls) ++ ["done"; ""])
  end.

Definition Dump (t : LINKTEST) : res (list string) :=
  l1 ← DumpList (queueList t) t;
  l2 ← DumpList (stackList t) t;
  l3 ← DumpAtomic t;
  ls ← DumpHeap t;
  Ok (["queue:" +:+ l1; "stack:" +:+ l2; "Atomic:" +:+ l3] ++ ls).

(** The loop of main on the numbers that are entered: the lines that each of them prints. *)
Fixpoint Commands (inputs : list Z) (t : LINKTEST) : res (list (list string)) :=
  match inputs with
  | [] => Ok []
  | data :: inputs =>
      if data =? 0 then Ok []
      else
        '(out, t) ← (if data =? 1 then Pop t else if data =? 2 then out ← Dump t; Ok (out, t) else t ← Add data t; Ok ([], t));
        outs ← Commands inputs t;
        Ok (out :: outs)
  end.

Definition main (inputs : list Z) : res (list (list string)) :=
  Commands inputs (mkLT ∅ ∅ ∅ (AtomicListInit (mkAL None 0 ∅)) ∅ LinkedListInit LinkedListInit HeapInit).

End linktest.

(** ** What it should answer *)

(** The numbers in order of arrival, the latest first, and in order of their weights. *)
Record CONTENTS := mkContents { fifo : list Z; lifo : list Z; prio : list Z }.

Fixpoint insert_by_weight (v : Z) (l : list Z) : list Z :=
  match l with
  | [] => [v]
  | x :: l' => if w64 v <=? w64 x then v :: l else x :: insert_by_weight v l'
  end.

Definition after (data : Z) (s : CONTENTS) : CONTENTS :=
  if data =? 1 then mkContents (tail (fifo s)) (tail (lifo s)) (tail (prio s))
  else if data =? 2 then s
  else mkContents (fifo s ++ [data]) (data :: lifo s) (insert_by_weight data (prio s)).

Definition returned (returned null : string) (v : option Z) : string :=
  match v with Some v => returned +:+ pretty v | None => null end.

(** The lines of one command; the picture of the heap may be any that has the right numbers. *)
Definition answer (data : Z) (s : CONTENTS) (out : list string) : Prop :=
  if data =? 1 then
    out = [returned "queue returned " "queue returned null" (head (fifo s));
           returned "stack returned " "stack returned null" (head (lifo s));
           returned "atomic returned " "atomic returned null" (head (lifo s));
           returned "heap returned  " "heap returned null" (head (prio s))]
  else if data =? 2 then
    exists picture, out = ["queue:" +:+ numbers (fifo s); "stack:" +:+ numbers (lifo s); "Atomic:" +:+ numbers (lifo s); "dumping heap"]
        ++ picture ++ ["done"; ""] /\
      if decide (prio s = []) then picture = ["empty heap"]
      else exists ls, picture = HeapLine <$> ls /\ omap snd ls ≡ₚ prio s
  else out = [].

Fixpoint answers (inputs : list Z) (s : CONTENTS) (outs : list (list string)) : Prop :=
  match inputs with
  | [] => outs = []
  | data :: inputs =>
      if data =? 0 then outs = []
      else exists out outs', outs = out :: outs' /\ answer data s out /\ answers inputs (after data s) outs'
  end.

(** ** The picture of the heap *)

(** The indices below [i], in the order of the traversal. *)
Fixpoint visit (fuel : nat) (n i : Z) : list Z :=
  match fuel with
  | O => []
  | S fuel => if i <=? n then i :: visit fuel n (2 * i) ++ visit fuel n (2 * i + 1) else []
  end.

Lemma elem_of_visit fuel n i j : 1 <= i -> j ∈ visit fuel n i <-> exists d, (d < fuel)%nat /\ j / 2 ^ Z.of_nat d = i /\ j <= n.
Proof.
  revert i. induction fuel as [|fuel IH]; intros i Hi; simpl.
  { rewrite elem_of_nil. split; [done|]. intros (d & Hd & _). lia. }
  assert (forall d, j / 2 ^ Z.of_nat (S d) = j / 2 ^ Z.of_nat d / 2) as Hdiv.
  { intros d. rewrite Z.div_div by lia. f_equal. rewrite Nat2Z.inj_succ, Z.pow_succ_r by lia. lia. }
  assert (forall d, j / 2 ^ Z.of_nat d = i -> i <= j) as Hle.
  { intros d Hj. pose proof (Z.mul_div_le j (2 ^ Z.of_nat d) ltac:(lia)). rewrite Hj in *. nia. }
  destruct (Z.leb_spec i n) as [Hin|Hin].
  - rewrite elem_of_cons, elem_of_app, !IH by lia. split.
    + intros [->|[(d & Hd & Hj & Hn)|(d & Hd & Hj & Hn)]]; [exists 0%nat; rewrite Z.div_1_r; lia|..];
        exists (S d); rewrite Hdiv, Hj; (split; [lia|split; [dlia|done]]).
    + intros ([|d] & Hd & Hj & Hn); [left; by rewrite Z.div_1_r in Hj|]. right. rewrite Hdiv in Hj.
      destruct (decide (j / 2 ^ Z.of_nat d = 2 * i)); [left|right]; exists d; (split; [lia|split; [dlia|done]]).
  - rewrite elem_of_nil. split; [done|]. intros (d & _ & Hj & Hn). specialize (Hle d Hj). lia.
Qed.

Lemma visit_apart j i d e : 1 <= i -> j / 2 ^ Z.of_nat d = 2 * i -> j / 2 ^ Z.of_nat e = 2 * i + 1 -> False.
Proof.
  assert (forall d k, j / 2 ^ Z.of_nat (d + k) = j / 2 ^ Z.of_nat d / 2 ^ Z.of_nat k) as Hdiv.
  { intros d' k. rewrite Z.div_div by lia. f_equal. rewrite Nat2Z.inj_add, Z.pow_add_r by lia. lia. }
  intros Hi Hd He. destruct (lt_eq_lt_dec d e) as [[H| ->]|H]; [|lia|].
  - replace e with (d + (e - d))%nat in He by lia. rewrite Hdiv, Hd in He.
    pose proof (Z.div_le_upper_bound (2 * i) (2 ^ Z.of_nat (e - d)) (2 * i) ltac:(lia) ltac:(nia)). lia.
  - replace d with (e + S (d - S e))%nat in Hd by lia. rewrite Hdiv, He in Hd.
    assert (2 <= 2 ^ Z.of_nat (S (d - S e))) by (rewrite Nat2Z.inj_succ, Z.pow_succ_r by lia; lia).
    pose proof (Z.div_lt_upper_bound (2 * i + 1) (2 ^ Z.of_nat (S (d - S e))) (2 * i) ltac:(lia) ltac:(nia)). lia.
Qed.

Lemma visit_NoDup fuel n i : 1 <= i -> NoDup (visit fuel n i).
Proof.
  revert i. induction fuel as [|fuel IH]; intros i Hi; simpl; [apply NoDup_nil_2|]. destruct (i <=? n); [|apply NoDup_nil_2].
  apply NoDup_cons. split.
  - rewrite elem_of_app, !elem_of_visit by lia. intros [(d & _ & Hd & _)|(d & _ & Hd & _)];
      pose proof (Z.div_le_upper_bound i (2 ^ Z.of_nat d) i ltac:(lia) ltac:(nia)); lia.
  - apply NoDup_app. split; [apply IH; lia|]. split; [|apply IH; lia]. intros j.
    rewrite !elem_of_visit by lia. intros (d & _ & Hd & _) (e & _ & He & _). by apply (visit_apart j i d e).
Qed.

Lemma visit_all fuel n : 0 <= n < 2 ^ Z.of_nat fuel -> visit fuel n 1 ≡ₚ seqZ 1 n.
Proof.
  intros Hn. apply NoDup_Permutation; [by apply visit_NoDup|apply NoDup_seqZ|]. intros j.
  rewrite elem_of_visit, elem_of_seqZ by done. split.
  - intros (d & _ & Hj & Hle). assert (1 <= j) as Hj1; [|lia]. destruct (Z.le_gt_cases 1 j); [done|].
    assert (j / 2 ^ Z.of_nat d < 1) by (apply Z.div_lt_upper_bound; lia). lia.
  - intros [H1 H2]. exists (Z.to_nat (Z.log2 j)). pose proof (Z.log2_spec j ltac:(lia)) as [Hl Hu].
    pose proof (Z.log2_nonneg j). rewrite Z2Nat.id by done. split.
    + apply Nat2Z.inj_lt. rewrite Z2Nat.id by done. apply Z.log2_lt_pow2; lia.
    + split; [|lia]. apply Z.le_antisymm; [|apply Z.div_le_lower_bound; lia].
      apply Z.lt_succ_r, Z.div_lt_upper_bound; [lia|]. rewrite Z.pow_succ_r in Hu by done. lia.
Qed.

Lemma TraverseHeap_ok fuel m A i tab : tree_of m A -> 1 <= i -> zlen A < i * 2 ^ Z.of_nat fuel ->
  exists ls, TraverseHeap fuel (at_ A i) tab m = Ok ls /\ omap snd ls = (fun j => signed64 (weight_of m (at_ A j))) <$> visit fuel (zlen A) i.
Proof.
  intros Ht. revert i tab. induction fuel as [|fuel IH]; intros i tab Hi Hf; simpl.
  - rewrite at_out by lia. by eexists.
  - destruct (Z.leb_spec i (zlen A)) as [Hin|Hin]; [|rewrite at_out by lia; by eexists].
    destruct (at_in A i) as [a Ha]; [lia|]. rewrite Ha. rewrite (wload_ok m a _ (tree_lookup m A i a Ht Ha)). cbn [mbind res_bind Left Right Weight].
    rewrite Nat2Z.inj_succ, Z.pow_succ_r in Hf by lia.
    destruct (IH (2 * i) (S tab)) as (l & -> & Hl); [lia|lia|]. destruct (IH (2 * i + 1) (S tab)) as (r & -> & Hr); [lia|nia|].
    cbn [mbind res_bind]. eexists. split; [reflexivity|]. simpl. rewrite omap_app, Hl, Hr, fmap_app, Ha. done.
Qed.

Lemma TraverseHeap_weights m A : tree_of m A -> zlen A < 2 ^ 31 ->
  exists ls, TraverseHeap 32 (at_ A 1) 0 m = Ok ls /\ omap snd ls ≡ₚ signed64 ∘ weight m <$> A.
Proof.
  intros Ht Hlen. destruct (TraverseHeap_ok 32 m A 1 0 Ht) as (ls & -> & Hls); [lia|change (2 ^ Z.of_nat 32) with (2 ^ 32); lia|].
  exists ls. split; [done|]. rewrite Hls, visit_all by (unfold zlen in *; change (2 ^ Z.of_nat 32) with (2 ^ 32); lia).
  assert ((fun j => signed64 (weight_of m (at_ A j))) <$> seqZ 1 (zlen A) = signed64 ∘ weight m <$> A) as ->; [|done].
  apply list_eq. intros k. rewrite !list_lookup_fmap. destruct (decide (k < length A)%nat) as [Hk|Hk].
  - rewrite lookup_seqZ_lt by (unfold zlen; lia). simpl. destruct (at_in A (1 + Z.of_nat k)) as [a Ha]; [unfold zlen; lia|].
    rewrite Ha. apply at_spec in Ha as [_ Ha]. replace (Z.to_nat (1 + Z.of_nat k - 1)) with k in Ha by lia. by rewrite Ha.
  - rewrite lookup_seqZ_ge by (unfold zlen; lia). by rewrite (lookup_ge_None_2 A) by lia.
Qed.

(** ** The four structures in one memory *)

Definition lighter (x y : Z) : Prop := w64 x <= w64 y.

Definition val (t : LINKTEST) (a : loc) : option Z := Data t !! a.

(** The nodes [qs], [ss], [xs] and those of [Q] make up the four structures, whose numbers are [s]. *)
Record stores (t : LINKTEST) (s : CONTENTS) (qs ss xs : list loc) (Q : gmap loc Z) : Prop := {
  st_queue : ring_of (Links t) (queueList t) qs;
  st_stack : ring_of (Links t) (stackList t) ss;
  st_atomic : stack (Atomics t) xs;
  st_heap : queue_of (Weights t) (heap t) Q;
  st_apart : forall a, a ∈ qs -> a ∉ ss;
  st_used : forall a, (a ∈ qs \/ a ∈ ss \/ a ∈ xs \/ is_Some (Q !! a)) -> a ∈ Used t;
  st_fifo : val t <$> qs = Some <$> fifo s;
  st_lifo : val t <$> ss = Some <$> lifo s;
  st_alifo : val t <$> xs = Some <$> lifo s;
  st_prio : val t ∘ fst <$> map_to_list Q ≡ₚ Some <$> prio s;
  st_weights : map_Forall (fun a w => exists v, val t a = Some v /\ w = w64 v) Q;
  st_sorted : StronglySorted lighter (prio s);
  st_ints : Forall is_int (prio s)
}.

Lemma queue_frame m m' h Q : (forall a, is_Some (Q !! a) -> m' !! a = m !! a) -> queue_of m h Q -> queue_of m' h Q.
Proof.
  intros Hf (A & (Ht & Hs & Hh) & Hord & HQ).
  assert (forall a, a ∈ A -> m' !! a = m !! a) as HfA by (intros a Ha; apply Hf; exists (weight m a); by apply HQ).
  assert (forall a, a ∈ A -> weight m' a = weight m a) as Hw by (intros a Ha; unfold weight; by rewrite HfA).
  exists A. split; [split; [by apply tree_frame with m|done]|]. split.
  - intros i a p Ha Hp. rewrite !Hw by (by eapply at_elem). by apply (Hord i).
  - intros a w. rewrite HQ. split; intros [Ha <-]; by rewrite Hw.
Qed.

(** A change that keeps the elements in use keeps the structures. *)
Lemma stores_frame t t' s qs ss xs Q :
  Atomics t' = Atomics t -> queueList t' = queueList t -> stackList t' = stackList t -> heap t' = heap t -> Used t ⊆ Used t' ->
  (forall a, a ∈ Used t -> Data t' !! a = Data t !! a /\ Links t' !! a = Links t !! a /\ Weights t' !! a = Weights t !! a) ->
  stores t s qs ss xs Q -> stores t' s qs ss xs Q.
Proof.
  intros Ea Eq Es Eh Hu Hf []. assert (forall a, a ∈ Used t -> val t' a = val t a) as Hv by (intros a Ha; by apply Hf).
  assert (forall zs : list loc, (forall a, a ∈ zs -> a ∈ Used t) -> val t' <$> zs = val t <$> zs) as Hvs.
  { intros zs Hzs. apply list_fmap_ext. intros i a Ha. apply Hv, Hzs. by eapply list_elem_of_lookup_2. }
  constructor; rewrite ?Ea, ?Eq, ?Es, ?Eh; try done.
  - apply ring_frame with (Links t); [|done]. intros a Ha. apply Hf. auto.
  - apply ring_frame with (Links t); [|done]. intros a Ha. apply Hf. auto.
  - apply queue_frame with (Weights t); [|done]. intros a Ha. apply Hf. auto.
  - auto.
  - rewrite Hvs; auto.
  - rewrite Hvs; auto.
  - rewrite Hvs; auto.
  - assert (val t' ∘ fst <$> map_to_list Q = val t ∘ fst <$> map_to_list Q) as ->; [|done].
    apply list_fmap_ext. intros i [a w] Ha%list_elem_of_lookup_2%elem_of_map_to_list. simpl. apply Hv, st_used0. eauto.
  - intros a w Ha. destruct (st_weights0 a w Ha) as (v & Hva & ->). exists v. rewrite Hv; [done|]. apply st_used0. eauto.
Qed.

Section runs.
Context (malloc : gset loc -> loc) (junk : LINKED_LIST_LINK) (junkW : WEIGHTED_LINK).
Context (malloc_new : forall X, malloc X ∉ X).

(** Elements that were made for a number and are not in a structure yet. *)
Definition made (value : Z) (t : LINKTEST) (a : loc) : Prop :=
  a ∈ Used t /\ val t a = Some value /\ is_Some (Links t !! a) /\ is_Some (Weights t !! a).

Lemma NewElement_ok value t s qs ss xs Q : stores t s qs ss xs Q ->
  exists a t', NewElement malloc junk junkW value t = (a, t') /\ stores t' s qs ss xs Q /\ a ∉ Used t /\ Used t' = {[a]} ∪ Used t /\
    made value t' a /\ forall b, made value t b -> made value t' b.
Proof.
  intros Hs. eexists _, _. split; [reflexivity|]. set (a := malloc (Used t)). pose proof (malloc_new (Used t) : a ∉ Used t) as Ha.
  assert (forall b, b ∈ Used t -> b <> a) as Hne by (intros b Hb ->; done). split_and!; try done.
  - apply stores_frame with t; [done..|simpl; set_solver| |done]. intros b Hb. simpl. by rewrite !lookup_insert_ne by (symmetry; by apply Hne).
  - unfold made, val. simpl. rewrite !lookup_insert_eq. split; [set_solver|done].
  - intros b (H1 & H2 & H3 & H4). unfold made, val in *. simpl. rewrite !lookup_insert_ne by (symmetry; by apply Hne).
    split; [set_solver|done].
Qed.

Lemma insert_by_weight_perm v l : insert_by_weight v l ≡ₚ v :: l.
Proof. induction l as [|x l IH]; simpl; [done|]. destruct (_ <=? _); [done|]. rewrite IH. apply Permutation_swap. Qed.

Lemma insert_by_weight_sorted v l : StronglySorted lighter l -> StronglySorted lighter (insert_by_weight v l).
Proof.
  induction 1 as [|x l Hl IH Hx]; simpl; [by repeat constructor|]. destruct (Z.leb_spec (w64 v) (w64 x)) as [H|H].
  - constructor; [by constructor|]. constructor; [done|]. eapply Forall_impl; [exact Hx|]. unfold lighter. simpl. lia.
  - constructor; [done|]. rewrite insert_by_weight_perm. constructor; [unfold lighter; lia|done].
Qed.

Lemma queue_length t s qs ss xs Q : stores t s qs ss xs Q -> size Q = length (prio s).
Proof.
  intros []. pose proof (Permutation_length st_prio0) as H. rewrite !length_fmap in H. by rewrite <- H, length_map_to_list.
Qed.

(** Each structure by itself takes its element. *)
Lemma Add_ok value t s qs ss xs Q :
  stores t s qs ss xs Q -> is_int value -> Z.of_nat (length (prio s)) < 2 ^ 31 - 1 -> value <> 1 -> value <> 2 ->
  exists t' qs' ss' xs' Q', Add malloc junk junkW value t = Ok t' /\ stores t' (after value s) qs' ss' xs' Q'.
Proof.
  intros Hs0 Hint Hlen Hn1 Hn2. unfold Add.
  destruct (NewElement_ok value t _ _ _ _ _ Hs0) as (q & t1 & -> & Hs1 & Hq & U1 & Mq & _).
  destruct (NewElement_ok value t1 _ _ _ _ _ Hs1) as (k & t2 & -> & Hs2 & Hk & U2 & Mk & M2).
  destruct (NewElement_ok value t2 _ _ _ _ _ Hs2) as (x & t3 & -> & Hs3 & Hx & U3 & Mx & M3).
  destruct (NewElement_ok value t3 _ _ _ _ _ Hs3) as (h & t4 & -> & Hs4 & Hh & U4 & Mh & M4).
  apply M2, M3, M4 in Mq as (Uq & Vq & Lq & _). apply M3, M4 in Mk as (Uk & Vk & Lk & _).
  apply M4 in Mx as (Ux & Vx & _ & _). destruct Mh as (Uh & Vh & _ & Wh).
  assert (q <> k) as Hqk by set_solver. clear M2 M3 M4 Hs1 Hs2 Hs3.
  assert (forall a, (a ∈ qs \/ a ∈ ss \/ a ∈ xs \/ is_Some (Q !! a)) -> a <> q /\ a <> k /\ a <> x /\ a <> h) as Hold.
  { intros a Ha%(st_used _ _ _ _ _ _ Hs0). set_solver. }
  assert (q ∉ qs /\ q ∉ ss /\ k ∉ qs /\ k ∉ ss /\ x ∉ xs /\ Q !! h = None) as (Nqq & Nqs & Nkq & Nks & Nx & NQ).
  { rewrite eq_None_not_Some. split_and!; intros Hin;
      first [destruct (Hold q) as (?&?&?&?); [by auto|done] | destruct (Hold k) as (?&?&?&?); [by auto|done]
        | destruct (Hold x) as (?&?&?&?); [by auto|done] | destruct (Hold h) as (?&?&?&?); [by auto|done] ]. }
  pose proof (queue_length _ _ _ _ _ _ Hs4) as Hsz. destruct Hs4.
  destruct (push_ok (Links t4) (stackList t4) k ss) as (stk & m1 & -> & Hr1 & Hf1 & Hd1); [done..|].
  cbn [mbind res_bind].
  assert (ring_of m1 (queueList t4) qs) as Hq1.
  { apply ring_frame with (Links t4); [|done]. intros a Ha. apply Hf1. intros [->|H]%elem_of_cons; [done|by apply (st_apart0 a)]. }
  destruct (enqueue_ok m1 (queueList t4) q qs) as (que & m2 & -> & Hr2 & Hf2 & Hd2); [done|done|by apply Hd1|].
  cbn [mbind res_bind].
  destruct (queue_add (Weights t4) (heap t4) Q h (w64 value)) as (wm & hp & -> & Hr4 & _ & Hf4); [done|done|done|lia|].
  cbn [mbind res_bind]. eexists _, _, _, _, _. split; [reflexivity|]. unfold after. rewrite !(proj2 (Z.eqb_neq _ _)) by done.
  assert (val (mkLT (Used t4) (Data t4) m2 (AtomicListPush x (Atomics t4)) wm que stk hp) = val t4) as Hv by done.
  constructor; rewrite ?Hv; cbn [queueList stackList Atomics heap Links Weights Used Data fifo lifo prio]; try done.
  - apply ring_frame with m1; [|done]. intros a Ha. apply Hf2. unfold lq_push in Ha. set_solver.
  - by apply push_stack.
  - unfold lq_push, lq_enqueue. intros a. specialize (st_apart0 a). set_solver.
  - unfold lq_push, lq_enqueue. intros a. rewrite lookup_insert_is_Some'. specialize (st_used0 a). set_solver.
  - unfold lq_enqueue. rewrite fmap_app. simpl. by rewrite st_fifo0, fmap_app, Vq.
  - unfold lq_push. by rewrite !fmap_cons, st_lifo0, Vk.
  - by rewrite !fmap_cons, st_alifo0, Vx.
  - rewrite map_to_list_insert by done. rewrite insert_by_weight_perm. rewrite !fmap_cons. cbn [compose fst]. by rewrite Vh, st_prio0.
  - apply map_Forall_insert; [done|]. split; [by exists value|done].
  - by apply insert_by_weight_sorted.
  - rewrite insert_by_weight_perm. by constructor.
Qed.

(** The heap gives the number at the head of the sorted list. *)
Lemma prio_pop t s qs ss xs Q r Q' : stores t s qs ss xs Q -> queue_pop Q r Q' ->
  (r ≫= val t) = head (prio s) /\ val t ∘ fst <$> map_to_list Q' ≡ₚ Some <$> tail (prio s) /\ Q' ⊆ Q /\
  (r = None <-> prio s = []) .
Proof.
  intros [] Hpop. destruct r as [a|]; simpl in Hpop.
  - destruct Hpop as (-> & w & Ha & Hleast). destruct (st_weights0 a w Ha) as (v & Hv & ->).
    rewrite <- (map_to_list_delete Q a (w64 v) Ha) in st_prio0. rewrite fmap_cons in st_prio0. cbn [compose fst] in st_prio0.
    rewrite Hv in st_prio0. destruct (prio s) as [|p ps] eqn:Ep; [by apply Permutation_nil_r in st_prio0|].
    assert (v ∈ p :: ps) as Hin.
    { apply (list_elem_of_fmap_inj_2 Some). rewrite <- st_prio0. set_solver. }
    assert (exists b, Q !! b = Some (w64 p)) as [b Hb].
    { assert (Some p ∈ Some <$> p :: ps) as Hp by (rewrite fmap_cons; set_solver). rewrite <- st_prio0 in Hp.
      apply elem_of_cons in Hp as [[= ->]|([b w'] & Hb & Hin')%list_elem_of_fmap]; [by exists a|].
      apply elem_of_map_to_list, lookup_delete_Some in Hin' as [_ Hin']. exists b. destruct (st_weights0 b w' Hin') as (v' & Hv' & ->).
      simpl in Hb. congruence. }
    apply StronglySorted_inv in st_sorted0 as [_ Hps]. assert (v = p) as ->.
    { pose proof (Hleast b _ Hb) as Hle. rewrite Forall_forall in st_ints0.
      apply elem_of_cons in Hin as [->|Hin]; [done|]. apply weight_inj; [apply st_ints0; set_solver..|].
      rewrite Forall_forall in Hps. specialize (Hps v Hin). unfold lighter in Hps. cbv beta in Hle. lia. }
    rewrite fmap_cons in st_prio0. apply Permutation_cons_inv in st_prio0. split; [done|]. split; [done|]. split; [apply delete_subseteq|done].
  - destruct Hpop as [-> ->]. simpl in st_prio0. apply Permutation_nil_l in st_prio0. destruct (prio s); [|done]. done.
Qed.

Lemma Returned_ok r n p t (v : option Z) : (p ≫= val t) = v -> (p = None <-> v = None) -> Returned r n p t = Ok (returned r n v).
Proof.
  intros E Hn. destruct p as [a|]; simpl in *.
  - unfold get_Data, val in *. rewrite E. destruct v as [v|]; [done|]. discriminate (proj2 Hn eq_refl).
  - by subst.
Qed.

Lemma head_val t xs l : val t <$> xs = Some <$> l -> (head xs ≫= val t) = head l /\ (head xs = None <-> head l = None) /\
  val t <$> tail xs = Some <$> tail l.
Proof. intros H. destruct xs as [|x xs], l as [|v l]; try done. rewrite !fmap_cons in H. by injection H as E1 E2. Qed.

Lemma Pop_ok t s qs ss xs Q :
  stores t s qs ss xs Q -> Z.of_nat (length (prio s)) < 2 ^ 31 ->
  exists out t' qs' ss' xs' Q', Pop t = Ok (out, t') /\ stores t' (after 1 s) qs' ss' xs' Q' /\ answer 1 s out.
Proof.
  intros Hs Hlen. pose proof Hs as []. pose proof (queue_length _ _ _ _ _ _ Hs) as Hsz. unfold Pop.
  destruct (pop_ok (Links t) (queueList t) qs st_queue0) as (que & m1 & -> & Hr1 & Hf1 & Hd1). cbn [mbind res_bind].
  assert (ring_of m1 (stackList t) ss) as Hr1'.
  { apply ring_frame with (Links t); [|done]. intros a Ha. apply Hf1. intros H. by apply (st_apart0 a). }
  destruct (pop_ok m1 (stackList t) ss Hr1') as (stk & m2 & -> & Hr2 & Hf2 & Hd2). cbn [mbind res_bind].
  destruct (pop_stack (Atomics t) xs st_atomic0) as (at' & -> & Hst). cbn [mbind res_bind].
  destruct (queue_remove (Weights t) (heap t) Q st_heap0) as (r & wm & hp & Q' & -> & Hpop & Hq & _).
  { split; [|lia]. intros a w Ha. destruct (st_weights0 a w Ha) as (v & _ & ->). apply w64_u64. }
  cbn [mbind res_bind]. destruct (prio_pop _ _ _ _ _ _ _ _ Hs Hpop) as (Hv4 & Hp & Hsub & Hn4).
  destruct (head_val t qs (fifo s) st_fifo0) as (Hv1 & Hn1 & Ht1). destruct (head_val t ss (lifo s) st_lifo0) as (Hv2 & Hn2 & Ht2).
  destruct (head_val t xs (lifo s) st_alifo0) as (Hv3 & Hn3 & Ht3).
  set (t' := mkLT (Used t) (Data t) m2 at' wm que stk hp). assert (val t' = val t) as Hv by done.
  rewrite (Returned_ok _ _ (head qs) t' (head (fifo s))) by done. cbn [mbind res_bind].
  rewrite (Returned_ok _ _ (head ss) t' (head (lifo s))) by done. cbn [mbind res_bind].
  rewrite (Returned_ok _ _ (head xs) t' (head (lifo s))) by done. cbn [mbind res_bind].
  rewrite (Returned_ok _ _ r t' (head (prio s))) by (try done; rewrite Hn4; by destruct (prio s)). cbn [mbind res_bind].
  eexists _, t', (tail qs), (tail ss), (tail xs), Q'. split; [reflexivity|]. split; [|done].
  assert (forall (zs : list loc) a, a ∈ tail zs -> a ∈ zs) as Htl by (intros [|z zs] a; set_solver).
  change (after 1 s) with (mkContents (tail (fifo s)) (tail (lifo s)) (tail (prio s))).
  constructor; rewrite ?Hv; cbn; try done.
  - apply ring_frame with m1; [|done]. intros a Ha%Htl. apply Hf2. by apply st_apart0.
  - intros a Ha%Htl H%Htl. by apply (st_apart0 a).
  - intros a [Ha%Htl|[Ha%Htl|[Ha%Htl|[w Ha]]]]; apply st_used0; auto. right. right. right. exists w. by apply (lookup_weaken Q').
  - intros a w Ha. apply st_weights0. by apply (lookup_weaken Q').
  - destruct (prio s); [constructor|]. by apply StronglySorted_inv in st_sorted0 as [? _].
  - destruct (prio s); [constructor|]. by apply Forall_cons in st_ints0 as [_ ?].
Qed.

(** ** The dumps *)

Lemma NoDup_size {A} (m : gmap loc A) (xs : list loc) : NoDup xs -> (forall a, a ∈ xs -> is_Some (m !! a)) -> (length xs <= size m)%nat.
Proof.
  intros Hnd Hd. rewrite <- size_dom, <- (size_list_to_set (C := gset loc) xs) by done. apply subseteq_size.
  intros a. rewrite elem_of_list_to_set, elem_of_dom. apply Hd.
Qed.

Lemma DumpRing_ok t fuel cur ys x vs : path (Links t) (cur :: ys ++ [x]) -> x ∉ ys -> (length ys < fuel)%nat ->
  val t <$> cur :: ys = Some <$> vs -> DumpRing fuel cur (Some x) t = Ok vs.
Proof.
  revert fuel cur vs. induction ys as [|y ys IH]; intros [|fuel] cur vs Hp Hx Hf Hv; simpl in Hf; try lia;
    (destruct vs as [|v vs]; [done|]); rewrite !fmap_cons in Hv; injection Hv as Hv Hvs; cbn [DumpRing]; unfold get_Data; unfold val in Hv;
    rewrite Hv; cbn [mbind res_bind]; destruct Hp as [[Hn _] Hp]; unfold nxt in Hn;
    destruct (Links t !! cur) as [k|] eqn:Hk; try done; simpl in Hn; unfold load; simpl; rewrite Hk; cbn [mbind res_bind]; rewrite Hn.
  - rewrite decide_True by done. by destruct vs.
  - apply not_elem_of_cons in Hx as [Hxy Hx]. rewrite decide_False by congruence.
    rewrite (IH fuel y vs); [done|exact Hp|done|lia|by rewrite fmap_cons].
Qed.

Lemma DumpList_ok t l xs vs : ring_of (Links t) l xs -> val t <$> xs = Some <$> vs -> DumpList l t = Ok (numbers vs).
Proof.
  intros [Hnd Hr] Hv. unfold DumpList. destruct xs as [|x xs].
  - rewrite Hr. by destruct vs.
  - destruct Hr as [-> Hp]. rewrite (DumpRing_ok t _ x xs x vs); [done|exact Hp|by apply NoDup_cons in Hnd as [? _]| |done].
    pose proof (NoDup_size (Links t) (x :: xs) Hnd) as Hs. simpl in Hs. apply Hs. intros a Ha. by apply (ring_dom (Links t) x xs).
Qed.

Lemma DumpChain_ok t fuel x xs vs : chain (Atomics t) (Some x) (x :: xs) -> (length xs < fuel)%nat ->
  val t <$> x :: xs = Some <$> vs -> DumpChain fuel x t = Ok vs.
Proof.
  revert fuel x vs. induction xs as [|y xs IH]; intros [|fuel] x vs Hc Hf Hv; simpl in Hf; try lia;
    (destruct vs as [|v vs]; [done|]); rewrite !fmap_cons in Hv; injection Hv as Hv Hvs; cbn [DumpChain]; unfold get_Data; unfold val in Hv;
    rewrite Hv; cbn [mbind res_bind]; destruct Hc as [_ Hc].
  - simpl in Hc. rewrite Hc. by destruct vs.
  - pose proof Hc as [Hn _]. rewrite Hn in Hc |- *. rewrite (IH fuel y vs); [done|exact Hc|lia|by rewrite fmap_cons].
Qed.

Lemma DumpAtomic_ok t xs vs : stack (Atomics t) xs -> val t <$> xs = Some <$> vs -> DumpAtomic t = Ok (numbers vs).
Proof.
  intros [Hnd Hc] Hv. unfold DumpAtomic. destruct xs as [|x xs].
  - simpl in Hc. rewrite Hc. by destruct vs.
  - pose proof Hc as [Hp _]. rewrite Hp in *. rewrite (DumpChain_ok t _ x xs vs Hc); [done| |done].
    pose proof (NoDup_size (Data t) (x :: xs) Hnd) as Hs. simpl in Hs. apply Hs. intros a Ha.
    apply (list_elem_of_fmap_2 (val t)) in Ha. rewrite Hv in Ha. apply list_elem_of_fmap in Ha as (v & Ha & _). by exists v.
Qed.

Lemma DumpHeap_ok t s qs ss xs Q : stores t s qs ss xs Q -> Z.of_nat (length (prio s)) < 2 ^ 31 ->
  exists picture, DumpHeap t = Ok ("dumping heap" :: picture ++ ["done"; ""]) /\
    if decide (prio s = []) then picture = ["empty heap"] else exists ls, picture = HeapLine <$> ls /\ omap snd ls ≡ₚ prio s.
Proof.
  intros Hs Hlen. pose proof (queue_length _ _ _ _ _ _ Hs) as Hsz. destruct Hs as []. destruct st_heap0 as (A & (Ht & _ & Hh) & _ & HQ).
  pose proof Ht as [Hnd _]. pose proof (queue_size _ A Q Hnd HQ) as Hz. unfold DumpHeap. rewrite Hh.
  destruct A as [|a A].
  { exists ["empty heap"]. split; [done|]. rewrite decide_True; [done|]. apply nil_length_inv. unfold zlen in Hz. simpl in Hz. lia. }
  assert (at_ (a :: A) 1 = Some a) as E1 by done.
  destruct (TraverseHeap_weights (Weights t) (a :: A) Ht) as (ls & Hrun & Hls); [lia|]. rewrite E1 in Hrun |- *. rewrite Hrun.
  cbn [mbind res_bind]. exists (HeapLine <$> ls). split; [done|].
  rewrite decide_False by (intros E; rewrite E in Hsz; unfold zlen in Hz; simpl in Hz, Hsz; lia). exists ls. split; [done|].
  apply fmap_Some_perm. rewrite <- st_prio0, Hls. rewrite <- list_fmap_compose.
  assert (a :: A ≡ₚ fst <$> map_to_list Q) as ->.
  { apply NoDup_Permutation; [done|apply NoDup_fst_map_to_list|]. intros b. rewrite list_elem_of_fmap. split.
    - intros Hb. exists (b, weight (Weights t) b). split; [done|]. apply elem_of_map_to_list. by apply HQ.
    - intros ([b' w] & -> & Hb%elem_of_map_to_list). by apply HQ in Hb as [? _]. }
  rewrite <- list_fmap_compose. apply Permutation_refl'. apply list_fmap_ext. intros i [b w] Hb%list_elem_of_lookup_2%elem_of_map_to_list.
  destruct (st_weights0 b w Hb) as (v & Hv & ->). pose proof Hb as [_ Hw]%HQ. simpl. rewrite Hv, Hw, signed64_weight; [done|].
  rewrite Forall_forall in st_ints0. apply st_ints0, (list_elem_of_fmap_inj_2 Some). rewrite <- st_prio0. apply list_elem_of_fmap.
  exists (b, w64 v). split; [done|]. by apply elem_of_map_to_list.
Qed.

(** ** The program *)

Lemma Commands_ok inputs t s qs ss xs Q :
  stores t s qs ss xs Q -> Forall is_int inputs -> Z.of_nat (length (prio s) + length inputs) < 2 ^ 31 ->
  exists outs, Commands malloc junk junkW inputs t = Ok outs /\ answers inputs s outs.
Proof.
  revert t s qs ss xs Q. induction inputs as [|data inputs IH]; intros t s qs ss xs Q Hs Hin Hlen; [by exists []|].
  apply Forall_cons in Hin as [Hd Hin]. simpl in Hlen. cbn [Commands answers]. destruct (Z.eqb_spec data 0) as [|Hd0]; [by exists []|].
  destruct (Z.eqb_spec data 1) as [->|Hd1]; [|destruct (Z.eqb_spec data 2) as [->|Hd2]].
  - destruct (Pop_ok t s qs ss xs Q Hs) as (out & t' & qs' & ss' & xs' & Q' & -> & Hs' & Hout); [lia|]. cbn [mbind res_bind].
    destruct (IH _ _ _ _ _ _ Hs' Hin) as (outs & -> & Houts).
    { change (prio (after 1 s)) with (tail (prio s)). destruct (prio s); simpl in *; lia. }
    cbn [mbind res_bind]. exists (out :: outs). split; [done|]. by exists out, outs.
  - unfold Dump. destruct (DumpHeap_ok t s qs ss xs Q Hs) as (picture & Hheap & Hpic); [lia|]. pose proof Hs as [].
    rewrite (DumpList_ok t (queueList t) qs (fifo s)) by done. cbn [mbind res_bind].
    rewrite (DumpList_ok t (stackList t) ss (lifo s)) by done. cbn [mbind res_bind].
    rewrite (DumpAtomic_ok t xs (lifo s)) by done. cbn [mbind res_bind]. rewrite Hheap. cbn [mbind res_bind].
    destruct (IH t s _ _ _ _ Hs Hin) as (outs & -> & Houts); [lia|]. cbn [mbind res_bind].
    eexists. split; [reflexivity|]. eexists _, outs. split; [reflexivity|]. split; [|exact Houts]. by exists picture.
  - destruct (Add_ok data t s qs ss xs Q Hs Hd) as (t' & qs' & ss' & xs' & Q' & -> & Hs'); [lia|done|done|]. cbn [mbind res_bind].
    destruct (IH _ _ _ _ _ _ Hs' Hin) as (outs & -> & Houts).
    { unfold after. rewrite !(proj2 (Z.eqb_neq _ _)) by done. cbn [prio]. rewrite insert_by_weight_perm. simpl. lia. }
    cbn [mbind res_bind]. exists ([] :: outs). split; [done|]. exists [], outs. split; [done|]. split; [|done].
    unfold answer. by rewrite !(proj2 (Z.eqb_neq _ _)).
Qed.

(** C30: whatever numbers are entered, the program answers like a queue, a stack, a stack and a
    priority queue: nothing faults, the queue and the stack leave each other's links alone, and
    the pictures show the right numbers. *)
Theorem link_test_answers inputs : Forall is_int inputs -> Z.of_nat (length inputs) < 2 ^ 31 ->
  exists outs, main malloc junk junkW inputs = Ok outs /\ answers inputs (mkContents [] [] []) outs.
Proof.
  intros Hin Hlen. apply (Commands_ok inputs _ _ [] [] [] ∅); [|done|done].
  constructor; try done; try by apply Forall_nil.
  - split; [apply NoDup_nil_2|done].
  - split; [apply NoDup_nil_2|done].
  - split; [apply NoDup_nil_2|done].
  - apply queue_init.
  - intros a _ H. by apply elem_of_nil in H.
  - intros a [H|[H|[H|[w H] ] ] ]; first [by apply elem_of_nil in H | by rewrite lookup_empty in H].
  - constructor.
Qed.
End runs.

(** With stdpp's choice of a fresh address. *)
Lemma link_test_answers_witness :
  exists outs, main fresh (mkLink None None) (mkWL None None None 0) [5; -3; 7; 2; 1; 1; 1; 1; 2; 0] = Ok outs /\
    answers [5; -3; 7; 2; 1; 1; 1; 1; 2; 0] (mkContents [] [] []) outs.
Proof.
  apply (link_test_answers fresh); [apply is_fresh| |vm_compute; reflexivity].
  repeat (apply Forall_cons; split; [unfold is_int; lia|]). by apply Forall_nil.
Defined.
