(* ===== verification/Map.v ===== *)
(** * The map of the maze (umouse/compass.h, umouse/map.h, umouse/map.c)

    The walls of a maze are bits of two bitmaps in one buffer; the outer walls are
    implied.  A pointer into the buffer is kept as a word offset. *)

From S2P Require Import Prelude Bitmap.

(** ** Directions *)

Inductive DIRECTION := NORTH | EAST | SOUTH | WEST.
Inductive ANGLE := STRAIGHT | RIGHT | BACK | LEFT.

#[export] Instance DIRECTION_eq_dec : EqDecision DIRECTION.
Proof. solve_decision. Defined.

Definition dir_value (d : DIRECTION) : Z := match d with NORTH => 0 | EAST => 1 | SOUTH => 2 | WEST => 3 end.
Definition angle_value (a : ANGLE) : Z := match a with STRAIGHT => 0 | RIGHT => 1 | BACK => 2 | LEFT => 3 end.
Definition dir_of (z : Z) : DIRECTION := if z =? 0 then NORTH else if z =? 1 then EAST else if z =? 2 then SOUTH else WEST.

Definition DIR_MASK : Z := 3.
Definition TURN (dir : DIRECTION) (angle : ANGLE) : DIRECTION := dir_of (Z.land (dir_value dir + angle_value angle) DIR_MASK).

(** ** Operations *)

Definition MapBitsNeeded (major minor : Z) : Z := w64 (major * (minor - 1)).
Definition MapDimensionSizeNeeded (major minor : Z) : Z := BitmapSize (MapBitsNeeded major minor).
Definition MapSizeNeeded (width height : Z) : Z :=
  w64 (MapDimensionSizeNeeded width height + MapDimensionSizeNeeded height width).

(** [Walls] is the buffer, [VWalls] and [HWalls] are offsets into it. *)
Record MAP := mkMap { Walls : list Z; VWalls : Z; HWalls : Z; Height : Z; Width : Z }.

Definition MapAdjustX (x : Z) (dir : DIRECTION) : Z := if decide (dir = EAST) then w64 (x + 1) else x.
Definition MapAdjustY (y : Z) (dir : DIRECTION) : Z := if decide (dir = NORTH) then w64 (y + 1) else y.
Definition MapOutOfBoundsMinor (minor minorSize : Z) : bool := (minor =? 0) || (minor >=? minorSize).
Definition MapOutOfBoundsMajor (major majorSize : Z) : bool := major >=? majorSize.
Definition MapGetIndex (major minorSize minor : Z) : Z := w64 (major * (minorSize - 1) + minor - 1).

Definition MapGetFlag (major majorSize minor minorSize : Z) (walls : list Z) : res bool :=
  if MapOutOfBoundsMinor minor minorSize || MapOutOfBoundsMajor major majorSize then Ok true
  else
    let index := MapGetIndex major minorSize minor in
    BitmapGet walls index.

Definition MapSetFlag (major majorSize minor minorSize : Z) (walls : list Z) (state : bool) : res (list Z) :=
  if negb (MapOutOfBoundsMinor minor minorSize || MapOutOfBoundsMajor major majorSize) then
    let index := MapGetIndex major minorSize minor in
    if state then BitmapOn walls index else BitmapOff walls index
  else Ok walls.

Definition MapInit (map : MAP) (wallBuff : list Z) (buffLen width height : Z) : res (bool * MAP) :=
  if buffLen >=? MapSizeNeeded width height then
    wallBuff ← ClearLoop (Z.to_nat buffLen) wallBuff 0;
    Ok (true, mkMap wallBuff 0 (MapDimensionSizeNeeded width height) height width)
  else Ok (false, map).

(** The part of the buffer a pointer points to, and its update. *)
Definition from (off : Z) (buff : list Z) : list Z := drop (Z.to_nat off) buff.
Definition onto (off : Z) (buff part : list Z) : list Z := take (Z.to_nat off) buff ++ part.

Definition MapGetWall (x y : Z) (dir : DIRECTION) (map : MAP) : res bool :=
  let x := MapAdjustX x dir in
  let y := MapAdjustY y dir in
  match dir with
  | NORTH | SOUTH => MapGetFlag x (Width map) y (Height map) (from (HWalls map) (Walls map))
  | EAST | WEST => MapGetFlag y (Height map) x (Width map) (from (VWalls map) (Walls map))
  end.

Definition MapSetWall (x y : Z) (dir : DIRECTION) (state : bool) (map : MAP) : res MAP :=
  let x := MapAdjustX x dir in
  let y := MapAdjustY y dir in
  let update off part := mkMap (onto off (Walls map) part) (VWalls map) (HWalls map) (Height map) (Width map) in
  match dir with
  | NORTH | SOUTH =>
      part ← MapSetFlag x (Width map) y (Height map) (from (HWalls map) (Walls map)) state;
      Ok (update (HWalls map) part)
  | EAST | WEST =>
      part ← MapSetFlag y (Height map) x (Width map) (from (VWalls map) (Walls map)) state;
      Ok (update (VWalls map) part)
  end.

(** ** Abstract walls *)

(** A wall of the grid: below the cell ([HWall]) or left of it ([VWall]). *)
Inductive wall := HWall (x y : Z) | VWall (x y : Z).

#[export] Instance wall_eq_dec : EqDecision wall.
Proof. solve_decision. Defined.

Definition wall_of (x y : Z) (dir : DIRECTION) : wall :=
  match dir with
  | NORTH => HWall x (w64 (y + 1))
  | SOUTH => HWall x y
  | EAST => VWall (w64 (x + 1)) y
  | WEST => VWall x y
  end.

(** A wall between two cells of the map. *)
Definition inner (m : MAP) (w : wall) : Prop :=
  match w with
  | HWall x y => x < Width m /\ 1 <= y < Height m
  | VWall x y => y < Height m /\ 1 <= x < Width m
  end.

#[export] Instance inner_dec m w : Decision (inner m w).
Proof. destruct w; simpl; apply _. Defined.

(** Its bit in the buffer. *)
Definition wall_bit (m : MAP) (w : wall) : Z :=
  match w with
  | HWall x y => 32 * HWalls m + (x * (Height m - 1) + y - 1)
  | VWall x y => 32 * VWalls m + (y * (Width m - 1) + x - 1)
  end.

Definition has_wall (m : MAP) (w : wall) : bool :=
  if decide (inner m w) then bit (Walls m) (wall_bit m w) else true.

(** The two bitmaps are apart and inside the buffer. *)
Record map_ok (m : MAP) : Prop := {
  ok_width : 1 <= Width m;
  ok_height : 1 <= Height m;
  ok_size : Width m * Height m < 2 ^ 63;
  ok_vwalls : VWalls m = 0;
  ok_split : Height m * (Width m - 1) <= 32 * HWalls m;
  ok_fits : 32 * HWalls m + Width m * (Height m - 1) <= 32 * zlen (Walls m);
  ok_words : words_ok (Walls m)
}.

Definition nonneg (w : wall) : Prop := match w with HWall x y | VWall x y => 0 <= x /\ 0 <= y end.

(** ** Lemmas *)

Lemma bit_from off b i : 0 <= off -> 0 <= i -> bit (from off b) i = bit b (32 * off + i).
Proof.
  intros Ho Hi. unfold bit, from, BitmapIndex, BitmapOffset, BitmapWordSize.
  rewrite lookup_drop. replace (32 * off + i) with (i + off * 32) by lia. rewrite Z.div_add, Z.mod_add by lia.
  replace (Z.to_nat off + Z.to_nat (i / 32))%nat with (Z.to_nat (i / 32 + off)); [done|].
  pose proof (Z.div_pos i 32). lia.
Qed.

Lemma bits_in_from off b i : 0 <= off -> 0 <= i -> 32 * off + i < 32 * zlen b -> bits_in (from off b) i.
Proof.
  intros Ho Hi Hlt. unfold bits_in, from, zlen, BitmapWordSize in *. rewrite length_drop. lia.
Qed.

Lemma from_words off b : words_ok b -> words_ok (from off b).
Proof. apply Forall_drop. Qed.

Lemma bit_onto off b p j : 0 <= off <= zlen b -> 0 <= j ->
  bit (onto off b p) j = if j <? 32 * off then bit b j else bit p (j - 32 * off).
Proof.
  intros Ho Hj. unfold bit, onto, BitmapIndex, BitmapOffset, BitmapWordSize, zlen in *.
  pose proof (Z.div_pos j 32 Hj ltac:(lia)). destruct (Z.ltb_spec j (32 * off)) as [H1|H1].
  - assert (j / 32 < off) by (apply Z.div_lt_upper_bound; lia).
    rewrite lookup_app_l by (rewrite length_take; lia). by rewrite lookup_take_lt by lia.
  - remember (j - 32 * off) as k eqn:Ek. assert (j = k + off * 32) as -> by lia. rewrite Z.div_add, Z.mod_add by lia.
    pose proof (Z.div_pos k 32 ltac:(lia) ltac:(lia)).
    rewrite lookup_app_r by (rewrite length_take; lia). rewrite length_take.
    replace (Z.to_nat (k / 32 + off) - _)%nat with (Z.to_nat (k / 32)) by lia. done.
Qed.

(** Writing one bit through a pointer into the buffer. *)
Lemma set_from off b i (state : bool) : 0 <= off -> 0 <= i -> 32 * off + i < 32 * zlen b -> words_ok b ->
  exists p, (if state then BitmapOn (from off b) i else BitmapOff (from off b) i) = Ok p /\
    zlen (onto off b p) = zlen b /\ words_ok (onto off b p) /\
    forall j, 0 <= j -> bit (onto off b p) j = if 32 * off + i =? j then state else bit b j.
Proof.
  intros Ho Hi Hlt Hw. pose proof (bits_in_from off b i Ho Hi Hlt) as Hin. pose proof (from_words off b Hw) as Hwf.
  assert (exists p, (if state then BitmapOn (from off b) i else BitmapOff (from off b) i) = Ok p /\
    zlen p = zlen (from off b) /\ words_ok p /\
    forall j, 0 <= j -> bit p j = if i =? j then state else bit (from off b) j) as (p & Hrun & Hlen & Hwp & Hbit).
  { destruct state; [by apply BitmapOn_ok|by apply BitmapOff_ok]. }
  exists p. split; [done|]. split; [|split].
  - unfold zlen, onto, from in *. rewrite length_app, length_take. rewrite length_drop in Hlen. lia.
  - apply Forall_app. split; [by apply Forall_take|done].
  - intros j Hj. rewrite bit_onto by (unfold zlen in *; lia). destruct (Z.ltb_spec j (32 * off)) as [H1|H1].
    + rewrite (proj2 (Z.eqb_neq _ _)) by lia. done.
    + rewrite Hbit, bit_from by lia. replace (32 * off + (j - 32 * off)) with j by lia.
      destruct (Z.eqb_spec i (j - 32 * off)), (Z.eqb_spec (32 * off + i) j); done || lia.
Qed.

(** The index of an inner wall. *)
Lemma index_range major majorSize minor minorSize :
  0 <= major < majorSize -> 1 <= minor < minorSize -> 1 <= minorSize -> majorSize * minorSize < 2 ^ 63 ->
  MapGetIndex major minorSize minor = major * (minorSize - 1) + minor - 1 /\
  0 <= major * (minorSize - 1) + minor - 1 < majorSize * (minorSize - 1).
Proof.
  intros H1 H2 H3 H4.
  assert (0 <= major * (minorSize - 1) + minor - 1 < majorSize * (minorSize - 1)) as Hr by nia.
  split; [|done]. unfold MapGetIndex. apply w64_small. unfold u64. nia.
Qed.

Lemma index_inj n M1 m1 M2 m2 : 1 <= m1 < n -> 1 <= m2 < n ->
  M1 * (n - 1) + m1 - 1 = M2 * (n - 1) + m2 - 1 -> M1 = M2 /\ m1 = m2.
Proof.
  intros H1 H2 E.
  assert (M1 = M2) as ->; [|lia].
  apply (f_equal (fun z => z / (n - 1))) in E.
  replace (M1 * (n - 1) + m1 - 1) with ((m1 - 1) + M1 * (n - 1)) in E by lia.
  replace (M2 * (n - 1) + m2 - 1) with ((m2 - 1) + M2 * (n - 1)) in E by lia.
  rewrite !Z.div_add, !Z.div_small in E by lia. lia.
Qed.

Lemma wall_bit_range m w : map_ok m -> inner m w -> nonneg w -> 0 <= wall_bit m w < 32 * zlen (Walls m).
Proof.
  intros [Hw Hh Hs Hv Hsp Hf _]. destruct w as [x y|x y]; simpl; intros H1 H2; nia.
Qed.

Lemma wall_bit_inj m w w' : map_ok m -> inner m w -> inner m w' -> nonneg w -> nonneg w' ->
  wall_bit m w = wall_bit m w' -> w = w'.
Proof.
  intros [Hw Hh Hs Hv Hsp Hf _]. destruct w as [x y|x y], w' as [x' y'|x' y']; simpl; intros H1 H2 H3 H4 E.
  - destruct (index_inj (Height m) x y x' y') as [-> ->]; [lia..|done].
  - nia.
  - nia.
  - destruct (index_inj (Width m) y x y' x') as [-> ->]; [lia..|done].
Qed.

Lemma bounds_inner (minor minorSize major majorSize : Z) : 0 <= minor ->
  (MapOutOfBoundsMinor minor minorSize || MapOutOfBoundsMajor major majorSize) =
  negb (bool_decide (major < majorSize /\ 1 <= minor < minorSize)).
Proof.
  intros Hm. unfold MapOutOfBoundsMinor, MapOutOfBoundsMajor. rewrite !Z.geb_leb.
  case_bool_decide as Hd; destruct (Z.eqb_spec minor 0), (Z.leb_spec minorSize minor), (Z.leb_spec majorSize major);
    simpl; done || lia.
Qed.

Lemma GetFlag_ok m w : map_ok m -> nonneg w ->
  match w with
  | HWall x y => MapGetFlag x (Width m) y (Height m) (from (HWalls m) (Walls m))
  | VWall x y => MapGetFlag y (Height m) x (Width m) (from (VWalls m) (Walls m))
  end = Ok (has_wall m w).
Proof.
  intros Hok Hnn. pose proof (wall_bit_range m w Hok) as Hr. unfold has_wall.
  destruct w as [x y|x y]; simpl in *; unfold MapGetFlag; rewrite bounds_inner by lia;
    (case_bool_decide as Hd; [rewrite decide_True by done|by rewrite decide_False by done]);
    specialize (Hr Hd Hnn); destruct Hok; simpl.
  - destruct (index_range x (Width m) y (Height m)) as [-> Hi]; [lia..|nia|]. rewrite BitmapGet_ok, bit_from; [done|nia..|].
    apply bits_in_from; nia.
  - destruct (index_range y (Height m) x (Width m)) as [-> Hi]; [lia..|nia|]. rewrite BitmapGet_ok, bit_from; [done|nia..|].
    apply bits_in_from; nia.
Qed.

Lemma wall_of_nonneg x y d : 0 <= x -> 0 <= y -> nonneg (wall_of x y d).
Proof. intros Hx Hy. pose proof (w64_u64 (x + 1)). pose proof (w64_u64 (y + 1)). unfold u64 in *. destruct d; simpl; lia. Qed.

Lemma MapGetWall_ok m x y d : map_ok m -> 0 <= x -> 0 <= y -> MapGetWall x y d m = Ok (has_wall m (wall_of x y d)).
Proof.
  intros Hok Hx Hy. rewrite <- (GetFlag_ok m (wall_of x y d) Hok) by by apply wall_of_nonneg.
  unfold MapGetWall, MapAdjustX, MapAdjustY. by destruct d.
Qed.

Definition wall_offset (m : MAP) (w : wall) : Z := match w with HWall _ _ => HWalls m | VWall _ _ => VWalls m end.

(** The call of [MapSetFlag] for a wall. *)
Definition set_wall_flag (m : MAP) (w : wall) (state : bool) :=
  match w with
  | HWall x y => MapSetFlag x (Width m) y (Height m) (from (HWalls m) (Walls m)) state
  | VWall x y => MapSetFlag y (Height m) x (Width m) (from (VWalls m) (Walls m)) state
  end.

(** It touches one bit of the words of the map, or for a wall of the border none. *)
Lemma set_wall_flag_inner m w state : map_ok m -> nonneg w -> inner m w ->
  exists i, 0 <= wall_offset m w /\ 0 <= i /\ wall_bit m w = 32 * wall_offset m w + i /\
    set_wall_flag m w state = if state then BitmapOn (from (wall_offset m w) (Walls m)) i
      else BitmapOff (from (wall_offset m w) (Walls m)) i.
Proof.
  intros Hok Hn0 Hin. pose proof (wall_bit_range m w Hok Hin Hn0) as Hr. pose proof Hok as [].
  unfold set_wall_flag, wall_offset, MapSetFlag. destruct w as [x0 y0|x0 y0]; simpl in *.
  - destruct (index_range x0 (Width m) y0 (Height m)) as [Ei Hi]; [lia..|nia|].
    exists (x0 * (Height m - 1) + y0 - 1). rewrite bounds_inner by lia. rewrite bool_decide_true by lia.
    cbv zeta. rewrite Ei. split; [nia|]. split; [lia|]. split; [lia|]. by destruct state.
  - destruct (index_range y0 (Height m) x0 (Width m)) as [Ei Hi]; [lia..|nia|].
    exists (y0 * (Width m - 1) + x0 - 1). rewrite bounds_inner by lia. rewrite bool_decide_true by lia.
    cbv zeta. rewrite Ei. split; [lia|]. split; [lia|]. split; [lia|]. by destruct state.
Qed.

Lemma set_wall_flag_ok m w state : map_ok m -> nonneg w ->
  exists p, set_wall_flag m w state = Ok p /\ let words := onto (wall_offset m w) (Walls m) p in
    zlen words = zlen (Walls m) /\ words_ok words /\
    forall j, 0 <= j -> bit words j = if decide (inner m w /\ wall_bit m w = j) then state else bit (Walls m) j.
Proof.
  intros Hok Hn0. destruct (decide (inner m w)) as [Hin|Hin].
  - destruct (set_wall_flag_inner m w state Hok Hn0 Hin) as (i & Ho & Hi & Eb & ->).
    pose proof (wall_bit_range m w Hok Hin Hn0) as Hr. pose proof Hok as [].
    destruct (set_from (wall_offset m w) (Walls m) i state) as (p & Hp & H1 & H2 & H3); [lia..|done|].
    exists p. split; [done|]. split; [done|]. split; [done|]. intros j Hj. rewrite H3, Eb by done.
    destruct (Z.eqb_spec (32 * wall_offset m w + i) j); [by rewrite decide_True|by rewrite decide_False by naive_solver].
  - exists (from (wall_offset m w) (Walls m)). cbv zeta.
    assert (onto (wall_offset m w) (Walls m) (from (wall_offset m w) (Walls m)) = Walls m) as -> by apply take_drop.
    split; [|split; [done|split; [apply Hok|]]].
    + pose proof Hok as []. unfold set_wall_flag, wall_offset, MapSetFlag. destruct w as [x0 y0|x0 y0]; simpl in *;
        rewrite bounds_inner by lia; by rewrite bool_decide_false.
    + intros j _. rewrite decide_False; [done|]. by intros [? _].
Qed.

Lemma MapSetWall_ok m x y d state : map_ok m -> 0 <= x -> 0 <= y ->
  exists m', MapSetWall x y d state m = Ok m' /\ map_ok m' /\ Width m' = Width m /\ Height m' = Height m /\
    forall w, nonneg w -> has_wall m' w = if decide (w = wall_of x y d /\ inner m w) then state else has_wall m w.
Proof.
  intros Hok Hx Hy. pose proof (wall_of_nonneg x y d Hx Hy) as Hn0. set (w0 := wall_of x y d) in *.
  destruct (set_wall_flag_ok m w0 state Hok Hn0) as (p & Hrun & Hlen & Hwords & Hbit).
  exists (mkMap (onto (wall_offset m w0) (Walls m) p) (VWalls m) (HWalls m) (Height m) (Width m)).
  split; [|split; [|split; [done|split; [done|]]]].
  - unfold MapSetWall, MapAdjustX, MapAdjustY. unfold set_wall_flag, wall_offset, w0 in *. destruct d; simpl in *; by rewrite Hrun.
  - destruct Hok. constructor; simpl; try done. by rewrite Hlen.
  - intros w Hw.
    assert (has_wall (mkMap (onto (wall_offset m w0) (Walls m) p) (VWalls m) (HWalls m) (Height m) (Width m)) w =
      if decide (inner m w) then bit (onto (wall_offset m w0) (Walls m) p) (wall_bit m w) else true) as -> by by destruct w.
    unfold has_wall. destruct (decide (inner m w)) as [Hin|Hin].
    2: { rewrite decide_False; [done|naive_solver]. }
    rewrite Hbit by (by apply wall_bit_range). destruct (decide (w = w0)) as [->|Hne].
    + by rewrite !decide_True.
    + rewrite (decide_False (P := w = w0 /\ _)) by naive_solver. rewrite decide_False; [done|].
      intros [Hi0 E]. apply Hne. symmetry. by apply (wall_bit_inj m).
Qed.

(** The two bitmaps take the same number of words, for example in a square map. *)
Definition balanced (width height : Z) : Prop :=
  BitmapSize (width * (height - 1)) = BitmapSize (height * (width - 1)).

Lemma MapInit_ok m buff width height :
  1 <= width -> 1 <= height -> width * height < 2 ^ 62 -> balanced width height ->
  MapSizeNeeded width height <= zlen buff -> words_ok buff ->
  exists m', MapInit m buff (zlen buff) width height = Ok (true, m') /\ map_ok m' /\ Width m' = width /\ Height m' = height /\
    forall w, nonneg w -> has_wall m' w = negb (bool_decide (inner m' w)).
Proof.
  intros Hw Hh Hs Hb Hlen Hwords.
  destruct (BitmapSize_spec (width * (height - 1)) ltac:(nia)) as [Hz1 Hz2].
  destruct (BitmapSize_spec (height * (width - 1)) ltac:(nia)) as [Hz3 Hz4].
  assert (MapDimensionSizeNeeded width height = BitmapSize (width * (height - 1))) as E1.
  { unfold MapDimensionSizeNeeded, MapBitsNeeded. rewrite w64_small by (unfold u64; nia). done. }
  assert (MapDimensionSizeNeeded height width = BitmapSize (width * (height - 1))) as E2.
  { unfold MapDimensionSizeNeeded, MapBitsNeeded. rewrite w64_small by (unfold u64; nia). by rewrite Hb. }
  assert (MapSizeNeeded width height = 2 * BitmapSize (width * (height - 1))) as E3.
  { unfold MapSizeNeeded. rewrite E1, E2, w64_small; [lia|]. unfold u64. nia. }
  unfold MapInit. rewrite Z.geb_leb, (proj2 (Z.leb_le _ _) Hlen). unfold zlen.  rewrite Nat2Z.id.
  destruct (ClearLoop_ok (length buff) buff 0) as (b' & Hrun & Hlen' & Hw' & Hbit); [done|unfold zlen; lia|done|].
  rewrite Hrun. cbn [mbind res_bind]. eexists. split; [reflexivity|]. rewrite E1.
  set (m' := mkMap _ _ _ _ _). rewrite E3 in Hlen. unfold balanced in Hb.
  assert (map_ok m') as Hok by (constructor; simpl; rewrite ?Hlen'; try done; nia).
  split; [done|]. split; [done|]. split; [done|]. intros w Hn. unfold has_wall.
  destruct (decide (inner m' w)) as [Hin|Hin]; [rewrite bool_decide_true by done|by rewrite bool_decide_false].
  pose proof (wall_bit_range m' w Hok Hin Hn) as Hr. simpl. rewrite Hbit by lia. unfold BitmapIndex, BitmapWordSize.
  pose proof (Z.div_pos (wall_bit m' w) 32 ltac:(lia) ltac:(lia)).
  assert (wall_bit m' w / 32 < Z.of_nat (length buff)).
  { apply Z.div_lt_upper_bound; [lia|]. change (Walls m') with b' in Hr. unfold zlen in *. lia. }
  rewrite (proj2 (Z.leb_le _ _)), (proj2 (Z.ltb_lt _ _)) by lia. done.
Qed.

(** ** Properties *)

(** On a well-formed map a wall that is set reads back as it was set from either of
    the two cells it separates, every other wall keeps its value, and the walls outside
    the map are always present; no access leaves the buffer. *)
Theorem map_set_get m x y d state :
  map_ok m -> 0 <= x -> 0 <= y ->
  exists m', MapSetWall x y d state m = Ok m' /\ map_ok m' /\
    forall x' y' d', 0 <= x' -> 0 <= y' -> exists b, MapGetWall x' y' d' m = Ok b /\
      (~ inner m (wall_of x' y' d') -> b = true) /\
      MapGetWall x' y' d' m' =
        Ok (if decide (wall_of x' y' d' = wall_of x y d /\ inner m (wall_of x' y' d')) then state else b).
Proof.
  intros Hok Hx Hy. destruct (MapSetWall_ok m x y d state Hok Hx Hy) as (m' & Hrun & Hok' & _ & _ & Hwall).
  exists m'. split; [done|]. split; [done|]. intros x' y' d' Hx' Hy'. exists (has_wall m (wall_of x' y' d')).
  split; [by apply MapGetWall_ok|]. split; [intros Hin; unfold has_wall; by rewrite decide_False|].
  rewrite MapGetWall_ok by done. by rewrite Hwall by (by apply wall_of_nonneg).
Qed.

(** When both bitmaps take the same number of words (in particular when the map is
    square) MapInit gives a well-formed map whose only walls are the outer ones. *)
Theorem map_init_correct m buff width height :
  1 <= width -> 1 <= height -> width * height < 2 ^ 62 -> balanced width height ->
  MapSizeNeeded width height <= zlen buff -> words_ok buff ->
  exists m', MapInit m buff (zlen buff) width height = Ok (true, m') /\ map_ok m' /\
    forall x y d, 0 <= x -> 0 <= y -> MapGetWall x y d m' = Ok (negb (bool_decide (inner m' (wall_of x y d)))).
Proof.
  intros Hw Hh Hs Hb Hlen Hwords.
  destruct (MapInit_ok m buff width height Hw Hh Hs Hb Hlen Hwords) as (m' & Hrun & Hok & _ & _ & Hwall).
  exists m'. split; [done|]. split; [done|]. intros x y d Hx Hy.
  rewrite MapGetWall_ok, Hwall; [done|by apply wall_of_nonneg|done..].
Qed.

(** MapInit puts the horizontal walls behind as many words as the horizontal walls
    need, not the vertical ones.  On a map three cells wide and twelve high, with a
    buffer of exactly the size MapSizeNeeded asks for, setting a horizontal wall writes
    past the buffer; on a map twelve wide and three high setting a vertical wall also sets a
    horizontal one. *)
Theorem map_rectangular m :
  (exists m', MapInit m [0; 0; 0] (MapSizeNeeded 3 12) 3 12 = Ok (true, m') /\
    MapSetWall 2 11 SOUTH true m' = Err FBounds) /\
  (exists m' m'', MapInit m [0; 0; 0] (MapSizeNeeded 12 3) 12 3 = Ok (true, m') /\
    MapGetWall 0 1 SOUTH m' = Ok false /\ MapSetWall 11 2 WEST true m' = Ok m'' /\ MapGetWall 0 1 SOUTH m'' = Ok true).
Proof.
  split.
  - eexists. split; [reflexivity|]. vm_compute. reflexivity.
  - eexists _, _. split; [reflexivity|]. split; [vm_compute; reflexivity|]. split; vm_compute; reflexivity.
Qed.

(** An empty map of the default size, 4 by 5 (umouse/map.h). *)
Definition map45 : MAP := mkMap [0; 0] 0 1 5 4.

Lemma map45_ok : map_ok map45.
Proof. constructor; simpl; unfold zlen; simpl; try lia. repeat constructor; lia. Defined.

Lemma map_set_get_witness :
  exists m', MapSetWall 1 2 NORTH true map45 = Ok m' /\ map_ok m' /\
    forall x' y' d', 0 <= x' -> 0 <= y' -> exists b, MapGetWall x' y' d' map45 = Ok b /\
      (~ inner map45 (wall_of x' y' d') -> b = true) /\
      MapGetWall x' y' d' m' =
        Ok (if decide (wall_of x' y' d' = wall_of 1 2 NORTH /\ inner map45 (wall_of x' y' d')) then true else b).
Proof. apply (map_set_get map45 1 2 NORTH true map45_ok); lia. Defined.

Lemma map_init_witness :
  exists m', MapInit map45 [7; 9] 2 4 5 = Ok (true, m') /\ map_ok m' /\
    forall x y d, 0 <= x -> 0 <= y -> MapGetWall x y d m' = Ok (negb (bool_decide (inner m' (wall_of x y d)))).
Proof.
  apply (map_init_correct map45 [7; 9] 4 5); try lia.
  - reflexivity.
  - vm_compute. discriminate.
  - repeat constructor; lia.
Defined.
