(* ===== verification/MapTest.v ===== *)
(** * The test of the map (umouse/maptest.c)

    A program that draws a map and sets the walls that are entered; the question it asks is left out. *)

From stdpp Require Import strings pretty.
From S2P Require Import Prelude Bitmap Printing Map.

#[local] Open Scope Z_scope.

Definition MAP_WIDTH : Z := 4.
Definition MAP_HEIGHT : Z := 5.

(** ** The program *)

(** A row of cells with the walls to their west, then the walls to their south. *)
Definition PrintWest (map : MAP) (y : Z) : res text :=
  l ← each (Z.to_nat (Width map)) 0 1 (fun x => wall ← MapGetWall x y WEST map; Ok [if (wall : bool) then "|" else " "; hex x +:+ "," +:+ hex y]);
  wall ← MapGetWall (Width map) y WEST map;
  Ok (l ++ [(if (wall : bool) then "|" else " ") +:+ newline]).

Definition PrintSouth (map : MAP) (y : Z) : res text :=
  l ← each (Z.to_nat (Width map)) 0 1 (fun x => wall ← MapGetWall x y SOUTH map; Ok ["+"; if (wall : bool) then "---" else "   "]);
  Ok (l ++ ["+" +:+ newline]).

(** [for(y = map->Height; y != -1; y--)] *)
Definition PrintMap (map : MAP) : res text :=
  each (S (Z.to_nat (Height map))) (Height map) (-1) (fun y => l ← PrintWest map y; r ← PrintSouth map y; Ok (l ++ r)).

Definition PrintFlags (map : MAP) : res text :=
  v ← BitmapPrint (from (VWalls map) (Walls map)) (MapBitsNeeded (Height map) (Height map));
  h ← BitmapPrint (from (HWalls map) (Walls map)) (MapBitsNeeded (Width map) (Height map));
  Ok (["Vertical Walls:  "] ++ v ++ ["Horizontal Walls:"] ++ h).

Definition PrintWalls (map : MAP) (x y : Z) : res text :=
  n ← MapGetWall x y NORTH map; s ← MapGetWall x y SOUTH map; e ← MapGetWall x y EAST map; w ← MapGetWall x y WEST map;
  Ok [hex x +:+ "," +:+ hex y +:+ " : "; if (n : bool) then "N" else " "; if (s : bool) then "S" else " ";
      if (e : bool) then "E" else " "; if (w : bool) then "W" else " "; newline].

(** The switch on the third number; [dir] keeps its value for another one. *)
Definition read_dir (dir_int : Z) (dir : DIRECTION) : DIRECTION :=
  if dir_int =? 1 then NORTH else if dir_int =? 2 then SOUTH else if dir_int =? 3 then EAST else if dir_int =? 4 then WEST else dir.

(** The endless loop, on the numbers that are entered. *)
Fixpoint Entries (inputs : list (Z * Z * Z)) (dir : DIRECTION) (map : MAP) : res (list text) :=
  match inputs with
  | [] => Ok []
  | (x, y, dir_int) :: inputs =>
      let x := w64 x in let y := w64 y in
      let dir := read_dir dir_int dir in
      map ← MapSetWall x y dir true map;
      p ← PrintMap map;
      f ← PrintFlags map;
      w ← PrintWalls map x y;
      outs ← Entries inputs dir map;
      Ok ((p ++ f ++ w) :: outs)
  end.

(** [dir] is not initialised. *)
Definition main (inputs : list (Z * Z * Z)) (dir : DIRECTION) : res (list text) :=
  '(_, map) ← MapInit (mkMap [] 0 0 0 0) (replicate (Z.to_nat (MapSizeNeeded MAP_WIDTH MAP_HEIGHT)) 0) (MapSizeNeeded MAP_WIDTH MAP_HEIGHT) MAP_WIDTH MAP_HEIGHT;
  p ← PrintMap map;
  f ← PrintFlags map;
  outs ← Entries inputs dir map;
  Ok ((p ++ f) :: outs).

(** ** What it should show *)

(** The picture of a set of walls. *)
Definition picture (W : wall -> bool) : text :=
  texts (S (Z.to_nat MAP_HEIGHT)) MAP_HEIGHT (-1) (fun y =>
    (texts (Z.to_nat MAP_WIDTH) 0 1 (fun x => [if W (VWall x y) then "|" else " "; hex x +:+ "," +:+ hex y]) ++
     [(if W (VWall MAP_WIDTH y) then "|" else " ") +:+ newline]) ++
    texts (Z.to_nat MAP_WIDTH) 0 1 (fun x => ["+"; if W (HWall x y) then "---" else "   "]) ++ ["+" +:+ newline]).

Definition side (W : wall -> bool) (x y : Z) (dir : DIRECTION) (letter : string) : string := if W (wall_of x y dir) then letter else " ".

Definition sides (W : wall -> bool) (x y : Z) : text :=
  [hex x +:+ "," +:+ hex y +:+ " : "; side W x y NORTH "N"; side W x y SOUTH "S"; side W x y EAST "E"; side W x y WEST "W"; newline].

(** The wall between two cells of the map, 4 by 5; all others are always there. *)
Definition between (w : wall) : bool :=
  match w with HWall x y => (x <? 4) && (1 <=? y) && (y <? 5) | VWall x y => (y <? 5) && (1 <=? x) && (x <? 4) end.

Fixpoint shows (inputs : list (Z * Z * Z)) (dir : DIRECTION) (W : wall -> bool) (outs : list text) : Prop :=
  match inputs with
  | [] => outs = []
  | (x, y, dir_int) :: inputs =>
      let x := w64 x in let y := w64 y in
      let dir := read_dir dir_int dir in
      let W' w := W w || bool_decide (w = wall_of x y dir) in
      exists flags outs', outs = (picture W' ++ flags ++ sides W' x y) :: outs' /\ shows inputs dir W' outs'
  end.

(** ** Proofs *)

(** The map has the default size and the walls [W]. *)
Record drawn (map : MAP) (W : wall -> bool) : Prop := {
  dr_ok : map_ok map;
  dr_width : Width map = MAP_WIDTH;
  dr_height : Height map = MAP_HEIGHT;
  dr_hwalls : HWalls map = 1;
  dr_walls : forall w, nonneg w -> has_wall map w = W w
}.

Lemma wall_seen map W x y dir : drawn map W -> 0 <= x -> 0 <= y -> MapGetWall x y dir map = Ok (W (wall_of x y dir)).
Proof. intros [] Hx Hy. rewrite MapGetWall_ok by done. f_equal. by apply dr_walls0, wall_of_nonneg. Qed.

Lemma PrintWest_ok map W y : drawn map W -> 0 <= y ->
  PrintWest map y = Ok (texts (Z.to_nat MAP_WIDTH) 0 1 (fun x => [if W (VWall x y) then "|" else " "; hex x +:+ "," +:+ hex y]) ++
    [(if W (VWall MAP_WIDTH y) then "|" else " ") +:+ newline]).
Proof.
  intros Hd Hy. unfold PrintWest. rewrite (dr_width _ _ Hd).
  erewrite each_texts; [|done|intros x Hx; by rewrite (wall_seen map W) by done]. cbn [mbind res_bind].
  by rewrite (wall_seen map W) by done.
Qed.

Lemma PrintSouth_ok map W y : drawn map W -> 0 <= y ->
  PrintSouth map y = Ok (texts (Z.to_nat MAP_WIDTH) 0 1 (fun x => ["+"; if W (HWall x y) then "---" else "   "]) ++ ["+" +:+ newline]).
Proof.
  intros Hd Hy. unfold PrintSouth. rewrite (dr_width _ _ Hd).
  by erewrite each_texts; [|done|intros x Hx; by rewrite (wall_seen map W) by done].
Qed.

Lemma PrintMap_ok map W : drawn map W -> PrintMap map = Ok (picture W).
Proof.
  intros Hd. unfold PrintMap, picture. rewrite (dr_height _ _ Hd). apply each_texts; [done|]. intros y Hy.
  by rewrite (PrintWest_ok map W), (PrintSouth_ok map W) by done.
Qed.

Lemma PrintWalls_ok map W x y : drawn map W -> 0 <= x -> 0 <= y -> PrintWalls map x y = Ok (sides W x y).
Proof. intros Hd Hx Hy. unfold PrintWalls. by rewrite !(wall_seen map W) by done. Qed.

Lemma PrintFlags_ok map W : drawn map W -> exists flags, PrintFlags map = Ok flags.
Proof.
  intros [Hok Ew Eh Ehw _]. unfold PrintFlags. rewrite Ew, Eh, Ehw. rewrite (ok_vwalls map Hok).
  pose proof (ok_fits map Hok) as Hf. rewrite Ew, Eh, Ehw in Hf. unfold MAP_WIDTH, MAP_HEIGHT in *.
  change (MapBitsNeeded 5 5) with 20. change (MapBitsNeeded 4 5) with 16.
  assert (2 <= zlen (Walls map)) by lia.
  assert (zlen (from 0 (Walls map)) = zlen (Walls map) /\ zlen (from 1 (Walls map)) = zlen (Walls map) - 1) as [E1 E2].
  { unfold from, zlen in *. rewrite !length_drop. lia. }
  rewrite !BitmapPrint_ok by lia. by eexists.
Qed.

Lemma set_wall map W x y dir : drawn map W -> (forall w, between w = false -> W w = true) -> 0 <= x -> 0 <= y ->
  exists map', MapSetWall x y dir true map = Ok map' /\ drawn map' (fun w => W w || bool_decide (w = wall_of x y dir)).
Proof.
  intros [Hok Ew Eh Ehw HW] Hb Hx Hy. destruct (MapSetWall_ok map x y dir true Hok Hx Hy) as (map' & Hrun & Hok' & Ew' & Eh' & Hw').
  exists map'. split; [done|]. constructor; [done|congruence|congruence| |].
  - rewrite <- Ehw. unfold MapSetWall in Hrun. by destruct dir; apply res_bind_ok in Hrun as (part & _ & [= <-]).
  - intros w Hn. rewrite Hw' by done. rewrite HW by done. destruct (decide (w = wall_of x y dir /\ inner map w)) as [[-> _]|Hno].
    + rewrite bool_decide_true by done. by rewrite orb_true_r.
    + destruct (W w) eqn:E; [done|]. rewrite bool_decide_false; [done|]. intros ->. apply Hno. split; [done|].
      unfold between in Hb. specialize (Hb (wall_of x y dir)). unfold inner. rewrite Ew, Eh.
      destruct (wall_of x y dir) as [a b|a b]; unfold MAP_WIDTH, MAP_HEIGHT;
        (destruct (Z.ltb_spec a 4), (Z.leb_spec 1 b), (Z.ltb_spec b 5), (Z.leb_spec 1 a); simpl in Hb; first [lia | rewrite Hb in E by done; done]).
Qed.

Lemma Entries_ok inputs dir map W : drawn map W -> (forall w, between w = false -> W w = true) ->
  exists outs, Entries inputs dir map = Ok outs /\ shows inputs dir W outs.
Proof.
  revert dir map W. induction inputs as [|[[x y] d] inputs IH]; intros dir map W Hd Hb; [by exists []|].
  cbn [Entries shows]. cbv zeta. pose proof (w64_u64 x) as [Hx _]. pose proof (w64_u64 y) as [Hy _].
  destruct (set_wall map W (w64 x) (w64 y) (read_dir d dir) Hd Hb Hx Hy) as (map' & -> & Hd'). cbn [mbind res_bind].
  rewrite (PrintMap_ok map' _ Hd'). cbn [mbind res_bind]. destruct (PrintFlags_ok map' _ Hd') as [flags ->]. cbn [mbind res_bind].
  rewrite (PrintWalls_ok map' _ (w64 x) (w64 y) Hd' Hx Hy). cbn [mbind res_bind].
  destruct (IH (read_dir d dir) map' _ Hd') as (outs & -> & Houts).
  { intros w Hw. by rewrite (Hb w Hw). }
  cbn [mbind res_bind]. eexists. split; [reflexivity|]. by exists flags, outs.
Qed.

(** The program draws the walls around the map and those that were entered, and no others,
    whatever numbers are entered; nothing is read or written outside of the map. *)
Theorem map_test_shows inputs dir :
  exists flags outs, main inputs dir = Ok ((picture (fun w => negb (between w)) ++ flags) :: outs) /\
    shows inputs dir (fun w => negb (between w)) outs.
Proof.
  unfold main. set (map0 := mkMap _ _ _ _ _). set (buff := replicate _ _).
  change (MapSizeNeeded MAP_WIDTH MAP_HEIGHT) with (zlen buff) at 1.
  assert (words_ok buff) as Hwords by (by repeat constructor).
  destruct (MapInit_ok map0 buff MAP_WIDTH MAP_HEIGHT) as (map & Hrun & Hok & Ew & Eh & Hw); try done.
  assert (drawn map (fun w => negb (between w))) as Hd.
  { constructor; try done.
    - unfold MapInit in Hrun. vm_compute in Hrun. by injection Hrun as <-.
    - intros w Hn. rewrite Hw by done. f_equal. unfold between. destruct w as [x y|x y]; simpl in *; rewrite Ew, Eh; unfold MAP_WIDTH, MAP_HEIGHT;
        case_bool_decide; zcases; simpl; lia || done. }
  rewrite Hrun. cbn [mbind res_bind]. rewrite (PrintMap_ok map _ Hd). cbn [mbind res_bind].
  destruct (PrintFlags_ok map _ Hd) as [flags ->]. cbn [mbind res_bind].
  destruct (Entries_ok inputs dir map _ Hd) as (outs & -> & Houts); [by intros w ->|]. cbn [mbind res_bind]. by exists flags, outs.
Qed.

(** PrintFlags takes the height for both sizes of the vertical walls: it shows 20 bits for the 15
    walls there are. *)
Example flags_shown : MapBitsNeeded MAP_HEIGHT MAP_HEIGHT = 20 /\ MapBitsNeeded MAP_HEIGHT MAP_WIDTH = 15.
Proof. done. Qed.
