(* ===== verification/FloodFill.v ===== *)
(** * Flood fill (umouse/floodfill.h, umouse/floodfill.c)

    The distance of every cell of the maze from the destinations, by relaxing the
    neighbours of cells with a pending event until no event is left.  On square maps
    the result is the length of a shortest walk, up to 255 ([flood_distances]). *)

From S2P Require Import Prelude Bitmap Map.

(** [FloodMap] is an array of words of which the code uses the low byte. *)
Record FLOOD_MAP := mkFlood { Width : Z; Height : Z; FloodMap : list Z; EventMap : list Z }.

Definition FLOOD_MAP_ITEMS_NEEDED (width height : Z) : Z := w64 (width * height).
Definition FLOOD_MAP_SIZE (width height : Z) : Z := FLOOD_MAP_ITEMS_NEEDED width height.
Definition FLOOD_EVENT_SIZE (width height : Z) : Z := BitmapSize (FLOOD_MAP_ITEMS_NEEDED width height).

Definition FloodFillGetIndex (x y : Z) (map : FLOOD_MAP) : Z := w64 (y * Width map + x).
Definition FloodFillGetX (index : Z) (map : FLOOD_MAP) : res Z :=
  if Height map =? 0 then Err FDiv else Ok (index mod Height map).
Definition FloodFillGetY (index : Z) (map : FLOOD_MAP) : res Z :=
  if Width map =? 0 then Err FDiv else Ok (index / Width map).

Definition with_FloodMap (b : list Z) (map : FLOOD_MAP) := mkFlood (Width map) (Height map) b (EventMap map).
Definition with_EventMap (b : list Z) (map : FLOOD_MAP) := mkFlood (Width map) (Height map) (FloodMap map) b.

Definition outside (x y : Z) (map : FLOOD_MAP) : bool := (x >=? Width map) || (y >=? Height map).

Definition FloodFillSet (x y value : Z) (map : FLOOD_MAP) : res FLOOD_MAP :=
  if outside x y map then Ok map else
  b ← arr_set (FloodMap map) (FloodFillGetIndex x y map) value;
  Ok (with_FloodMap b map).

Definition FloodNewEvent (x y : Z) (map : FLOOD_MAP) : res FLOOD_MAP :=
  if outside x y map then Ok map else
  let index := FloodFillGetIndex x y map in
  b ← BitmapOn (EventMap map) index;
  Ok (with_EventMap b map).

(** The coordinates of an event, both [-1] when there is none. *)
Definition FloodGetEvent (map : FLOOD_MAP) : res (Z * Z * FLOOD_MAP) :=
  index ← BitmapGetFirstFlag (EventMap map) (FLOOD_MAP_ITEMS_NEEDED (Width map) (Height map));
  if index =? max64 then Ok (max64, max64, map)
  else
    y ← FloodFillGetY index map;
    x ← FloodFillGetX index map;
    b ← BitmapOff (EventMap map) index;
    Ok (x, y, with_EventMap b map).

Definition FloodFillGet (x y : Z) (map : FLOOD_MAP) : res Z :=
  if outside x y map then Ok 255 else
  v ← arr_get (FloodMap map) (FloodFillGetIndex x y map);
  Ok (w8 v).

Definition FloodFillInit (width height : Z) (mapBuff eventBuff : list Z) : FLOOD_MAP :=
  mkFlood width height mapBuff eventBuff.

(** One of the four conditionals of the loop body. *)
Definition Relax (x y : Z) (dir : DIRECTION) (nx ny curValue : Z) (map : MAP) (floodMap : FLOOD_MAP) : res FLOOD_MAP :=
  wall ← MapGetWall x y dir map;
  if (wall : bool) then Ok floodMap else
  v ← FloodFillGet nx ny floodMap;
  if v >? curValue then
    floodMap ← FloodFillSet nx ny (w8 (curValue + 1)) floodMap;
    FloodNewEvent nx ny floodMap
  else Ok floodMap.

Fixpoint FloodFillCalculate (fuel : nat) (map : MAP) (floodMap : FLOOD_MAP) : res FLOOD_MAP :=
  match fuel with
  | O => Err FFuel
  | S fuel =>
      '(x, y, floodMap) ← FloodGetEvent floodMap;
      if (x =? max64) && (y =? max64) then Ok floodMap
      else
        curValue ← FloodFillGet x y floodMap;
        floodMap ← Relax x y EAST (w64 (x + 1)) y curValue map floodMap;
        floodMap ← Relax x y WEST (w64 (x - 1)) y curValue map floodMap;
        floodMap ← Relax x y NORTH x (w64 (y + 1)) curValue map floodMap;
        floodMap ← Relax x y SOUTH x (w64 (y - 1)) curValue map floodMap;
        FloodFillCalculate fuel map floodMap
  end.

(** The two loops of [FloodFillClear], [n] iterations left. *)
Fixpoint ClearColumn (n : nat) (x y : Z) (floodMap : FLOOD_MAP) : res FLOOD_MAP :=
  match n with
  | O => Ok floodMap
  | S n => floodMap ← FloodFillSet x y 255 floodMap; ClearColumn n x (y + 1) floodMap
  end.

Fixpoint ClearColumns (n : nat) (x : Z) (floodMap : FLOOD_MAP) : res FLOOD_MAP :=
  match n with
  | O => Ok floodMap
  | S n => floodMap ← ClearColumn (Z.to_nat (Height floodMap)) x 0 floodMap; ClearColumns n (x + 1) floodMap
  end.

Definition FloodFillClear (floodMap : FLOOD_MAP) : res FLOOD_MAP :=
  floodMap ← ClearColumns (Z.to_nat (Width floodMap)) 0 floodMap;
  b ← BitmapClear (EventMap floodMap) (w64 (Width floodMap * Height floodMap));
  Ok (with_EventMap b floodMap).

Definition FloodFillSetDestination (x y : Z) (map : FLOOD_MAP) : res FLOOD_MAP :=
  map ← FloodFillSet x y 0 map;
  FloodNewEvent x y map.

(** ** Cells, passages and walks *)

Abbreviation cell := (Z * Z)%type.

Definition toward (c : cell) (d : DIRECTION) : cell :=
  let '(x, y) := c in
  match d with NORTH => (x, y + 1) | EAST => (x + 1, y) | SOUTH => (x, y - 1) | WEST => (x - 1, y) end.

Definition passage (m : MAP) (c : cell) (d : DIRECTION) : Prop := has_wall m (wall_of c.1 c.2 d) = false.

(** [walk m ds k c]: a walk of [k] steps from one of the cells [ds] to [c]. *)
Inductive walk (m : MAP) (ds : list cell) : Z -> cell -> Prop :=
| walk_start c : c ∈ ds -> walk m ds 0 c
| walk_step k c d : walk m ds k c -> passage m c d -> walk m ds (k + 1) (toward c d).

Definition index (n : Z) (c : cell) : Z := c.2 * n + c.1.
Definition val (n : Z) (fm : FLOOD_MAP) (c : cell) : Z := default 0 (FloodMap fm !! Z.to_nat (index n c)).
Definition event (n : Z) (fm : FLOOD_MAP) (c : cell) : bool := bit (EventMap fm) (index n c).
Definition cell_in (n : Z) (c : cell) : Prop := 0 <= c.1 < n /\ 0 <= c.2 < n.

(** Buffers of the needed sizes for a square map of [n] times [n] cells. *)
Record sized (n : Z) (fm : FLOOD_MAP) : Prop := {
  sz_n : 1 <= n < 2 ^ 31;
  sz_width : Width fm = n;
  sz_height : Height fm = n;
  sz_map : n * n <= zlen (FloodMap fm);
  sz_events : BitmapSize (n * n) <= zlen (EventMap fm);
  sz_words : words_ok (EventMap fm)
}.

Record flood_ok (n : Z) (fm : FLOOD_MAP) : Prop := {
  fl_sized : sized n fm;
  fl_vals : forall c, cell_in n c -> 0 <= val n fm c <= 255;
  fl_tail : forall j, n * n <= j < BitmapSize (n * n) * 32 -> bit (EventMap fm) j = false
}.

(** ** Lemmas on cells *)

Lemma cell_index_range n c : 1 <= n -> cell_in n c -> 0 <= index n c < n * n.
Proof. destruct c as [x y]. unfold cell_in, index. simpl. nia. Qed.

Lemma index_cell n c : 1 <= n -> cell_in n c -> (index n c mod n, index n c / n) = c.
Proof.
  destruct c as [x y]. unfold cell_in, index. simpl. intros Hn [Hx Hy].
  rewrite (Z.add_comm _ x), Z.mod_add, Z.div_add, Z.mod_small, Z.div_small by lia. f_equal; lia.
Qed.

Lemma cell_index_inj n c c' : 1 <= n -> cell_in n c -> cell_in n c' -> index n c = index n c' -> c = c'.
Proof. intros Hn Hc Hc' E. rewrite <- (index_cell n c), <- (index_cell n c') by done. by rewrite E. Qed.

Lemma cell_of_index n i : 1 <= n -> 0 <= i < n * n -> cell_in n (i mod n, i / n) /\ index n (i mod n, i / n) = i.
Proof.
  intros Hn Hi. unfold cell_in, index. simpl. pose proof (Z.mod_pos_bound i n ltac:(lia)).
  pose proof (Z.div_mod i n ltac:(lia)). pose proof (Z.div_pos i n ltac:(lia) ltac:(lia)).
  assert (i / n < n) by (apply Z.div_lt_upper_bound; lia). lia.
Qed.

(** ** Lemmas on the operations *)

Section ops.
Context (n : Z).
Implicit Types fm : FLOOD_MAP.

Lemma inside_false fm c : sized n fm -> cell_in n c -> outside c.1 c.2 fm = false.
Proof. intros [] [? ?]. unfold outside. rewrite !Z.geb_leb, sz_width0, sz_height0. apply orb_false_iff. lia. Qed.

Lemma get_index fm c : sized n fm -> cell_in n c -> FloodFillGetIndex c.1 c.2 fm = index n c.
Proof.
  intros [] Hc. pose proof (cell_index_range n c ltac:(lia) Hc). unfold FloodFillGetIndex, index in *. rewrite sz_width0.
  apply w64_small. unfold u64. nia.
Qed.

Lemma items fm : sized n fm -> FLOOD_MAP_ITEMS_NEEDED (Width fm) (Height fm) = n * n.
Proof. intros []. unfold FLOOD_MAP_ITEMS_NEEDED. rewrite sz_width0, sz_height0. apply w64_small. unfold u64. nia. Qed.

Lemma FloodFillGet_in fm c : flood_ok n fm -> cell_in n c -> FloodFillGet c.1 c.2 fm = Ok (val n fm c).
Proof.
  intros [Hs Hv _] Hc. unfold FloodFillGet. rewrite (inside_false fm c Hs Hc), (get_index fm c Hs Hc).
  pose proof (cell_index_range n c ltac:(apply Hs) Hc). destruct (arr_get_inb (FloodMap fm) (index n c)) as (v & Hg & Hl).
  { destruct Hs. lia. }
  rewrite Hg. simpl. specialize (Hv c Hc). unfold val in *. rewrite Hl in *. simpl in *.
  by rewrite wrap_small by lia.
Qed.

Lemma FloodFillGet_out fm x y : sized n fm -> 0 <= x -> 0 <= y -> ~ cell_in n (x, y) -> FloodFillGet x y fm = Ok 255.
Proof.
  intros [] Hx Hy Hc. unfold FloodFillGet, outside. rewrite !Z.geb_leb, sz_width0, sz_height0.
  unfold cell_in in Hc. simpl in Hc. destruct (Z.leb_spec n x), (Z.leb_spec n y); simpl; done || lia.
Qed.

Lemma FloodFillSet_ok fm c v : sized n fm -> cell_in n c ->
  exists fm', FloodFillSet c.1 c.2 v fm = Ok fm' /\ sized n fm' /\ EventMap fm' = EventMap fm /\
    forall c', cell_in n c' -> val n fm' c' = if decide (c' = c) then v else val n fm c'.
Proof.
  intros Hs Hc. unfold FloodFillSet. rewrite (inside_false fm c Hs Hc), (get_index fm c Hs Hc).
  pose proof (cell_index_range n c ltac:(apply Hs) Hc) as Hi. pose proof Hs as [].
  rewrite arr_set_ok by lia. eexists. split; [reflexivity|]. split; [|split; [done|]].
  - constructor; simpl; try done. unfold zlen. by rewrite length_insert.
  - intros c' Hc'. unfold val. cbn [FloodMap with_FloodMap]. case_decide as Hd.
    + subst. rewrite list_lookup_insert_eq by (unfold zlen in *; lia). done.
    + rewrite list_lookup_insert_ne; [done|]. intros E. apply Hd. apply (cell_index_inj n); [lia|done..|].
      pose proof (cell_index_range n c' ltac:(lia) Hc'). lia.
Qed.

Lemma bits_in_cell fm c : sized n fm -> cell_in n c -> bits_in (EventMap fm) (index n c).
Proof.
  intros [] Hc. pose proof (cell_index_range n c ltac:(lia) Hc). pose proof (BitmapSize_spec (n * n) ltac:(nia)).
  unfold bits_in, BitmapWordSize. lia.
Qed.

Lemma FloodNewEvent_ok fm c : sized n fm -> cell_in n c ->
  exists fm', FloodNewEvent c.1 c.2 fm = Ok fm' /\ sized n fm' /\ FloodMap fm' = FloodMap fm /\
    forall j, 0 <= j -> bit (EventMap fm') j = if index n c =? j then true else bit (EventMap fm) j.
Proof.
  intros Hs Hc. unfold FloodNewEvent. rewrite (inside_false fm c Hs Hc), (get_index fm c Hs Hc).
  destruct (BitmapOn_ok (EventMap fm) (index n c)) as (b & Hrun & Hlen & Hw & Hbit);
    [by apply bits_in_cell|apply Hs|]. cbv zeta. rewrite Hrun. eexists. split; [reflexivity|].
  split; [|split; done]. destruct Hs. constructor; simpl; try done. lia.
Qed.

(** Marking a cell: a new value and an event. *)
Definition marked fm fm' (c : cell) (v : Z) : Prop :=
  forall c', cell_in n c' -> val n fm' c' = (if decide (c' = c) then v else val n fm c') /\
    event n fm' c' = if decide (c' = c) then true else event n fm c'.

Lemma mark_ok fm c v : flood_ok n fm -> cell_in n c -> 0 <= v <= 255 ->
  exists fm', (map ← FloodFillSet c.1 c.2 v fm; FloodNewEvent c.1 c.2 map) = Ok fm' /\ flood_ok n fm' /\ marked fm fm' c v.
Proof.
  intros [Hs Hv Ht] Hc Hr. destruct (FloodFillSet_ok fm c v Hs Hc) as (f1 & Hrun1 & Hs1 & He1 & Hv1).
  destruct (FloodNewEvent_ok f1 c Hs1 Hc) as (f2 & Hrun2 & Hs2 & He2 & Hb2).
  exists f2. rewrite Hrun1. simpl. split; [done|].
  assert (forall c', val n f2 c' = val n f1 c') as E by (intros c'; unfold val; by rewrite He2).
  pose proof (cell_index_range n c ltac:(apply Hs) Hc) as Hi. split.
  - constructor; [done| |].
    + intros c' Hc'. rewrite E, Hv1 by done. case_decide; [done|by apply Hv].
    + intros j Hj. rewrite Hb2 by lia. rewrite (proj2 (Z.eqb_neq _ _)) by lia. rewrite He1. by apply Ht.
  - intros c' Hc'. rewrite E, Hv1 by done. split; [done|]. unfold event.
    rewrite Hb2, He1 by (pose proof (cell_index_range n c' ltac:(apply Hs) Hc'); lia).
    destruct (Z.eqb_spec (index n c) (index n c')) as [Ei|Ei].
    + rewrite decide_True; [done|]. symmetry. apply (cell_index_inj n); [apply Hs|done..].
    + rewrite decide_False; [done|]. by intros ->.
Qed.

Lemma FloodGetEvent_ok fm : flood_ok n fm ->
  (FloodGetEvent fm = Ok (max64, max64, fm) /\ forall c, cell_in n c -> event n fm c = false) \/
  exists c fm', FloodGetEvent fm = Ok (c.1, c.2, fm') /\ cell_in n c /\ event n fm c = true /\ flood_ok n fm' /\
    forall c', cell_in n c' -> val n fm' c' = val n fm c' /\ event n fm' c' = if decide (c' = c) then false else event n fm c'.
Proof.
  intros [Hs Hv Ht]. unfold FloodGetEvent. rewrite items by done. pose proof Hs as [Hn Hwd Hht Hmp Hev Hw].
  destruct (BitmapGetFirstFlag_ok (EventMap fm) (n * n)) as (r & -> & Hr); [done|nia|done|].
  pose proof (BitmapSize_spec (n * n) ltac:(nia)) as Hsz. cbn [mbind res_bind]. destruct Hr as [[-> Hnone]|(Hr & Hbit & _)].
  - left. rewrite (proj2 (Z.eqb_eq _ _)) by done. split; [done|]. intros c Hc. apply Hnone.
    pose proof (cell_index_range n c ltac:(lia) Hc). lia.
  - right. assert (r < n * n) as Hrn.
    { destruct (Z.lt_ge_cases r (n * n)); [done|]. rewrite Ht in Hbit by lia. done. }
    destruct (cell_of_index n r ltac:(lia) ltac:(lia)) as [Hc Hi]. set (c := (r mod n, r / n)) in *.
    rewrite (proj2 (Z.eqb_neq r max64)) by (unfold max64; nia).
    unfold FloodFillGetY, FloodFillGetX. rewrite Hwd, Hht, (proj2 (Z.eqb_neq n 0)) by lia. cbn [mbind res_bind].
    destruct (BitmapOff_ok (EventMap fm) r) as (b & -> & Hlen & Hwb & Hoff).
    { rewrite <- Hi. by apply bits_in_cell. }
    { done. }
    exists c, (with_EventMap b fm). cbn [mbind res_bind]. split; [done|]. split; [done|]. split; [unfold event; by rewrite Hi|].
    split.
    + constructor; [constructor; simpl; try done; lia|done|]. intros j Hj. simpl. rewrite Hoff by nia.
      destruct (r =? j); [done|by apply Ht].
    + intros c' Hc'. split; [done|]. unfold event. simpl. rewrite Hoff by (pose proof (cell_index_range n c' ltac:(lia) Hc'); lia).
      rewrite <- Hi. destruct (Z.eqb_spec (index n c) (index n c')) as [Ei|Ei].
      * rewrite decide_True; [done|]. symmetry. apply (cell_index_inj n); [lia|done..].
      * rewrite decide_False; [done|]. by intros ->.
Qed.
End ops.

(** ** Clearing *)

Lemma ClearColumn_ok n k x y fm : sized n fm -> 0 <= x < n -> 0 <= y -> y + Z.of_nat k <= n ->
  exists fm', ClearColumn k x y fm = Ok fm' /\ sized n fm' /\ EventMap fm' = EventMap fm /\
    forall c, cell_in n c -> val n fm' c =
      if decide (c.1 = x /\ y <= c.2 < y + Z.of_nat k) then 255 else val n fm c.
Proof.
  revert y fm. induction k as [|k IH]; intros y fm Hs Hx Hy Hle.
  - exists fm. split; [done|]. split; [done|]. split; [done|]. intros c _. by rewrite decide_False by lia.
  - destruct (FloodFillSet_ok n fm (x, y) 255 Hs) as (f1 & Hrun1 & Hs1 & He1 & Hv1); [split; simpl; lia|].
    destruct (IH (y + 1) f1 Hs1 Hx ltac:(lia) ltac:(lia)) as (f2 & Hrun2 & Hs2 & He2 & Hv2).
    exists f2. simpl in *. rewrite Hrun1. cbn [mbind res_bind]. split; [done|]. split; [done|]. split; [congruence|].
    intros [cx cy] Hc. rewrite Hv2, Hv1 by done. simpl.
    destruct (decide (cx = x /\ y <= cy < y + Z.of_nat (S k))) as [Ht|Ht].
    + destruct (decide (cy = y)) as [->|Hcy].
      * rewrite (decide_True (P := (cx, y) = (x, y))) by (f_equal; lia). by case_decide.
      * by rewrite decide_True by lia.
    + rewrite decide_False by lia. rewrite decide_False; [done|]. intros [= -> ->]. lia.
Qed.

Lemma ClearColumns_ok n k x fm : sized n fm -> 0 <= x -> x + Z.of_nat k <= n ->
  exists fm', ClearColumns k x fm = Ok fm' /\ sized n fm' /\ EventMap fm' = EventMap fm /\
    forall c, cell_in n c -> val n fm' c = if decide (x <= c.1 < x + Z.of_nat k) then 255 else val n fm c.
Proof.
  revert x fm. induction k as [|k IH]; intros x fm Hs Hx Hle.
  - exists fm. split; [done|]. split; [done|]. split; [done|]. intros c _. by rewrite decide_False by lia.
  - pose proof (sz_height n fm Hs) as Hh. pose proof (sz_n n fm Hs) as Hn.
    destruct (ClearColumn_ok n (Z.to_nat (Height fm)) x 0 fm Hs) as (f1 & Hrun1 & Hs1 & He1 & Hv1); [lia..|].
    destruct (IH (x + 1) f1 Hs1 ltac:(lia) ltac:(lia)) as (f2 & Hrun2 & Hs2 & He2 & Hv2).
    exists f2. cbn [ClearColumns]. rewrite Hrun1. cbn [mbind res_bind]. split; [done|]. split; [done|]. split; [congruence|].
    intros [cx cy] Hc. rewrite Hv2, Hv1 by done. unfold cell_in in Hc. simpl in *. repeat case_decide; done || lia.
Qed.

Lemma FloodFillClear_ok n fm : sized n fm ->
  exists fm', FloodFillClear fm = Ok fm' /\ flood_ok n fm' /\
    forall c, cell_in n c -> val n fm' c = 255 /\ event n fm' c = false.
Proof.
  intros Hs. pose proof (sz_width n fm Hs) as Hw. pose proof (sz_n n fm Hs) as Hn.
  destruct (ClearColumns_ok n (Z.to_nat (Width fm)) 0 fm Hs) as (f1 & Hrun & Hs1 & He1 & Hv1); [lia..|].
  unfold FloodFillClear. rewrite Hrun. cbn [mbind res_bind]. pose proof Hs1 as [_ Hw1 Hh1 Hm1 Hev1 Hwo1].
  rewrite Hw1, Hh1, w64_small by (unfold u64; nia).
  destruct (BitmapClear_ok (EventMap f1) (n * n)) as (b & -> & Hlen & Hwb & Hbit); [nia|done..|].
  pose proof (BitmapSize_spec (n * n) ltac:(nia)) as Hsz. cbn [mbind res_bind]. eexists. split; [reflexivity|].
  assert (forall c, cell_in n c -> val n (with_EventMap b f1) c = 255) as Hv.
  { intros c Hc. change (val n (with_EventMap b f1) c) with (val n f1 c). rewrite Hv1 by done.
    unfold cell_in in Hc. by rewrite decide_True by lia. }
  split.
  - constructor; [constructor; simpl; done || lia| |].
    + intros c Hc. rewrite Hv by done. lia.
    + intros j Hj. simpl. rewrite Hbit by nia. by rewrite (proj2 (Z.ltb_lt _ _)) by lia.
  - intros c Hc. split; [by apply Hv|]. unfold event. simpl. pose proof (cell_index_range n c ltac:(lia) Hc).
    rewrite Hbit by lia. by rewrite (proj2 (Z.ltb_lt _ _)) by lia.
Qed.

(** ** Sums over the cells *)

Definition cells (n : Z) : list cell := (fun i => (i mod n, i / n)) <$> seqZ 0 (n * n).

Lemma elem_of_cells n c : 1 <= n -> c ∈ cells n <-> cell_in n c.
Proof.
  intros Hn. unfold cells. rewrite list_elem_of_fmap. split.
  - intros (i & -> & Hi). apply elem_of_seqZ in Hi. apply cell_of_index; lia.
  - intros Hc. exists (index n c). rewrite index_cell by done. split; [done|]. apply elem_of_seqZ.
    pose proof (cell_index_range n c Hn Hc). lia.
Qed.

Lemma NoDup_cells n : 1 <= n -> NoDup (cells n).
Proof.
  intros Hn. apply NoDup_fmap_2_strong; [|apply NoDup_seqZ]. intros i j Hi%elem_of_seqZ Hj%elem_of_seqZ E.
  destruct (cell_of_index n i Hn ltac:(lia)) as [_ <-], (cell_of_index n j Hn ltac:(lia)) as [_ <-]. by rewrite E.
Qed.

Definition zsum (l : list cell) (f : cell -> Z) : Z := foldr (fun c acc => f c + acc) 0 l.

Lemma zsum_ext l f g : (forall c, c ∈ l -> f c = g c) -> zsum l f = zsum l g.
Proof. induction l as [|c l IH]; simpl; intros H; [done|]. rewrite H, IH; set_solver. Qed.

Lemma zsum_bounds l f b : (forall c, c ∈ l -> 0 <= f c <= b) -> 0 <= zsum l f <= zlen l * b.
Proof.
  induction l as [|c l IH]; simpl; intros H; [done|]. specialize (IH ltac:(set_solver)). specialize (H c ltac:(set_solver)).
  unfold zlen in *. simpl length. lia.
Qed.

Lemma zsum_update l f g c : NoDup l -> c ∈ l -> (forall c', c' <> c -> c' ∈ l -> g c' = f c') ->
  zsum l g = zsum l f - f c + g c.
Proof.
  induction l as [|x l IH]; intros Hnd Hin Heq; [by apply not_elem_of_nil in Hin|]. apply NoDup_cons in Hnd as [Hx Hnd].
  simpl. destruct (decide (x = c)) as [->|Hne].
  - rewrite (zsum_ext l g f); [lia|]. intros c' Hc'. apply Heq; [by intros ->|set_solver].
  - rewrite (Heq x) by set_solver. rewrite IH; [lia|done|set_solver|]. intros c' H1 H2. apply Heq; set_solver.
Qed.

(** ** The loop *)

Section solve.
Context (n : Z) (m : MAP) (ds : list cell).
Context (Hm : map_ok m) (Hmw : Map.Width m = n) (Hmh : Map.Height m = n).
Implicit Types fm : FLOOD_MAP.

Lemma toward_ne c d : toward c d <> c.
Proof. destruct c as [x y], d; simpl; intros [=]; lia. Qed.

(** A passage leads to a cell of the map. *)
Lemma passage_in c d : n < 2 ^ 31 -> cell_in n c -> passage m c d -> cell_in n (toward c d).
Proof.
  destruct c as [x y]. unfold passage, has_wall. intros Hn [Hx Hy]. simpl in *. case_decide as Hin; [intros _|done].
  destruct d; simpl in *; rewrite ?Hmw, ?Hmh in Hin; unfold cell_in; simpl;
    try (rewrite w64_small in Hin by (unfold u64; lia)); lia.
Qed.

(** What one conditional of the loop does. *)
Definition relaxed fm fm' (c : cell) (d : DIRECTION) (cur : Z) : Prop :=
  (fm' = fm /\ (passage m c d -> val n fm (toward c d) <= cur)) \/
  (passage m c d /\ cell_in n (toward c d) /\ cur < val n fm (toward c d) /\ marked n fm fm' (toward c d) (cur + 1)).

Lemma Relax_ok fm c d nx ny cur : flood_ok n fm -> cell_in n c -> 0 <= cur <= 255 ->
  (passage m c d -> (nx, ny) = toward c d) ->
  exists fm', Relax c.1 c.2 d nx ny cur m fm = Ok fm' /\ flood_ok n fm' /\ relaxed fm fm' c d cur.
Proof.
  intros Hf Hc Hcur Hn. pose proof (sz_n n fm (fl_sized n fm Hf)) as Hbn.
  unfold Relax. rewrite MapGetWall_ok; [|done|apply Hc..]. cbn [mbind res_bind].
  destruct (has_wall m (wall_of c.1 c.2 d)) eqn:Hw.
  - exists fm. split; [done|]. split; [done|]. left. split; [done|]. unfold passage. by rewrite Hw.
  - specialize (Hn Hw). pose proof (passage_in c d ltac:(lia) Hc Hw) as Hin. rewrite <- Hn in Hin.
    pose proof (FloodFillGet_in n fm (nx, ny) Hf Hin) as Hg. simpl in Hg. rewrite Hg. cbn [mbind res_bind].
    rewrite Z.gtb_ltb. destruct (Z.ltb_spec cur (val n fm (nx, ny))) as [Hlt|Hge].
    + pose proof (fl_vals n fm Hf _ Hin) as Hv. rewrite wrap_small by lia.
      destruct (mark_ok n fm (nx, ny) (cur + 1) Hf Hin ltac:(lia)) as (fm' & Hrun & Hf' & Hmk).
      exists fm'. split; [exact Hrun|]. split; [done|]. right. rewrite <- Hn. done.
    + exists fm. split; [done|]. split; [done|]. left. split; [done|]. intros _. by rewrite <- Hn.
Qed.

(** *** Termination: the total value of the map, then the weights of the events *)

Definition weight_of (v : Z) : Z := 5 ^ (255 - v).
Definition event_weight fm (c : cell) : Z := if event n fm c then weight_of (val n fm c) else 0.
Definition most : Z := zlen (cells n) * 5 ^ 255.
Definition measure fm : Z := zsum (cells n) (val n fm) * (most + 1) + zsum (cells n) (event_weight fm).

Lemma weight_bounds v : 0 <= v <= 255 -> 0 < weight_of v <= 5 ^ 255.
Proof.
  intros Hv. unfold weight_of. split; [apply Z.pow_pos_nonneg; lia|]. apply Z.pow_le_mono_r; lia.
Qed.

Lemma weight_step v : 0 <= v <= 255 -> 4 * weight_of (v + 1) < weight_of v.
Proof.
  intros Hv. unfold weight_of. destruct (decide (v = 255)) as [->|]; [done|].
  replace (255 - v) with (Z.succ (255 - (v + 1))) by lia. rewrite Z.pow_succ_r by lia.
  pose proof (Z.pow_pos_nonneg 5 (255 - (v + 1))). lia.
Qed.

Lemma event_weight_bounds fm c : flood_ok n fm -> cell_in n c -> 0 <= event_weight fm c <= 5 ^ 255.
Proof.
  intros Hf Hc. unfold event_weight. pose proof (weight_bounds _ (fl_vals n fm Hf c Hc)). destruct (event n fm c); lia.
Qed.

Lemma events_bounds fm : flood_ok n fm -> 0 <= zsum (cells n) (event_weight fm) <= most.
Proof.
  intros Hf. apply zsum_bounds. intros c Hc. apply event_weight_bounds; [done|].
  apply elem_of_cells, Hc. pose proof (sz_n n fm (fl_sized n fm Hf)). lia.
Qed.

Lemma measure_nonneg fm : flood_ok n fm -> 0 <= measure fm.
Proof.
  intros Hf. pose proof (events_bounds fm Hf). unfold measure.
  destruct (zsum_bounds (cells n) (val n fm) 255) as [Hz _].
  { intros c Hc. apply (fl_vals n fm Hf). apply elem_of_cells, Hc. pose proof (sz_n n fm (fl_sized n fm Hf)). lia. }
  nia.
Qed.

Lemma marked_measure fm fm' c v : flood_ok n fm -> flood_ok n fm' -> cell_in n c -> 0 <= v <= val n fm c ->
  marked n fm fm' c v -> measure fm' <= measure fm + weight_of v.
Proof.
  intros Hf Hf' Hc Hv Hmk. pose proof (sz_n n fm (fl_sized n fm Hf)) as Hn.
  pose proof (fl_vals n fm Hf c Hc) as Hvc. destruct (Hmk c Hc) as [Ev Ee]. rewrite decide_True in Ev by done. rewrite decide_True in Ee by done.
  assert (forall c', c' <> c -> c' ∈ cells n -> val n fm' c' = val n fm c' /\ event_weight fm' c' = event_weight fm c') as Hne.
  { intros c' Hne Hin. apply elem_of_cells in Hin; [|lia]. destruct (Hmk c' Hin) as [E1 E2].
    rewrite decide_False in E1 by done. rewrite decide_False in E2 by done. unfold event_weight. by rewrite E1, E2. }
  pose proof (NoDup_cells n ltac:(lia)) as Hnd. pose proof (proj2 (elem_of_cells n c ltac:(lia)) Hc) as Hin.
  pose proof (zsum_update _ (val n fm) (val n fm') c Hnd Hin ltac:(intros; by apply Hne)) as ES.
  pose proof (zsum_update _ (event_weight fm) (event_weight fm') c Hnd Hin ltac:(intros; by apply Hne)) as EW.
  pose proof (events_bounds fm Hf). pose proof (events_bounds fm' Hf').
  pose proof (weight_bounds v ltac:(lia)) as Hw. unfold measure. rewrite Ev in ES.
  destruct (decide (v = val n fm c)) as [->|Hlt].
  - rewrite ES. replace (event_weight fm' c) with (weight_of (val n fm c)) in EW by (unfold event_weight; by rewrite Ev, Ee).
    pose proof (event_weight_bounds fm c Hf Hc). lia.
  - assert (zsum (cells n) (val n fm') <= zsum (cells n) (val n fm) - 1) by lia. nia.
Qed.

(** *** Correctness *)

Definition settled fm c d : Prop := passage m c d -> val n fm (toward c d) <= val n fm c + 1.

Record inv_but fm (skip : cell -> Prop) : Prop := {
  iv_ok : flood_ok n fm;
  iv_walk : forall c, cell_in n c -> val n fm c = 255 \/ walk m ds (val n fm c) c;
  iv_dest : forall c, c ∈ ds -> val n fm c = 0;
  iv_settled : forall c, cell_in n c -> event n fm c = false -> ~ skip c -> forall d, settled fm c d
}.

Definition inv fm : Prop := inv_but fm (fun _ => False).

(** While the event of [c] is processed its neighbours are settled one by one. *)
Definition processing fm (c : cell) (cur : Z) (done : list DIRECTION) : Prop :=
  inv_but fm (fun c' => c' = c) /\ val n fm c = cur /\ forall d, d ∈ done -> settled fm c d.

Context (Hds : forall c, c ∈ ds -> cell_in n c).

Lemma processing_step fm fm' c d cur done :
  cell_in n c -> processing fm c cur done -> flood_ok n fm' -> relaxed fm fm' c d cur ->
  processing fm' c cur (d :: done) /\ measure fm' <= measure fm + weight_of (cur + 1).
Proof.
  intros Hc ([Hf Hwk Hdst Hset] & Hcur & Hdone) Hf' Hr.
  pose proof (fl_vals n fm Hf c Hc) as Hvc. pose proof (sz_n n fm (fl_sized n fm Hf)) as Hn.
  destruct Hr as [[-> Hle]|(Hp & Hin & Hlt & Hmk)].
  - split; [|unfold weight_of; pose proof (Z.pow_nonneg 5 (255 - (cur + 1))); lia].
    split; [done|]. split; [done|]. intros d' [->|Hd']%elem_of_cons; [|by apply Hdone].
    intros Hp. specialize (Hle Hp). lia.
  - set (t := toward c d) in *. pose proof (fl_vals n fm Hf t Hin) as Hvt.
    assert (forall c', cell_in n c' -> val n fm' c' <= val n fm c') as Hmono.
    { intros c' Hc'. destruct (Hmk c' Hc') as [-> _]. case_decide; [subst|]; lia. }
    assert (val n fm' c = val n fm c) as Ec.
    { destruct (Hmk c Hc) as [-> _]. rewrite decide_False; [done|]. intros E. by apply (toward_ne c d). }
    assert (forall c' d', cell_in n c' -> val n fm' c' = val n fm c' -> settled fm c' d' -> settled fm' c' d') as Hkeep.
    { intros c' d' Hc' E Hs Hp'. specialize (Hs Hp'). specialize (Hmono _ (passage_in c' d' ltac:(lia) Hc' Hp')). lia. }
    split; [|apply (marked_measure fm fm' t); try done; lia].
    split; [constructor; [done|..]|split; [congruence|]].
    + intros c' Hc'. destruct (Hmk c' Hc') as [-> _]. case_decide as E; [subst c'|by apply Hwk].
      destruct (decide (cur + 1 = 255)); [by left|right]. destruct (Hwk c Hc) as [|Hw]; [lia|].
      rewrite Hcur in Hw. by apply walk_step.
    + intros c' Hc'. destruct (Hmk c' (Hds c' Hc')) as [-> _]. case_decide as E; [|by apply Hdst].
      subst c'. specialize (Hdst _ Hc'). fold t in Hdst. lia.
    + intros c' Hc' Hev Hne d'. destruct (Hmk c' Hc') as [E1 E2]. rewrite E2 in Hev. case_decide as E; [done|].
      apply Hkeep; [done|done|]. by apply Hset.
    + intros d' [->|Hd']%elem_of_cons; [|apply Hkeep; [done..|by apply Hdone]].
      intros _. destruct (Hmk t Hin) as [E _]. rewrite decide_True in E by done. fold t. lia.
Qed.

Lemma take_event fm fm0 c :
  inv fm -> cell_in n c -> event n fm c = true -> flood_ok n fm0 ->
  (forall c', cell_in n c' -> val n fm0 c' = val n fm c' /\ event n fm0 c' = if decide (c' = c) then false else event n fm c') ->
  processing fm0 c (val n fm c) [] /\ measure fm0 = measure fm - weight_of (val n fm c).
Proof.
  intros [Hf Hwk Hdst Hset] Hc Hev Hf0 Hsame. pose proof (sz_n n fm (fl_sized n fm Hf)) as Hn. split.
  - split; [constructor; [done|..]|split; [by apply Hsame|by intros d ?%not_elem_of_nil]].
    + intros c' Hc'. destruct (Hsame c' Hc') as [-> _]. by apply Hwk.
    + intros c' Hc'. destruct (Hsame c' (Hds c' Hc')) as [-> _]. by apply Hdst.
    + intros c' Hc' He Hne d Hp. destruct (Hsame c' Hc') as [E1 E2]. rewrite E2, decide_False in He by done.
      destruct (Hsame _ (passage_in c' d ltac:(lia) Hc' Hp)) as [-> _]. rewrite E1. apply Hset; auto.
  - unfold measure. rewrite (zsum_ext _ (val n fm0) (val n fm)).
    2: { intros c' Hc'%elem_of_cells; [|lia]. by apply Hsame. }
    rewrite (zsum_update (cells n) (event_weight fm) (event_weight fm0) c).
    + unfold event_weight. destruct (Hsame c Hc) as [-> E]. rewrite E, Hev, decide_True by done. lia.
    + apply NoDup_cells. lia.
    + apply elem_of_cells; [lia|done].
    + intros c' Hne Hc'%elem_of_cells; [|lia]. unfold event_weight. destruct (Hsame c' Hc') as [-> E].
      by rewrite E, decide_False.
Qed.

(** The four conditionals for the cell [c]. *)
Lemma relax_all fm c :
  cell_in n c -> processing fm c (val n fm c) [] ->
  exists f4, (f1 ← Relax c.1 c.2 EAST (w64 (c.1 + 1)) c.2 (val n fm c) m fm;
    f2 ← Relax c.1 c.2 WEST (w64 (c.1 - 1)) c.2 (val n fm c) m f1;
    f3 ← Relax c.1 c.2 NORTH c.1 (w64 (c.2 + 1)) (val n fm c) m f2;
    Relax c.1 c.2 SOUTH c.1 (w64 (c.2 - 1)) (val n fm c) m f3) = Ok f4 /\
    inv f4 /\ measure f4 <= measure fm + 4 * weight_of (val n fm c + 1).
Proof.
  intros Hc Hp0. set (cur := val n fm c) in *.
  assert (0 <= cur <= 255) as Hcur by (apply (fl_vals n fm); [apply Hp0|done]).
  pose proof (sz_n n fm (fl_sized n fm (iv_ok _ _ (proj1 Hp0)))) as Hn.
  assert (forall d, passage m c d -> cell_in n (toward c d)) as Hpin by (intros d; apply passage_in; [lia|done]).
  assert (forall f done d nx ny, processing f c cur done -> (passage m c d -> (nx, ny) = toward c d) ->
    exists f', Relax c.1 c.2 d nx ny cur m f = Ok f' /\ processing f' c cur (d :: done) /\
      measure f' <= measure f + weight_of (cur + 1)) as Hstep.
  { intros f done d nx ny Hp Hnxy. destruct (Relax_ok f c d nx ny cur) as (f' & Hrun & Hf' & Hr); [apply Hp|done..|].
    exists f'. split; [done|]. by apply processing_step. }
  destruct c as [x y]. simpl in Hc, Hstep |- *. destruct Hc as [Hx Hy]. simpl in Hx, Hy.
  destruct (Hstep fm [] EAST (w64 (x + 1)) y Hp0) as (f1 & -> & Hp1 & Hm1).
  { intros _. simpl. by rewrite w64_small by (unfold u64; lia). }
  cbn [mbind res_bind]. destruct (Hstep f1 _ WEST (w64 (x - 1)) y Hp1) as (f2 & -> & Hp2 & Hm2).
  { intros Hp%Hpin. destruct Hp as [Hp _]. simpl in *. by rewrite w64_small by (unfold u64; lia). }
  cbn [mbind res_bind]. destruct (Hstep f2 _ NORTH x (w64 (y + 1)) Hp2) as (f3 & -> & Hp3 & Hm3).
  { intros _. simpl. by rewrite w64_small by (unfold u64; lia). }
  cbn [mbind res_bind]. destruct (Hstep f3 _ SOUTH x (w64 (y - 1)) Hp3) as (f4 & -> & Hp4 & Hm4).
  { intros Hp%Hpin. destruct Hp as [_ Hp]. simpl in *. by rewrite w64_small by (unfold u64; lia). }
  exists f4. split; [done|]. split; [|lia]. destruct Hp4 as ([Hf Hwk Hdst Hset] & _ & Hdone).
  constructor; [done..|]. intros c' Hc' Hev _ d. destruct (decide (c' = (x, y))) as [->|Hne]; [|by apply Hset].
  apply Hdone. destruct d; set_solver.
Qed.

(** The loop ends, with the invariant and without events. *)
Lemma calculate_ok fm : inv fm ->
  exists k fm', (forall fuel, (k <= fuel)%nat -> FloodFillCalculate fuel m fm = Ok fm') /\ inv fm' /\
    forall c, cell_in n c -> event n fm' c = false.
Proof.
  remember (Z.to_nat (measure fm)) as z eqn:Ez. revert fm Ez.
  induction z as [z IH] using lt_wf_ind. intros fm -> Hi.
  destruct (FloodGetEvent_ok n fm (iv_ok _ _ Hi)) as [[Hrun Hnone]|(c & f0 & Hrun & Hc & Hev & Hf0 & Hsame)].
  { exists 1%nat, fm. split; [|done]. intros [|fuel] Hle; [lia|]. cbn [FloodFillCalculate]. rewrite Hrun. done. }
  destruct (take_event fm f0 c Hi Hc Hev Hf0 Hsame) as [Hp Hm0].
  pose proof (proj1 (Hsame c Hc)) as Ev. rewrite <- Ev in Hp, Hm0.
  destruct (relax_all f0 c Hc Hp) as (f4 & Hrun4 & Hi4 & Hm4).
  pose proof (fl_vals n f0 Hf0 c Hc) as Hv. pose proof (weight_step _ Hv) as Hws.
  pose proof (measure_nonneg f4 (iv_ok _ _ Hi4)) as Hnn.
  destruct (IH (Z.to_nat (measure f4)) ltac:(lia) f4 eq_refl Hi4) as (k & fm' & Hfuel & Hi' & Hnone).
  exists (S k), fm'. split; [|done]. intros [|fuel] Hle; [lia|]. cbn [FloodFillCalculate]. rewrite Hrun. cbn [mbind res_bind].
  pose proof (sz_n n fm (fl_sized n fm (iv_ok _ _ Hi))) as Hn.
  rewrite (proj2 (Z.eqb_neq c.1 max64)) by (destruct Hc; unfold max64; lia). simpl andb. cbv iota.
  rewrite (FloodFillGet_in n f0 c Hf0 Hc). cbn [mbind res_bind].
  rewrite <- (Hfuel fuel ltac:(lia)). revert Hrun4. clear.
  set (cur := val n f0 c). clearbody cur. unfold mbind, res_bind.
  destruct (Relax c.1 c.2 EAST _ _ _ _ _) as [f1|]; [|done]. destruct (Relax c.1 c.2 WEST _ _ _ _ _) as [f2|]; [|done].
  destruct (Relax c.1 c.2 NORTH _ _ _ _ _) as [f3|]; [|done]. by intros ->.
Qed.

Lemma walk_in k c : n < 2 ^ 31 -> walk m ds k c -> cell_in n c.
Proof. intros Hn. induction 1; [by apply Hds|by apply passage_in]. Qed.

(** Without events the values are distances. *)
Lemma solved fm : inv fm -> (forall c, cell_in n c -> event n fm c = false) ->
  forall k c, walk m ds k c -> cell_in n c /\ val n fm c <= k.
Proof.
  intros [Hf Hwk Hdst Hset] Hnone k c Hw. pose proof (sz_n n fm (fl_sized n fm Hf)) as Hn.
  split; [apply (walk_in k); [lia|done]|]. induction Hw as [c Hc|k c d Hw IH Hp]; [rewrite (Hdst c Hc); lia|].
  pose proof (walk_in k c ltac:(lia) Hw) as Hc. specialize (Hset c Hc (Hnone c Hc) ltac:(auto) d Hp). lia.
Qed.

End solve.

Fixpoint SetDestinations (l : list cell) (fm : FLOOD_MAP) : res FLOOD_MAP :=
  match l with
  | [] => Ok fm
  | c :: l => fm ← FloodFillSetDestination c.1 c.2 fm; SetDestinations l fm
  end.

Lemma SetDestinations_ok n l (fm : FLOOD_MAP) : (forall c, c ∈ l -> cell_in n c) -> flood_ok n fm ->
  exists fm', SetDestinations l fm = Ok fm' /\ flood_ok n fm' /\
    forall c, cell_in n c -> val n fm' c = (if decide (c ∈ l) then 0 else val n fm c) /\
      event n fm' c = if decide (c ∈ l) then true else event n fm c.
Proof.
  revert fm. induction l as [|c l IH]; intros fm Hl Hf.
  - exists fm. split; [done|]. split; [done|]. intros c _. by rewrite !decide_False by (by apply not_elem_of_nil).
  - destruct (mark_ok n fm c 0 Hf ltac:(apply Hl; set_solver) ltac:(lia)) as (f1 & Hrun & Hf1 & Hmk).
    destruct (IH f1 ltac:(set_solver) Hf1) as (f2 & Hrun2 & Hf2 & Hs). exists f2.
    cbn [SetDestinations]. unfold FloodFillSetDestination. rewrite Hrun. cbn [mbind res_bind]. split; [done|]. split; [done|].
    intros c' Hc'. destruct (Hs c' Hc') as [-> ->], (Hmk c' Hc') as [-> ->].
    destruct (decide (c' ∈ l)) as [Hin|Hin]; [by rewrite !decide_True by set_solver|].
    destruct (decide (c' = c)) as [->|Hne]; [by rewrite !decide_True by set_solver|by rewrite !decide_False by set_solver].
Qed.

(** ** Properties *)

(** C21: On a square map with buffers of the needed sizes, clearing, setting destinations
    and calculating completes without a fault, and every cell reads as the length of a
    shortest walk through the maze from a destination, or 255 when there is no walk of
    fewer steps. *)
Theorem flood_distances n m fm ds :
  map_ok m -> Map.Width m = n -> Map.Height m = n -> sized n fm -> (forall c, c ∈ ds -> cell_in n c) ->
  exists k fm', (forall fuel, (k <= fuel)%nat ->
      (f1 ← FloodFillClear fm; f2 ← SetDestinations ds f1; FloodFillCalculate fuel m f2) = Ok fm') /\
    forall c, cell_in n c -> exists v, FloodFillGet c.1 c.2 fm' = Ok v /\ 0 <= v <= 255 /\
      (v < 255 -> walk m ds v c) /\ forall k, walk m ds k c -> v <= k.
Proof.
  intros Hm Hw Hh Hs Hds. destruct (FloodFillClear_ok n fm Hs) as (f1 & Hrun1 & Hf1 & Hc1).
  destruct (SetDestinations_ok n ds f1 Hds Hf1) as (f2 & Hrun2 & Hf2 & Hc2).
  assert (inv n m ds f2) as Hi.
  { constructor; [done|..].
    - intros c Hc. destruct (Hc2 c Hc) as [-> _]. case_decide; [right; by apply walk_start|left; by apply Hc1].
    - intros c Hc. destruct (Hc2 c (Hds c Hc)) as [-> _]. by rewrite decide_True.
    - intros c Hc He _ d Hp. destruct (Hc2 c Hc) as [Ev Ee]. rewrite Ee in He. case_decide as Hin; [done|].
      destruct (Hc1 c Hc) as [E1 _]. rewrite Ev, E1. pose proof (sz_n n fm Hs) as Hn.
      pose proof (fl_vals n f2 Hf2 _ (passage_in n m Hw Hh c d ltac:(lia) Hc Hp)). lia. }
  destruct (calculate_ok n m ds Hm Hw Hh Hds f2 Hi) as (k & fm' & Hrun & Hi' & Hnone).
  exists k, fm'. split; [intros fuel Hle; rewrite Hrun1; cbn [mbind res_bind]; rewrite Hrun2; by apply Hrun|].
  intros c Hc. pose proof (fl_vals n fm' (iv_ok _ _ _ _ _ Hi') c Hc) as Hv.
  exists (val n fm' c). split; [apply FloodFillGet_in; [apply Hi'|done]|]. split; [done|]. split.
  - intros Hlt. by destruct (iv_walk _ _ _ _ _ Hi' c Hc); [lia|].
  - intros j Hj. by apply (solved n m ds Hw Hh Hds fm' Hi' Hnone j c).
Qed.

(** A maze of three by three cells, two walls, one destination. *)
Definition maze3 : MAP := mkMap [3; 0] 0 1 3 3.
Definition flood3 : FLOOD_MAP := FloodFillInit 3 3 (replicate 9 7) [5].

Lemma maze3_ok : map_ok maze3.
Proof. constructor; simpl; unfold zlen; simpl; try lia. repeat constructor; lia. Defined.

Lemma flood3_sized : sized 3 flood3.
Proof. constructor; simpl; try done. repeat constructor; lia. Defined.

Example flood3_result :
  (f1 ← FloodFillClear flood3; f2 ← SetDestinations [(0, 0)] f1; FloodFillCalculate 30 maze3 f2)
  = Ok (mkFlood 3 3 [0; 3; 4; 1; 2; 3; 2; 3; 4] [0]).
Proof. reflexivity. Qed.

Lemma flood_distances_witness :
  exists k fm', (forall fuel, (k <= fuel)%nat ->
      (f1 ← FloodFillClear flood3; f2 ← SetDestinations [(0, 0)] f1; FloodFillCalculate fuel maze3 f2) = Ok fm') /\
    forall c, cell_in 3 c -> exists v, FloodFillGet c.1 c.2 fm' = Ok v /\ 0 <= v <= 255 /\
      (v < 255 -> walk maze3 [(0, 0)] v c) /\ forall k, walk maze3 [(0, 0)] k c -> v <= k.
Proof.
  apply (flood_distances 3 maze3 flood3 [(0, 0)] maze3_ok eq_refl eq_refl flood3_sized).
  intros c ->%list_elem_of_singleton. unfold cell_in. simpl. lia.
Defined.

(** An empty maze two cells wide and three high. *)
Definition maze23 : MAP := mkMap [0; 0] 0 1 3 2.

(** C37: FloodFillGetX takes the remainder by the height, not the width.  On a map that
    is not square an event is then processed for another cell: on an empty maze two cells
    wide and three high, whose wall map is well-formed, the loop never ends, whatever the fuel. *)
Theorem flood_rectangular fuel :
  map_ok maze23 /\
  (f1 ← FloodFillClear (FloodFillInit 2 3 (replicate 6 0) [0]); f2 ← SetDestinations [(0, 0)] f1;
    FloodFillCalculate fuel maze23 f2) = Err FFuel.
Proof.
  split; [constructor; simpl; unfold zlen; simpl; try lia; repeat constructor; lia|].
  assert (forall k, FloodFillCalculate k maze23 (mkFlood 2 3 [0; 1; 1; 2; 2; 255] [24]) = Err FFuel) as Hloop.
  { intros k. induction k as [|k IH]; [done|]. etransitivity; [|exact IH]. reflexivity. }
  do 4 (destruct fuel as [|fuel]; [reflexivity|]).
  etransitivity; [|apply (Hloop fuel)]. reflexivity.
Qed.
