(* ===== verification/FloodFillTest.v ===== *)
(** * The test of the flood fill (umouse/floodfilltest.c)

    A program without input that prints one picture; it is computed here. *)

From stdpp Require Import strings pretty.
From S2P Require Import Prelude Bitmap Printing Map FloodFill.

#[local] Open Scope Z_scope.

Definition WIDTH : Z := 8.
Definition HEIGHT : Z := 8.

(** The row of cells; the loop leaves [x] at the width. *)
Definition PrintCells (map : MAP) (flood : FLOOD_MAP) (y : Z) : res text :=
  l ← each (Z.to_nat (Map.Width map)) 0 1 (fun x =>
        wall ← MapGetWall x y WEST map; v ← FloodFillGet x y flood; Ok [if (wall : bool) then "|" else " "; hex3 v]);
  wall ← MapGetWall (Map.Width map) y WEST map;
  Ok (l ++ [if (wall : bool) then "|" else " "; newline]).

Definition PrintPins (map : MAP) (y : Z) : res text :=
  l ← each (Z.to_nat (Map.Width map)) 0 1 (fun x => wall ← MapGetWall x y SOUTH map; Ok ["+"; if (wall : bool) then "---" else "   "]);
  Ok (l ++ ["+"; newline]).

Definition PrintMap (map : MAP) (flood : FLOOD_MAP) : res text :=
  each (S (Z.to_nat (Map.Height map))) (Map.Height map) (-1) (fun y =>
    cells ← (if y =? Map.Height map then Ok [] else PrintCells map flood y);
    south ← PrintPins map y;
    Ok (cells ++ south)).

(** The loops over [y] and over [x], [n] rounds left at most. *)
Fixpoint MakeColumn (n : nat) (x y vSkip : Z) (dir : DIRECTION) (map : MAP) : res MAP :=
  match n with
  | O => Ok map
  | S n => if y <? Map.Height map then map ← MapSetWall x y dir true map; MakeColumn n x (w64 (y + vSkip)) vSkip dir map else Ok map
  end.

Fixpoint MakeColumns (n : nat) (x hSkip vSkip : Z) (dir : DIRECTION) (map : MAP) : res MAP :=
  match n with
  | O => Ok map
  | S n =>
      if x <? Map.Width map then
        map ← MakeColumn (Z.to_nat (Map.Height map)) x 0 vSkip dir map;
        MakeColumns n (w64 (x + hSkip)) hSkip vSkip dir map
      else Ok map
  end.

Definition MakeLines (hSkip vSkip : Z) (map : MAP) (dir : DIRECTION) : res MAP :=
  MakeColumns (Z.to_nat (Map.Width map)) 0 hSkip vSkip dir map.

Definition zeros (n : Z) : list Z := replicate (Z.to_nat n) 0.

(** The two maps before the flood. *)
Definition SetUp : res (MAP * FLOOD_MAP) :=
  '(_, map) ← MapInit (mkMap [] 0 0 0 0) (zeros (MapSizeNeeded WIDTH HEIGHT)) (MapSizeNeeded WIDTH HEIGHT) WIDTH HEIGHT;
  map ← MakeLines 2 3 map EAST;
  map ← MakeLines 2 2 map SOUTH;
  flood ← FloodFillClear (FloodFillInit WIDTH HEIGHT (zeros (FLOOD_MAP_SIZE WIDTH HEIGHT)) (zeros (FLOOD_EVENT_SIZE WIDTH HEIGHT)));
  flood ← FloodFillSetDestination (WIDTH / 2) (HEIGHT / 2) flood;
  flood ← FloodFillSetDestination (WIDTH / 2 - 1) (HEIGHT / 2) flood;
  flood ← FloodFillSetDestination (WIDTH / 2) (HEIGHT / 2 - 1) flood;
  flood ← FloodFillSetDestination (WIDTH / 2 - 1) (HEIGHT / 2 - 1) flood;
  Ok (map, flood).

Definition main (fuel : nat) : res text :=
  '(map, flood) ← SetUp;
  events ← BitmapPrint (EventMap flood) (WIDTH * HEIGHT);
  flood ← FloodFillCalculate fuel map flood;
  p ← PrintMap map flood;
  Ok (events ++ p).

(** ** What it prints *)

Definition cells : list cell := x ← seqZ 0 8; (fun y => (x, y)) <$> seqZ 0 8.

Definition open (m : MAP) (c : cell) (dir : DIRECTION) : bool := match MapGetWall c.1 c.2 dir m with Ok wall => negb wall | Err _ => false end.
Definition number (fl : FLOOD_MAP) (c : cell) : Z := match FloodFillGet c.1 c.2 fl with Ok v => v | Err _ => 256 end.

(** The numbers are distances: zero just in the middle, no passage over more than one step, and
    from every other cell a passage to a smaller number. *)
Definition distances (m : MAP) (fl : FLOOD_MAP) : bool :=
  forallb (fun c : cell =>
    let v := number fl c in
    let near := toward c <$> filter (fun dir => open m c dir = true) [NORTH; EAST; SOUTH; WEST] in
    Bool.eqb (v =? 0) ((3 <=? c.1) && (c.1 <=? 4) && (3 <=? c.2) && (c.2 <=? 4)) &&
    forallb (fun d => number fl d <=? v + 1) near &&
    ((v =? 0) || existsb (fun d => number fl d =? v - 1) near)) cells.

Definition flooded : res bool := '(map, flood) ← SetUp; fl ← FloodFillCalculate 200 map flood; Ok (distances map fl).

(** The program ends, and the numbers it prints are the distances from the middle of its maze. *)
Theorem flood_test_prints : (exists out, main 200 = Ok out) /\ flooded = Ok true.
Proof. split; [eexists; vm_compute; reflexivity|vm_compute; reflexivity]. Qed.
