(* ===== verification/ScanLog.v ===== *)
(** * The log of scanned cells (umouse/positionlog.h, umouse/positionlog.c) *)

From S2P Require Import Prelude Bitmap.

Record SCAN_LOG := mkScan { Width : Z; Height : Z; Flags : list Z }.

Definition SCAN_LOG_SIZE (width height : Z) : Z := BitmapSize (w64 (width * height)).
Definition XY_TO_INDEX (x y : Z) (posLog : SCAN_LOG) : Z := w64 (y * Width posLog + x).

Definition ScanLogInit (width height : Z) (buff : list Z) : res SCAN_LOG :=
  buff ← BitmapClear buff (SCAN_LOG_SIZE width height);
  Ok (mkScan width height buff).

Definition ScanLogSet (x y : Z) (flagState : bool) (mapLog : SCAN_LOG) : res SCAN_LOG :=
  flags ← (if flagState then BitmapOn (Flags mapLog) (XY_TO_INDEX x y mapLog)
           else BitmapOff (Flags mapLog) (XY_TO_INDEX x y mapLog));
  Ok (mkScan (Width mapLog) (Height mapLog) flags).

Definition ScanLogGet (x y : Z) (mapLog : SCAN_LOG) : res bool :=
  if (x >=? Width mapLog) || (y >=? Height mapLog) then Ok false
  else BitmapGet (Flags mapLog) (XY_TO_INDEX x y mapLog).

Record scan_ok (s : SCAN_LOG) : Prop := {
  sc_width : 1 <= Width s < 2 ^ 31;
  sc_height : 1 <= Height s < 2 ^ 31;
  sc_fits : Width s * Height s <= 32 * zlen (Flags s);
  sc_words : words_ok (Flags s)
}.

Definition in_log (s : SCAN_LOG) (x y : Z) : Prop := 0 <= x < Width s /\ 0 <= y < Height s.

#[export] Instance in_log_dec s x y : Decision (in_log s x y).
Proof. unfold in_log. apply _. Defined.

(** The cell is logged as scanned. *)
Definition scanned (s : SCAN_LOG) (x y : Z) : bool :=
  if decide (in_log s x y) then bit (Flags s) (y * Width s + x) else false.

Lemma log_index s x y : scan_ok s -> in_log s x y ->
  XY_TO_INDEX x y s = y * Width s + x /\ bits_in (Flags s) (y * Width s + x).
Proof.
  intros [Hw Hh Hf _] [Hx Hy]. assert (0 <= y * Width s + x < Width s * Height s) by nia. split.
  - apply w64_small. unfold u64. nia.
  - unfold bits_in, BitmapWordSize. nia.
Qed.

Lemma ScanLogGet_ok s x y : scan_ok s -> 0 <= x -> 0 <= y -> ScanLogGet x y s = Ok (scanned s x y).
Proof.
  intros Hs Hx Hy. unfold ScanLogGet, scanned. rewrite !Z.geb_leb. destruct (decide (in_log s x y)) as [Hin|Hin].
  - destruct (log_index s x y Hs Hin) as [-> Hb]. destruct Hin as [Hx' Hy'].
    destruct (Z.leb_spec (Width s) x); [lia|]. destruct (Z.leb_spec (Height s) y); [lia|]. by apply BitmapGet_ok.
  - unfold in_log in Hin. destruct (Z.leb_spec (Width s) x); [done|]. destruct (Z.leb_spec (Height s) y); [done|lia].
Qed.

(** A scan recorded for a cell of the map reads back, the other cells keep theirs,
    and cells outside the map are never scanned. *)
Theorem scan_set_get s x y state : scan_ok s -> in_log s x y ->
  exists s', ScanLogSet x y state s = Ok s' /\ scan_ok s' /\
    forall x' y', 0 <= x' -> 0 <= y' -> exists b, ScanLogGet x' y' s = Ok b /\ (~ in_log s x' y' -> b = false) /\
      ScanLogGet x' y' s' = Ok (if decide ((x', y') = (x, y)) then state else b).
Proof.
  intros Hs Hin. destruct (log_index s x y Hs Hin) as [Ei Hb]. pose proof (sc_words s Hs) as Hw.
  assert (exists f, (if state then BitmapOn (Flags s) (XY_TO_INDEX x y s) else BitmapOff (Flags s) (XY_TO_INDEX x y s)) = Ok f /\
    zlen f = zlen (Flags s) /\ words_ok f /\
    forall j, 0 <= j -> bit f j = if y * Width s + x =? j then state else bit (Flags s) j) as (f & Hrun & Hlen & Hwf & Hbit).
  { rewrite Ei. destruct state; [by apply BitmapOn_ok|by apply BitmapOff_ok]. }
  exists (mkScan (Width s) (Height s) f). unfold ScanLogSet. rewrite Hrun. split; [done|].
  assert (scan_ok (mkScan (Width s) (Height s) f)) as Hs' by (destruct Hs; constructor; simpl; rewrite ?Hlen; done).
  split; [done|]. intros x' y' Hx' Hy'. exists (scanned s x' y'). split; [by apply ScanLogGet_ok|].
  split; [intros Hn; unfold scanned; by rewrite decide_False|]. rewrite ScanLogGet_ok by done. f_equal. unfold scanned.
  change (decide (in_log (mkScan (Width s) (Height s) f) x' y')) with (decide (in_log s x' y')). simpl.
  destruct (decide (in_log s x' y')) as [Hin'|Hin'].
  - destruct (log_index s x' y' Hs Hin') as [_ Hb']. rewrite Hbit by apply Hb'.
    destruct (Z.eqb_spec (y * Width s + x) (y' * Width s + x')) as [E|E].
    + rewrite decide_True; [done|]. destruct Hin as [Hx Hy], Hin' as [Hxl Hyl].
      assert (y = y') as -> by nia. f_equal. lia.
    + rewrite decide_False; [done|]. by intros [= -> ->].
  - rewrite decide_False; [done|]. by intros [= -> ->].
Qed.

(** ScanLogInit passes the number of words of the buffer where BitmapClear wants the
    number of bits, so that only the first words are cleared: a log of eight by eight
    cells keeps what its buffer held for half of the cells. *)
Theorem scan_init_partial :
  exists s, ScanLogInit 8 8 (replicate (Z.to_nat (SCAN_LOG_SIZE 8 8)) 255) = Ok s /\ scan_ok s /\
    ScanLogGet 0 0 s = Ok false /\ ScanLogGet 0 4 s = Ok true.
Proof.
  eexists. split; [reflexivity|]. split; [|split; reflexivity].
  constructor; simpl; unfold zlen; simpl; try lia. repeat constructor; lia.
Qed.

(** A log of four by five cells with the cell (1, 1) scanned. *)
Definition log45 : SCAN_LOG := mkScan 4 5 [32].

Lemma log45_ok : scan_ok log45.
Proof. constructor; simpl; unfold zlen; simpl; try lia. repeat constructor; lia. Defined.

Lemma scan_set_get_witness :
  exists s', ScanLogSet 2 3 true log45 = Ok s' /\ scan_ok s' /\
    forall x' y', 0 <= x' -> 0 <= y' -> exists b, ScanLogGet x' y' log45 = Ok b /\ (~ in_log log45 x' y' -> b = false) /\
      ScanLogGet x' y' s' = Ok (if decide ((x', y') = (2, 3)) then true else b).
Proof. apply (scan_set_get log45 2 3 true log45_ok). unfold in_log. simpl. lia. Defined.
