(* ===== verification/SubMove.v ===== *)
(** * Choosing the next move of the mouse (umouse/submove.h, umouse/submove.c)

    Positions are in half cells: odd coordinates are the middle of a cell, an even one is
    a border between two cells. *)

From S2P Require Import Prelude Bitmap Map FloodFill ScanLog.

Inductive SUB_MOVE :=
| SUB_MOVE_DONE | SUB_MOVE_START | SUB_MOVE_FORWARD | SUB_MOVE_STOP
| SUB_MOVE_TURN_RIGHT | SUB_MOVE_TURN_LEFT | SUB_MOVE_TURN_AROUND
| SUB_MOVE_INTEGRATE_RIGHT | SUB_MOVE_INTEGRATE_LEFT.

#[export] Instance SUB_MOVE_eq_dec : EqDecision SUB_MOVE.
Proof. solve_decision. Defined.

Definition move_value (m : SUB_MOVE) : nat :=
  match m with
  | SUB_MOVE_DONE => 0 | SUB_MOVE_START => 1 | SUB_MOVE_FORWARD => 2 | SUB_MOVE_STOP => 3
  | SUB_MOVE_TURN_RIGHT => 4 | SUB_MOVE_TURN_LEFT => 5 | SUB_MOVE_TURN_AROUND => 6
  | SUB_MOVE_INTEGRATE_RIGHT => 7 | SUB_MOVE_INTEGRATE_LEFT => 8
  end.

Definition SubMoveMovingEndState : list bool := [false; true; true; false; false; false; false; true; true].
Definition SubMovesRotates : list bool := [false; false; false; false; true; true; true; true; true].
Definition table (t : list bool) (m : SUB_MOVE) : bool := default false (t !! move_value m).

(** ** Applying a move *)

Definition SubMoveTranslate (x y : Z) (dir : DIRECTION) (dist : Z) : Z * Z :=
  match dir with
  | NORTH => (x, w64 (y + dist))
  | SOUTH => (x, w64 (y - dist))
  | EAST => (w64 (x + dist), y)
  | WEST => (w64 (x - dist), y)
  end.

Definition SubMoveRotate (dir : DIRECTION) (angle : ANGLE) : DIRECTION := TURN dir angle.

Definition SubMoveApply (x y : Z) (dir : DIRECTION) (moving : bool) (move : SUB_MOVE) : Z * Z * DIRECTION * bool :=
  let moving := table SubMoveMovingEndState move in
  match move with
  | SUB_MOVE_DONE => (x, y, dir, moving)
  | SUB_MOVE_START | SUB_MOVE_STOP | SUB_MOVE_FORWARD =>
      let '(x, y) := SubMoveTranslate x y dir 1 in (x, y, dir, moving)
  | SUB_MOVE_TURN_RIGHT => (x, y, SubMoveRotate dir RIGHT, moving)
  | SUB_MOVE_TURN_LEFT => (x, y, SubMoveRotate dir LEFT, moving)
  | SUB_MOVE_TURN_AROUND => (x, y, SubMoveRotate dir BACK, moving)
  | SUB_MOVE_INTEGRATE_RIGHT =>
      let '(x, y) := SubMoveTranslate x y dir 1 in
      let dir := SubMoveRotate dir RIGHT in
      let '(x, y) := SubMoveTranslate x y dir 1 in (x, y, dir, moving)
  | SUB_MOVE_INTEGRATE_LEFT =>
      let '(x, y) := SubMoveTranslate x y dir 1 in
      let dir := SubMoveRotate dir LEFT in
      let '(x, y) := SubMoveTranslate x y dir 1 in (x, y, dir, moving)
  end.

Definition IS_CENTERED (x y : Z) : bool := (x mod 2 =? 1) && (y mod 2 =? 1).
Definition IS_EDGED (x y : Z) : bool := (x mod 2 =? 0) || (y mod 2 =? 0).

Definition GetCell (x y : Z) (dir : DIRECTION) : Z * Z :=
  if IS_CENTERED x y then (x / 2, y / 2)
  else let '(x, y) := SubMoveTranslate x y dir 1 in (x / 2, y / 2).

(** ** The tests *)

Definition MoveStartCentered (x y : Z) (move : SUB_MOVE) : bool :=
  match move with
  | SUB_MOVE_START | SUB_MOVE_TURN_RIGHT | SUB_MOVE_TURN_LEFT | SUB_MOVE_TURN_AROUND => IS_CENTERED x y
  | _ => true
  end.

Definition MoveStartEdge (x y : Z) (move : SUB_MOVE) : bool :=
  match move with
  | SUB_MOVE_STOP | SUB_MOVE_INTEGRATE_RIGHT | SUB_MOVE_INTEGRATE_LEFT => IS_EDGED x y
  | _ => true
  end.

Definition MoveStartMoving (moving : bool) (move : SUB_MOVE) : bool :=
  match move with
  | SUB_MOVE_START | SUB_MOVE_TURN_RIGHT | SUB_MOVE_TURN_LEFT | SUB_MOVE_TURN_AROUND => negb moving
  | SUB_MOVE_STOP | SUB_MOVE_FORWARD | SUB_MOVE_INTEGRATE_RIGHT | SUB_MOVE_INTEGRATE_LEFT => moving
  | SUB_MOVE_DONE => true
  end.

Definition MoveStartStraightAway (startX startY : Z) (dir : DIRECTION) (move : SUB_MOVE) (flood : FLOOD_MAP) : res bool :=
  match move with
  | SUB_MOVE_FORWARD =>
      let '(x, y) := GetCell startX startY dir in
      curFill ← FloodFillGet x y flood;
      let '(x, y) := SubMoveTranslate x y dir 1 in
      nextFill ← FloodFillGet x y flood;
      Ok (nextFill <? curFill)
  | _ => Ok true
  end.

Definition MoveEndOnWall (x y : Z) (map : MAP) (move : SUB_MOVE) : res bool :=
  match move with
  | SUB_MOVE_START | SUB_MOVE_STOP | SUB_MOVE_FORWARD | SUB_MOVE_INTEGRATE_RIGHT | SUB_MOVE_INTEGRATE_LEFT =>
      if (x mod 2 =? 1) && (y mod 2 =? 1) then Ok true
      else if x mod 2 =? 1 then wall ← MapGetWall (x / 2) (y / 2) SOUTH map; Ok (negb wall)
      else if y mod 2 =? 1 then wall ← MapGetWall (x / 2) (y / 2) WEST map; Ok (negb wall)
      else Ok false
  | _ => Ok true
  end.

Definition MoveEndOnPeg (x y : Z) : bool := if (x mod 2 =? 0) && (y mod 2 =? 0) then false else true.

Definition MoveEndInScanned (x y : Z) (dir : DIRECTION) (scan : SCAN_LOG) : res bool :=
  let '(x, y) := GetCell x y dir in ScanLogGet x y scan.

Definition MoveNextScanned (x y : Z) (dir : DIRECTION) (move : SUB_MOVE) (scan : SCAN_LOG) : res bool :=
  match move with
  | SUB_MOVE_FORWARD | SUB_MOVE_INTEGRATE_RIGHT | SUB_MOVE_INTEGRATE_LEFT =>
      let '(x, y) := SubMoveTranslate x y dir 1 in
      let '(x, y) := GetCell x y dir in
      ScanLogGet x y scan
  | _ => Ok true
  end.

Definition MoveNextLessFloodFill (x y : Z) (dir : DIRECTION) (move : SUB_MOVE) (flood : FLOOD_MAP) : res bool :=
  curFill ← FloodFillGet (x / 2) (y / 2) flood;
  let '(x, y) := SubMoveTranslate x y dir 2 in
  facingFill ← FloodFillGet (x / 2) (y / 2) flood;
  match move with
  | SUB_MOVE_TURN_RIGHT | SUB_MOVE_TURN_LEFT | SUB_MOVE_TURN_AROUND => Ok (facingFill <? curFill)
  | _ => Ok true
  end.

Definition MoveEndFacingWall (x y : Z) (dir : DIRECTION) (map : MAP) (move : SUB_MOVE) : res bool :=
  match move with
  | SUB_MOVE_FORWARD | SUB_MOVE_TURN_RIGHT | SUB_MOVE_TURN_LEFT | SUB_MOVE_TURN_AROUND
  | SUB_MOVE_INTEGRATE_RIGHT | SUB_MOVE_INTEGRATE_LEFT =>
      if negb (IS_CENTERED x y) then Ok true
      else wall ← MapGetWall (x / 2) (y / 2) dir map; Ok (negb wall)
  | _ => Ok true
  end.

(** [if( ! test ) return false;] and the rest. *)
Definition require (test : res bool) (rest : res bool) : res bool := b ← test; if (b : bool) then rest else Ok false.

Definition SubMoveLegal (x y : Z) (dir : DIRECTION) (moving : bool) (move : SUB_MOVE)
    (map : MAP) (scan : SCAN_LOG) (flood : FLOOD_MAP) : res bool :=
  require (Ok (MoveStartCentered x y move)) (
  require (Ok (MoveStartEdge x y move)) (
  require (Ok (MoveStartMoving moving move)) (
  require (MoveStartStraightAway x y dir move flood) (
  let '(x, y, dir, moving) := SubMoveApply x y dir moving move in
  require (MoveEndOnWall x y map move) (
  require (Ok (MoveEndOnPeg x y)) (
  require (MoveEndInScanned x y dir scan) (
  require (MoveEndFacingWall x y dir map move) (
  require (MoveNextScanned x y dir move scan) (
  require (MoveNextLessFloodFill x y dir move flood) (
  Ok true)))))))))).

(** ** The choice *)

(** What a move is judged by: the flood value of the cell it ends in and of the cell it
    then faces, whether it faces a wall, whether it rotates. *)
Record judged := mkJudged { j_flood : Z; j_facing : Z; j_wall : bool; j_rotated : bool }.

(** The cell the mouse is in, along one axis. *)
Definition Normalize (z : Z) (dir forth back : DIRECTION) : res Z :=
  if z mod 2 =? 1 then Ok (z / 2)
  else if decide (dir = forth) then Ok (z / 2)
  else if decide (dir = back) then Ok (w64 (z / 2 - 1))
  else Err FPanic.

Definition Judge (x y : Z) (dir : DIRECTION) (moving : bool) (cur : SUB_MOVE) (flood : FLOOD_MAP) (map : MAP) : res judged :=
  let '(x, y, dir, moving) := SubMoveApply x y dir moving cur in
  tempX ← Normalize x dir EAST WEST;
  tempY ← Normalize y dir NORTH SOUTH;
  curFlood ← FloodFillGet tempX tempY flood;
  curFacingWall ← MapGetWall tempX tempY dir map;
  let '(tempX, tempY) := SubMoveTranslate tempX tempY dir 1 in
  curFacingFlood ← FloodFillGet tempX tempY flood;
  Ok (mkJudged curFlood curFacingFlood curFacingWall (table SubMovesRotates cur)).

(** The comparisons at the end of the loop body: [true] is [comparisonDone]. *)
Definition Improves (cur best : judged) : bool :=
  if j_flood cur >? j_flood best then false
  else if j_flood cur <? j_flood best then true
  else if j_facing cur >? j_facing best then false
  else if j_facing cur <? j_facing best then true
  else if j_wall cur && negb (j_wall best) then false
  else if negb (j_wall cur) && j_wall best then true
  else if negb (j_rotated cur) && j_rotated best then false
  else if negb (j_rotated best) && j_rotated cur then true
  else false.

Fixpoint FindLoop (moves : list SUB_MOVE) (x y : Z) (dir : DIRECTION) (moving : bool)
    (flood : FLOOD_MAP) (map : MAP) (scan : SCAN_LOG) (best : SUB_MOVE) (bestJ : judged) : res SUB_MOVE :=
  match moves with
  | [] => Ok best
  | cur :: moves =>
      legal ← SubMoveLegal x y dir moving cur map scan flood;
      if negb legal then FindLoop moves x y dir moving flood map scan best bestJ
      else
        curJ ← Judge x y dir moving cur flood map;
        if Improves curJ bestJ then FindLoop moves x y dir moving flood map scan cur curJ
        else FindLoop moves x y dir moving flood map scan best bestJ
  end.

(** [for( cur = SUB_MOVE_START; cur <= SUB_MOVE_INTEGRATE_LEFT; cur++ )]. *)
Definition all_moves : list SUB_MOVE :=
  [SUB_MOVE_START; SUB_MOVE_FORWARD; SUB_MOVE_STOP; SUB_MOVE_TURN_RIGHT; SUB_MOVE_TURN_LEFT; SUB_MOVE_TURN_AROUND;
   SUB_MOVE_INTEGRATE_RIGHT; SUB_MOVE_INTEGRATE_LEFT].

Definition done_judged : judged := mkJudged 255 255 true true.

Definition SubMoveFindBest (startX startY : Z) (startDir : DIRECTION) (startMoving : bool)
    (flood : FLOOD_MAP) (map : MAP) (scan : SCAN_LOG) : res SUB_MOVE :=
  FindLoop all_moves startX startY startDir startMoving flood map scan SUB_MOVE_DONE done_judged.

(** ** Lemmas *)

Lemma w64_mod2 z : w64 z mod 2 = z mod 2.
Proof. unfold wrap. apply Z.mod_mod_divide. by exists (2 ^ 63). Qed.

Lemma odd_or_even z : z mod 2 = 0 \/ z mod 2 = 1.
Proof. pose proof (Z.mod_pos_bound z 2). lia. Qed.

Lemma w64_nonneg z : 0 <= w64 z.
Proof. apply w64_u64. Qed.

Lemma half_nonneg z : 0 <= z -> 0 <= z / 2.
Proof. intros. by apply Z.div_pos. Qed.

#[local] Hint Resolve w64_nonneg half_nonneg : core.

Lemma Translate_nonneg x y d k : 0 <= x -> 0 <= y -> 0 <= (SubMoveTranslate x y d k).1 /\ 0 <= (SubMoveTranslate x y d k).2.
Proof. intros Hx Hy. destruct d; simpl; auto. Qed.

Lemma GetCell_nonneg x y d : 0 <= x -> 0 <= y -> 0 <= (GetCell x y d).1 /\ 0 <= (GetCell x y d).2.
Proof.
  intros Hx Hy. unfold GetCell. destruct (IS_CENTERED x y); [simpl; auto|].
  destruct (Translate_nonneg x y d 1 Hx Hy) as [H1 H2]. destruct (SubMoveTranslate x y d 1). simpl in *. auto.
Qed.

Lemma Apply_nonneg x y d mv k : 0 <= x -> 0 <= y ->
  0 <= (SubMoveApply x y d mv k).1.1.1 /\ 0 <= (SubMoveApply x y d mv k).1.1.2.
Proof.
  intros Hx Hy. destruct (Translate_nonneg x y d 1 Hx Hy) as [H1 H2].
  destruct k; simpl; auto; destruct (SubMoveTranslate x y d 1) as [x' y']; simpl in *; auto.
  - destruct (Translate_nonneg x' y' (SubMoveRotate d RIGHT) 1 H1 H2).
    by destruct (SubMoveTranslate x' y' (SubMoveRotate d RIGHT) 1).
  - destruct (Translate_nonneg x' y' (SubMoveRotate d LEFT) 1 H1 H2).
    by destruct (SubMoveTranslate x' y' (SubMoveRotate d LEFT) 1).
Qed.

(** The mouse is in the middle of a cell or on a border across its direction. *)
Definition placed (x y : Z) (d : DIRECTION) : Prop :=
  0 <= x /\ 0 <= y /\ match d with EAST | WEST => y mod 2 = 1 | NORTH | SOUTH => x mod 2 = 1 end.

(** No wall where it stands. *)
Definition clear (m : MAP) (x y : Z) : Prop :=
  (x mod 2 = 1 /\ y mod 2 = 1) \/
  (x mod 2 = 1 /\ y mod 2 = 0 /\ has_wall m (HWall (x / 2) (y / 2)) = false) \/
  (x mod 2 = 0 /\ y mod 2 = 1 /\ has_wall m (VWall (x / 2) (y / 2)) = false).

Lemma centered_spec x y : IS_CENTERED x y = true <-> x mod 2 = 1 /\ y mod 2 = 1.
Proof. unfold IS_CENTERED. rewrite andb_true_iff, !Z.eqb_eq. done. Qed.

Lemma edged_spec x y : IS_EDGED x y = true <-> x mod 2 = 0 \/ y mod 2 = 0.
Proof. unfold IS_EDGED. rewrite orb_true_iff, !Z.eqb_eq. done. Qed.

Lemma mod2_succ z : (z + 1) mod 2 = 1 - z mod 2.
Proof. pose proof (odd_or_even z). Z.to_euclidean_division_equations. lia. Qed.
Lemma mod2_pred z : (z - 1) mod 2 = 1 - z mod 2.
Proof. pose proof (odd_or_even z). Z.to_euclidean_division_equations. lia. Qed.

(** The middle of a cell, one half cell further than a border. *)
Lemma Apply_placed x y d mv k : placed x y d -> MoveStartCentered x y k = true -> MoveStartEdge x y k = true ->
  let '(x', y', d', _) := SubMoveApply x y d mv k in placed x' y' d'.
Proof.
  intros (Hx & Hy & Hd) Hc He. pose proof (odd_or_even x). pose proof (odd_or_even y).
  destruct k; simpl in Hc, He |- *; rewrite ?centered_spec in Hc; rewrite ?edged_spec in He;
    unfold placed; destruct d; simpl; rewrite ?w64_mod2, ?mod2_succ, ?mod2_pred; auto 10 with lia.
Qed.

Lemma all_moves_spec c : c ∈ all_moves <-> c <> SUB_MOVE_DONE.
Proof. unfold all_moves. rewrite !elem_of_cons, elem_of_nil. destruct c; intuition discriminate. Qed.

Section mouse.
Context (n : Z) (m : MAP) (fm : FLOOD_MAP) (s : SCAN_LOG).
Context (Hm : map_ok m) (Hf : flood_ok n fm) (Hs : scan_ok s).

Definition total {A} (r : res A) : Prop := exists a, r = Ok a.

Lemma require_total t r : total t -> total r -> total (require t r).
Proof. intros [b ->] [c ->]. unfold require. simpl. destruct b; by eexists. Qed.

Lemma require_true t r : require t r = Ok true <-> t = Ok true /\ r = Ok true.
Proof. unfold require. destruct t as [[]|]; simpl; naive_solver. Qed.

Lemma FloodFillGet_total x y : 0 <= x -> 0 <= y -> exists v, FloodFillGet x y fm = Ok v /\ 0 <= v <= 255.
Proof.
  intros Hx Hy. destruct (decide (x < n /\ y < n)) as [Hin|Hin].
  - exists (val n fm (x, y)). split; [apply (FloodFillGet_in n fm (x, y)); [done|]|apply (fl_vals n fm Hf)]; split; simpl; lia.
  - exists 255. split; [|lia]. apply (FloodFillGet_out n); [apply Hf|done..|]. unfold cell_in. simpl. lia.
Qed.

Lemma MapGetWall_total x y d : 0 <= x -> 0 <= y -> total (MapGetWall x y d m).
Proof. intros Hx Hy. rewrite MapGetWall_ok by done. by eexists. Qed.

Lemma StraightAway_total x y d k : 0 <= x -> 0 <= y -> total (MoveStartStraightAway x y d k fm).
Proof.
  intros Hx Hy. destruct k; simpl; try by eexists.
  destruct (GetCell_nonneg x y d Hx Hy) as [H1 H2]. destruct (GetCell x y d) as [x1 y1]. simpl in *.
  destruct (FloodFillGet_total x1 y1 H1 H2) as (v & -> & _). simpl.
  destruct (Translate_nonneg x1 y1 d 1 H1 H2) as [H3 H4]. destruct (SubMoveTranslate x1 y1 d 1) as [x2 y2]. simpl in *.
  destruct (FloodFillGet_total x2 y2 H3 H4) as (v' & -> & _). by eexists.
Qed.

Lemma OnWall_total x y k : 0 <= x -> 0 <= y -> total (MoveEndOnWall x y m k).
Proof.
  intros Hx Hy. unfold MoveEndOnWall. rewrite !MapGetWall_ok by auto.
  destruct k; simpl; try (by eexists); repeat case_match; by eexists.
Qed.

Lemma Scanned_total x y d : 0 <= x -> 0 <= y -> total (MoveEndInScanned x y d s).
Proof.
  intros Hx Hy. unfold MoveEndInScanned. destruct (GetCell_nonneg x y d Hx Hy) as [H1 H2].
  destruct (GetCell x y d). simpl in *. rewrite ScanLogGet_ok by done. by eexists.
Qed.

Lemma FacingWall_total x y d k : 0 <= x -> 0 <= y -> total (MoveEndFacingWall x y d m k).
Proof.
  intros Hx Hy. unfold MoveEndFacingWall. rewrite MapGetWall_ok by auto.
  destruct k; simpl; try (by eexists); repeat case_match; by eexists.
Qed.

Lemma NextScanned_total x y d k : 0 <= x -> 0 <= y -> total (MoveNextScanned x y d k s).
Proof.
  intros Hx Hy. unfold MoveNextScanned. destruct (Translate_nonneg x y d 1 Hx Hy) as [H1 H2].
  destruct (SubMoveTranslate x y d 1) as [x1 y1]. simpl in *.
  pose proof (Scanned_total x1 y1 d H1 H2) as Ht. unfold MoveEndInScanned in Ht. destruct k; done || by eexists.
Qed.

Lemma LessFlood_total x y d k : 0 <= x -> 0 <= y -> total (MoveNextLessFloodFill x y d k fm).
Proof.
  intros Hx Hy. unfold MoveNextLessFloodFill. destruct (FloodFillGet_total (x / 2) (y / 2)) as (v & -> & _); [auto..|].
  destruct (Translate_nonneg x y d 2 Hx Hy) as [H1 H2]. destruct (SubMoveTranslate x y d 2) as [x1 y1]. simpl in *.
  destruct (FloodFillGet_total (x1 / 2) (y1 / 2)) as (v' & -> & _); [auto..|]. destruct k; by eexists.
Qed.

(** Judging a move faults nowhere: no array is left, no fault. *)
Lemma SubMoveLegal_total x y d mv k : 0 <= x -> 0 <= y -> total (SubMoveLegal x y d mv k m s fm).
Proof.
  intros Hx Hy. unfold SubMoveLegal. do 3 (apply require_total; [by eexists|]).
  apply require_total; [by apply StraightAway_total|].
  destruct (Apply_nonneg x y d mv k Hx Hy) as [H1 H2]. destruct (SubMoveApply x y d mv k) as [[[x1 y1] d1] mv1]. simpl in H1, H2.
  apply require_total; [by apply OnWall_total|]. apply require_total; [by eexists|].
  apply require_total; [by apply Scanned_total|]. apply require_total; [by apply FacingWall_total|].
  apply require_total; [by apply NextScanned_total|]. apply require_total; [by apply LessFlood_total|]. by eexists.
Qed.

(** What a legal move guarantees. *)
Lemma legal_ends x y d mv k : placed x y d -> k <> SUB_MOVE_DONE -> SubMoveLegal x y d mv k m s fm = Ok true ->
  let '(x', y', d', _) := SubMoveApply x y d mv k in
  placed x' y' d' /\ clear m x' y' /\ MoveEndInScanned x' y' d' s = Ok true.
Proof.
  intros Hp Hk Hl. unfold SubMoveLegal in Hl. rewrite !require_true in Hl.
  destruct Hl as ([= Hc] & [= He] & _ & _ & Hl). pose proof (Apply_placed x y d mv k Hp Hc He) as Hp'.
  pose proof (odd_or_even x) as Hox. pose proof (odd_or_even y) as Hoy.
  destruct (SubMoveApply x y d mv k) as [[[x1 y1] d1] mv1] eqn:Ea. rewrite !require_true in Hl.
  destruct Hl as (Hw & [= Hpeg] & Hsc & _). split; [done|]. split; [|done].
  assert (0 <= x1 /\ 0 <= y1) as [Hx1 Hy1] by (destruct Hp' as (? & ? & _); done).
  pose proof (odd_or_even x1) as H1. pose proof (odd_or_even y1) as H2.
  assert (MoveEndOnWall x1 y1 m SUB_MOVE_START = Ok true \/ x1 mod 2 = 1 /\ y1 mod 2 = 1) as [Hw'|?]; [|clear Hw|by left].
  { destruct k; simpl in Hc, Ea; simplify_eq; try (by left); right; by apply centered_spec. }
  unfold MoveEndOnWall in Hw'. rewrite !MapGetWall_ok in Hw' by auto. unfold clear.
  destruct (Z.eqb_spec (x1 mod 2) 1) as [E1|E1], (Z.eqb_spec (y1 mod 2) 1) as [E2|E2]; cbn in Hw'; [by left| | |done].
  - right. left. split; [done|]. split; [lia|]. by injection Hw' as ->%negb_true_iff.
  - right. right. split; [lia|]. split; [done|]. by injection Hw' as ->%negb_true_iff.
Qed.

(** The comparison of the loop is a lexicographic order. *)
Definition rank (j : judged) : Z :=
  ((j_flood j * 256 + j_facing j) * 2 + Z.b2z (j_wall j)) * 2 + Z.b2z (negb (j_rotated j)).
Definition bytes (j : judged) : Prop := 0 <= j_flood j <= 255 /\ 0 <= j_facing j <= 255.

Lemma Improves_rank a b : bytes a -> bytes b -> Improves a b = (rank a <? rank b).
Proof.
  destruct a as [f g w r], b as [f' g' w' r']. unfold bytes, Improves, rank. simpl. intros [H1 H2] [H3 H4].
  rewrite !Z.gtb_ltb. destruct w, w', r, r'; simpl; repeat (zcase; simpl); done || lia.
Qed.

Lemma Normalize_ok z d forth back : 0 <= z -> (z mod 2 = 0 -> d = forth \/ d = back) ->
  exists v, Normalize z d forth back = Ok v /\ 0 <= v.
Proof.
  intros Hz Hd. unfold Normalize. destruct (Z.eqb_spec (z mod 2) 1) as [E|E]; [eexists; split; [done|auto]|].
  destruct (odd_or_even z) as [E'|E']; [|done]. destruct (decide (d = forth)); [eexists; split; [done|auto]|].
  destruct (Hd E') as [?|?]; [done|]. rewrite decide_True by done. eexists. split; [done|auto].
Qed.

(** The assertions of the choice hold: a judged move ends where a cell can be told. *)
Lemma Judge_ok x y d mv k : placed x y d -> MoveStartCentered x y k = true -> MoveStartEdge x y k = true ->
  exists j, Judge x y d mv k fm m = Ok j /\ bytes j.
Proof.
  intros Hp Hc He. pose proof (Apply_placed x y d mv k Hp Hc He) as Hp'. unfold Judge.
  destruct (SubMoveApply x y d mv k) as [[[x1 y1] d1] mv1]. destruct Hp' as (Hx & Hy & Hd).
  destruct (Normalize_ok x1 d1 EAST WEST Hx) as (tx & -> & Htx); [destruct d1; auto; lia|]. cbn [mbind res_bind].
  destruct (Normalize_ok y1 d1 NORTH SOUTH Hy) as (ty & -> & Hty); [destruct d1; auto; lia|]. cbn [mbind res_bind].
  destruct (FloodFillGet_total tx ty Htx Hty) as (v & -> & Hv). cbn [mbind res_bind].
  destruct (MapGetWall_total tx ty d1 Htx Hty) as (w & ->). cbn [mbind res_bind].
  destruct (Translate_nonneg tx ty d1 1 Htx Hty) as [H1 H2]. destruct (SubMoveTranslate tx ty d1 1) as [x2 y2]. simpl in H1, H2.
  destruct (FloodFillGet_total x2 y2 H1 H2) as (v' & -> & Hv'). cbn [mbind res_bind]. eexists. split; [done|]. done.
Qed.

Lemma legal_start x y d mv k : SubMoveLegal x y d mv k m s fm = Ok true ->
  MoveStartCentered x y k = true /\ MoveStartEdge x y k = true.
Proof. unfold SubMoveLegal. rewrite !require_true. by intros ([= ?] & [= ?] & _). Qed.

Lemma FindLoop_ok x y d mv moves best bestJ : placed x y d -> bytes bestJ ->
  exists r j, FindLoop moves x y d mv fm m s best bestJ = Ok r /\ bytes j /\ rank j <= rank bestJ /\
    ((r = best /\ j = bestJ) \/
      (r ∈ moves /\ SubMoveLegal x y d mv r m s fm = Ok true /\ Judge x y d mv r fm m = Ok j)) /\
    forall c, c ∈ moves -> SubMoveLegal x y d mv c m s fm = Ok true ->
      exists jc, Judge x y d mv c fm m = Ok jc /\ Improves jc j = false.
Proof.
  intros Hp. revert best bestJ. induction moves as [|c moves IH]; intros best bestJ Hb.
  { exists best, bestJ. split; [done|]. split; [done|]. split; [lia|]. split; [by left|]. by intros c ?%not_elem_of_nil. }
  cbn [FindLoop]. destruct (SubMoveLegal_total x y d mv c) as [b Hl]; [apply Hp..|]. rewrite Hl. cbn [mbind res_bind].
  assert (forall best' bestJ', bytes bestJ' -> rank bestJ' <= rank bestJ ->
    (best' = best /\ bestJ' = bestJ \/ best' = c /\ b = true /\ Judge x y d mv c fm m = Ok bestJ') ->
    (b = true -> exists jc, Judge x y d mv c fm m = Ok jc /\ bytes jc /\ rank bestJ' <= rank jc) ->
    exists r j, FindLoop moves x y d mv fm m s best' bestJ' = Ok r /\ bytes j /\ rank j <= rank bestJ /\
    ((r = best /\ j = bestJ) \/
      (r ∈ c :: moves /\ SubMoveLegal x y d mv r m s fm = Ok true /\ Judge x y d mv r fm m = Ok j)) /\
    forall c', c' ∈ c :: moves -> SubMoveLegal x y d mv c' m s fm = Ok true ->
      exists jc, Judge x y d mv c' fm m = Ok jc /\ Improves jc j = false) as Hgo.
  { intros best' bestJ' Hb' Hle Hfrom Hc. destruct (IH best' bestJ' Hb') as (r & j & Hrun & Hj & Hr & Hwho & Hall).
    exists r, j. split; [done|]. split; [done|]. split; [lia|]. split.
    - destruct Hwho as [[-> ->]|(Hin & Hlr & Hjr)]; [|right; split; [set_solver|done]].
      destruct Hfrom as [[-> ->]|(-> & -> & Hjc)]; [by left|right]. split; [set_solver|done].
    - intros c' [->|Hc']%elem_of_cons Hl'; [|by apply Hall]. destruct Hc as (jc & Hjc & Hbc & Hrc); [congruence|].
      exists jc. split; [done|]. rewrite Improves_rank by done. apply Z.ltb_ge. lia. }
  destruct b; cbn [negb].
  - destruct (legal_start x y d mv c Hl) as [Hc He]. destruct (Judge_ok x y d mv c Hp Hc He) as (jc & Hjc & Hbc).
    rewrite Hjc. cbn [mbind res_bind]. rewrite Improves_rank by done. destruct (Z.ltb_spec (rank jc) (rank bestJ)).
    + apply Hgo; [done|lia|by right|]. intros _. exists jc. split; [done|]. split; [done|lia].
    + apply Hgo; [done|lia|by left|]. intros _. exists jc. split; [done|]. split; [done|lia].
  - apply Hgo; [done|lia|by left|done].
Qed.
End mouse.

(** ** Properties *)

(** On well-formed maps the choice of a move completes, with every assertion and
    array access in order, from every position in the middle of a cell or on a border
    across the direction of the mouse.  The move is SUB_MOVE_DONE or one that is legal and
    ends in such a position again, with no wall where the mouse then stands and in or at a cell that has been
    scanned. *)
Theorem mouse_safe n m fm s x y d moving :
  map_ok m -> flood_ok n fm -> scan_ok s -> placed x y d ->
  exists mv, SubMoveFindBest x y d moving fm m s = Ok mv /\
    (mv = SUB_MOVE_DONE \/
      SubMoveLegal x y d moving mv m s fm = Ok true /\
      let '(x', y', d', _) := SubMoveApply x y d moving mv in
      placed x' y' d' /\ clear m x' y' /\ MoveEndInScanned x' y' d' s = Ok true).
Proof.
  intros Hm Hf Hs Hp.
  destruct (FindLoop_ok n m fm s Hm Hf Hs x y d moving all_moves SUB_MOVE_DONE done_judged Hp ltac:(done))
    as (r & j & Hrun & _ & _ & Hwho & _).
  exists r. split; [done|]. destruct Hwho as [[-> _]|(Hin & Hl & _)]; [by left|right]. split; [done|].
  apply (legal_ends m fm s Hm); [done| |done]. by apply all_moves_spec.
Qed.

(** The chosen move is best: no legal move improves on it (lower flood value,
    then lower value of the cell faced, then no wall ahead, then rotating), and when
    it is SUB_MOVE_DONE no legal move improves on the values the search starts from. *)
Theorem mouse_best n m fm s x y d moving mv :
  map_ok m -> flood_ok n fm -> scan_ok s -> placed x y d ->
  SubMoveFindBest x y d moving fm m s = Ok mv ->
  exists j, (mv = SUB_MOVE_DONE /\ j = done_judged \/ Judge x y d moving mv fm m = Ok j) /\
    forall c, c <> SUB_MOVE_DONE -> SubMoveLegal x y d moving c m s fm = Ok true ->
      exists jc, Judge x y d moving c fm m = Ok jc /\ Improves jc j = false.
Proof.
  intros Hm Hf Hs Hp Hmv.
  destruct (FindLoop_ok n m fm s Hm Hf Hs x y d moving all_moves SUB_MOVE_DONE done_judged Hp ltac:(done))
    as (r & j & Hrun & _ & _ & Hwho & Hall).
  unfold SubMoveFindBest in Hmv. rewrite Hrun in Hmv. injection Hmv as <-.
  exists j. split; [destruct Hwho as [?|(_ & _ & ?)]; auto|]. intros c Hc. by apply Hall, all_moves_spec.
Qed.

(** The maze of FloodFill, solved and scanned, with the mouse in the far corner. *)
Definition solved3 : FLOOD_MAP := mkFlood 3 3 [0; 3; 4; 1; 2; 3; 2; 3; 4] [0].
Definition log3 : SCAN_LOG := mkScan 3 3 [511].

Lemma solved3_ok : flood_ok 3 solved3.
Proof.
  constructor.
  - constructor; simpl; try done. repeat constructor; lia.
  - intros [x y] [Hx Hy]. simpl in Hx, Hy. assert (x = 0 \/ x = 1 \/ x = 2) as Ex by lia. assert (y = 0 \/ y = 1 \/ y = 2) as Ey by lia.
    destruct Ex as [->|[->| ->]], Ey as [->|[->| ->]]; vm_compute; split; discriminate.
  - intros j Hj. unfold bit. change (BitmapSize (3 * 3) * 32) with 32 in Hj.
    replace (BitmapIndex j) with 0; [apply Z.testbit_0_l|]. unfold BitmapIndex, BitmapWordSize. by rewrite Z.div_small by lia.
Defined.

Lemma log3_ok : scan_ok log3.
Proof. constructor; simpl; unfold zlen; simpl; try lia. repeat constructor; lia. Defined.

Lemma corner_placed : placed 5 5 SOUTH.
Proof. unfold placed. split; [lia|]. split; [lia|done]. Defined.

Lemma mouse_safe_witness :
  exists mv, SubMoveFindBest 5 5 SOUTH false solved3 maze3 log3 = Ok mv /\ (mv = SUB_MOVE_DONE \/
      SubMoveLegal 5 5 SOUTH false mv maze3 log3 solved3 = Ok true /\ let '(x', y', d', _) := SubMoveApply 5 5 SOUTH false mv in
      placed x' y' d' /\ clear maze3 x' y' /\ MoveEndInScanned x' y' d' log3 = Ok true).
Proof. exact (mouse_safe 3 maze3 solved3 log3 5 5 SOUTH false maze3_ok solved3_ok log3_ok corner_placed). Defined.

Lemma mouse_best_witness :
  exists j, (SUB_MOVE_START = SUB_MOVE_DONE /\ j = done_judged \/ Judge 5 5 SOUTH false SUB_MOVE_START solved3 maze3 = Ok j) /\
    forall c, c <> SUB_MOVE_DONE -> SubMoveLegal 5 5 SOUTH false c maze3 log3 solved3 = Ok true ->
      exists jc, Judge 5 5 SOUTH false c solved3 maze3 = Ok jc /\ Improves jc j = false.
Proof.
  apply (mouse_best 3 maze3 solved3 log3 5 5 SOUTH false SUB_MOVE_START maze3_ok solved3_ok log3_ok corner_placed).
  vm_compute. reflexivity.
Defined.
