(* ===== verification/MoveTest.v ===== *)
(** * The program that explores a maze (umouse/movetest.c)

    The world is a map the mouse cannot see; the mouse has a map of its own, a flood map
    and the log of the cells it has scanned.  It scans the cell in front of it, copies the walls it
    sees, computes the distances again and applies the move SubMoveFindBest chooses, until it is
    where the distance is zero.

    A function that prints returns the list of what its calls of printf print.  The calls
    of exit are the values of [EXIT]. *)

From stdpp Require Import strings pretty.
From S2P Require Import Prelude Bitmap Printing Map FloodFill ScanLog SubMove.

#[local] Open Scope Z_scope.

Definition WIDTH : Z := 8.
Definition HEIGHT : Z := 8.

(** The variables of the file that the functions share. *)
Record MAZE := mkMaze { MouseMap : MAP; WorldMap : MAP; FloodMap : FLOOD_MAP; ScanLog : SCAN_LOG }.

Definition with_flood (f : FLOOD_MAP) (g : MAZE) : MAZE := mkMaze (MouseMap g) (WorldMap g) f (ScanLog g).
Definition with_scan (s : SCAN_LOG) (g : MAZE) : MAZE := mkMaze (MouseMap g) (WorldMap g) (FloodMap g) s.
Definition with_mouse (m : MAP) (g : MAZE) : MAZE := mkMaze m (WorldMap g) (FloodMap g) (ScanLog g).

(** ** Printing *)

(** The wall below a row of cells, with its pins. *)
Definition PrintSouth (map : MAP) (y : Z) : res text :=
  l ← each (Z.to_nat (Map.Width map)) 0 1 (fun x =>
        wall ← MapGetWall x y SOUTH map; Ok ["+"; if (wall : bool) then "---" else "   "]);
  Ok (l ++ ["+"; newline]).

(** The wall east of a row of cells: the loop leaves [x] at the width. *)
Definition PrintEast (map : MAP) (y : Z) : res text :=
  wall ← MapGetWall (Map.Width map) y WEST map;
  Ok [if (wall : bool) then "|" else " "; newline].

Definition FloodArrow (dir : DIRECTION) : string :=
  match dir with NORTH => "/\ " | SOUTH => "\/ " | EAST => " > " | WEST => " < " end.

Definition FloodCell (map : MAP) (flood : FLOOD_MAP) (mouseX mouseY : Z) (mouseDir : DIRECTION) (y x : Z) : res text :=
  wall ← MapGetWall x y WEST map;
  let west := if (wall : bool) then "|"
    else if (mouseX / 2 =? x) && (mouseY / 2 =? y) && (mouseX mod 2 =? 0) && (mouseY mod 2 =? 0) then "M" else " " in
  if (mouseX =? x) && (mouseY =? y) then Ok [west; FloodArrow mouseDir]
  else v ← FloodFillGet x y flood; Ok [west; hex3 v].

Definition PrintMapFlood (map : MAP) (flood : FLOOD_MAP) (mouseX mouseY : Z) (mouseDir : DIRECTION) : res text :=
  each (S (Z.to_nat (Map.Height map))) (Map.Height map) (-1) (fun y =>
    cells ← (if y =? Map.Height map then Ok [] else
      l ← each (Z.to_nat (Map.Width map)) 0 1 (FloodCell map flood mouseX mouseY mouseDir y);
      e ← PrintEast map y;
      Ok (l ++ e));
    south ← PrintSouth map y;
    Ok (cells ++ south)).

Definition ScanArrow (s : bool) (dir : DIRECTION) : string :=
  match dir with
  | NORTH => if s then "/S\" else "/\ "
  | SOUTH => if s then "\S/" else "\/ "
  | EAST => if s then "-S>" else " > "
  | WEST => if s then "<S-" else " < "
  end.

Definition ScanCell (map : MAP) (scan : SCAN_LOG) (mouseX mouseY : Z) (mouseDir : DIRECTION) (y x : Z) : res text :=
  wall ← MapGetWall x y WEST map;
  s ← ScanLogGet x y scan;
  Ok [if (wall : bool) then "|" else " ";
      if (mouseX =? x) && (mouseY =? y) then ScanArrow s mouseDir else if (s : bool) then " S " else "   "].

Definition PrintMapScan (map : MAP) (scan : SCAN_LOG) (mouseX mouseY : Z) (mouseDir : DIRECTION) : res text :=
  each (S (Z.to_nat (Map.Height map))) (Map.Height map) (-1) (fun y =>
    cells ← (if y =? Map.Height map then Ok [] else
      l ← each (Z.to_nat (Map.Width map)) 0 1 (ScanCell map scan mouseX mouseY mouseDir y);
      e ← PrintEast map y;
      Ok (l ++ e));
    south ← PrintSouth map y;
    Ok (cells ++ south)).

(** What is printed before the call of exit where there is one. *)
Definition PrintMove (move : SUB_MOVE) : text * bool :=
  match move with
  | SUB_MOVE_START => (["start"], false)
  | SUB_MOVE_STOP => (["stop"], false)
  | SUB_MOVE_FORWARD => (["forward"], false)
  | SUB_MOVE_TURN_RIGHT => (["turn right"], false)
  | SUB_MOVE_TURN_LEFT => (["turn left"], false)
  | SUB_MOVE_TURN_AROUND => (["turn around"], false)
  | SUB_MOVE_INTEGRATE_RIGHT => (["integrate right"], false)
  | SUB_MOVE_INTEGRATE_LEFT => (["integrate left"], false)
  | SUB_MOVE_DONE => (["NOT POSSIBLE MOVE"; newline], true)
  end.

(** [(%ld.%ld,%ld.%ld)] of a position in half cells. *)
Definition halves (x y : Z) : string :=
  "(" +:+ pretty (x / 2) +:+ "." +:+ pretty (x mod 2) +:+ "," +:+ pretty (y / 2) +:+ "." +:+ pretty (y mod 2) +:+ ")".

Definition PrintState (x y : Z) (dir : DIRECTION) (moving : bool) : text :=
  [halves x y +:+ " "; match dir with NORTH => "n " | SOUTH => "s " | EAST => "e " | WEST => "w " end;
   if moving then "moving " else "not moving "; newline].

(** ** Scanning *)

Fixpoint MakeLines (n : nat) (x y : Z) (moveDir wallDir : DIRECTION) (map : MAP) : res MAP :=
  match n with
  | O => Ok map
  | S n =>
      map ← MapSetWall x y wallDir true map;
      let '(x, y) := SubMoveTranslate x y moveDir 1 in
      MakeLines n x y moveDir wallDir map
  end.

(** [for( testDir = NORTH; testDir <= WEST; testDir++ )]: the walls of a cell that the mouse sees
    for the first time. *)
Fixpoint ScanWalls (dirs : list DIRECTION) (cx cy : Z) (world mouse : MAP) (mapChanged : bool) : res (MAP * bool) :=
  match dirs with
  | [] => Ok (mouse, mapChanged)
  | testDir :: dirs =>
      known ← MapGetWall cx cy testDir mouse;
      if (known : bool) then ScanWalls dirs cx cy world mouse mapChanged
      else
        wall ← MapGetWall cx cy testDir world;
        if (wall : bool) then
          mouse ← MapSetWall cx cy testDir true mouse;
          ScanWalls dirs cx cy world mouse true
        else ScanWalls dirs cx cy world mouse mapChanged
  end.

(** The distances from the destination on the map of the mouse. *)
Definition Flood (ff : nat) (destX destY : Z) (g : MAZE) : res MAZE :=
  f ← FloodFillClear (FloodMap g);
  f ← FloodFillSetDestination destX destY f;
  f ← FloodFillCalculate ff (MouseMap g) f;
  Ok (with_flood f g).

(** From the coordinate adjustment to the new distances; only with no wall in front. *)
Definition Scan (ff : nat) (x y : Z) (dir : DIRECTION) (destX destY : Z) (g : MAZE) : res (text * MAZE) :=
  let '(scanX, scanY) := SubMoveTranslate x y dir 2 in
  '(mouse, mapChanged) ← ScanWalls [NORTH; EAST; SOUTH; WEST] (scanX / 2) (scanY / 2) (WorldMap g) (MouseMap g) false;
  s ← ScanLogSet (scanX / 2) (scanY / 2) true (ScanLog g);
  let g := with_scan s (with_mouse mouse g) in
  if (mapChanged : bool) then
    g ← Flood ff destX destY g;
    Ok (["scanning"; newline; "found new walls at " +:+ halves scanX scanY; newline], g)
  else Ok (["scanning"; newline], g).

(** The maps printed at the label [done]. *)
Definition PrintMaps (x y : Z) (dir : DIRECTION) (g : MAZE) : res text :=
  w ← PrintMapScan (WorldMap g) (ScanLog g) (x / 2) (y / 2) dir;
  m ← PrintMapFlood (MouseMap g) (FloodMap g) (x / 2) (y / 2) dir;
  Ok (["world map"; newline] ++ w ++ ["mouse map"; newline] ++ m).

Definition UpdateMap (ff : nat) (x y : Z) (dir : DIRECTION) (moving : bool) (destX destY : Z) (g : MAZE) : res (text * MAZE) :=
  '(out, g) ←
    (if (x mod 2 =? 0) || (y mod 2 =? 0) then Ok (["cant scan, not in middle"; newline], g)
     else
       wall ← MapGetWall (x / 2) (y / 2) dir (WorldMap g);
       if (wall : bool) then Ok (["cant scan, wall too close"; newline], g)
       else Scan ff x y dir destX destY g);
  maps ← PrintMaps x y dir g;
  Ok (out ++ maps, g).

(** ** The runs *)

Inductive EXIT := NOT_POSSIBLE_MOVE | OUT_OF_BOUNDS | NOT_IN_CENTER.

(** The local variables of RunMoves and the shared ones. *)
Record RUN := mkRun { posX : Z; posY : Z; heading : DIRECTION; is_moving : bool; maze : MAZE }.

(** The body of the loop. *)
Definition RunBody (ff : nat) (destX destY : Z) (r : RUN) : res (text * (EXIT * MAZE + RUN)) :=
  let '(mkRun x y dir moving g) := r in
  '(out1, g) ← UpdateMap ff x y dir moving destX destY g;
  dist ← FloodFillGet (x / 2) (y / 2) (FloodMap g);
  let out2 := out1 ++ ["dist = " +:+ pretty dist +:+ " "] ++ PrintState x y dir moving in
  if (x >? WIDTH * 2) || (y >? HEIGHT * 2) then Ok (out2 ++ ["out of bounds"; newline], inl (OUT_OF_BOUNDS, g))
  else
    move ← SubMoveFindBest x y dir moving (FloodMap g) (MouseMap g) (ScanLog g);
    let '(out3, stop) := PrintMove move in
    if (stop : bool) then Ok (out2 ++ out3, inl (NOT_POSSIBLE_MOVE, g))
    else
      let '(x, y, dir, moving) := SubMoveApply x y dir moving move in
      dist ← FloodFillGet x y (FloodMap g);
      Ok (out2 ++ out3 ++ ["now at "] ++ PrintState x y dir moving ++ ["dist = " +:+ pretty dist +:+ " "; newline],
          inr (mkRun x y dir moving g)).

Definition dashes : string := "------------------------------------------------------".

(** The loop, [fuel] turns at most. *)
Fixpoint RunLoop (ff fuel : nat) (destX destY : Z) (r : RUN) : res (text * (EXIT * MAZE + RUN)) :=
  match fuel with
  | O => Err FFuel
  | S fuel =>
      '(out, r) ← RunBody ff destX destY r;
      match r with
      | inl e => Ok (dashes :: newline :: out, inl e)
      | inr r =>
          dist ← FloodFillGet (posX r / 2) (posY r / 2) (FloodMap (maze r));
          if dist =? 0 then Ok (dashes :: newline :: out, inr r)
          else '(out', e) ← RunLoop ff fuel destX destY r; Ok (dashes :: newline :: out ++ out', e)
      end
  end.

(** After the loop: a call of exit or the values stored through the three pointers. *)
Definition EndRun (out : text) (r : RUN) : res (text * (EXIT * MAZE + Z * Z * DIRECTION * MAZE)) :=
  let '(mkRun x y dir moving g) := r in
  w ← PrintMapFlood (WorldMap g) (FloodMap g) (x / 2) (y / 2) dir;
  m ← PrintMapFlood (MouseMap g) (FloodMap g) (x / 2) (y / 2) dir;
  let out := out ++ ["Ended up at " +:+ halves x y; newline; "world map"; newline] ++ w ++ ["mouse map"; newline] ++ m in
  if (x mod 2 =? 0) || (y mod 2 =? 0)
  then Ok (out ++ ["didn't end up in center"; newline], inl (NOT_IN_CENTER, g))
  else Ok (out, inr (x / 2, y / 2, dir, g)).

Definition RunMoves (ff fuel : nat) (startX startY : Z) (startDir : DIRECTION) (destX destY : Z) (g : MAZE)
    : res (text * (EXIT * MAZE + Z * Z * DIRECTION * MAZE)) :=
  g ← Flood ff destX destY g;
  '(out, e) ← RunLoop ff fuel destX destY (mkRun (w64 (w64 (startX * 2) + 1)) (w64 (w64 (startY * 2) + 1)) startDir false g);
  match e with
  | inl e => Ok (out, inl e)
  | inr r => EndRun out r
  end.

(** ** The main program *)

Definition zeros (words : Z) : list Z := replicate (Z.to_nat words) 0.

(** The shared variables before main, all zero. *)
Definition no_map : MAP := mkMap [] 0 0 0 0.

(** [MakeLines] with its count. *)
Definition Lines (x y dist : Z) (moveDir wallDir : DIRECTION) (map : MAP) : res MAP :=
  MakeLines (Z.to_nat dist) x y moveDir wallDir map.

Definition SampleMaze (world : MAP) : res MAP :=
  world ← Lines 0 2 6 EAST SOUTH world;
  world ← Lines 6 3 4 NORTH WEST world;
  world ← Lines 1 5 6 EAST NORTH world;
  world ← Lines 4 3 2 NORTH WEST world;
  world ← Lines 4 2 2 EAST NORTH world;
  world ← Lines 0 5 4 EAST SOUTH world;
  world ← MapSetWall 1 6 EAST true world;
  Lines 3 3 2 NORTH WEST world.

(** The maps with the start cell, the world filled by [populate]. *)
Definition SetUp (populate : MAP -> res MAP) : res MAZE :=
  '(_, world) ← MapInit no_map (zeros (MapSizeNeeded WIDTH HEIGHT)) (MapSizeNeeded WIDTH HEIGHT) WIDTH HEIGHT;
  '(_, mouse) ← MapInit no_map (zeros (MapSizeNeeded WIDTH HEIGHT)) (MapSizeNeeded WIDTH HEIGHT) WIDTH HEIGHT;
  scan ← ScanLogInit WIDTH HEIGHT (zeros (SCAN_LOG_SIZE WIDTH HEIGHT));
  world ← MapSetWall 0 0 EAST true world;
  mouse ← MapSetWall 0 0 EAST true mouse;
  scan ← ScanLogSet 0 0 true scan;
  world ← populate world;
  Ok (mkMaze mouse world
        (FloodFillInit WIDTH HEIGHT (zeros (FLOOD_MAP_SIZE WIDTH HEIGHT)) (zeros (FLOOD_EVENT_SIZE WIDTH HEIGHT))) scan).

Definition main (ff fuel : nat) (populate : MAP -> res MAP) : res (text * (EXIT * MAZE + MAZE)) :=
  g ← SetUp populate;
  '(out1, e) ← RunMoves ff fuel 0 0 NORTH (WIDTH / 2) (HEIGHT / 2) g;
  match e with
  | inl e => Ok (out1, inl e)
  | inr (x, y, dir, g) =>
      '(out2, e) ← RunMoves ff fuel x y dir 0 0 g;
      match e with
      | inl e => Ok (out1 ++ ["explore done"; newline] ++ out2, inl e)
      | inr (_, _, _, g) => Ok (out1 ++ ["explore done"; newline] ++ out2 ++ ["return done"; newline], inr g)
      end
  end.
