(* ===== verification/MoveSpots.v ===== *)
(** * Moves from cell to cell (proofs over SubMove)

    A mouse stands in the middle of a cell ([mid]) or on the border through which it leaves
    one for the next ([side]).  Every move and every test of SubMove is described here in terms of cells
    instead of half cells. *)

From S2P Require Import Prelude Bitmap Map FloodFill ScanLog SubMove.

Definition mid (c : cell) : Z * Z := (2 * c.1 + 1, 2 * c.2 + 1).

(** The border of [c] in the direction [d]. *)
Definition side (c : cell) (d : DIRECTION) : Z * Z :=
  match d with
  | NORTH => (2 * c.1 + 1, 2 * c.2 + 2)
  | EAST => (2 * c.1 + 2, 2 * c.2 + 1)
  | SOUTH => (2 * c.1 + 1, 2 * c.2)
  | WEST => (2 * c.1, 2 * c.2 + 1)
  end.

(** ** Half cells *)

Lemma odd_half a : (2 * a + 1) / 2 = a.
Proof. dlia. Qed.
Lemma odd_mod a : (2 * a + 1) mod 2 = 1.
Proof. dlia. Qed.
Lemma even_half a : (2 * a) / 2 = a.
Proof. dlia. Qed.
Lemma even_mod a : (2 * a) mod 2 = 0.
Proof. dlia. Qed.
Lemma next_half a : (2 * a + 2) / 2 = a + 1.
Proof. dlia. Qed.
Lemma next_mod a : (2 * a + 2) mod 2 = 0.
Proof. dlia. Qed.

Create HintDb halves.
#[export] Hint Rewrite odd_half odd_mod even_half even_mod next_half next_mod : halves.

(** The moves that turn, and by how much. *)
Definition turning (k : SUB_MOVE) : option ANGLE :=
  match k with
  | SUB_MOVE_TURN_RIGHT => Some RIGHT | SUB_MOVE_TURN_LEFT => Some LEFT | SUB_MOVE_TURN_AROUND => Some BACK
  | _ => None
  end.
Definition integrating (k : SUB_MOVE) : option ANGLE :=
  match k with SUB_MOVE_INTEGRATE_RIGHT => Some RIGHT | SUB_MOVE_INTEGRATE_LEFT => Some LEFT | _ => None end.

Lemma TURN_BACK d : TURN (TURN d BACK) BACK = d.
Proof. by destruct d. Qed.

Lemma TURN_cases d d' : d' = d \/ exists k a, turning k = Some a /\ d' = TURN d a.
Proof.
  destruct d, d'; try (by left); right;
    first [by exists SUB_MOVE_TURN_RIGHT, RIGHT|by exists SUB_MOVE_TURN_LEFT, LEFT|by exists SUB_MOVE_TURN_AROUND, BACK].
Qed.

Lemma toward_back c d : toward (toward c d) (TURN d BACK) = c.
Proof. destruct c as [cx cy], d; simpl; f_equal; lia. Qed.

Section cells.
Context (n : Z) (Hn : 1 <= n < 2 ^ 31).

Ltac small := rewrite w64_small by (unfold u64; lia).

Lemma mid_translate c d : cell_in n c -> SubMoveTranslate (mid c).1 (mid c).2 d 1 = side c d.
Proof. destruct c as [cx cy]. intros [Hx Hy]. simpl in *. destruct d; simpl; small; f_equal; lia. Qed.

Lemma side_translate c d : cell_in n c -> cell_in n (toward c d) ->
  SubMoveTranslate (side c d).1 (side c d).2 d 1 = mid (toward c d).
Proof.
  destruct c as [cx cy]. intros [Hx Hy] [Hx' Hy']. destruct d; unfold mid; simpl in *; small; f_equal; lia.
Qed.

Lemma mid_translate2 c d : cell_in n c -> cell_in n (toward c d) ->
  SubMoveTranslate (mid c).1 (mid c).2 d 2 = mid (toward c d).
Proof. destruct c as [cx cy]. intros [Hx Hy] [Hx' Hy']. destruct d; unfold mid; simpl in *; small; f_equal; lia. Qed.

Lemma cell_translate c d : cell_in n c -> cell_in n (toward c d) -> SubMoveTranslate c.1 c.2 d 1 = toward c d.
Proof. destruct c as [cx cy]. intros [Hx Hy] [Hx' Hy']. destruct d; simpl in *; small; done. Qed.

Lemma mid_centered c : IS_CENTERED (mid c).1 (mid c).2 = true.
Proof. unfold IS_CENTERED, mid. simpl. by autorewrite with halves. Qed.

Lemma side_edged c d : IS_CENTERED (side c d).1 (side c d).2 = false.
Proof. unfold IS_CENTERED. destruct d; simpl; by autorewrite with halves. Qed.

Lemma edged_not_centered x y : IS_EDGED x y = negb (IS_CENTERED x y).
Proof. unfold IS_EDGED, IS_CENTERED. destruct (odd_or_even x) as [-> | ->], (odd_or_even y) as [-> | ->]; done. Qed.

Lemma mid_half c : ((mid c).1 / 2, (mid c).2 / 2) = c.
Proof. destruct c. unfold mid. simpl. by autorewrite with halves. Qed.

Lemma mid_half_x c : (mid c).1 / 2 = c.1.
Proof. apply odd_half. Qed.

Lemma mid_half_y c : (mid c).2 / 2 = c.2.
Proof. apply odd_half. Qed.

Lemma mid_cell c d : GetCell (mid c).1 (mid c).2 d = c.
Proof. unfold GetCell. rewrite mid_centered. apply mid_half. Qed.

Lemma side_cell c d : cell_in n c -> cell_in n (toward c d) -> GetCell (side c d).1 (side c d).2 d = toward c d.
Proof.
  intros Hc Hd. unfold GetCell. rewrite side_edged, side_translate by done.
  destruct (mid (toward c d)) as [mx my] eqn:E. rewrite <- (mid_half (toward c d)), E. done.
Qed.

Lemma mid_placed c d : cell_in n c -> placed (mid c).1 (mid c).2 d.
Proof. intros [Hx Hy]. unfold placed, mid. simpl. autorewrite with halves. split; [lia|]. split; [lia|]. by destruct d. Qed.

Lemma side_placed c d : cell_in n c -> placed (side c d).1 (side c d).2 d.
Proof. intros [Hx Hy]. unfold placed. destruct d; simpl; autorewrite with halves; lia. Qed.

(** *** Walls *)

Lemma mid_clear m c : clear m (mid c).1 (mid c).2.
Proof. left. unfold mid. simpl. by autorewrite with halves. Qed.

Lemma side_clear m c d : cell_in n c -> clear m (side c d).1 (side c d).2 <-> passage m c d.
Proof.
  destruct c as [cx cy]. intros [Hx Hy]. unfold clear, passage.
  destruct d; simpl in *; autorewrite with halves; try small; intuition congruence || discriminate.
Qed.

(** The wall between two cells, from either. *)
Lemma wall_back c d : cell_in n c -> cell_in n (toward c d) ->
  wall_of (toward c d).1 (toward c d).2 (TURN d BACK) = wall_of c.1 c.2 d.
Proof.
  destruct c as [cx cy]. intros [Hx Hy] [Hx' Hy']. destruct d; simpl in *; repeat small; f_equal; lia.
Qed.

Lemma passage_back m c d : cell_in n c -> cell_in n (toward c d) -> passage m (toward c d) (TURN d BACK) <-> passage m c d.
Proof. intros Hc Hd. unfold passage. by rewrite wall_back. Qed.

(** *** Applying a move *)

Lemma apply_leave c d mv k : k = SUB_MOVE_START \/ k = SUB_MOVE_FORWARD -> cell_in n c ->
  SubMoveApply (mid c).1 (mid c).2 d mv k = ((side c d).1, (side c d).2, d, true).
Proof. intros [-> | ->] Hc; unfold SubMoveApply; rewrite mid_translate by done; by destruct (side c d). Qed.

Lemma apply_enter c d mv k : k = SUB_MOVE_STOP \/ k = SUB_MOVE_FORWARD -> cell_in n c -> cell_in n (toward c d) ->
  SubMoveApply (side c d).1 (side c d).2 d mv k =
    ((mid (toward c d)).1, (mid (toward c d)).2, d, bool_decide (k = SUB_MOVE_FORWARD)).
Proof. intros [-> | ->] Hc Hd; unfold SubMoveApply; rewrite side_translate by done; by destruct (mid (toward c d)). Qed.

Lemma apply_turn x y d mv k a : turning k = Some a -> SubMoveApply x y d mv k = (x, y, TURN d a, false).
Proof. by destruct k; intros [= <-]. Qed.

Lemma apply_integrate c d mv k a : integrating k = Some a -> cell_in n c -> cell_in n (toward c d) ->
  SubMoveApply (side c d).1 (side c d).2 d mv k =
    ((side (toward c d) (TURN d a)).1, (side (toward c d) (TURN d a)).2, TURN d a, true).
Proof.
  intros Hk Hc Hd. destruct k; try discriminate Hk; injection Hk as <-; unfold SubMoveApply, SubMoveRotate;
    rewrite side_translate by done; destruct (mid (toward c d)) as [mx my] eqn:E;
    pose proof (mid_translate (toward c d) (TURN d RIGHT) Hd) as HR; pose proof (mid_translate (toward c d) (TURN d LEFT) Hd) as HL;
    rewrite E in HR, HL; simpl in HR, HL.
  - rewrite HR. by destruct (side (toward c d) (TURN d RIGHT)).
  - rewrite HL. by destruct (side (toward c d) (TURN d LEFT)).
Qed.

End cells.

(** ** The tests *)

Definition seen (s : SCAN_LOG) (c : cell) : bool := scanned s c.1 c.2.

Section tests.
Context (n : Z) (Hn : 1 <= n < 2 ^ 31).
Context (m : MAP) (fm : FLOOD_MAP) (s : SCAN_LOG).
Context (Hm : map_ok m) (Hmw : Map.Width m = n) (Hmh : Map.Height m = n) (Hf : flood_ok n fm) (Hs : scan_ok s).

Lemma passage_cell c d : cell_in n c -> passage m c d -> cell_in n (toward c d).
Proof. intros Hc Hp. apply (passage_in n m Hmw Hmh c d); [lia|done..]. Qed.

Lemma flood_at c : cell_in n c -> FloodFillGet c.1 c.2 fm = Ok (val n fm c).
Proof. by apply FloodFillGet_in. Qed.

Lemma scan_at c : cell_in n c -> ScanLogGet c.1 c.2 s = Ok (seen s c).
Proof. intros [Hx Hy]. apply ScanLogGet_ok; done || lia. Qed.

Lemma wall_at c d : cell_in n c -> MapGetWall c.1 c.2 d m = Ok (has_wall m (wall_of c.1 c.2 d)).
Proof. intros [Hx Hy]. apply MapGetWall_ok; done || lia. Qed.

(** A move that travels. *)
Definition travels (k : SUB_MOVE) : Prop :=
  match k with
  | SUB_MOVE_START | SUB_MOVE_STOP | SUB_MOVE_FORWARD | SUB_MOVE_INTEGRATE_RIGHT | SUB_MOVE_INTEGRATE_LEFT => True
  | _ => False
  end.

Lemma OnWall_mid c k : MoveEndOnWall (mid c).1 (mid c).2 m k = Ok true.
Proof. unfold MoveEndOnWall, mid. simpl. autorewrite with halves. by destruct k. Qed.

Lemma OnWall_side c d k : travels k -> cell_in n c ->
  MoveEndOnWall (side c d).1 (side c d).2 m k = Ok (negb (has_wall m (wall_of c.1 c.2 d))).
Proof.
  intros Hk [Hx Hy]. destruct k; try done; unfold MoveEndOnWall; destruct d; cbn [side fst snd];
    rewrite !MapGetWall_ok by (done || autorewrite with halves; lia); autorewrite with halves; simpl; try (rewrite w64_small by (unfold u64; lia)); done.
Qed.

Lemma OnPeg_mid c : MoveEndOnPeg (mid c).1 (mid c).2 = true.
Proof. unfold MoveEndOnPeg, mid. simpl. by autorewrite with halves. Qed.

Lemma OnPeg_side c d : MoveEndOnPeg (side c d).1 (side c d).2 = true.
Proof. unfold MoveEndOnPeg. destruct d; simpl; by autorewrite with halves. Qed.

Lemma InScanned_mid c d : cell_in n c -> MoveEndInScanned (mid c).1 (mid c).2 d s = Ok (seen s c).
Proof. intros Hc. unfold MoveEndInScanned. rewrite mid_cell. pose proof (scan_at c Hc). by destruct c. Qed.

Lemma InScanned_side c d : cell_in n c -> cell_in n (toward c d) ->
  MoveEndInScanned (side c d).1 (side c d).2 d s = Ok (seen s (toward c d)).
Proof.
  intros Hc Hd. unfold MoveEndInScanned. rewrite (side_cell n Hn) by done.
  pose proof (scan_at (toward c d) Hd) as H. by destruct (toward c d).
Qed.

Lemma FacingWall_mid c d k : cell_in n c -> k = SUB_MOVE_FORWARD \/ is_Some (turning k) ->
  MoveEndFacingWall (mid c).1 (mid c).2 d m k = Ok (negb (has_wall m (wall_of c.1 c.2 d))).
Proof.
  intros Hc Hk. unfold MoveEndFacingWall. rewrite mid_centered, mid_half_x, mid_half_y, (wall_at c d Hc).
  destruct Hk as [-> |[a Ha]]; [done|]. by destruct k.
Qed.

Lemma FacingWall_side c d k : MoveEndFacingWall (side c d).1 (side c d).2 d m k = Ok true.
Proof. unfold MoveEndFacingWall. rewrite side_edged. by destruct k. Qed.

(** The cell scanned next: the one ahead. *)
Lemma NextScanned_mid c d : cell_in n c -> cell_in n (toward c d) ->
  MoveNextScanned (mid c).1 (mid c).2 d SUB_MOVE_FORWARD s = Ok (seen s (toward c d)).
Proof.
  intros Hc Hd. unfold MoveNextScanned. rewrite (mid_translate n Hn) by done.
  pose proof (InScanned_side c d Hc Hd) as H. by destruct (side c d).
Qed.

Lemma NextScanned_side c d k : k = SUB_MOVE_FORWARD \/ is_Some (integrating k) -> cell_in n c -> cell_in n (toward c d) ->
  MoveNextScanned (side c d).1 (side c d).2 d k s = Ok (seen s (toward c d)).
Proof.
  intros Hk Hc Hd. pose proof (InScanned_mid (toward c d) d Hd) as H.
  unfold MoveNextScanned. rewrite (side_translate n Hn) by done. unfold MoveEndInScanned in H.
  destruct Hk as [-> |[a Ha]]; [by destruct (mid (toward c d))|]. destruct k; try discriminate Ha; by destruct (mid (toward c d)).
Qed.

Lemma LessFlood_any x y d k : turning k = None -> 0 <= x -> 0 <= y -> MoveNextLessFloodFill x y d k fm = Ok true.
Proof.
  intros Hk Hx Hy. destruct (LessFlood_total n fm Hf x y d k Hx Hy) as [b Hb]. rewrite Hb.
  unfold MoveNextLessFloodFill in Hb. destruct (FloodFillGet (x / 2) (y / 2) fm); [|done]. simpl in Hb.
  destruct (SubMoveTranslate x y d 2) as [x' y']. destruct (FloodFillGet (x' / 2) (y' / 2) fm); [|done]. simpl in Hb.
  destruct k; try discriminate Hk; congruence.
Qed.

Lemma LessFlood_turn c d k : is_Some (turning k) -> cell_in n c -> cell_in n (toward c d) ->
  MoveNextLessFloodFill (mid c).1 (mid c).2 d k fm = Ok (val n fm (toward c d) <? val n fm c).
Proof.
  intros Hk Hc Hd. unfold MoveNextLessFloodFill. rewrite mid_half_x, mid_half_y, (flood_at c Hc). cbn [mbind res_bind].
  rewrite (mid_translate2 n Hn) by done. pose proof (flood_at (toward c d) Hd) as H2. rewrite <- mid_half_x, <- mid_half_y in H2.
  destruct (mid (toward c d)) as [x' y']. simpl in H2. rewrite H2. cbn [mbind res_bind].
  destruct Hk as [a Ha]. by destruct k.
Qed.

Lemma StraightAway_any x y d k : k <> SUB_MOVE_FORWARD -> MoveStartStraightAway x y d k fm = Ok true.
Proof. by destruct k. Qed.

(** The cell the mouse is in, or enters. *)
Lemma StraightAway_from x y d c : GetCell x y d = c -> cell_in n c -> cell_in n (toward c d) ->
  MoveStartStraightAway x y d SUB_MOVE_FORWARD fm = Ok (val n fm (toward c d) <? val n fm c).
Proof.
  intros Hg Hc Hd. unfold MoveStartStraightAway. rewrite Hg.
  replace (let '(cx, cy) := c in _) with (curFill ← FloodFillGet c.1 c.2 fm;
    let '(x, y) := SubMoveTranslate c.1 c.2 d 1 in nextFill ← FloodFillGet x y fm; Ok (nextFill <? curFill)) by by destruct c.
  rewrite (flood_at c Hc), (cell_translate n Hn c d Hc Hd). cbn [mbind res_bind].
  pose proof (flood_at (toward c d) Hd) as H2. destruct (toward c d) as [x' y']. simpl in H2. by rewrite H2.
Qed.

(** *** Which moves are legal *)

Abbreviation legal c d mv k := (SubMoveLegal (c : Z * Z).1 (c : Z * Z).2 d mv k m s fm = Ok true).

Lemma require_iff b r : require (Ok b) r = Ok true <-> b = true /\ r = Ok true.
Proof. rewrite require_true. intuition congruence. Qed.

Lemma still_moves c d k : legal (mid c) d false k -> k <> SUB_MOVE_DONE -> k = SUB_MOVE_START \/ is_Some (turning k).
Proof.
  unfold SubMoveLegal. rewrite !require_iff. intros (_ & He & Hmv & _) Hk. destruct k; simpl in *; try done; eauto.
Qed.

Lemma rolling_moves c d k : legal (mid c) d true k -> k <> SUB_MOVE_DONE -> k = SUB_MOVE_FORWARD.
Proof.
  unfold SubMoveLegal. rewrite !require_iff. intros (_ & He & Hmv & _) Hk.
  destruct k; cbn [MoveStartEdge MoveStartMoving negb] in *; try done; rewrite edged_not_centered, mid_centered in He; done.
Qed.

Lemma side_moves c d k : legal (side c d) d true k -> k <> SUB_MOVE_DONE ->
  k = SUB_MOVE_FORWARD \/ k = SUB_MOVE_STOP \/ is_Some (integrating k).
Proof.
  unfold SubMoveLegal. rewrite !require_iff. intros (_ & He & Hmv & _) Hk. destruct k; simpl in *; try done; eauto.
Qed.

Lemma legal_leave c d : cell_in n c ->
  legal (mid c) d false SUB_MOVE_START <-> passage m c d /\ seen s (toward c d) = true.
Proof.
  intros Hc. unfold SubMoveLegal. rewrite (apply_leave n Hn) by auto. cbv beta iota.
  rewrite StraightAway_any, OnWall_side by done. rewrite !require_true, OnPeg_side, FacingWall_side.
  cbn [MoveStartCentered]. rewrite mid_centered. pose proof (side_placed n c d Hc) as (Hx & Hy & _).
  rewrite LessFlood_any by done. split.
  - intros (_ & _ & _ & _ & [= Hw%negb_true_iff] & _ & Hsc & _). pose proof (passage_cell c d Hc Hw) as Hd.
    rewrite InScanned_side in Hsc by done. by injection Hsc as Hsc.
  - intros [Hp Hsc]. pose proof (passage_cell c d Hc Hp). rewrite InScanned_side, Hsc by done.
    unfold passage in Hp. by rewrite Hp.
Qed.

Lemma legal_turn c d k a : turning k = Some a -> cell_in n c ->
  legal (mid c) d false k <->
    seen s c = true /\ passage m c (TURN d a) /\ val n fm (toward c (TURN d a)) < val n fm c.
Proof.
  intros Hk Hc. unfold SubMoveLegal. rewrite (apply_turn _ _ _ _ k a Hk). cbv beta iota.
  rewrite StraightAway_any by (intros ->; discriminate Hk). rewrite OnWall_mid, OnPeg_mid, InScanned_mid by done.
  rewrite FacingWall_mid by eauto. rewrite !require_true. split.
  - intros (_ & _ & _ & _ & _ & _ & [= Hsc] & [= Hw%negb_true_iff] & _ & Hl & _).
    pose proof (passage_cell c (TURN d a) Hc Hw) as Hd. rewrite LessFlood_turn in Hl by eauto.
    by injection Hl as Hl%Z.ltb_lt.
  - intros (Hsc & Hp & Hl%Z.ltb_lt). pose proof (passage_cell c (TURN d a) Hc Hp) as Hd.
    rewrite LessFlood_turn, Hl, Hsc by eauto. unfold passage in Hp. rewrite Hp.
    destruct k; try discriminate Hk; cbn [MoveStartCentered]; rewrite mid_centered; done.
Qed.

Lemma legal_roll c d : cell_in n c ->
  legal (mid c) d true SUB_MOVE_FORWARD <->
    passage m c d /\ val n fm (toward c d) < val n fm c /\ seen s (toward c d) = true.
Proof.
  intros Hc. unfold SubMoveLegal. rewrite (apply_leave n Hn) by auto. cbv beta iota.
  rewrite OnWall_side by done. rewrite !require_true, OnPeg_side, FacingWall_side.
  pose proof (side_placed n c d Hc) as (Hx & Hy & _). rewrite LessFlood_any by done. split.
  - intros (_ & _ & _ & Hst & [= Hw%negb_true_iff] & _ & Hsc & _). pose proof (passage_cell c d Hc Hw) as Hd.
    rewrite (StraightAway_from _ _ d c (mid_cell c d)) in Hst by done. rewrite InScanned_side in Hsc by done.
    injection Hst as Hst%Z.ltb_lt. injection Hsc as Hsc. done.
  - intros (Hp & Hl%Z.ltb_lt & Hsc). pose proof (passage_cell c d Hc Hp) as Hd.
    rewrite (StraightAway_from _ _ d c (mid_cell c d)), Hl, InScanned_side, Hsc by done. unfold passage in Hp. rewrite Hp.
    rewrite NextScanned_side, Hsc by auto. done.
Qed.

(** From the border the mouse enters [c] through. *)
Section entering.
Context (p : cell) (d : DIRECTION) (Hp : cell_in n p) (Hin : cell_in n (toward p d)).
Abbreviation c := (toward p d).

Lemma legal_stop : legal (side p d) d true SUB_MOVE_STOP <-> seen s c = true.
Proof.
  unfold SubMoveLegal. rewrite (apply_enter n Hn) by auto. cbv beta iota.
  rewrite StraightAway_any, OnWall_mid, OnPeg_mid, InScanned_mid by done. rewrite !require_true.
  cbn [MoveStartEdge]. rewrite edged_not_centered, side_edged.
  pose proof (mid_placed n c d Hin) as (Hx & Hy & _). rewrite LessFlood_any by done.
  cbn [MoveEndFacingWall MoveNextScanned]. naive_solver congruence.
Qed.

Lemma legal_forward : legal (side p d) d true SUB_MOVE_FORWARD <->
  seen s c = true /\ passage m c d /\ val n fm (toward c d) < val n fm c /\ seen s (toward c d) = true.
Proof.
  unfold SubMoveLegal. rewrite (apply_enter n Hn) by auto. cbv beta iota.
  rewrite OnWall_mid, OnPeg_mid, InScanned_mid, FacingWall_mid by auto. rewrite !require_true.
  pose proof (mid_placed n c d Hin) as (Hx & Hy & _). rewrite LessFlood_any by done. split.
  - intros (_ & _ & _ & Hst & _ & _ & [= Hsc] & [= Hw%negb_true_iff] & Hnx & _).
    pose proof (passage_cell c d Hin Hw) as Hd. rewrite (StraightAway_from _ _ d c (side_cell n Hn p d Hp Hin)) in Hst by done.
    rewrite NextScanned_mid in Hnx by done. injection Hst as Hst%Z.ltb_lt. by injection Hnx as Hnx.
  - intros (Hsc & Hps & Hl%Z.ltb_lt & Hnx). pose proof (passage_cell c d Hin Hps) as Hd.
    rewrite (StraightAway_from _ _ d c (side_cell n Hn p d Hp Hin)), Hl, NextScanned_mid, Hnx, Hsc by done.
    unfold passage in Hps. by rewrite Hps.
Qed.

Lemma legal_integrate k a : integrating k = Some a ->
  legal (side p d) d true k <-> passage m c (TURN d a) /\ seen s (toward c (TURN d a)) = true.
Proof.
  intros Hk. assert (travels k) as Ht by (by destruct k).
  unfold SubMoveLegal. rewrite (apply_integrate n Hn p d true k a Hk Hp Hin). cbv beta iota.
  rewrite StraightAway_any by (intros ->; discriminate Hk). rewrite OnWall_side, OnPeg_side, FacingWall_side by done.
  rewrite !require_true. pose proof (side_placed n c (TURN d a) Hin) as (Hx & Hy & _).
  rewrite LessFlood_any by (done || by destruct k). split.
  - intros (_ & _ & _ & _ & [= Hw%negb_true_iff] & _ & Hsc & _). pose proof (passage_cell c (TURN d a) Hin Hw) as Hd.
    rewrite InScanned_side in Hsc by done. by injection Hsc as Hsc.
  - intros [Hps Hsc]. pose proof (passage_cell c (TURN d a) Hin Hps) as Hd.
    rewrite InScanned_side, NextScanned_side, Hsc by eauto. unfold passage in Hps. rewrite Hps.
    destruct k; try discriminate Hk; cbn [MoveStartCentered MoveStartEdge]; rewrite edged_not_centered, side_edged; done.
Qed.
End entering.

(** *** What a move is judged by: the flood value of the cell it ends in or enters *)

Lemma Normalize_odd a d forth back : Normalize (2 * a + 1) d forth back = Ok a.
Proof. unfold Normalize. by autorewrite with halves. Qed.

Lemma Normalize_side p d : cell_in n p -> cell_in n (toward p d) ->
  Normalize (side p d).1 d EAST WEST = Ok (toward p d).1 /\ Normalize (side p d).2 d NORTH SOUTH = Ok (toward p d).2.
Proof.
  destruct p as [px py]. intros [Hx Hy] [Hx' Hy']. destruct d; simpl in *; rewrite Normalize_odd; split; try done;
    unfold Normalize; autorewrite with halves; simpl; try done; by rewrite w64_small by (unfold u64; lia).
Qed.

Lemma Judge_flood x y d mv k x1 y1 d1 mv1 c :
  SubMoveApply x y d mv k = (x1, y1, d1, mv1) -> cell_in n c ->
  Normalize x1 d1 EAST WEST = Ok c.1 -> Normalize y1 d1 NORTH SOUTH = Ok c.2 ->
  exists j, Judge x y d mv k fm m = Ok j /\ j_flood j = val n fm c /\ bytes j.
Proof.
  intros Ha Hc Hx Hy. unfold Judge. rewrite Ha, Hx, Hy. cbn [mbind res_bind]. rewrite flood_at, wall_at by done. cbn [mbind res_bind].
  destruct (Translate_nonneg c.1 c.2 d1 1) as [H1 H2]; [apply Hc..|]. destruct (SubMoveTranslate c.1 c.2 d1 1) as [x2 y2].
  destruct (FloodFillGet_total n fm Hf x2 y2 H1 H2) as (v & -> & Hv). cbn [mbind res_bind]. eexists. split; [done|].
  split; [done|]. split; [|done]. by apply (fl_vals n fm Hf).
Qed.

Abbreviation judged_as c d mv k v :=
  (exists j, Judge (c : Z * Z).1 (c : Z * Z).2 d mv k fm m = Ok j /\ j_flood j = v /\ bytes j).

Lemma judge_leave c d mv : cell_in n c -> cell_in n (toward c d) ->
  judged_as (mid c) d mv SUB_MOVE_START (val n fm (toward c d)).
Proof.
  intros Hc Hd. destruct (Normalize_side c d Hc Hd). eapply Judge_flood; [by apply (apply_leave n Hn); auto|done..].
Qed.

Lemma judge_turn c d mv k a : turning k = Some a -> cell_in n c -> judged_as (mid c) d mv k (val n fm c).
Proof.
  intros Hk Hc. eapply Judge_flood; [by apply (apply_turn _ _ _ _ k a)|done|apply Normalize_odd..].
Qed.

Lemma judge_roll c d mv : cell_in n c -> cell_in n (toward c d) ->
  judged_as (mid c) d mv SUB_MOVE_FORWARD (val n fm (toward c d)).
Proof.
  intros Hc Hd. destruct (Normalize_side c d Hc Hd). eapply Judge_flood; [by apply (apply_leave n Hn); auto|done..].
Qed.

Lemma judge_enter p d mv k : k = SUB_MOVE_STOP \/ k = SUB_MOVE_FORWARD -> cell_in n p -> cell_in n (toward p d) ->
  judged_as (side p d) d mv k (val n fm (toward p d)).
Proof. intros Hk Hp Hd. eapply Judge_flood; [by apply (apply_enter n Hn)|done|apply Normalize_odd..]. Qed.

Lemma judge_integrate p d mv k a : integrating k = Some a -> cell_in n p -> cell_in n (toward p d) ->
  cell_in n (toward (toward p d) (TURN d a)) ->
  judged_as (side p d) d mv k (val n fm (toward (toward p d) (TURN d a))).
Proof.
  intros Hk Hp Hd Hd'. destruct (Normalize_side (toward p d) (TURN d a) Hd Hd').
  eapply Judge_flood; [by apply (apply_integrate n Hn p d mv k a)|done..].
Qed.

(** *** The choice: no worse than any legal move *)

Lemma rank_flood a b : bytes a -> bytes b -> rank a <= rank b -> j_flood a <= j_flood b.
Proof. unfold bytes, rank. intros [Ha Ha'] [Hb Hb']. destruct (j_wall a), (j_wall b), (j_rotated a), (j_rotated b); simpl; lia. Qed.

Lemma chosen x y d mv k j : placed x y d -> k <> SUB_MOVE_DONE -> SubMoveLegal x y d mv k m s fm = Ok true ->
  Judge x y d mv k fm m = Ok j -> bytes j -> j_flood j < 255 ->
  exists r jr, SubMoveFindBest x y d mv fm m s = Ok r /\ r <> SUB_MOVE_DONE /\
    SubMoveLegal x y d mv r m s fm = Ok true /\ Judge x y d mv r fm m = Ok jr /\ j_flood jr <= j_flood j.
Proof.
  intros Hp Hk Hl Hj Hb Hlt.
  destruct (FindLoop_ok n m fm s Hm Hf Hs x y d mv all_moves SUB_MOVE_DONE done_judged Hp ltac:(done))
    as (r & jr & Hrun & Hbr & _ & Hwho & Hall).
  destruct (Hall k) as (jk & Hjk & Himp); [by apply all_moves_spec|done|]. rewrite Hj in Hjk. injection Hjk as <-.
  rewrite Improves_rank in Himp by done. apply Z.ltb_ge in Himp. pose proof (rank_flood _ _ Hbr Hb Himp) as Hle.
  destruct Hwho as [[-> ->]|(Hin & Hlr & Hjr)]; [simpl in Hle; lia|].
  exists r, jr. split; [done|]. split; [by apply all_moves_spec|]. done.
Qed.

End tests.
