(* ===== verification/MoveRun.v ===== *)
(** * The mouse in the maze (proofs over MoveTest)

    What the mouse knows is true of the world, and complete for the cells it has scanned
    ([explored]); so it never stands in a wall of the world, although it only looks at its own map.
    When the destination can be reached the run ends there: every turn of the loop lowers a
    measure made of the number of cells not scanned, the distance, and where the mouse stands. *)

From stdpp Require Import strings.
From S2P Require Import Prelude Bitmap Printing Map FloodFill ScanLog SubMove MoveTest MoveSpots.

#[local] Open Scope Z_scope.

(** ** Computations with fuel that settle *)

(** With enough fuel the value is [a]; with less it may only be missing. *)
Definition settles {A} (f : nat -> res A) (a : A) : Prop :=
  (exists k, forall ff, (k <= ff)%nat -> f ff = Ok a) /\ forall ff, f ff = Err FFuel \/ f ff = Ok a.

Lemma settles_ok {A} (r : res A) a : r = Ok a -> settles (fun _ => r) a.
Proof. intros ->. split; [by exists O|]. by right. Qed.

Lemma settles_bind {A B} (f : nat -> res A) (h : nat -> A -> res B) a b :
  settles f a -> settles (fun ff => h ff a) b -> settles (fun ff => x ← f ff; h ff x) b.
Proof.
  intros [[k Hk] Hf] [[k' Hk'] Hh]. split.
  - exists (k + k')%nat. intros ff Hle. rewrite Hk by lia. apply Hk'. lia.
  - intros ff. destruct (Hf ff) as [-> | ->]; [by left|]. apply Hh.
Qed.

Lemma settles_ext {A} (f h : nat -> res A) a : (forall ff, f ff = h ff) -> settles f a -> settles h a.
Proof. intros E [[k Hk] Hf]. split; [exists k; intros; rewrite <- E; auto|]. intros ff. rewrite <- E. auto. Qed.

Lemma calculate_stable k k' m fm r : FloodFillCalculate k m fm = r -> r <> Err FFuel -> (k <= k')%nat ->
  FloodFillCalculate k' m fm = r.
Proof.
  revert k' fm. induction k as [|k IH]; intros k' fm E Hr Hle; [by subst|]. destruct k' as [|k']; [lia|].
  cbn [FloodFillCalculate] in E |- *. destruct (FloodGetEvent fm) as [[[x y] f0]|]; [|done]. cbn [mbind res_bind] in *.
  destruct ((x =? max64) && (y =? max64)); [done|].
  destruct (FloodFillGet x y f0) as [cur|]; [|done]. cbn [mbind res_bind] in *.
  do 4 (match goal with |- context [Relax ?a ?b ?c ?d ?e ?f ?g ?h] => destruct (Relax a b c d e f g h); [|done] end;
    cbn [mbind res_bind] in E |- * ). apply IH; done || lia.
Qed.

Lemma calculate_settles k m fm f : (forall ff, (k <= ff)%nat -> FloodFillCalculate ff m fm = Ok f) ->
  settles (fun ff => FloodFillCalculate ff m fm) f.
Proof.
  intros Hk. split; [by exists k|]. intros ff. destruct (FloodFillCalculate ff m fm) as [f'|e] eqn:E.
  - right. rewrite <- (Hk (ff + k)%nat) by lia. rewrite (calculate_stable ff (ff + k) m fm _ E); done || lia.
  - assert (e = FFuel \/ e <> FFuel) as [-> |He] by (destruct e; auto); [by left|].
    pose proof (calculate_stable ff (ff + k) m fm _ E ltac:(congruence) ltac:(lia)) as E'. rewrite Hk in E' by lia. done.
Qed.

(** ** Distances *)

Abbreviation n := WIDTH.

Lemma n_range : 1 <= n < 2 ^ 31.
Proof. unfold WIDTH. lia. Qed.

(** The flood map holds the distances from [dest] on the map [m]. *)
Record flooded (m : MAP) (dest : cell) (fm : FLOOD_MAP) : Prop := {
  fd_ok : flood_ok n fm;
  fd_walk : forall c, cell_in n c -> val n fm c = 255 \/ walk m [dest] (val n fm c) c;
  fd_least : forall k c, walk m [dest] k c -> cell_in n c /\ val n fm c <= k
}.

Lemma walk_nonneg m ds k c : walk m ds k c -> 0 <= k.
Proof. induction 1; lia. Qed.

Lemma walk_mono m m' ds k c : (forall c d, cell_in n c -> passage m c d -> passage m' c d) ->
  (forall k c, walk m ds k c -> cell_in n c) -> walk m ds k c -> walk m' ds k c.
Proof.
  intros Hp Hin. induction 1 as [c Hc|k c d Hw IH Hps]; [by apply walk_start|]. apply walk_step; [done|]. eauto.
Qed.

Lemma walk_parity m dest k c : walk m [dest] k c -> (k + c.1 + c.2) mod 2 = (dest.1 + dest.2) mod 2.
Proof.
  induction 1 as [c Hc|k c d Hw IH Hp]; [apply list_elem_of_singleton in Hc as ->; f_equal; lia|].
  rewrite <- IH. destruct c as [x y], d; simpl; dlia.
Qed.

Section distances.
Context (m : MAP) (dest : cell) (fm : FLOOD_MAP).
Context (Hmw : Map.Width m = n) (Hmh : Map.Height m = n) (Hfd : flooded m dest fm).

Lemma val_range c : cell_in n c -> 0 <= val n fm c <= 255.
Proof. apply Hfd. Qed.

Lemma val_zero c : cell_in n c -> val n fm c = 0 -> c = dest.
Proof.
  intros Hc Hv. destruct (fd_walk _ _ _ Hfd c Hc) as [?|Hw]; [lia|]. rewrite Hv in Hw. inversion Hw as [c' Hd|k c' d Hw' Hp Ek]; subst.
  - by apply list_elem_of_singleton in Hd.
  - apply walk_nonneg in Hw'. lia.
Qed.

Lemma val_settled c d : cell_in n c -> passage m c d -> val n fm (toward c d) <= val n fm c + 1.
Proof.
  intros Hc Hp. pose proof (passage_in n m Hmw Hmh c d ltac:(pose proof n_range; lia) Hc Hp) as Hd.
  destruct (fd_walk _ _ _ Hfd c Hc) as [E|Hw].
  - pose proof (val_range _ Hd). lia.
  - by apply (fd_least _ _ _ Hfd _ _ (walk_step _ _ _ _ d Hw Hp)).
Qed.

(** Across a passage the distances differ by one. *)
Lemma val_lower c d : cell_in n c -> passage m c d -> val n fm c < 255 -> val n fm (toward c d) <= val n fm c ->
  val n fm (toward c d) = val n fm c - 1.
Proof.
  intros Hc Hp Hlt Hle. pose proof (passage_in n m Hmw Hmh c d ltac:(pose proof n_range; lia) Hc Hp) as Hd.
  destruct (fd_walk _ _ _ Hfd c Hc) as [E|Hw]; [lia|]. destruct (fd_walk _ _ _ Hfd _ Hd) as [E|Hw']; [lia|].
  pose proof (walk_parity _ _ _ _ Hw) as P. pose proof (walk_parity _ _ _ _ Hw') as P'.
  assert (passage m (toward c d) (TURN d BACK)) as Hb by (by apply (passage_back n n_range)).
  pose proof (val_settled (toward c d) (TURN d BACK) Hd Hb) as Hs. rewrite toward_back in Hs.
  assert (val n fm (toward c d) = val n fm c \/ val n fm (toward c d) = val n fm c - 1) as [E|E] by lia; [|done].
  rewrite E in P'. revert P P'. generalize (val n fm c). intros v. destruct c as [x y], d; simpl; dlia.
Qed.

(** From every cell but the destination a passage leads closer. *)
Lemma val_descends c : cell_in n c -> 0 < val n fm c < 255 ->
  exists d, passage m c d /\ val n fm (toward c d) < val n fm c.
Proof.
  intros Hc Hv. destruct (fd_walk _ _ _ Hfd c Hc) as [E|Hw]; [lia|].
  remember (val n fm c) as v eqn:Ev. destruct Hw as [c' Hd|k c' d Hw' Hp]; [lia|].
  destruct (fd_least _ _ _ Hfd _ _ Hw') as [Hc' Hle]. exists (TURN d BACK). rewrite toward_back. split; [|lia].
  by apply (passage_back n n_range).
Qed.

(** A cell that can be reached has a distance: the distances on the way to it are those of different cells. *)
Lemma val_reached k c : walk m [dest] k c -> val n fm c < 255.
Proof.
  intros Hw. assert (forall j, 0 <= j <= val n fm c -> exists c', cell_in n c' /\ val n fm c' = j) as Hall.
  { induction Hw as [c Hd|k c d Hw IH Hp]; intros j Hj.
    - destruct (fd_least _ _ _ Hfd 0 c) as [Hc Hle]; [by apply walk_start|]. exists c. split; [done|lia].
    - destruct (fd_least _ _ _ Hfd _ _ Hw) as [Hc _]. pose proof (val_settled c d Hc Hp).
      destruct (decide (j <= val n fm c)); [apply IH; lia|]. exists (toward c d). split; [|lia].
      by apply (fd_least _ _ _ Hfd _ _ (walk_step _ _ _ _ d Hw Hp)). }
  destruct (fd_least _ _ _ Hfd _ _ Hw) as [Hc _]. pose proof (val_range c Hc).
  destruct (decide (val n fm c = 255)) as [E|]; [|lia]. exfalso.
  assert (seqZ 0 256 ⊆+ (val n fm <$> cells n)) as Hsub%submseteq_length.
  { apply NoDup_submseteq; [apply NoDup_seqZ|]. intros j Hj%elem_of_seqZ. destruct (Hall j ltac:(lia)) as (c' & Hc' & <-).
    apply list_elem_of_fmap. exists c'. split; [done|]. apply elem_of_cells; [unfold WIDTH; lia|done]. }
  vm_compute in Hsub. lia.
Qed.
End distances.

(** ** What the mouse knows *)

Record explored (g : MAZE) : Prop := {
  ex_world : map_ok (WorldMap g);
  ex_world_w : Map.Width (WorldMap g) = n;
  ex_world_h : Map.Height (WorldMap g) = n;
  ex_mouse : map_ok (MouseMap g);
  ex_mouse_w : Map.Width (MouseMap g) = n;
  ex_mouse_h : Map.Height (MouseMap g) = n;
  ex_flood : sized n (FloodMap g);
  ex_scan : scan_ok (ScanLog g);
  ex_scan_w : ScanLog.Width (ScanLog g) = n;
  ex_scan_h : ScanLog.Height (ScanLog g) = n;
  (* every wall of the mouse's map is a wall of the world *)
  ex_real : forall w, nonneg w -> has_wall (MouseMap g) w = true -> has_wall (WorldMap g) w = true;
  (* all walls of a scanned cell are on the mouse's map *)
  ex_seen : forall c d, cell_in n c -> seen (ScanLog g) c = true ->
    has_wall (WorldMap g) (wall_of c.1 c.2 d) = true -> has_wall (MouseMap g) (wall_of c.1 c.2 d) = true
}.

(** The passages of the world are passages of the mouse's map, and the other way round at
    scanned cells. *)
Lemma world_passage g c d : explored g -> cell_in n c -> passage (WorldMap g) c d -> passage (MouseMap g) c d.
Proof.
  intros Hg [Hx Hy]. unfold passage. rewrite <- !not_true_iff_false. intros Hw Hm. apply Hw.
  apply (ex_real g Hg); [apply wall_of_nonneg; lia|done].
Qed.

Lemma seen_passage g c d : explored g -> cell_in n c -> seen (ScanLog g) c = true ->
  passage (MouseMap g) c d -> passage (WorldMap g) c d.
Proof.
  intros Hg Hc Hs. unfold passage. rewrite <- !not_true_iff_false. intros Hm Hw. apply Hm. by apply (ex_seen g Hg).
Qed.

Lemma seen_cell g c : explored g -> seen (ScanLog g) c = true -> cell_in n c.
Proof.
  intros Hg. unfold seen, scanned. case_decide as Hin; [intros _|done]. unfold in_log in Hin.
  by rewrite (ex_scan_w g Hg), (ex_scan_h g Hg) in Hin.
Qed.

Lemma Flood_ok g dest : explored g -> cell_in n dest ->
  exists f, settles (fun ff => Flood ff dest.1 dest.2 g) (with_flood f g) /\ flooded (MouseMap g) dest f.
Proof.
  intros Hg Hd. destruct (FloodFillClear_ok n _ (ex_flood g Hg)) as (f1 & Hrun1 & Hf1 & Hc1).
  destruct (mark_ok n f1 dest 0 Hf1 Hd ltac:(lia)) as (f2 & Hrun2 & Hf2 & Hmk).
  pose proof (ex_mouse_w g Hg) as Hw. pose proof (ex_mouse_h g Hg) as Hh.
  assert (forall c, c ∈ [dest] -> cell_in n c) as Hds by (by intros c ->%list_elem_of_singleton).
  assert (inv n (MouseMap g) [dest] f2) as Hi.
  { constructor; [done|..].
    - intros c Hc. destruct (Hmk c Hc) as [-> _]. case_decide as Hin; [right; apply walk_start; set_solver|left; by apply Hc1].
    - intros c ->%list_elem_of_singleton. destruct (Hmk dest Hd) as [-> _]. by rewrite decide_True.
    - intros c Hc He _ d Hp. destruct (Hmk c Hc) as [Ev Ee]. rewrite Ee in He. case_decide as Hin; [done|].
      destruct (Hc1 c Hc) as [E1 _]. rewrite Ev, E1.
      pose proof (fl_vals n f2 Hf2 _ (passage_in n _ Hw Hh c d ltac:(pose proof n_range; lia) Hc Hp)). lia. }
  destruct (calculate_ok n _ [dest] (ex_mouse g Hg) Hw Hh Hds f2 Hi) as (k & f & Hrun & Hi' & Hnone).
  exists f. split.
  - pose proof (calculate_settles k _ _ _ Hrun) as Hs. unfold Flood. rewrite Hrun1. cbn [mbind res_bind]. unfold FloodFillSetDestination. rewrite Hrun2. cbn [mbind res_bind].
    apply (settles_bind _ (fun _ f => Ok (with_flood f g)) f); [done|by apply settles_ok].
  - constructor; [apply Hi'|apply Hi'|]. intros j c Hj. by apply (solved n _ [dest] Hw Hh Hds f Hi' Hnone j c).
Qed.

(** *** Copying the walls of a cell *)

Lemma ScanWalls_known dirs c world mouse changed : map_ok world -> map_ok mouse -> cell_in n c ->
  (forall d, d ∈ dirs -> has_wall world (wall_of c.1 c.2 d) = true -> has_wall mouse (wall_of c.1 c.2 d) = true) ->
  ScanWalls dirs c.1 c.2 world mouse changed = Ok (mouse, changed).
Proof.
  intros Hw Hm [Hx Hy]. induction dirs as [|d dirs IH]; intros Hall; [done|]. cbn [ScanWalls].
  rewrite !MapGetWall_ok by (done || lia). cbn [mbind res_bind].
  destruct (has_wall mouse (wall_of c.1 c.2 d)) eqn:Em; [apply IH; set_solver|].
  destruct (has_wall world (wall_of c.1 c.2 d)) eqn:Ew; [|apply IH; set_solver].
  rewrite Hall in Em by (done || set_solver). done.
Qed.

(** One more direction to look at. *)
Lemma more_dirs (w : wall) c d dirs : (exists d', d' ∈ d :: dirs /\ w = wall_of c.1 c.2 d') <->
  w = wall_of c.1 c.2 d \/ exists d', d' ∈ dirs /\ w = wall_of c.1 c.2 d'.
Proof. setoid_rewrite elem_of_cons. naive_solver. Qed.

Lemma ScanWalls_ok dirs c world mouse changed : map_ok world -> map_ok mouse ->
  Map.Width world = Map.Width mouse -> Map.Height world = Map.Height mouse -> cell_in n c ->
  exists mouse' changed', ScanWalls dirs c.1 c.2 world mouse changed = Ok (mouse', changed') /\
    map_ok mouse' /\ Map.Width mouse' = Map.Width mouse /\ Map.Height mouse' = Map.Height mouse /\
    (changed' = false -> mouse' = mouse /\ changed = false) /\
    (forall w, nonneg w -> has_wall mouse' w = true <->
      has_wall mouse w = true \/ has_wall world w = true /\ exists d, d ∈ dirs /\ w = wall_of c.1 c.2 d).
Proof.
  intros Hw. revert mouse changed. induction dirs as [|d dirs IH]; intros mouse changed Hm HW HH Hc.
  { exists mouse, changed. do 5 (split; [done|]). intros w _. set_solver. }
  pose proof Hc as [Hx Hy]. cbn [ScanWalls]. rewrite !MapGetWall_ok by (done || lia). cbn [mbind res_bind].
  destruct (has_wall mouse (wall_of c.1 c.2 d)) eqn:Em; [|destruct (has_wall world (wall_of c.1 c.2 d)) eqn:Ew].
  - destruct (IH mouse changed Hm HW HH Hc) as (m' & ch' & Hrun & ? & ? & ? & ? & Hall). exists m', ch'. do 5 (split; [done|]).
    intros w Hn. rewrite Hall, more_dirs by done. naive_solver.
  - destruct (MapSetWall_ok mouse c.1 c.2 d true Hm) as (m1 & Hset & Hm1 & HW1 & HH1 & Hb1); [lia..|].
    rewrite Hset. cbn [mbind res_bind].
    destruct (IH m1 true Hm1 ltac:(congruence) ltac:(congruence) Hc) as (m' & ch' & Hrun & ? & ? & ? & Hch & Hall).
    exists m', ch'. split; [done|]. split; [done|]. split; [congruence|]. split; [congruence|]. split; [by intros [? ?]%Hch|].
    assert (inner mouse (wall_of c.1 c.2 d)) as Hin by (apply dec_stable; intros Hi; unfold has_wall in Em; by rewrite decide_False in Em).
    intros w Hn. rewrite Hall, Hb1, more_dirs by done. case_decide; naive_solver.
  - destruct (IH mouse changed Hm HW HH Hc) as (m' & ch' & Hrun & ? & ? & ? & ? & Hall). exists m', ch'. do 5 (split; [done|]).
    intros w Hn. rewrite Hall, more_dirs by done. naive_solver congruence.
Qed.

(** *** The log *)

Lemma log_scan g c : explored g -> cell_in n c ->
  exists s', ScanLogSet c.1 c.2 true (ScanLog g) = Ok s' /\ scan_ok s' /\
    ScanLog.Width s' = n /\ ScanLog.Height s' = n /\
    forall c', cell_in n c' -> seen s' c' = if decide (c' = c) then true else seen (ScanLog g) c'.
Proof.
  intros Hg Hc. pose proof (ex_scan g Hg) as Hs.
  destruct (scan_set_get (ScanLog g) c.1 c.2 true Hs) as (s' & Hrun & Hs' & Hget).
  { unfold in_log. by rewrite (ex_scan_w g Hg), (ex_scan_h g Hg). }
  exists s'. split; [done|]. split; [done|]. unfold ScanLogSet in Hrun.
  destruct (BitmapOn (Flags (ScanLog g)) (XY_TO_INDEX c.1 c.2 (ScanLog g))) as [fl|] eqn:E; [|done]. injection Hrun as <-.
  split; [apply Hg|]. split; [apply Hg|]. intros c' [Hx Hy]. destruct (Hget c'.1 c'.2) as (b & Hb & _ & Hb'); [lia..|].
  rewrite ScanLogGet_ok in Hb, Hb' by (done || lia). injection Hb as <-. injection Hb' as Hb'. unfold seen. rewrite Hb'.
  destruct c' as [x' y'], c as [x y]. simpl. by repeat case_decide.
Qed.

(** The cells still to scan. *)
Definition unseen (g : MAZE) : nat := length (filter (fun c => seen (ScanLog g) c = false) (cells n)).

Section counting.
Context {A : Type} (P Q : A -> bool).

Lemma count_le (l : list A) : (forall a, a ∈ l -> P a = true -> Q a = true) ->
  (length (filter (fun a => Q a = false) l) <= length (filter (fun a => P a = false) l))%nat.
Proof.
  induction l as [|a l IH]; intros Hle; [done|]. rewrite !filter_cons. specialize (IH ltac:(set_solver)).
  specialize (Hle a ltac:(set_solver)). destruct (P a), (Q a); simpl; lia.
Qed.

Lemma count_lt (l : list A) a : (forall a, a ∈ l -> P a = true -> Q a = true) -> a ∈ l -> P a = false -> Q a = true ->
  (length (filter (fun a => Q a = false) l) < length (filter (fun a => P a = false) l))%nat.
Proof.
  induction l as [|b l IH]; intros Hle Hin Hp Hq; [by apply not_elem_of_nil in Hin|]. rewrite !filter_cons.
  apply elem_of_cons in Hin as [->|Hin].
  - rewrite Hp, Hq. simpl. pose proof (count_le l ltac:(set_solver)). lia.
  - specialize (IH ltac:(set_solver) Hin Hp Hq). specialize (Hle b ltac:(set_solver)).
    destruct (P b), (Q b); simpl; lia.
Qed.
End counting.

(** ** Printing reads only what there is *)

Lemma each_total k i step body : (forall i, 0 <= i -> total (body i)) -> 0 <= i -> total (each k i step body).
Proof.
  intros Hb. revert i. induction k as [|k IH]; intros i Hi; [by eexists|]. cbn [each].
  destruct (Hb i Hi) as [l ->]. cbn [mbind res_bind]. destruct (IH (w64 (i + step))) as [r ->]; [apply w64_nonneg|]. by eexists.
Qed.

Section pictures.
Context (m : MAP) (Hm : map_ok m).

Lemma PrintSouth_total y : 0 <= y -> total (PrintSouth m y).
Proof.
  intros Hy. unfold PrintSouth. destruct (each_total (Z.to_nat (Map.Width m)) 0 1
    (fun x => wall ← MapGetWall x y SOUTH m; Ok ["+"; if (wall : bool) then "---" else "   "])) as [l ->]; [|done|by eexists].
  intros x Hx. rewrite MapGetWall_ok by done. by eexists.
Qed.

Lemma PrintEast_total y : 0 <= y -> total (PrintEast m y).
Proof. intros Hy. unfold PrintEast. rewrite MapGetWall_ok by (destruct Hm; done || lia). by eexists. Qed.

(** Both pictures: rows of cells with a wall below. *)
Lemma picture_total (row : Z -> Z -> res text) : (forall y x, 0 <= y -> 0 <= x -> total (row y x)) ->
  total (each (S (Z.to_nat (Map.Height m))) (Map.Height m) (-1) (fun y =>
    cells ← (if y =? Map.Height m then Ok [] else
      l ← each (Z.to_nat (Map.Width m)) 0 1 (row y); e ← PrintEast m y; Ok (l ++ e));
    south ← PrintSouth m y; Ok (cells ++ south))).
Proof.
  intros Hrow. apply each_total; [|destruct Hm; lia]. intros y Hy.
  assert (total (if y =? Map.Height m then Ok [] else
      l ← each (Z.to_nat (Map.Width m)) 0 1 (row y); e ← PrintEast m y; Ok (l ++ e))) as [c ->].
  { destruct (y =? Map.Height m); [by eexists|].
    destruct (each_total (Z.to_nat (Map.Width m)) 0 1 (row y)) as [l ->]; [auto|done|]. cbn [mbind res_bind].
    destruct (PrintEast_total y Hy) as [e ->]. by eexists. }
  cbn [mbind res_bind]. destruct (PrintSouth_total y Hy) as [s' ->]. by eexists.
Qed.

Lemma PrintMapFlood_total fm x y d : flood_ok n fm -> total (PrintMapFlood m fm x y d).
Proof.
  intros Hf. apply picture_total. intros j i Hj Hi. unfold FloodCell. rewrite MapGetWall_ok by done. cbn [mbind res_bind].
  destruct ((x =? i) && (y =? j)); [by eexists|].
  destruct (FloodFillGet_total n fm Hf i j Hi Hj) as (v & -> & _). by eexists.
Qed.

Lemma PrintMapScan_total s x y d : scan_ok s -> total (PrintMapScan m s x y d).
Proof.
  intros Hs. apply picture_total. intros j i Hj Hi. unfold ScanCell. rewrite MapGetWall_ok, ScanLogGet_ok by done. by eexists.
Qed.
End pictures.

(** ** Scanning *)

(** Nothing new: the same map, distances and scanned cells. *)
Definition same (g g' : MAZE) : Prop :=
  MouseMap g' = MouseMap g /\ FloodMap g' = FloodMap g /\ forall c, cell_in n c -> seen (ScanLog g') c = seen (ScanLog g) c.

Record learnt (dest : cell) (g g' : MAZE) : Prop := {
  ln_explored : explored g';
  ln_flooded : flooded (MouseMap g') dest (FloodMap g');
  ln_world : WorldMap g' = WorldMap g;
  ln_seen : forall c, cell_in n c -> seen (ScanLog g) c = true -> seen (ScanLog g') c = true;
  ln_less : same g g' \/ (unseen g' < unseen g)%nat
}.

Lemma learnt_refl dest g : explored g -> flooded (MouseMap g) dest (FloodMap g) -> learnt dest g g.
Proof. intros Hg Hf. constructor; try done. by left. Qed.

(** The maps and the log after a cell was scanned, the distances still to compute. *)
Lemma scanned_explored g c mouse s' :
  explored g -> cell_in n c -> map_ok mouse -> Map.Width mouse = n -> Map.Height mouse = n ->
  (forall w, nonneg w -> has_wall mouse w = true <-> has_wall (MouseMap g) w = true \/
     has_wall (WorldMap g) w = true /\ exists d, d ∈ [NORTH; EAST; SOUTH; WEST] /\ w = wall_of c.1 c.2 d) ->
  scan_ok s' -> ScanLog.Width s' = n -> ScanLog.Height s' = n ->
  (forall c', cell_in n c' -> seen s' c' = if decide (c' = c) then true else seen (ScanLog g) c') ->
  explored (with_scan s' (with_mouse mouse g)).
Proof.
  intros Hg Hc Hm Hmw Hmh Hwall Hs Hsw Hsh Hseen. destruct Hg as [? ? ? ? ? ? ? ? ? ? Hreal Hknown].
  constructor; cbn [WorldMap MouseMap FloodMap MoveTest.ScanLog with_scan with_mouse]; try done.
  - intros w Hn [Hw|[Hw _]]%Hwall; auto.
  - intros c' d Hc' Hse Hw. pose proof (wall_of_nonneg c'.1 c'.2 d ltac:(apply Hc') ltac:(apply Hc')) as Hn.
    apply Hwall; [done|]. rewrite Hseen in Hse by done. case_decide as Hd; [subst|left; by apply Hknown].
    right. split; [done|]. exists d. split; [destruct d; set_solver|done].
Qed.

Lemma unseen_lt g s' c : cell_in n c -> seen (ScanLog g) c = false ->
  (forall c', cell_in n c' -> seen s' c' = if decide (c' = c) then true else seen (ScanLog g) c') ->
  forall mouse f, (unseen (mkMaze mouse (WorldMap g) f s') < unseen g)%nat.
Proof.
  intros Hc Hun Hseen mouse f. unfold unseen. cbn [MoveTest.ScanLog]. apply (count_lt _ _ _ c).
  - intros c' Hc'%elem_of_cells Hs; [|unfold WIDTH; lia]. rewrite Hseen by done. by case_decide.
  - by apply elem_of_cells.
  - done.
  - rewrite Hseen by done. by rewrite decide_True.
Qed.

Lemma Scan_ok dest g c d : explored g -> flooded (MouseMap g) dest (FloodMap g) -> cell_in n dest ->
  cell_in n c -> cell_in n (toward c d) ->
  exists out g', settles (fun ff => Scan ff (mid c).1 (mid c).2 d dest.1 dest.2 g) (out, g') /\ learnt dest g g' /\
    seen (MoveTest.ScanLog g') (toward c d) = true /\ (seen (ScanLog g) (toward c d) = true -> same g g').
Proof.
  intros Hg Hf Hdest Hc Hd. set (t := toward c d) in *.
  destruct (log_scan g t Hg Hd) as (s' & Hlog & Hs' & Hsw & Hsh & Hseen).
  destruct (ScanWalls_ok [NORTH; EAST; SOUTH; WEST] t (WorldMap g) (MouseMap g) false) as
    (mouse & changed & Hrun & Hm & Hmw & Hmh & Hch & Hwall);
    [apply Hg|apply Hg|by rewrite (ex_world_w g Hg), (ex_mouse_w g Hg)|by rewrite (ex_world_h g Hg), (ex_mouse_h g Hg)|done|].
  rewrite (ex_mouse_w g Hg) in Hmw. rewrite (ex_mouse_h g Hg) in Hmh.
  pose proof (scanned_explored g t mouse s' Hg Hd Hm Hmw Hmh Hwall Hs' Hsw Hsh Hseen) as Hg'.
  set (g1 := with_scan s' (with_mouse mouse g)) in *.
  assert (forall ff, Scan ff (mid c).1 (mid c).2 d dest.1 dest.2 g =
    if changed then g2 ← Flood ff dest.1 dest.2 g1; Ok (["scanning"; newline; "found new walls at " +:+ halves (mid t).1 (mid t).2; newline], g2)
    else Ok (["scanning"; newline], g1)) as Escan.
  { intros ff. unfold Scan. rewrite (mid_translate2 n n_range c d Hc Hd). fold t. pose proof (mid_half_x t) as Hx. pose proof (mid_half_y t) as Hy.
    destruct (mid t) as [sx sy]. simpl in Hx, Hy. rewrite Hx, Hy, Hrun. cbn [mbind res_bind]. by rewrite Hlog. }
  assert (forall c', cell_in n c' -> seen (ScanLog g) c' = true -> seen s' c' = true) as Hmono.
  { intros c' Hc' Hs. rewrite Hseen by done. by case_decide. }
  assert (seen s' t = true) as Ht by (rewrite Hseen by done; by rewrite decide_True).
  assert (seen (ScanLog g) t = true -> changed = false /\ mouse = MouseMap g /\ forall c', cell_in n c' -> seen s' c' = seen (ScanLog g) c') as Hold.
  { intros Hs. rewrite ScanWalls_known in Hrun by (try apply Hg; try done; intros d' _; by apply (ex_seen g Hg)).
    injection Hrun as <- <-. split; [done|]. split; [done|]. intros c' Hc'. rewrite Hseen by done. case_decide; congruence. }
  destruct changed.
  - destruct (Flood_ok g1 dest Hg' Hdest) as (f & Hset & Hfl). eexists _, (with_flood f g1).
    split; [eapply settles_ext; [symmetry; apply Escan|]; eapply settles_bind; [done|by apply settles_ok]|].
    split; [|split; [done|intros Hs; by destruct (Hold Hs)]].
    constructor; try done; [destruct Hg'; constructor; try done; apply Hfl|].
    right. apply (unseen_lt g s' t); try done. destruct (seen (ScanLog g) t) eqn:E; [by destruct (Hold eq_refl)|done].
  - destruct (Hch eq_refl) as [-> _]. eexists _, g1.
    split; [eapply settles_ext; [symmetry; apply Escan|by apply settles_ok]|].
    split; [|split; [done|intros Hs; destruct (Hold Hs) as (_ & _ & ?); done]].
    constructor; try done. destruct (seen (ScanLog g) t) eqn:E.
    + left. split; [done|]. split; [done|]. by apply Hold.
    + right. by apply (unseen_lt g s' t).
Qed.

Lemma PrintMaps_total g dest x y d : explored g -> flooded (MouseMap g) dest (FloodMap g) -> total (PrintMaps x y d g).
Proof.
  intros Hg Hf. unfold PrintMaps.
  destruct (PrintMapScan_total (WorldMap g) (ex_world g Hg) (MoveTest.ScanLog g) (x / 2) (y / 2) d (ex_scan g Hg)) as [w ->].
  cbn [mbind res_bind].
  destruct (PrintMapFlood_total (MouseMap g) (ex_mouse g Hg) (FloodMap g) (x / 2) (y / 2) d (fd_ok _ _ _ Hf)) as [m ->].
  by eexists.
Qed.

(** The scan and the pictures: with what the scan changed, or nothing. *)
Lemma UpdateMap_after ff x y d mv dest g : UpdateMap ff x y d mv dest.1 dest.2 g =
  ('(out, g) ← (if IS_EDGED x y then Ok (["cant scan, not in middle"; newline], g)
     else wall ← MapGetWall (x / 2) (y / 2) d (WorldMap g);
       if (wall : bool) then Ok (["cant scan, wall too close"; newline], g) else Scan ff x y d dest.1 dest.2 g);
   maps ← PrintMaps x y d g; Ok (out ++ maps, g)).
Proof. done. Qed.

Lemma UpdateMap_mid dest g c d mv : explored g -> flooded (MouseMap g) dest (FloodMap g) -> cell_in n dest -> cell_in n c ->
  exists out g', settles (fun ff => UpdateMap ff (mid c).1 (mid c).2 d mv dest.1 dest.2 g) (out, g') /\ learnt dest g g' /\
    (passage (WorldMap g) c d -> seen (MoveTest.ScanLog g') (toward c d) = true) /\
    (seen (ScanLog g) (toward c d) = true -> same g g').
Proof.
  intros Hg Hf Hdest Hc.
  assert (forall out g', settles (fun ff => if has_wall (WorldMap g) (wall_of c.1 c.2 d) then Ok (["cant scan, wall too close"; newline], g)
      else Scan ff (mid c).1 (mid c).2 d dest.1 dest.2 g) (out, g') -> learnt dest g g' ->
    exists out', settles (fun ff => UpdateMap ff (mid c).1 (mid c).2 d mv dest.1 dest.2 g) (out', g')) as Hprint.
  { intros out g' Hs Hl. destruct (PrintMaps_total g' dest (mid c).1 (mid c).2 d (ln_explored _ _ _ Hl) (ln_flooded _ _ _ Hl)) as [maps Hmaps].
    exists (out ++ maps). eapply settles_ext; [intros ff; symmetry; apply UpdateMap_after|].
    eapply (settles_bind _ _ (out, g')); [|cbv beta iota; rewrite Hmaps; by apply settles_ok]. rewrite edged_not_centered, mid_centered.
    cbn [negb]. cbv iota. rewrite mid_half_x, mid_half_y, MapGetWall_ok by (apply Hg || apply Hc). done. }
  destruct (has_wall (WorldMap g) (wall_of c.1 c.2 d)) eqn:Ew.
  - pose proof (learnt_refl dest g Hg Hf) as Hl. destruct (Hprint _ g ltac:(by apply settles_ok) Hl) as [out Hout].
    exists out, g. split; [done|]. split; [done|]. split; [unfold passage; by rewrite Ew|]. intros _. by split.
  - pose proof (passage_in n _ (ex_world_w g Hg) (ex_world_h g Hg) c d ltac:(pose proof n_range; lia) Hc Ew) as Hd.
    destruct (Scan_ok dest g c d Hg Hf Hdest Hc Hd) as (out & g' & Hs & Hl & Ht & Hsame).
    destruct (Hprint out g' Hs Hl) as [out' Hout]. by exists out', g'.
Qed.

Lemma UpdateMap_side dest g c d mv : explored g -> flooded (MouseMap g) dest (FloodMap g) ->
  exists out, settles (fun ff => UpdateMap ff (side c d).1 (side c d).2 d mv dest.1 dest.2 g) (out, g).
Proof.
  intros Hg Hf. destruct (PrintMaps_total g dest (side c d).1 (side c d).2 d Hg Hf) as [maps Hmaps].
  eexists. eapply settles_ext; [intros ff; symmetry; apply UpdateMap_after|].
  rewrite edged_not_centered, side_edged. cbn [negb mbind res_bind]. cbv iota. rewrite Hmaps. by apply settles_ok.
Qed.

(** ** Where the mouse is *)

Inductive spot := Mid (c : cell) | Side (c : cell).

Definition place (sp : spot) (d : DIRECTION) : Z * Z := match sp with Mid c => mid c | Side c => side c d end.

(** The cell the mouse is in, or enters. *)
Definition target (sp : spot) (d : DIRECTION) : cell := match sp with Mid c => c | Side c => toward c d end.

(** The mouse may stand there: in the middle of a scanned cell, or on its way through a
    passage of the world into one; it rolls through a cell only when it can leave it straight on. *)
Definition situated (g : MAZE) (sp : spot) (d : DIRECTION) (moving : bool) : Prop :=
  seen (MoveTest.ScanLog g) (target sp d) = true /\
  match sp with
  | Mid c => moving = true -> passage (MouseMap g) c d /\ val n (FloodMap g) (toward c d) < val n (FloodMap g) c /\
      seen (MoveTest.ScanLog g) (toward c d) = true
  | Side c => cell_in n c /\ passage (WorldMap g) c d /\ moving = true
  end.

Definition running (dest : cell) (sp : spot) (r : RUN) : Prop :=
  (posX r = (place sp (heading r)).1 /\ posY r = (place sp (heading r)).2) /\ explored (maze r) /\ flooded (MouseMap (maze r)) dest (FloodMap (maze r)) /\
  situated (maze r) sp (heading r) (is_moving r).

Lemma situated_in g sp d mv : explored g -> situated g sp d mv -> cell_in n (target sp d).
Proof. intros Hg [Hs _]. by apply (seen_cell g). Qed.

(** It stands in no wall of the world. *)
Lemma situated_clear g sp d mv : explored g -> situated g sp d mv ->
  placed (place sp d).1 (place sp d).2 d /\ clear (WorldMap g) (place sp d).1 (place sp d).2.
Proof.
  intros Hg Hsit. pose proof (situated_in g sp d mv Hg Hsit) as Ht. destruct sp as [c|c]; simpl in *.
  - split; [by apply (mid_placed n)|apply mid_clear].
  - destruct Hsit as (_ & Hc & Hp & _). split; [by apply (side_placed n)|]. by apply (side_clear n n_range).
Qed.

Lemma situated_bounds g sp d mv : explored g -> situated g sp d mv ->
  0 <= (place sp d).1 <= WIDTH * 2 /\ 0 <= (place sp d).2 <= HEIGHT * 2.
Proof.
  intros Hg Hsit. pose proof (situated_in g sp d mv Hg Hsit) as [Hx Hy]. unfold WIDTH, HEIGHT in *. destruct sp as [c|c]; simpl in *.
  - unfold mid. simpl. lia.
  - destruct Hsit as (_ & [Hcx Hcy] & _ & _). destruct c as [cx cy], d; simpl in *; lia.
Qed.

(** ** One turn of the loop *)

(** What a turn found out when it has looked in front of the mouse. *)
Record looked (dest : cell) (sp : spot) (r : RUN) (g' : MAZE) : Prop := {
  lk_learnt : learnt dest (maze r) g';
  lk_situated : situated g' sp (heading r) (is_moving r);
  lk_ahead : match sp with
    | Mid c => passage (WorldMap g') c (heading r) -> seen (MoveTest.ScanLog g') (toward c (heading r)) = true
    | Side _ => same (maze r) g'
    end;
  lk_rolling : is_moving r = true -> same (maze r) g'
}.

Lemma UpdateMap_ok dest sp r : running dest sp r -> cell_in n dest ->
  exists out g', settles (fun ff => UpdateMap ff (posX r) (posY r) (heading r) (is_moving r) dest.1 dest.2 (maze r)) (out, g') /\
    looked dest sp r g'.
Proof.
  intros (Hpos & Hg & Hf & Hsit) Hdest. destruct r as [x y d mv g]. simpl in *. pose proof (situated_in g sp d mv Hg Hsit) as Ht.
  destruct sp as [c|c]; cbn [place target] in *; destruct Hpos as [-> ->].
  - destruct (UpdateMap_mid dest g c d mv Hg Hf Hdest Ht) as (out & g' & Hs & Hl & Hah & Hsame).
    exists out, g'. split; [done|]. destruct Hsit as [Hse Hmv].
    constructor; cbn [maze heading is_moving]; [done|split; [by apply (ln_seen _ _ _ Hl)|]| |].
    + intros Hm. destruct (Hmv Hm) as (Hp & Hv & Hs'). destruct (Hsame Hs') as (-> & -> & Hss).
      split; [done|]. split; [done|]. rewrite Hss; [done|by apply (seen_cell g)].
    + by rewrite (ln_world _ _ _ Hl).
    + intros Hm. apply Hsame. by apply Hmv.
  - destruct (UpdateMap_side dest g c d mv Hg Hf) as [out Hs]. exists out, g. split; [done|].
    constructor; simpl; try done. by apply learnt_refl.
Qed.

(** The body of the loop is the choice and its application, on what the turn found out. *)
Lemma RunBody_ok dest sp r : running dest sp r -> cell_in n dest ->
  exists out e g', settles (fun ff => RunBody ff dest.1 dest.2 r) (out, e) /\ looked dest sp r g' /\
    exists k, SubMoveFindBest (posX r) (posY r) (heading r) (is_moving r) (FloodMap g') (MouseMap g') (MoveTest.ScanLog g') = Ok k /\
      (k = SUB_MOVE_DONE /\ e = inl (NOT_POSSIBLE_MOVE, g') \/
       k <> SUB_MOVE_DONE /\
       SubMoveLegal (posX r) (posY r) (heading r) (is_moving r) k (MouseMap g') (MoveTest.ScanLog g') (FloodMap g') = Ok true /\
       let '(x', y', d', mv') := SubMoveApply (posX r) (posY r) (heading r) (is_moving r) k in e = inr (mkRun x' y' d' mv' g')).
Proof.
  intros Hr Hdest. destruct (UpdateMap_ok dest sp r Hr Hdest) as (out & g' & Hup & Hlook).
  pose proof Hlook as [[Hg' Hf' _ _ _] Hsit _ _]. destruct (situated_clear _ _ _ _ Hg' Hsit) as [Hpl _].
  destruct (situated_bounds _ _ _ _ Hg' Hsit) as [Hbx Hby]. destruct Hr as (Hpos & _).
  destruct r as [x y d mv g]. cbn [posX posY heading is_moving maze] in *. destruct Hpos as [Ex Ey].
  rewrite <- Ex, <- Ey in Hpl. rewrite <- Ex in Hbx. rewrite <- Ey in Hby.
  destruct (FindLoop_ok n (MouseMap g') (FloodMap g') (MoveTest.ScanLog g') (ex_mouse _ Hg') (fd_ok _ _ _ Hf') (ex_scan _ Hg')
    x y d mv all_moves SUB_MOVE_DONE done_judged Hpl ltac:(done)) as (k & j & Hbest & _ & _ & Hwho & _).
  destruct (FloodFillGet_total n _ (fd_ok _ _ _ Hf') (x / 2) (y / 2)) as (dist & Hdist & _); [apply half_nonneg; lia..|].
  destruct (Apply_nonneg x y d mv k) as [Hnx Hny]; [lia..|].
  destruct (SubMoveApply x y d mv k) as [[[x' y'] d'] mv'] eqn:Ea. simpl in Hnx, Hny.
  destruct (FloodFillGet_total n _ (fd_ok _ _ _ Hf') x' y' Hnx Hny) as (dist' & Hdist' & _).
  assert (forall out2 e, (let '(out3, stop) := PrintMove k in
    if (stop : bool) then Ok (out ++ ["dist = " +:+ pretty.pretty dist +:+ " "] ++ PrintState x y d mv ++ out3, inl (NOT_POSSIBLE_MOVE, g'))
    else Ok ((out ++ ["dist = " +:+ pretty.pretty dist +:+ " "] ++ PrintState x y d mv) ++ out3 ++ ["now at "] ++ PrintState x' y' d' mv' ++
       ["dist = " +:+ pretty.pretty dist' +:+ " "; newline], inr (mkRun x' y' d' mv' g'))) = Ok (out2, e) ->
    settles (fun ff => RunBody ff dest.1 dest.2 (mkRun x y d mv g)) (out2, e)) as Hbody.
  { intros out2 e He. eapply settles_bind; [exact Hup|]. cbv beta iota. rewrite Hdist. cbn [mbind res_bind].
    rewrite !Z.gtb_ltb, (proj2 (Z.ltb_ge _ _)), (proj2 (Z.ltb_ge _ _)) by lia. cbn [orb]. cbv zeta iota.
    unfold SubMoveFindBest. rewrite Hbest. cbn [mbind res_bind]. apply settles_ok. rewrite <- He. clear He.
    destruct k; cbn [PrintMove]; cbv iota; rewrite ?Ea; rewrite ?Hdist'; cbn [mbind res_bind]; try done; by rewrite <- !app_assoc. }
  destruct (decide (k = SUB_MOVE_DONE)) as [-> |Hk].
  - eexists _, _, g'. split; [apply Hbody; reflexivity|]. split; [done|]. exists SUB_MOVE_DONE. split; [done|]. by left.
  - assert (exists o, PrintMove k = (o, false)) as [o Ho] by (destruct k; try done; by eexists).
    eexists _, _, g'. split; [apply Hbody; rewrite Ho; reflexivity|]. split; [done|]. exists k. split; [done|]. right.
    split; [done|]. destruct Hwho as [[-> _]|(_ & Hl & _)]; [done|]. rewrite Ea. done.
Qed.

(** ** From spot to spot *)

Section hops.
Context (dest : cell) (g : MAZE) (Hg : explored g) (Hf : flooded (MouseMap g) dest (FloodMap g)).

Abbreviation way c d := (passage (MouseMap g) c d).
Abbreviation dist c := (val n (FloodMap g) c).
Abbreviation known c := (seen (MoveTest.ScanLog g) c = true).

#[local] Hint Resolve ex_mouse ex_mouse_w ex_mouse_h ex_scan fd_ok n_range seen_cell : maze.

(** The moves of the mouse, between cells instead of half cells. *)
Inductive hop : SUB_MOVE -> spot -> DIRECTION -> bool -> spot -> DIRECTION -> bool -> Prop :=
| hop_start c d : way c d -> hop SUB_MOVE_START (Mid c) d false (Side c) d true
| hop_turn k a c d : turning k = Some a -> way c (TURN d a) -> dist (toward c (TURN d a)) < dist c ->
    hop k (Mid c) d false (Mid c) (TURN d a) false
| hop_roll c d : way c d -> dist (toward c d) < dist c -> hop SUB_MOVE_FORWARD (Mid c) d true (Side c) d true
| hop_stop c d : hop SUB_MOVE_STOP (Side c) d true (Mid (toward c d)) d false
| hop_forward c d : way (toward c d) d -> dist (toward (toward c d) d) < dist (toward c d) ->
    hop SUB_MOVE_FORWARD (Side c) d true (Mid (toward c d)) d true
| hop_integrate k a c d : integrating k = Some a -> way (toward c d) (TURN d a) ->
    hop k (Side c) d true (Side (toward c d)) (TURN d a) true.

Lemma way_in c d : cell_in n c -> way c d -> cell_in n (toward c d).
Proof. intros Hc Hw. apply (passage_cell n n_range (MouseMap g)); eauto with maze. Qed.

(** A legal move is a hop to where the mouse may stand, and it is judged by the distance there. *)
Lemma legal_hop sp d mv k : situated g sp d mv -> k <> SUB_MOVE_DONE ->
  SubMoveLegal (place sp d).1 (place sp d).2 d mv k (MouseMap g) (MoveTest.ScanLog g) (FloodMap g) = Ok true ->
  exists sp' d' mv', SubMoveApply (place sp d).1 (place sp d).2 d mv k = ((place sp' d').1, (place sp' d').2, d', mv') /\
    hop k sp d mv sp' d' mv' /\ situated g sp' d' mv' /\
    exists j, Judge (place sp d).1 (place sp d).2 d mv k (FloodMap g) (MouseMap g) = Ok j /\
      j_flood j = dist (target sp' d') /\ bytes j.
Proof.
  intros Hsit Hk Hl. pose proof (situated_in g sp d mv Hg Hsit) as Ht. destruct sp as [c|c]; cbn [place target] in *.
  - destruct Hsit as [Hsc Hmv]. destruct mv.
    + pose proof (rolling_moves n n_range _ _ _ _ _ _ Hl Hk) as ->. destruct (Hmv eq_refl) as (Hw & Hv & Hs).
      exists (Side c), d, true. split; [by apply (apply_leave n n_range); auto|]. split; [by constructor|].
      split; [split; [done|]; split; [done|]; split; [by apply (seen_passage g)|done]|].
      apply (judge_roll n n_range); eauto using way_in with maze.
    + destruct (still_moves n n_range _ _ _ _ _ _ Hl Hk) as [-> |[a Ha]].
      * apply (legal_leave n n_range) in Hl as [Hw Hs]; eauto with maze.
        exists (Side c), d, true. split; [by apply (apply_leave n n_range); auto|]. split; [by constructor|].
        split; [split; [done|]; split; [done|]; split; [by apply (seen_passage g)|done]|].
        apply (judge_leave n n_range); eauto using way_in with maze.
      * apply (legal_turn n n_range _ _ _ (ex_mouse g Hg) (ex_mouse_w g Hg) (ex_mouse_h g Hg) (fd_ok _ _ _ Hf) (ex_scan g Hg) c d k a Ha Ht)
          in Hl as (_ & Hw & Hv).
        exists (Mid c), (TURN d a), false. split; [by apply apply_turn|]. split; [by constructor|]. split; [by split|].
        apply (judge_turn n _ _ (ex_mouse g Hg) (fd_ok _ _ _ Hf) c d false k a Ha Ht).
  - destruct Hsit as (Hsc & Hc & Hp & ->). destruct (side_moves n n_range _ _ _ _ _ _ Hl Hk) as [-> |[-> |[a Ha]]].
    + apply (legal_forward n n_range) in Hl as (_ & Hw & Hv & Hs); eauto with maze.
      exists (Mid (toward c d)), d, true. split; [rewrite (apply_enter n n_range) by auto; by rewrite bool_decide_true|].
      split; [by constructor|]. split; [by split|]. apply (judge_enter n n_range); eauto with maze.
    + exists (Mid (toward c d)), d, false. split; [by rewrite (apply_enter n n_range) by auto|].
      split; [by constructor|]. split; [by split|]. apply (judge_enter n n_range); eauto with maze.
    + apply (legal_integrate n n_range _ _ _ (ex_mouse g Hg) (ex_mouse_w g Hg) (ex_mouse_h g Hg) (fd_ok _ _ _ Hf) (ex_scan g Hg) c d Hc Ht k a Ha)
        in Hl as (Hw & Hs).
      exists (Side (toward c d)), (TURN d a), true. split; [by apply (apply_integrate n n_range)|]. split; [by constructor|].
      split; [split; [done|]; split; [done|]; split; [by apply (seen_passage g)|done]|].
      apply (judge_integrate n n_range _ _ (ex_mouse g Hg) (fd_ok _ _ _ Hf) c d true k a Ha); eauto using way_in.
Qed.
End hops.

Lemma running_hop dest sp r g' k : looked dest sp r g' -> running dest sp r -> k <> SUB_MOVE_DONE ->
  SubMoveLegal (posX r) (posY r) (heading r) (is_moving r) k (MouseMap g') (MoveTest.ScanLog g') (FloodMap g') = Ok true ->
  exists sp' r', (let '(x', y', d', mv') := SubMoveApply (posX r) (posY r) (heading r) (is_moving r) k in r' = mkRun x' y' d' mv' g') /\
    running dest sp' r' /\ maze r' = g' /\ hop g' k sp (heading r) (is_moving r) sp' (heading r') (is_moving r') /\
    exists j, Judge (posX r) (posY r) (heading r) (is_moving r) k (FloodMap g') (MouseMap g') = Ok j /\
      j_flood j = val n (FloodMap g') (target sp' (heading r')) /\ bytes j.
Proof.
  intros [[Hg Hf _ _ _] Hsit _ _] ([Ex Ey] & _) Hk. rewrite Ex, Ey. intros Hl.
  destruct (legal_hop dest g' Hg Hf sp _ _ k Hsit Hk Hl) as (sp' & d' & mv' & Ha & Hh & Hs & Hj).
  exists sp', (mkRun (place sp' d').1 (place sp' d').2 d' mv' g'). rewrite Ha. done.
Qed.

(** One turn of the loop: the mouse gives up, or goes on from where it may stand. *)
Lemma turn_ok dest sp r : running dest sp r -> cell_in n dest ->
  exists out e, settles (fun ff => RunBody ff dest.1 dest.2 r) (out, e) /\
    match e with
    | inl (why, g') => why = NOT_POSSIBLE_MOVE /\ explored g' /\ WorldMap g' = WorldMap (maze r)
    | inr r' => (exists sp', running dest sp' r') /\ WorldMap (maze r') = WorldMap (maze r)
    end.
Proof.
  intros Hr Hd. destruct (RunBody_ok dest sp r Hr Hd) as (out & e & g' & Hs & Hlook & k & _ & He).
  exists out, e. split; [done|]. pose proof Hlook as [[Hg' _ Hw _ _] _ _ _]. destruct He as [[_ ->]|(Hk & Hl & He)]; [done|].
  destruct (running_hop dest sp r g' k Hlook Hr Hk Hl) as (sp' & r' & Hr' & Hrun & Hm & _).
  destruct (SubMoveApply _ _ _ _ k) as [[[x' y'] d'] mv']. subst e r'. split; [by exists sp'|done].
Qed.

(** One turn, with any fuel for the distances. *)
Definition turn (dest : cell) (r r' : RUN) : Prop := exists ff out, RunBody ff dest.1 dest.2 r = Ok (out, inr r').

Lemma steps_running dest r r' : cell_in n dest -> steps (turn dest) r r' -> (exists sp, running dest sp r) ->
  (exists sp, running dest sp r') /\ WorldMap (maze r') = WorldMap (maze r).
Proof.
  intros Hd. induction 1 as [r|r r1 r' (ff & out & Hrun) _ IH]; intros [sp Hr]; [by split; [exists sp|]|].
  destruct (turn_ok dest sp r Hr Hd) as (out' & e & [_ Hs] & He). destruct (Hs ff) as [E|E]; rewrite Hrun in E; [done|].
  injection E as -> <-. destruct He as [Hr1 Hw]. destruct (IH Hr1) as [? ->]. done.
Qed.

(** The start of a run. *)
Lemma start_running g dest c d ff g1 : explored g -> cell_in n dest -> seen (MoveTest.ScanLog g) c = true ->
  Flood ff dest.1 dest.2 g = Ok g1 -> running dest (Mid c) (mkRun (mid c).1 (mid c).2 d false g1) /\ WorldMap g1 = WorldMap g.
Proof.
  intros Hg Hd Hc Hrun. destruct (Flood_ok g dest Hg Hd) as (f & [_ Hs] & Hf). destruct (Hs ff) as [E|E]; rewrite Hrun in E; [done|].
  injection E as ->. split; [|done]. split; [done|]. split; [destruct Hg; constructor; try done; apply Hf|]. split; [done|]. by split.
Qed.
