(* ===== verification/MoveSample.v ===== *)
(** * The mouse in some mazes (runs of MoveTest)

    The maze of the program, an empty one, and one whose destination is walled in. *)

From stdpp Require Import strings.
From S2P Require Import Prelude Bitmap Printing Map FloodFill ScanLog SubMove MoveTest MoveSpots MoveRun MoveEnds.

#[local] Open Scope Z_scope.

#[export] Instance MAP_eq_dec : EqDecision MAP.
Proof. solve_decision. Defined.
#[export] Instance FLOOD_MAP_eq_dec : EqDecision FLOOD_MAP.
Proof. solve_decision. Defined.
#[export] Instance SCAN_LOG_eq_dec : EqDecision SCAN_LOG.
Proof. solve_decision. Defined.
#[export] Instance MAZE_eq_dec : EqDecision MAZE.
Proof. solve_decision. Defined.
#[export] Instance RUN_eq_dec : EqDecision RUN.
Proof. solve_decision. Defined.

(** ** Checking what the mouse knows *)

Definition all_dirs : list DIRECTION := [NORTH; EAST; SOUTH; WEST].

(** At every wall of every cell. *)
Definition agrees (g : MAZE) : bool :=
  forallb (fun c => forallb (fun d =>
    let w := wall_of c.1 c.2 d in
    implb (has_wall (MouseMap g) w) (has_wall (WorldMap g) w) &&
    implb (seen (MoveTest.ScanLog g) c && has_wall (WorldMap g) w) (has_wall (MouseMap g) w)) all_dirs) (cells WIDTH).

(** The sizes and buffers. *)
Record well_sized (g : MAZE) : Prop := {
  ws_world : map_ok (WorldMap g) /\ Map.Width (WorldMap g) = WIDTH /\ Map.Height (WorldMap g) = WIDTH;
  ws_mouse : map_ok (MouseMap g) /\ Map.Width (MouseMap g) = WIDTH /\ Map.Height (MouseMap g) = WIDTH;
  ws_flood : sized WIDTH (FloodMap g);
  ws_scan : scan_ok (MoveTest.ScanLog g) /\ ScanLog.Width (MoveTest.ScanLog g) = WIDTH /\ ScanLog.Height (MoveTest.ScanLog g) = WIDTH
}.

Lemma all_dirs_spec d : d ∈ all_dirs.
Proof. destruct d; unfold all_dirs; set_solver. Qed.

Lemma agrees_at g c d : agrees g = true -> cell_in WIDTH c ->
  (has_wall (MouseMap g) (wall_of c.1 c.2 d) = true -> has_wall (WorldMap g) (wall_of c.1 c.2 d) = true) /\
  (seen (MoveTest.ScanLog g) c = true -> has_wall (WorldMap g) (wall_of c.1 c.2 d) = true ->
    has_wall (MouseMap g) (wall_of c.1 c.2 d) = true).
Proof.
  unfold agrees. rewrite forallb_forall. intros Hall Hc. specialize (Hall c).
  rewrite forallb_forall in Hall. setoid_rewrite <- list_elem_of_In in Hall.
  specialize (Hall ltac:(apply elem_of_cells; [unfold WIDTH; lia|done]) d (all_dirs_spec d)).
  destruct (has_wall (MouseMap g) _), (has_wall (WorldMap g) _), (seen _ c); done.
Qed.

(** Every inner wall is the southern or western one of a cell. *)
Lemma inner_cell m w : nonneg w -> Map.Width m = WIDTH -> Map.Height m = WIDTH -> inner m w ->
  exists c d, cell_in WIDTH c /\ w = wall_of c.1 c.2 d.
Proof.
  destruct w as [x y|x y]; simpl; intros [Hx Hy] Hw Hh [H1 H2]; exists (x, y).
  - exists SOUTH. unfold cell_in. simpl. split; [lia|done].
  - exists WEST. unfold cell_in. simpl. split; [lia|done].
Qed.

Lemma check_explored g : well_sized g -> agrees g = true -> explored g.
Proof.
  intros [(Hw & Hww & Hwh) (Hm & Hmw & Hmh) Hf (Hs & Hsw & Hsh)] Hag. constructor; try done.
  - intros w Hn Hmouse. destruct (decide (inner (WorldMap g) w)) as [Hin|Hin]; [|unfold has_wall; by rewrite decide_False].
    destruct (inner_cell _ w Hn Hww Hwh Hin) as (c & d & Hc & ->). by apply (agrees_at g c d).
  - intros c d Hc. by apply (agrees_at g c d).
Qed.

(** ** Mazes set up as the program does *)

Definition or_empty (r : res MAZE) : MAZE :=
  match r with Ok g => g | Err _ => mkMaze no_map no_map (FloodFillInit 0 0 [] []) (mkScan 0 0 []) end.

Definition sample_maze : MAZE := Eval vm_compute in or_empty (SetUp SampleMaze).

(** Nothing but the walls of the start cell. *)
Definition empty_maze : MAZE := Eval vm_compute in or_empty (SetUp (fun world => Ok world)).

(** The middle walled in, and one more wall. *)
Definition SealedMaze (world : MAP) : res MAP :=
  world ← MapSetWall 4 4 NORTH true world;
  world ← MapSetWall 4 4 EAST true world;
  world ← MapSetWall 4 4 SOUTH true world;
  world ← MapSetWall 4 4 WEST true world;
  MapSetWall 0 3 SOUTH true world.

Definition sealed_maze : MAZE := Eval vm_compute in or_empty (SetUp SealedMaze).

Lemma sample_set_up : SetUp SampleMaze = Ok sample_maze.
Proof. vm_compute. reflexivity. Qed.
Lemma empty_set_up : SetUp (fun world => Ok world) = Ok empty_maze.
Proof. vm_compute. reflexivity. Qed.
Lemma sealed_set_up : SetUp SealedMaze = Ok sealed_maze.
Proof. vm_compute. reflexivity. Qed.

(** The sizes of buffers given as lists. *)
Ltac sizes := repeat first [ apply conj | constructor; simpl; unfold zlen, WIDTH; simpl | reflexivity | lia
  | vm_compute; discriminate ].

Lemma sample_sized : well_sized sample_maze.
Proof. constructor; sizes. Defined.

Lemma empty_sized : well_sized empty_maze.
Proof. constructor; sizes. Defined.

Lemma sealed_sized : well_sized sealed_maze.
Proof. constructor; sizes. Defined.

Lemma sample_explored : explored sample_maze.
Proof. apply (check_explored sample_maze sample_sized). vm_compute. reflexivity. Defined.

Lemma sealed_explored : explored sealed_maze.
Proof. apply (check_explored sealed_maze sealed_sized). vm_compute. reflexivity. Defined.

(** ** Runs *)

(** How the program ends, without its output. *)
Definition ending {A B C} (r : res (A * (EXIT * B + C))) : option EXIT :=
  match r with Ok (_, inl (why, _)) => Some why | _ => None end.

Definition returned {A B C} (r : res (A * (B + C))) : bool := match r with Ok (_, inr _) => true | _ => false end.

(** The sample maze is explored and the mouse comes back. *)
Lemma sample_run : returned (main 1000 200 SampleMaze) = true.
Proof. vm_compute. reflexivity. Qed.

(** In an empty maze the mouse reaches the middle going east: the program gives up. *)
Lemma empty_run : ending (main 1000 200 (fun world => Ok world)) = Some NOT_IN_CENTER.
Proof. vm_compute. reflexivity. Qed.

(** *** Driving in a circle *)

Definition next (ff : nat) (dest : cell) (r : RUN) : option RUN :=
  match RunBody ff dest.1 dest.2 r with
  | Ok (_, inr r') =>
      match FloodFillGet (posX r' / 2) (posY r' / 2) (FloodMap (maze r')) with
      | Ok v => if v =? 0 then None else Some r'
      | Err _ => None
      end
  | _ => None
  end.

Fixpoint trace (ff k : nat) (dest : cell) (r : RUN) : list RUN :=
  match k with
  | O => []
  | S k => r :: match next ff dest r with Some r' => trace ff k dest r' | None => [] end
  end.

(** Every turn from one of these leads to one of these. *)
Definition closed (ff : nat) (dest : cell) (l : list RUN) : bool :=
  forallb (fun r => match next ff dest r with Some r' => bool_decide (r' ∈ l) | None => false end) l.

(** A run inside a closed set of states never ends. *)
Lemma closed_forever k dest l r : cell_in WIDTH dest -> closed k dest l = true -> r ∈ l -> (exists sp, running dest sp r) ->
  forall ff fuel, RunLoop ff fuel dest.1 dest.2 r = Err FFuel.
Proof.
  intros Hd Hcl Hin Hr ff fuel. revert r Hin Hr. induction fuel as [|fuel IH]; intros r Hin [sp Hr]; [done|]. cbn [RunLoop].
  destruct (turn_ok dest sp r Hr Hd) as (out & e & [_ Hs] & He). destruct (Hs ff) as [-> | ->]; [done|]. cbn [mbind res_bind].
  unfold closed in Hcl. rewrite forallb_forall in Hcl. specialize (Hcl r ltac:(by apply list_elem_of_In)). unfold next in Hcl.
  destruct (Hs k) as [E|E]; rewrite E in Hcl; [done|]. destruct e as [|r']; [done|].
  destruct (FloodFillGet _ _ _) as [v|]; [|done]. destruct (v =? 0) eqn:Ev; [done|]. apply bool_decide_eq_true in Hcl.
  cbn [mbind res_bind]. rewrite Ev. rewrite IH; [done|done|apply He].
Qed.

(** The start of the run towards the middle. *)
Definition sealed_start : RUN :=
  Eval vm_compute in mkRun 1 1 NORTH false (or_empty (Flood 1000 4 4 sealed_maze)).

Definition sealed_trace : list RUN := trace 1000 38 (4, 4) sealed_start.

Lemma sealed_closed : closed 1000 (4, 4) sealed_trace = true.
Proof. vm_compute. reflexivity. Qed.

Lemma sealed_flood : Flood 1000 4 4 sealed_maze = Ok (maze sealed_start).
Proof. vm_compute. reflexivity. Qed.

Lemma sealed_running : running (4, 4) (Mid (0, 0)) sealed_start.
Proof.
  destruct (start_running sealed_maze (4, 4) (0, 0) NORTH 1000 (maze sealed_start) sealed_explored) as [H _]; [|done|exact sealed_flood|exact H].
  unfold cell_in, WIDTH. simpl. lia.
Qed.

(** ** Properties *)

(** C36: When the destination cannot be reached the mouse need not notice.  In the maze that is empty
    but for the walls of the middle cell and one more wall, the mouse, once it has found all four
    walls, drives round a peg for ever: whatever the number of turns, the
    program has not ended. *)
Theorem sealed_forever ff fuel : main ff fuel SealedMaze = Err FFuel.
Proof.
  unfold main. rewrite sealed_set_up. cbn [mbind res_bind].
  assert (cell_in WIDTH (4, 4)) as Hd by (unfold cell_in, WIDTH; simpl; lia).
  destruct (Flood_ok sealed_maze (4, 4) sealed_explored Hd) as (f & [_ Hs] & _).
  change (WIDTH / 2) with (4, 4).1. change (HEIGHT / 2) with (4, 4).2.
  unfold RunMoves. destruct (Hs 1000%nat) as [E|E]; [pose proof sealed_flood as F; simpl in E; congruence|].
  destruct (Hs ff) as [-> |E']; [done|]. rewrite E', <- E. change (4, 4).1 with 4. change (4, 4).2 with 4. rewrite sealed_flood.
  cbn [mbind res_bind].
  change (mkRun (w64 (w64 (0 * 2) + 1)) (w64 (w64 (0 * 2) + 1)) NORTH false (maze sealed_start)) with sealed_start.
  rewrite (closed_forever 1000 (4, 4) sealed_trace sealed_start Hd sealed_closed); [done| |by exists (Mid (0, 0)); apply sealed_running].
  left.
Qed.

(** *** The theorems at the sample maze *)






Lemma middle_cell : cell_in WIDTH (4, 4).
Proof. unfold cell_in, WIDTH. simpl. lia. Defined.


(** The maze with the distances from the middle. *)
Definition sample_flooded : MAZE := Eval vm_compute in or_empty (Flood 1000 4 4 sample_maze).

Lemma sample_flood : Flood 1000 4 4 sample_maze = Ok sample_flooded.
Proof. vm_compute. reflexivity. Defined.

Lemma exploration_safe_witness :
  (forall r, steps (turn (4, 4)) (mkRun 1 1 NORTH false sample_flooded) r ->
    0 <= posX r <= WIDTH * 2 /\ 0 <= posY r <= HEIGHT * 2 /\ clear (WorldMap sample_maze) (posX r) (posY r) /\
    explored (maze r) /\ WorldMap (maze r) = WorldMap sample_maze) /\
  forall fuel, RunMoves 1000 fuel 0 0 NORTH 4 4 sample_maze = Err FFuel \/
    exists out e, RunMoves 1000 fuel 0 0 NORTH 4 4 sample_maze = Ok (out, e) /\
      match e with
      | inl (why, g') => why = NOT_POSSIBLE_MOVE \/ why = NOT_IN_CENTER
      | inr (x, y, d', g') => (x, y) = (4, 4) /\ explored g' /\ seen (MoveTest.ScanLog g') (4, 4) = true
      end.
Proof.
  exact (exploration_safe sample_maze (4, 4) (0, 0) NORTH 1000 sample_flooded sample_explored middle_cell eq_refl sample_flood).
Defined.
