(* ===== verification/BHam.v ===== *)
(** * Signals at a rational rate (utils/bham.c) *)

From S2P Require Import Prelude.

Record BHAM := mkBham { X : Z; Y : Z; Error : Z }.

(** [COUNT] is 64-bit, [Error] a 32-bit [int]. *)
Definition BHamInit (x y : Z) : res BHAM :=
  assertr (x >=? y);;
  Ok (mkBham x y (int32 (w64 (- x)))).

Definition BHamTick (bham : BHAM) : bool * BHAM :=
  let bham := mkBham (X bham) (Y bham) (int32 (w64 (Error bham + Y bham))) in
  if Error bham >? 0 then (true, mkBham (X bham) (Y bham) (int32 (w64 (Error bham - X bham))))
  else (false, bham).

(** The number of signals in [n] ticks. *)
Fixpoint ticks (n : nat) (bham : BHAM) : Z * BHAM :=
  match n with
  | O => (0, bham)
  | S n =>
      let '(k, bham) := ticks n bham in
      let '(signal, bham) := BHamTick bham in
      (k + Z.b2z signal, bham)
  end.

(** The accumulator is a 32-bit integer that is computed with in 64 bits. *)
Lemma int32_w64 z : - 2 ^ 31 <= z < 2 ^ 31 -> int32 (w64 z) = z.
Proof.
  intros H. unfold int32, wrap. destruct (Z.lt_ge_cases z 0).
  - replace (z mod 2 ^ 64) with (z + 2 ^ 64) by (apply Z.mod_unique with (-1); lia).
    replace ((z + 2 ^ 64 + 2 ^ 31) mod 2 ^ 32) with (z + 2 ^ 31); [lia|].
    apply Z.mod_unique with (2 ^ 32); lia.
  - rewrite (Z.mod_small z) by lia. rewrite Z.mod_small; lia.
Qed.

(** [k] signals so far, and the accumulator never leaves [-x, 0]. *)
Lemma ticks_error n x y :
  0 <= y <= x -> 0 < x < 2 ^ 31 ->
  let '(k, b) := ticks n (mkBham x y (- x)) in
  X b = x /\ Y b = y /\ - x <= Error b <= 0 /\ Error b = - x + Z.of_nat n * y - k * x /\
  (1 <= Z.of_nat n -> 0 < y -> - x < Error b).
Proof.
  intros Hy Hx. induction n as [|n IH]; cbn [ticks]; [simpl; lia|].
  destruct (ticks n (mkBham x y (- x))) as [k b]. destruct IH as (HX & HY & HE & Heq & _).
  unfold BHamTick. cbn [X Y Error]. rewrite HX, HY, (int32_w64 (Error b + y)) by lia.
  destruct (Z.gtb_spec (Error b + y) 0).
  - rewrite (int32_w64 (Error b + y - x)) by lia. cbn [X Y Error Z.b2z]. lia.
  - cbn [X Y Error Z.b2z]. lia.
Qed.

Lemma ticks_rate n x y :
  0 < y <= x -> x < 2 ^ 31 -> (0 < n)%nat ->
  fst (ticks n (mkBham x y (- x))) = (Z.of_nat n * y - 1) / x /\ - x < Error (snd (ticks n (mkBham x y (- x)))) <= 0.
Proof.
  intros Hy Hx Hn. pose proof (ticks_error n x y ltac:(lia) ltac:(lia)) as H.
  destruct (ticks n (mkBham x y (- x))) as [k b]. destruct H as (_ & _ & HE & Heq & Hlt). cbn [fst snd].
  specialize (Hlt ltac:(lia) ltac:(lia)). split; [|lia]. apply Z.div_unique with (Error b + x - 1); [left; lia|lia].
Qed.

(** C39: for every slope [y/x] with [0 < y <= x < 2^31] the first [n] ticks hold exactly
    [(n*y - 1) / x] signals: the line is followed without drift, however long it is.  The
    accumulator stays in [(-x, 0]], so its additions never overflow. *)
Theorem bham_rate n x y b :
  0 < y <= x -> x < 2 ^ 31 -> BHamInit x y = Ok b -> (0 < n)%nat ->
  fst (ticks n b) = (Z.of_nat n * y - 1) / x /\ - x < Error (snd (ticks n b)) <= 0.
Proof.
  intros Hy Hx Hb Hn. unfold BHamInit in Hb. rewrite int32_w64 in Hb by lia.
  destruct (x >=? y); [|done]. injection Hb as <-. by apply ticks_rate.
Qed.

Lemma bham_rate_witness : fst (ticks 10 (mkBham 7 3 (-7))) = 4 /\ - 7 < Error (snd (ticks 10 (mkBham 7 3 (-7)))) <= 0.
Proof. refine (bham_rate 10 7 3 (mkBham 7 3 (-7)) _ _ _ _); [lia|lia|reflexivity|lia]. Defined.
