(* ===== verification/Primes.v ===== *)
(** * Prime numbers (utils/primes.c) *)

From S2P Require Import Prelude.

(** C's remainder; a zero divisor stops the program. *)
Definition crem (a b : Z) : res Z := if b =? 0 then Err FDiv else Ok (Z.rem a b).

(** [for (i=0; i<v; i++) if (v % i == 0) return false;] *)
Fixpoint isPrimeFrom (fuel : nat) (v i : Z) : res bool :=
  if i <? v then
    match fuel with
    | O => Err FFuel
    | S fuel => r ← crem v i; if r =? 0 then Ok false else isPrimeFrom fuel v (i + 1)
    end
  else Ok true.

Definition isPrime (v : Z) : res bool := isPrimeFrom (Z.to_nat v) v 0.

(** [for (i=2; i<num_primes; i++) if (v % primes[i] == 0) return false;] *)
Fixpoint isPrimeProductFrom (fuel : nat) (v : Z) (primes : list Z) (num_primes i : Z) : res bool :=
  if i <? num_primes then
    match fuel with
    | O => Err FFuel
    | S fuel =>
        p ← arr_get primes i;
        r ← crem v p;
        if r =? 0 then Ok false else isPrimeProductFrom fuel v primes num_primes (i + 1)
    end
  else Ok true.

Definition isPrimeProduct (v : Z) (primes : list Z) (num_primes : Z) : res bool :=
  isPrimeProductFrom (Z.to_nat num_primes) v primes num_primes 2.

Inductive PRIMES_STATUS := PRIMES_OK | PRIMES_OVERFLOW.

(** [for (cur = 2; cur < max; cur++)]; [None] when the array is too short. *)
Fixpoint PrimesLoop (fuel : nat) (max cur : Z) (primes : list Z) (primes_length found_primes : Z) : res (option (list Z * Z)) :=
  if cur <? max then
    match fuel with
    | O => Err FFuel
    | S fuel =>
        p ← isPrimeProduct cur primes found_primes;
        if (p : bool) then
          if found_primes + 1 >? primes_length then Ok None
          else
            primes ← arr_set primes found_primes cur;
            PrimesLoop fuel max (cur + 1) primes primes_length (found_primes + 1)
        else PrimesLoop fuel max (cur + 1) primes primes_length found_primes
    end
  else Ok (Some (primes, found_primes)).

(** [for (; found_primes<primes_length; found_primes++) primes[found_primes] = 0;] *)
Fixpoint ZeroRest (fuel : nat) (primes : list Z) (primes_length found_primes : Z) : res (list Z) :=
  if found_primes <? primes_length then
    match fuel with
    | O => Err FFuel
    | S fuel =>
        primes ← arr_set primes found_primes 0;
        ZeroRest fuel primes primes_length (found_primes + 1)
    end
  else Ok primes.

Definition findPrimes (max : Z) (primes : list Z) (primes_length : Z) : res (PRIMES_STATUS * option (list Z)) :=
  r ← PrimesLoop (Z.to_nat max) max 2 primes primes_length 0;
  match r with
  | None => Ok (PRIMES_OVERFLOW, None)
  | Some (primes, found) =>
      primes ← ZeroRest (Z.to_nat primes_length) primes primes_length found;
      Ok (PRIMES_OK, Some primes)
  end.

(** [isPrime] divides by zero for every positive number. *)
Lemma isPrime_divides_by_zero v : 0 < v -> isPrime v = Err FDiv.
Proof.
  intros Hv. unfold isPrime. destruct (Z.to_nat v) as [|n] eqn:E; [lia|]. cbn [isPrimeFrom].
  by rewrite (proj2 (Z.ltb_lt 0 v)).
Qed.

(** isPrime divides by zero for every positive argument; findPrimes never divides by the
    first two numbers it finds, so that 4, 6 and 9 are in its list. *)
Theorem primes_wrong v :
  (0 < v -> isPrime v = Err FDiv) /\
  findPrimes 12 (replicate 10 0) 10 = Ok (PRIMES_OK, Some [2; 3; 4; 5; 6; 7; 9; 11; 0; 0]).
Proof. split; [apply isPrime_divides_by_zero|vm_compute; reflexivity]. Qed.

Lemma primes_wrong_witness : isPrime 7 = Err FDiv.
Proof. exact (proj1 (primes_wrong 7) ltac:(lia)). Defined.
