(* ===== verification/NumberTests.v ===== *)
(** * The tests of the rational rate and of the primes (utils/bhamtest.c, utils/primestest.c) *)

From stdpp Require Import strings pretty.
From S2P Require Import Prelude Printing BHam Primes.

#[local] Open Scope Z_scope.

(** ** utils/bhamtest.c *)

Definition PrintLine (signal : bool) (spaces : Z) : string :=
  (if signal then "+" else "-") +:+ String.concat "" (replicate (Z.to_nat spaces) " ") +:+ "*".

(** One line of the graph for each tick, a star behind as many spaces as there were signals. *)
Fixpoint PrintGraph (n : nat) (bham : BHAM) (spaces : Z) : text :=
  match n with
  | O => []
  | S n =>
      let '(signal, bham) := BHamTick bham in
      let spaces := if (signal : bool) then w64 (spaces + 1) else spaces in
      PrintLine signal spaces :: PrintGraph n bham spaces
  end.

Definition bham_main (x y ticks : Z) : res text := bham ← BHamInit x y; Ok (PrintGraph (Z.to_nat ticks) bham 0).

(** ** utils/primestest.c *)

(** The loop that prints, up to the first zero. *)
Fixpoint PrintPrimes (n : nat) (primes_buffer : list Z) (i : Z) : res text :=
  match n with
  | O => Ok []
  | S n => p ← arr_get primes_buffer i; if p =? 0 then Ok [] else r ← PrintPrimes n primes_buffer (i + 1); Ok (pretty p :: r)
  end.

(** [argv[1]], [argv[2]] and the new memory. *)
Definition primes_main (max buffer_size : Z) (primes_buffer : list Z) : res text :=
  '(status, primes) ← findPrimes max primes_buffer buffer_size;
  match status, primes with
  | PRIMES_OK, Some primes => PrintPrimes (Z.to_nat buffer_size) primes 0
  | _, _ => Ok ["Overflowed primes buffer"]
  end.

(** ** The graph *)

Section graph.
Context (x y : Z) (Hy : 0 < y <= x) (Hx : x < 2 ^ 31).

(** The signals of the first [k] ticks. *)
Definition signals (k : nat) : Z := fst (ticks k (mkBham x y (- x))).
Definition line (k : nat) : string := PrintLine (bool_decide (signals k < signals (S k))) (signals (S k)).

Lemma signals_bound k : 0 <= signals k <= Z.of_nat k.
Proof.
  unfold signals. induction k as [|k IH]; cbn [ticks]; [simpl; lia|]. destruct (ticks k _) as [j b]. destruct (BHamTick b) as [s b'].
  simpl in *. destruct s; simpl; lia.
Qed.

Lemma PrintGraph_lines n k : Z.of_nat (k + n) < 2 ^ 64 ->
  PrintGraph n (snd (ticks k (mkBham x y (- x)))) (signals k) = line <$> seq k n.
Proof.
  revert k. induction n as [|n IH]; intros k Hn; [done|]. cbn [PrintGraph seq]. rewrite fmap_cons.
  assert (line k = let '(s, _) := BHamTick (snd (ticks k (mkBham x y (- x)))) in PrintLine s (if (s : bool) then w64 (signals k + 1) else signals k)) as ->.
  { pose proof (signals_bound k). unfold line, signals in *. cbn [ticks]. destruct (ticks k _) as [j b]. simpl in *.
    destruct (BHamTick b) as [s b']. simpl. destruct s; simpl; rewrite ?w64_small by (unfold u64; lia).
    - by rewrite bool_decide_true by lia.
    - rewrite bool_decide_false by lia. by rewrite Z.add_0_r. }
  specialize (IH (S k) ltac:(lia)). pose proof (signals_bound k). unfold signals in *. cbn [ticks] in IH.
  destruct (ticks k _) as [j b]. simpl in *. destruct (BHamTick b) as [s b']. simpl in IH. rewrite <- IH. f_equal.
  destruct s; simpl; rewrite ?w64_small by (unfold u64; lia); [done|by rewrite Z.add_0_r].
Qed.

(** The graph is the line through the origin with the slope y / x: the star of line [k] stands behind
    ((k + 1) * y - 1) / x spaces, and the line is marked when that is more than in the line before. *)
Theorem graph_is_line n : 0 <= n < 2 ^ 63 ->
  bham_main x y n = Ok (line <$> seq 0 (Z.to_nat n)) /\ forall k, signals (S k) = (Z.of_nat (S k) * y - 1) / x.
Proof.
  intros Hn. split.
  - unfold bham_main, BHamInit. rewrite int32_w64, Z.geb_leb, (proj2 (Z.leb_le _ _)) by lia.
    cbn [assertr mbind res_bind]. f_equal. apply (PrintGraph_lines (Z.to_nat n) 0). lia.
  - intros k. apply ticks_rate; done || lia.
Qed.
End graph.

Lemma graph_is_line_witness : bham_main 7 3 5 = Ok ["-*"; "-*"; "+ *"; "- *"; "+  *"].
Proof. rewrite (proj1 (graph_is_line 7 3 ltac:(lia) ltac:(lia) 5 ltac:(lia))). reflexivity. Defined.

(** The list of primes below 12 holds 4, 6 and 9. *)
Example primes_printed : primes_main 12 10 (replicate 10 (-1)) = Ok ["2"; "3"; "4"; "5"; "6"; "7"; "9"; "11"].
Proof. vm_compute. reflexivity. Qed.
