(* ===== verification/LispHeap.v ===== *)
(** * The heap of the Lisp interpreter (kernel/minilisp.c): objects and the collector

    Objects live at byte addresses; a space is a range of addresses.  A load from an
    address that holds no object, or of a member that the object does not have, stops
    the model ([FNull]).  The collector is Cheney's: [forward] copies an object behind
    [scan2] and leaves a tombstone, the loop forwards the members of the objects between
    [scan1] and [scan2]. *)

From stdpp Require Import strings pretty.
From S2P Require Import Prelude.

(** ** Objects *)

Abbreviation ptr := Z.

Definition NULL : ptr := 0.

(** The addresses of the static objects, below every heap. *)
Definition True_ : ptr := 8.
Definition Nil : ptr := 48.
Definition Dot : ptr := 88.
Definition Cparen : ptr := 128.
Definition HEAP_BASE : ptr := 168.

(** The C functions behind the primitives. *)
Inductive PRIMITIVE :=
| prim_quote | prim_cons | prim_car | prim_cdr | prim_setq | prim_setcar | prim_while | prim_gensym
| prim_plus | prim_minus | prim_lt | prim_define | prim_defun | prim_defmacro | prim_macroexpand
| prim_lambda | prim_if | prim_num_eq | prim_eq | prim_println | prim_panic | prim_sleep.

#[export] Instance PRIMITIVE_eq_dec : EqDecision PRIMITIVE.
Proof. solve_decision. Defined.

Inductive CONST := CTrue | CNil | CDot | CCparen.

#[export] Instance CONST_eq_dec : EqDecision CONST.
Proof. solve_decision. Defined.

(** The type tag and the members of the union.  The static objects have a zeroed union,
    whose first two words the code may read and write as a cell. *)
Inductive value :=
| TINT (value : Z)
| TCELL (car cdr : ptr)
| TSYMBOL (name : string)
| TPRIMITIVE (fn : PRIMITIVE)
| TFUNCTION (params body env : ptr)
| TMACRO (params body env : ptr)
| TENV (vars up : ptr)
| TMOVED (moved : ptr)
| TCONST (c : CONST) (car cdr : ptr).

Record Obj := mkObj { size : Z; val : value }.

#[export] Instance value_eq_dec : EqDecision value.
Proof. solve_decision. Defined.

#[export] Instance Obj_eq_dec : EqDecision Obj.
Proof. solve_decision. Defined.

(** ** The store and the two scan pointers *)

Record GC := mkGc { Mem : gmap Z Obj; scan1 : ptr; scan2 : ptr }.

Definition load (p : ptr) : St GC Obj := fun g =>
  match Mem g !! p with Some o => Ok (o, g) | None => Err FNull end.
Definition store (p : ptr) (o : Obj) : St GC unit :=
  modify (fun g => mkGc (<[p := o]> (Mem g)) (scan1 g) (scan2 g)).
Definition set_scan1 (p : ptr) : St GC unit := modify (fun g => mkGc (Mem g) p (scan2 g)).
Definition set_scan2 (p : ptr) : St GC unit := modify (fun g => mkGc (Mem g) (scan1 g) p).

(** ** The collector *)

(** [from] and [memory_size] are [block->from_space] and [block->memory_size]. *)
Definition forward (from memory_size : Z) (obj : ptr) : St GC ptr :=
  let offset := obj - from in
  if (offset <? 0) || (memory_size <=? offset) then mret obj else
  o ← load obj;
  match val o with
  | TMOVED moved => mret moved
  | _ =>
      newloc ← gets scan2;
      store newloc o;;
      scan2 ← gets scan2;
      set_scan2 (scan2 + size o);;
      store obj (mkObj (size o) (TMOVED newloc));;
      mret newloc
  end.

(** [for (int i = 1; frame[i] != ROOT_END; i++) if (frame[i]) frame[i] = forward(frame[i]);] *)
Fixpoint forward_frame (from memory_size : Z) (frame : list ptr) : St GC (list ptr) :=
  match frame with
  | [] => mret []
  | p :: frame =>
      p ← (if p =? NULL then mret p else forward from memory_size p);
      frame ← forward_frame from memory_size frame;
      mret (p :: frame)
  end.

(** The loop over the linked frames. *)
Fixpoint forward_frames (from memory_size : Z) (root : list (list ptr)) : St GC (list (list ptr)) :=
  match root with
  | [] => mret []
  | frame :: root =>
      frame ← forward_frame from memory_size frame;
      root ← forward_frames from memory_size root;
      mret (frame :: root)
  end.

(** The members that hold pointers, and an object with other ones. *)
Definition members (v : value) : list ptr :=
  match v with
  | TCELL a b => [a; b]
  | TFUNCTION p b e | TMACRO p b e => [p; b; e]
  | TENV v u => [v; u]
  | _ => []
  end.

Definition with_members (l : list ptr) (v : value) : value :=
  match v, l with
  | TCELL _ _, [a; b] => TCELL a b
  | TFUNCTION _ _ _, [p; b; e] => TFUNCTION p b e
  | TMACRO _ _ _, [p; b; e] => TMACRO p b e
  | TENV _ _, [a; b] => TENV a b
  | v, _ => v
  end.

(** [scan1->m = forward(scan1->m)] for the member with the number [i]. *)
Definition forward_member (from memory_size : Z) (i : nat) : St GC unit :=
  s ← gets scan1;
  o ← load s;
  match members (val o) !! i with
  | None => fail FNull
  | Some p =>
      p ← forward from memory_size p;
      o ← load s;
      store s (mkObj (size o) (with_members (<[i := p]> (members (val o))) (val o)))
  end.

(** The [switch] on [scan1->type]. *)
Definition scan_object (from memory_size : Z) : St GC unit :=
  s ← gets scan1;
  o ← load s;
  match val o with
  | TINT _ | TSYMBOL _ | TPRIMITIVE _ => mret tt
  | TCELL _ _ | TENV _ _ => forward_member from memory_size 0;; forward_member from memory_size 1
  | TFUNCTION _ _ _ | TMACRO _ _ _ =>
      forward_member from memory_size 0;; forward_member from memory_size 1;; forward_member from memory_size 2
  | TMOVED _ | TCONST _ _ _ => panic
  end.

(** [while (scan1 < scan2)] *)
Fixpoint scan_loop (fuel : nat) (from memory_size : Z) : St GC unit :=
  s1 ← gets scan1;
  s2 ← gets scan2;
  if s1 <? s2 then
    match fuel with
    | O => fail FFuel
    | S fuel =>
        scan_object from memory_size;;
        s1 ← gets scan1;
        o ← load s1;
        set_scan1 (s1 + size o);;
        scan_loop fuel from memory_size
    end
  else mret tt.

(** ** The allocator's block *)

Record ALLOC_BLOCK := mkBlock {
  memory : ptr;
  from_space : ptr;
  mem_nused : Z;
  cur_heap : ptr;
  next_heap : ptr;
  memory_size : Z;
  gc_running : bool;
  debug_gc : bool;
  always_gc : bool;
  Symbols : ptr
}.

(** What the interpreter shares with the outside: the terminal in both directions, the
    times it slept, and the counter of [gensym]. *)
Record WORLD := mkWorld { Input : string; Output : string; Slept : list Z; GensymCount : Z }.

(** The block, the store, and the root frames on the C stack, innermost first. *)
Record LISP := mkLisp { Block : ALLOC_BLOCK; Heap : GC; Roots : list (list ptr); World : WORLD }.

Definition on_heap {A} (m : St GC A) : St LISP A := fun l =>
  match m (Heap l) with Ok (a, h) => Ok (a, mkLisp (Block l) h (Roots l) (World l)) | Err e => Err e end.
Definition set_Block (f : ALLOC_BLOCK -> ALLOC_BLOCK) : St LISP unit :=
  modify (fun l => mkLisp (f (Block l)) (Heap l) (Roots l) (World l)).
Definition set_Roots (r : list (list ptr)) : St LISP unit :=
  modify (fun l => mkLisp (Block l) (Heap l) r (World l)).

Definition with_gc_running b (k : ALLOC_BLOCK) := mkBlock (memory k) (from_space k) (mem_nused k) (cur_heap k) (next_heap k)
  (memory_size k) b (debug_gc k) (always_gc k) (Symbols k).
Definition with_mem_nused n (k : ALLOC_BLOCK) := mkBlock (memory k) (from_space k) n (cur_heap k) (next_heap k)
  (memory_size k) (gc_running k) (debug_gc k) (always_gc k) (Symbols k).
Definition with_Symbols p (k : ALLOC_BLOCK) := mkBlock (memory k) (from_space k) (mem_nused k) (cur_heap k) (next_heap k)
  (memory_size k) (gc_running k) (debug_gc k) (always_gc k) p.
(** [from_space = memory; memory = next_heap; next_heap = cur_heap; cur_heap = memory] *)
Definition swap_heaps (k : ALLOC_BLOCK) := mkBlock (next_heap k) (memory k) (mem_nused k) (next_heap k) (cur_heap k)
  (memory_size k) (gc_running k) (debug_gc k) (always_gc k) (Symbols k).

Definition set_World (f : WORLD -> WORLD) : St LISP unit :=
  modify (fun l => mkLisp (Block l) (Heap l) (Roots l) (f (World l))).
Definition with_Output o (w : WORLD) := mkWorld (Input w) o (Slept w) (GensymCount w).

(** ** Output *)

(** The loop ends when the serial line has taken every byte. *)
Definition write (buf : string) : St LISP unit := set_World (fun w => with_Output (Output w +:+ buf) w).

(** [char buff[100]] *)
Definition lisp_printf (s : string) : St LISP unit := write (String.substring 0 99 s).

Definition newline : string := String (Ascii.ascii_of_nat 10) EmptyString.

Definition gc_message (nused old_nused : Z) : string :=
  "GC: " +:+ pretty nused +:+ " bytes out of " +:+ pretty old_nused +:+ " bytes copied." +:+ newline.

(** At most one object is scanned for every byte in use. *)
Definition gc : St LISP unit :=
  b ← gets Block;
  assert (negb (gc_running b));;
  set_Block (with_gc_running true);;
  set_Block swap_heaps;;
  b ← gets Block;
  on_heap (set_scan2 (memory b));;
  on_heap (set_scan1 (memory b));;
  (* forward_root_objects *)
  symbols ← on_heap (forward (from_space b) (memory_size b) (Symbols b));
  set_Block (with_Symbols symbols);;
  root ← gets Roots;
  root ← on_heap (forward_frames (from_space b) (memory_size b) root);
  set_Roots root;;
  on_heap (scan_loop (Z.to_nat (mem_nused b)) (from_space b) (memory_size b));;
  let old_nused := mem_nused b in
  s1 ← gets (fun l => scan1 (Heap l));
  set_Block (with_mem_nused (s1 - memory b));;
  (if debug_gc b then lisp_printf (gc_message (s1 - memory b) old_nused) else mret tt);;
  set_Block (with_gc_running false).

(** ** Allocation *)

Definition roundup (var size : Z) : Z := Z.land (w64 (var + size - 1)) (Z.lxor (size - 1) max64).

Definition POINTER_SIZE : Z := 8.
(** [offsetof(Obj, value)] *)
Definition VALUE_OFFSET : Z := 8.

Definition object_size (size : Z) : Z :=
  let size := roundup size POINTER_SIZE in
  let size := w64 (size + VALUE_OFFSET) in
  roundup size POINTER_SIZE.

(** The new object has the type and, until the caller has stored them, the members [v]. *)
Definition alloc (v : value) (size : Z) : St LISP ptr :=
  let size := object_size size in
  b ← gets Block;
  (if always_gc b && negb (gc_running b) then gc else mret tt);;
  b ← gets Block;
  (if negb (always_gc b) && (memory_size b <? w64 (mem_nused b + size)) then gc else mret tt);;
  b ← gets Block;
  (if memory_size b <? w64 (mem_nused b + size) then fail FMemory else mret tt);;
  let obj := memory b + mem_nused b in
  on_heap (store obj (mkObj size v));;
  set_Block (fun b => with_mem_nused (w64 (mem_nused b + size)) b);;
  mret obj.
