(* ===== verification/LispGc.v ===== *)
(** * The collector keeps the objects that can be reached (proofs over LispHeap)

    [order] lists the objects that have been copied, in the order of their copies; the
    copy of an object is at the sum of the sizes of the objects before it. *)

From stdpp Require Import strings.
From S2P Require Import Prelude LispHeap.

(** ** Spaces *)

(** [l] are the objects that fill the range from [a] to [b]. *)
Fixpoint layout (H : gmap Z Obj) (a : ptr) (l : list ptr) (b : ptr) : Prop :=
  match l with
  | [] => a = b
  | x :: l => x = a /\ exists o, H !! a = Some o /\ 0 < size o /\ layout H (a + size o) l b
  end.

Section objects.
Context (H : gmap Z Obj).

Definition obj (a : ptr) : Obj := default (mkObj 0 (TINT 0)) (H !! a).

Definition sizes (l : list ptr) : Z := foldr (fun a n => size (obj a) + n) 0 l.

Lemma sizes_app l1 l2 : sizes (l1 ++ l2) = sizes l1 + sizes l2.
Proof. induction l1; simpl; lia. Qed.

Lemma sizes_perm l1 l2 : l1 ≡ₚ l2 -> sizes l1 = sizes l2.
Proof. induction 1; simpl; lia. Qed.

Lemma sizes_nonneg l : (forall a, a ∈ l -> 0 < size (obj a)) -> 0 <= sizes l /\ (l <> [] -> 0 < sizes l) /\ Z.of_nat (length l) <= sizes l.
Proof.
  induction l as [|a l IH]; intros Hp; simpl; [split_and!; done|]. destruct IH as (H1 & _ & H3); [intros; apply Hp; set_solver|].
  specialize (Hp a ltac:(set_solver)). split_and!; intros; lia.
Qed.

Lemma sizes_sub l1 l2 : NoDup l1 -> (forall a, a ∈ l1 -> a ∈ l2) -> (forall a, a ∈ l2 -> 0 < size (obj a)) -> sizes l1 <= sizes l2.
Proof.
  intros Hnd Hsub Hp. assert (l1 ⊆+ l2) as Hs by (by apply NoDup_submseteq).
  apply submseteq_Permutation in Hs as [k Hk]. rewrite (sizes_perm _ _ Hk), sizes_app.
  destruct (sizes_nonneg k); [|lia]. intros a Ha. apply Hp. rewrite Hk. set_solver.
Qed.

Lemma layout_obj a l b x : layout H a l b -> x ∈ l -> 0 < size (obj x) /\ a <= x /\ x + size (obj x) <= b /\ is_Some (H !! x).
Proof.
  revert a. induction l as [|y l IH]; intros a Hl Hx; [by apply elem_of_nil in Hx|].
  destruct Hl as (-> & o & Ho & Hs & Hl).
  assert (a + size o <= b) as Hle.
  { clear IH Hx Ho. revert a Hl. induction l as [|z l IH]; intros a Hl; simpl in Hl; [lia|].
    destruct Hl as (-> & o' & _ & Hs' & Hl). revert Hl. replace (a + size o + size o') with ((a + size o') + size o) by lia.
    intros Hl. specialize (IH _ Hl). lia. }
  apply elem_of_cons in Hx as [->|Hx].
  - unfold obj. rewrite Ho. simpl. split; [done|]. split; [lia|]. split; [done|by eexists].
  - destruct (IH _ Hl Hx) as (H1 & H2 & H3 & H4). split; [done|]. split; [lia|done].
Qed.

Lemma layout_nodup a l b : layout H a l b -> NoDup l.
Proof.
  revert a. induction l as [|y l IH]; intros a Hl; [constructor|]. destruct Hl as (-> & o & Ho & Hs & Hl).
  constructor; [|by eapply IH]. intros Hin. destruct (layout_obj _ _ _ _ Hl Hin). lia.
Qed.

Lemma layout_sizes a l b : layout H a l b -> sizes l = b - a.
Proof.
  revert a. induction l as [|y l IH]; intros a Hl; simpl in *; [lia|]. destruct Hl as (-> & o & Ho & Hs & Hl).
  rewrite (IH _ Hl). unfold obj. rewrite Ho. simpl. lia.
Qed.

(** ** Where the copies are *)

Fixpoint loc (base : ptr) (order : list ptr) (a : ptr) : ptr :=
  match order with
  | [] => NULL
  | x :: order => if decide (x = a) then base else loc (base + size (obj x)) order a
  end.

Lemma loc_range base order a : (forall x, x ∈ order -> 0 < size (obj x)) -> a ∈ order ->
  base <= loc base order a /\ loc base order a + size (obj a) <= base + sizes order.
Proof.
  revert base. induction order as [|x order IH]; intros base Hp Ha; [by apply elem_of_nil in Ha|]. simpl.
  destruct (sizes_nonneg order) as [Hn _]; [intros; apply Hp; set_solver|].
  case_decide as E; [subst; lia|]. apply elem_of_cons in Ha as [->|Ha]; [done|].
  specialize (IH (base + size (obj x)) ltac:(intros; apply Hp; set_solver) Ha). specialize (Hp x ltac:(set_solver)). lia.
Qed.

Lemma loc_app base o1 o2 a : a ∈ o1 -> loc base (o1 ++ o2) a = loc base o1 a.
Proof.
  revert base. induction o1 as [|x o1 IH]; intros base Ha; [by apply elem_of_nil in Ha|]. simpl. case_decide; [done|].
  apply elem_of_cons in Ha as [->|Ha]; [done|]. by apply IH.
Qed.

Lemma loc_new base o1 o2 a : a ∉ o1 -> loc base (o1 ++ a :: o2) a = base + sizes o1.
Proof.
  revert base. induction o1 as [|x o1 IH]; intros base Ha; simpl; [rewrite decide_True by done; lia|].
  apply not_elem_of_cons in Ha as [Hx Ha]. rewrite decide_False by done. rewrite IH by done. lia.
Qed.

Lemma loc_inj base order a b : (forall x, x ∈ order -> 0 < size (obj x)) -> a ∈ order -> b ∈ order ->
  loc base order a = loc base order b -> a = b.
Proof.
  revert base. induction order as [|x order IH]; intros base Hp Ha Hb Heq; [by apply elem_of_nil in Ha|]. simpl in Heq.
  assert (0 < size (obj x)) as Hx by (apply Hp; set_solver).
  assert (forall y, y ∈ order -> 0 < size (obj y)) as Hp' by (intros; apply Hp; set_solver).
  do 2 case_decide; try congruence.
  - apply elem_of_cons in Hb as [->|Hb]; [done|]. pose proof (loc_range (base + size (obj x)) order b Hp' Hb). lia.
  - apply elem_of_cons in Ha as [->|Ha]; [done|]. pose proof (loc_range (base + size (obj x)) order a Hp' Ha). lia.
  - apply elem_of_cons in Ha as [->|Ha]; [done|]. apply elem_of_cons in Hb as [->|Hb]; [done|]. by apply (IH (base + size (obj x))).
Qed.
End objects.

(** ** Members *)

Lemma members_with ms v : length ms = length (members v) -> members (with_members ms v) = ms.
Proof. destruct v, ms as [|? [|? [|? [|? ?]]]]; intros Hl; simplify_eq/=; done. Qed.

Lemma with_members_same v : with_members (members v) v = v.
Proof. by destruct v. Qed.

Lemma with_members_twice ms ms' v : length ms = length (members v) -> length ms' = length (members v) ->
  with_members ms' (with_members ms v) = with_members ms' v.
Proof. destruct v, ms as [|? [|? [|? [|? ?]]]], ms' as [|? [|? [|? [|? ?]]]]; intros H1 H2; simplify_eq/=; done. Qed.

(** Objects that programs see in a heap. *)
Definition proper (v : value) : Prop := match v with TMOVED _ | TCONST _ _ _ => False | _ => True end.

(** ** Copying *)

Section collector.
(** The from-space before the collection and the two spaces. *)
Context (H : gmap Z Obj) (l : list ptr) (from to nused msize : Z).
Context (Hlayout : layout H from l (from + nused)) (Hused : nused <= msize).
Context (Hfrom : HEAP_BASE <= from) (Hto : HEAP_BASE <= to) (Hdisj : from + msize <= to \/ to + msize <= from).

(** A pointer that programs may hold: to an object, to a static object or NULL. *)
Definition good (p : ptr) : Prop := p ∈ l \/ p < HEAP_BASE.
Context (Hgood : forall a, a ∈ l -> proper (val (obj H a)) /\ forall p, p ∈ members (val (obj H a)) -> good p).

(** The objects that the roots reach. *)
Context (root : ptr -> Prop).
Inductive reach : ptr -> Prop :=
| reach_root a : root a -> a ∈ l -> reach a
| reach_member a p : reach a -> p ∈ members (val (obj H a)) -> p ∈ l -> reach p.

(** The new value of a pointer. *)
Definition phi (order : list ptr) (p : ptr) : ptr := if decide (p ∈ order) then loc H to order p else p.

Definition closed (order : list ptr) (p : ptr) : Prop := p ∈ order \/ p ∉ l.

(** Objects that are copied later are copied as they are. *)
Definition extend (order : list ptr) (content : ptr -> Obj) (x : ptr) : Obj := if decide (x ∈ order) then content x else obj H x.

Record copying (g : GC) (order : list ptr) (content : ptr -> Obj) : Prop := {
  c_scan2 : scan2 g = to + sizes H order;
  c_nodup : NoDup order;
  c_sub a : a ∈ order -> reach a;
  c_from a : a ∈ l -> Mem g !! a = if decide (a ∈ order) then Some (mkObj (size (obj H a)) (TMOVED (loc H to order a))) else H !! a;
  c_to a : a ∈ order -> Mem g !! loc H to order a = Some (content a);
  c_low p : p < HEAP_BASE -> Mem g !! p = H !! p
}.

Lemma reach_in a : reach a -> a ∈ l.
Proof. by destruct 1. Qed.

Lemma pos_in a : a ∈ l -> 0 < size (obj H a).
Proof. intros Ha. by destruct (layout_obj H _ _ _ _ Hlayout Ha). Qed.

Lemma low_out p : p < HEAP_BASE -> p ∉ l.
Proof. intros Hp Hin. destruct (layout_obj H _ _ _ _ Hlayout Hin). lia. Qed.

Lemma phi_static order p : (forall a, a ∈ order -> reach a) -> p ∉ l -> phi order p = p.
Proof. intros Hs Hp. unfold phi. rewrite decide_False; [done|]. intros Hin. by apply Hp, reach_in, Hs. Qed.

(** Later copies do not change where an object went. *)
Lemma phi_app order new p : (forall a, a ∈ order ++ new -> reach a) -> closed order p -> phi (order ++ new) p = phi order p.
Proof.
  intros Hs [Hp|Hp].
  - unfold phi. rewrite !decide_True by (done || (apply elem_of_app; by left)). by apply loc_app.
  - rewrite !phi_static; [done| |done..]. intros a Ha. apply Hs, elem_of_app. by left.
Qed.

Lemma copying_sizes g order content : copying g order content -> sizes H order <= nused.
Proof.
  intros Hc. rewrite <- (Z.add_simpl_l from nused), <- (layout_sizes H _ _ _ Hlayout).
  apply sizes_sub; [apply Hc|intros a Ha; by apply reach_in, Hc|apply pos_in].
Qed.

(** The copies are in the other space. *)
Lemma loc_out g order content a : copying g order content -> a ∈ order ->
  to <= loc H to order a /\ loc H to order a + size (obj H a) <= scan2 g /\ loc H to order a ∉ l.
Proof.
  intros Hc Ha. pose proof (copying_sizes g order content Hc) as Hs.
  destruct (loc_range H to order a) as [H1 H2]; [intros; by apply pos_in, reach_in, Hc|done|].
  rewrite (c_scan2 _ _ _ Hc). split; [done|]. split; [done|]. intros Hin. destruct (layout_obj H _ _ _ _ Hlayout Hin) as (? & ? & ? & _).
  pose proof (pos_in a ltac:(by apply reach_in, Hc)). lia.
Qed.

(** A store to the copy of an object. *)
Lemma copying_store g order content a o :
  copying g order content -> a ∈ order ->
  copying (mkGc (<[loc H to order a := o]> (Mem g)) (scan1 g) (scan2 g)) order (fun x => if decide (x = a) then o else content x).
Proof.
  intros Hc Ha. destruct (loc_out g order content a Hc Ha) as (H1 & H2 & H3). destruct Hc as [C1 C2 C3 C4 C5 C6]. constructor; try done; simpl.
  - intros x Hx. rewrite lookup_insert_ne; [by apply C4|]. intros <-. done.
  - intros x Hx. case_decide as E; [subst; by rewrite lookup_insert_eq|]. rewrite lookup_insert_ne; [by apply C5|].
    intros Heq. apply E. apply (loc_inj H to order); [intros; by apply pos_in, reach_in, C3|done..].
  - intros p Hp. rewrite lookup_insert_ne by lia. by apply C6.
Qed.

Lemma copying_new g order content p o :
  copying g order content -> p ∈ l -> p ∉ order -> reach p -> H !! p = Some o ->
  copying (mkGc (<[p := mkObj (size o) (TMOVED (scan2 g))]> (<[scan2 g := o]> (Mem g))) (scan1 g) (scan2 g + size o))
    (order ++ [p]) (extend order content).
Proof.
  intros Hc Hp Hn Hr Ho. assert (obj H p = o) as Hobj by (unfold obj; by rewrite Ho).
  pose proof Hc as [C1 C2 C3 C4 C5 C6]. pose proof (pos_in p Hp) as Hpos. rewrite Hobj in Hpos.
  assert (NoDup (order ++ [p])) as Hnd by (apply NoDup_app; split_and!; [done|set_solver|apply NoDup_singleton]).
  assert (forall a, a ∈ order ++ [p] -> reach a) as Hsub.
  { intros a Ha. apply elem_of_app in Ha as [Ha|Ha%list_elem_of_singleton]; [by apply C3|by subst]. }
  assert (sizes H (order ++ [p]) <= nused) as Hsz.
  { rewrite <- (Z.add_simpl_l from nused), <- (layout_sizes H _ _ _ Hlayout).
    apply sizes_sub; [done|intros a Ha; by apply reach_in, Hsub|apply pos_in]. }
  rewrite sizes_app in Hsz. simpl in Hsz. rewrite Hobj in Hsz.
  assert (scan2 g ∉ l) as Hs2.
  { intros Hin. destruct (layout_obj H _ _ _ _ Hlayout Hin) as (? & ? & ? & _).
    destruct (sizes_nonneg H order) as [Hn0 _]; [intros; by apply pos_in, reach_in, C3|]. lia. }
  assert (loc H to (order ++ [p]) p = scan2 g) as Hloc by (rewrite loc_new by done; lia).
  constructor; [|done..| | |]; simpl.
  - rewrite C1, sizes_app. simpl. rewrite Hobj. lia.
  - intros a Ha. destruct (decide (a = p)) as [->|Hne].
    + rewrite lookup_insert_eq, decide_True, Hloc, Hobj by set_solver. done.
    + rewrite lookup_insert_ne, lookup_insert_ne, C4 by (congruence || done).
      destruct (decide (a ∈ order)) as [Hin|Hin].
      * rewrite decide_True, loc_app by set_solver. done.
      * rewrite decide_False by set_solver. done.
  - intros a Ha. apply elem_of_app in Ha as [Ha|Ha%list_elem_of_singleton].
    + destruct (loc_out g order content a Hc Ha) as (L1 & L2 & L3). pose proof (pos_in a ltac:(by apply reach_in, C3)).
      rewrite loc_app by done. rewrite lookup_insert_ne by (intros ->; done). rewrite lookup_insert_ne by lia.
      unfold extend. rewrite decide_True by done. by apply C5.
    + subst a. unfold extend. rewrite Hloc. rewrite lookup_insert_ne by (intros ->; done). rewrite lookup_insert_eq, decide_False by done. by rewrite Hobj.
  - intros q Hq. destruct (layout_obj H _ _ _ _ Hlayout Hp) as (_ & ? & _). destruct (sizes_nonneg H order) as [? _]; [intros; by apply pos_in, reach_in, C3|].
    rewrite !lookup_insert_ne by lia. by apply C6.
Qed.

(** ** Forwarding *)

Lemma forward_ok g order content p :
  copying g order content -> good p -> (p ∈ l -> reach p) ->
  exists g' new, forward from msize p g = Ok (phi (order ++ new) p, g') /\
    copying g' (order ++ new) (extend order content) /\
    closed (order ++ new) p /\ scan1 g' = scan1 g.
Proof.
  intros Hc Hp Hr. pose proof Hc as [C1 C2 C3 C4 C5 C6].
  assert (copying g (order ++ []) (extend order content)) as Hc0.
  { rewrite app_nil_r. constructor; try done. intros a Ha. unfold extend. rewrite decide_True by done. by apply C5. }
  unfold forward. destruct (decide (p ∈ l)) as [Hin|Hout].
  - destruct (layout_obj H _ _ _ _ Hlayout Hin) as (Hpos & Hlo & Hhi & [o Ho]).
    rewrite (proj2 (Z.ltb_ge _ _)), (proj2 (Z.leb_gt _ _)) by lia. cbn [orb].
    pose proof (C4 p Hin) as Hm. destruct (decide (p ∈ order)) as [Hord|Hord].
    + exists g, []. unfold mbind, st_bind, load. rewrite Hm. cbn [val]. split; [|split; [done|split; [left; set_solver|done]]].
      unfold phi. rewrite app_nil_r, decide_True by done. done.
    + assert (obj H p = o) as Hobj by (unfold obj; by rewrite Ho).
      destruct (Hgood p Hin) as [Hpr _]. rewrite Hobj in Hpr.
      eexists _, [p]. split; [|split; [by apply (copying_new g order content p o); [..|apply Hr|]|split; [left; set_solver|done]]].
      unfold mbind, st_bind, load. rewrite Hm, Ho. unfold phi. rewrite decide_True by set_solver.
      rewrite loc_new by done. rewrite <- C1. unfold gets, store, set_scan2, modify. simpl. by destruct (val o).
  - destruct Hp as [?|Hlow]; [done|]. exists g, []. rewrite (proj2 (Z.ltb_lt _ _)) by lia. cbn [orb].
    split; [|split; [done|split; [by right|done]]]. rewrite app_nil_r, phi_static; [done|done|done].
Qed.

Lemma copying_ext g order c c' : copying g order c -> (forall x, x ∈ order -> c x = c' x) -> copying g order c'.
Proof. intros [C1 C2 C3 C4 C5 C6] He. constructor; try done. intros a Ha. by rewrite <- He, C5. Qed.

Lemma extend_app order new content x : extend (order ++ new) (extend order content) x = extend order content x.
Proof. unfold extend. repeat case_decide; set_solver. Qed.

Lemma closed_app order new p : closed order p -> closed (order ++ new) p.
Proof. intros [?|?]; [left; apply elem_of_app; by left|by right]. Qed.

Lemma forward_frame_ok g order content frame :
  copying g order content -> (forall p, p ∈ frame -> good p /\ (p ∈ l -> reach p)) ->
  exists g' new, forward_frame from msize frame g = Ok (phi (order ++ new) <$> frame, g') /\
    copying g' (order ++ new) (extend order content) /\ (forall p, p ∈ frame -> closed (order ++ new) p) /\ scan1 g' = scan1 g.
Proof.
  revert g order content. induction frame as [|p frame IH]; intros g order content Hc Hg.
  { exists g, []. split; [done|]. rewrite app_nil_r. split; [|split; [intros p Hp; by apply elem_of_nil in Hp|done]].
    eapply copying_ext; [done|]. intros x Hx. unfold extend. by rewrite decide_True. }
  assert (exists g1 new, (if p =? NULL then mret p else forward from msize p) g = Ok (phi (order ++ new) p, g1) /\
    copying g1 (order ++ new) (extend order content) /\ closed (order ++ new) p /\ scan1 g1 = scan1 g) as (g1 & n1 & Hr1 & Hc1 & Hcl1 & Hs1).
  { destruct (Z.eqb_spec p NULL) as [->|Hne]; [|apply forward_ok; [done|apply Hg; set_solver..]].
    exists g, []. rewrite app_nil_r. assert (NULL ∉ l) as Hn by (apply low_out; by vm_compute).
    rewrite phi_static by (done || apply Hc). split; [done|split; [|split; [by right|done]]].
    eapply copying_ext; [done|]. intros x Hx. unfold extend. by rewrite decide_True. }
  destruct (IH g1 (order ++ n1) (extend order content) Hc1) as (g2 & n2 & Hr2 & Hc2 & Hcl2 & Hs2); [intros; apply Hg; set_solver|].
  exists g2, (n1 ++ n2). rewrite app_assoc. split; [|split; [|split; [|congruence]]].
  - cbn [forward_frame]. rewrite (st_bind_ok _ _ _ _ _ Hr1), (st_bind_ok _ _ _ _ _ Hr2). cbn [fmap list_fmap].
    rewrite (phi_app (order ++ n1) n2 p); [done|apply Hc2|done].
  - eapply copying_ext; [done|]. intros x _. apply extend_app.
  - intros q Hq. apply elem_of_cons in Hq as [->|Hq]; [by apply closed_app|by apply Hcl2].
Qed.

Lemma forward_frames_ok g order content frames :
  copying g order content -> (forall frame p, frame ∈ frames -> p ∈ frame -> good p /\ (p ∈ l -> reach p)) ->
  exists g' new, forward_frames from msize frames g = Ok (fmap (M:=list) (phi (order ++ new)) <$> frames, g') /\
    copying g' (order ++ new) (extend order content) /\
    (forall frame p, frame ∈ frames -> p ∈ frame -> closed (order ++ new) p) /\ scan1 g' = scan1 g.
Proof.
  revert g order content. induction frames as [|frame frames IH]; intros g order content Hc Hg.
  { exists g, []. split; [done|]. rewrite app_nil_r. split; [|split; [intros f p Hp; by apply elem_of_nil in Hp|done]].
    eapply copying_ext; [done|]. intros x Hx. unfold extend. by rewrite decide_True. }
  destruct (forward_frame_ok g order content frame Hc) as (g1 & n1 & Hr1 & Hc1 & Hcl1 & Hs1); [intros; apply (Hg frame); set_solver|].
  destruct (IH g1 (order ++ n1) (extend order content) Hc1) as (g2 & n2 & Hr2 & Hc2 & Hcl2 & Hs2); [intros f p Hf; apply (Hg f); set_solver|].
  exists g2, (n1 ++ n2). rewrite app_assoc. split; [|split; [|split; [|congruence]]].
  - cbn [forward_frames]. rewrite (st_bind_ok _ _ _ _ _ Hr1), (st_bind_ok _ _ _ _ _ Hr2). unfold mret, st_ret. do 2 f_equal.
    rewrite fmap_cons. f_equal. apply list_fmap_ext. intros i q Hq. symmetry. apply phi_app; [apply Hc2|].
    apply Hcl1. by eapply list_elem_of_lookup_2.
  - eapply copying_ext; [done|]. intros x _. apply extend_app.
  - intros f q Hf Hq. apply elem_of_cons in Hf as [->|Hf]; [by apply closed_app, Hcl1|by eapply Hcl2].
Qed.

(** ** Scanning *)

(** The copy of [a] with its first [i] members forwarded. *)
Definition partial (order : list ptr) (a : ptr) (i : nat) : Obj :=
  let ms := members (val (obj H a)) in
  mkObj (size (obj H a)) (with_members ((phi order <$> take i ms) ++ drop i ms) (val (obj H a))).

Lemma partial_length order a i : length ((phi order <$> take i (members (val (obj H a)))) ++ drop i (members (val (obj H a)))) =
  length (members (val (obj H a))).
Proof. rewrite length_app, length_fmap, length_take, length_drop. lia. Qed.

Lemma partial_0 order a : partial order a 0 = obj H a.
Proof. unfold partial. rewrite take_0, drop_0. cbn [fmap list_fmap app]. rewrite with_members_same. by destruct (obj H a). Qed.

Lemma forward_member_ok g order content a i :
  copying g order content -> a ∈ order -> scan1 g = loc H to order a -> content a = partial order a i ->
  (i < length (members (val (obj H a))))%nat -> (forall p, p ∈ take i (members (val (obj H a))) -> closed order p) ->
  exists g' new content', forward_member from msize i g = Ok (tt, g') /\ copying g' (order ++ new) content' /\
    content' a = partial (order ++ new) a (S i) /\ (forall x, x <> a -> content' x = extend order content x) /\
    (forall p, p ∈ take (S i) (members (val (obj H a))) -> closed (order ++ new) p) /\ scan1 g' = loc H to (order ++ new) a.
Proof.
  intros Hc Ha Hs Hca Hi Hcl. set (ms := members (val (obj H a))) in *.
  destruct (lookup_lt_is_Some_2 ms i Hi) as [p Hp].
  pose proof (c_sub _ _ _ Hc a Ha) as Hra. destruct (Hgood a (reach_in a Hra)) as [_ Hgm].
  destruct (forward_ok g order content p Hc) as (g1 & new & Hr & Hc1 & Hcp & Hs1).
  { apply Hgm. by eapply list_elem_of_lookup_2. }
  { intros Hpl. apply (reach_member a); [done| |done]. by eapply list_elem_of_lookup_2. }
  assert (extend order content a = partial order a i) as He by (unfold extend; by rewrite decide_True).
  set (ms' := <[i := phi (order ++ new) p]> ((phi order <$> take i ms) ++ drop i ms)).
  assert (members (val (partial order a i)) = (phi order <$> take i ms) ++ drop i ms) as Hmem
    by (unfold partial; cbn [val]; apply members_with, partial_length).
  assert (a ∈ order ++ new) as Ha' by set_solver.
  assert (ms' = (phi (order ++ new) <$> take (S i) ms) ++ drop (S i) ms) as Hms.
  { unfold ms'. rewrite insert_app_r_alt by (rewrite length_fmap, length_take; lia).
    rewrite length_fmap, length_take, Nat.min_l by lia. rewrite Nat.sub_diag, (drop_S _ _ _ Hp). cbn [insert list_insert].
    rewrite (take_S_r _ _ _ Hp), fmap_app, <- app_assoc. cbn [fmap list_fmap app]. f_equal.
    apply list_fmap_ext. intros j q Hq. symmetry. apply phi_app; [apply Hc1|]. apply Hcl. by eapply list_elem_of_lookup_2. }
  eexists _, new, (fun x => if decide (x = a) then partial (order ++ new) a (S i) else extend order content x).
  assert (length ms' = length ms) as Hlen by (unfold ms'; rewrite length_insert; apply partial_length).
  split; [|split; [apply (copying_store g1 (order ++ new) (extend order content) a); done|split; [by rewrite decide_True|]]].
  - unfold forward_member. unfold mbind at 1, st_bind at 1, gets at 1. unfold mbind at 1, st_bind at 1, load at 1.
    rewrite Hs, (c_to _ _ _ Hc a Ha), Hca, Hmem.
    rewrite lookup_app_r by (rewrite length_fmap, length_take; lia). rewrite length_fmap, length_take, Nat.min_l, lookup_drop by lia.
    replace (i + (i - i))%nat with i by lia. rewrite Hp. rewrite (st_bind_ok _ _ _ _ _ Hr).
    unfold mbind, st_bind, load. rewrite <- (loc_app H to order new a Ha), (c_to _ _ _ Hc1 a Ha'), He, Hmem.
    unfold store, modify. do 4 f_equal. unfold partial at 3. cbn [size val]. fold ms. f_equal.
    rewrite <- Hms. unfold partial. cbn [val]. apply with_members_twice; [apply partial_length|done].
  - split; [intros x Hx; by rewrite decide_False|]. split; [|by rewrite Hs1, Hs, loc_app].
    intros q Hq. rewrite (take_S_r _ _ _ Hp) in Hq. apply elem_of_app in Hq as [Hq|Hq%list_elem_of_singleton]; [by apply closed_app, Hcl|by subst].
Qed.

(** The members from [i] on, one after the other. *)
Fixpoint forward_seq (i k : nat) : St GC unit :=
  match k with O => mret tt | S k => forward_member from msize i;; forward_seq (S i) k end.

Lemma forward_seq_ok g order content a i k :
  copying g order content -> a ∈ order -> scan1 g = loc H to order a -> content a = partial order a i ->
  (i + k)%nat = length (members (val (obj H a))) -> (forall p, p ∈ take i (members (val (obj H a))) -> closed order p) ->
  exists g' new content', forward_seq i k g = Ok (tt, g') /\ copying g' (order ++ new) content' /\
    content' a = partial (order ++ new) a (i + k) /\ (forall x, x <> a -> content' x = extend order content x) /\
    (forall p, p ∈ members (val (obj H a)) -> closed (order ++ new) p) /\ scan1 g' = loc H to (order ++ new) a.
Proof.
  revert g order content i. induction k as [|k IH]; intros g order content i Hc Ha Hs Hca Hik Hcl.
  { exists g, [], (fun x => if decide (x = a) then content a else extend order content x). rewrite app_nil_r, Nat.add_0_r.
    split; [done|]. split; [|split; [by rewrite decide_True|split; [intros x Hx; by rewrite decide_False|split; [|done]]]].
    - eapply copying_ext; [done|]. intros x Hx. case_decide; [by subst|]. unfold extend. by rewrite decide_True.
    - intros p Hp. apply Hcl. by rewrite take_ge by lia. }
  destruct (forward_member_ok g order content a i Hc Ha Hs Hca ltac:(lia) Hcl) as (g1 & n1 & c1 & Hr1 & Hc1 & Hca1 & Ho1 & Hcl1 & Hs1).
  destruct (IH g1 (order ++ n1) c1 (S i) Hc1 ltac:(set_solver) Hs1 Hca1 ltac:(lia) Hcl1) as (g2 & n2 & c2 & Hr2 & Hc2 & Hca2 & Ho2 & Hcl2 & Hs2).
  exists g2, (n1 ++ n2), c2. rewrite app_assoc, Nat.add_succ_r. split; [by cbn [forward_seq]; rewrite (st_bind_ok _ _ _ _ _ Hr1)|].
  split; [done|]. split; [done|]. split; [|done]. intros x Hx. rewrite Ho2 by done. unfold extend at 1.
  case_decide; [by apply Ho1|]. unfold extend. rewrite decide_False by set_solver. done.
Qed.

Lemma scan_object_ok g order content a :
  copying g order content -> a ∈ order -> scan1 g = loc H to order a -> content a = obj H a ->
  exists g' new content', scan_object from msize g = Ok (tt, g') /\ copying g' (order ++ new) content' /\
    content' a = partial (order ++ new) a (length (members (val (obj H a)))) /\ (forall x, x <> a -> content' x = extend order content x) /\
    (forall p, p ∈ members (val (obj H a)) -> closed (order ++ new) p) /\ scan1 g' = loc H to (order ++ new) a.
Proof.
  intros Hc Ha Hs Hca. rewrite <- (partial_0 order a) in Hca.
  destruct (forward_seq_ok g order content a 0 (length (members (val (obj H a)))) Hc Ha Hs Hca eq_refl) as (g' & new & c' & Hr & Hrest).
  { intros p Hp. rewrite take_0 in Hp. by apply elem_of_nil in Hp. }
  exists g', new, c'. split; [|done]. rewrite <- Hr. unfold scan_object. unfold mbind at 1, st_bind at 1, gets at 1.
  assert (load (scan1 g) g = Ok (obj H a, g)) as Hload by (unfold load; by rewrite Hs, (c_to _ _ _ Hc a Ha), Hca, partial_0).
  rewrite (st_bind_ok _ _ _ _ _ Hload). destruct (Hgood a (reach_in a (c_sub _ _ _ Hc a Ha))) as [Hp _].
  destruct (val (obj H a)); try done; cbn [members length forward_seq]; unfold mbind, st_bind, mret, st_ret;
    destruct (forward_member from msize 0 g) as [[[] y]|]; try done;
    destruct (forward_member from msize 1 y) as [[[] z]|]; try done; by destruct (forward_member from msize 2 z) as [[[] ?]|].
Qed.

(** What a scanned copy holds. *)
Definition copied (order : list ptr) (a : ptr) : Obj :=
  mkObj (size (obj H a)) (with_members (phi order <$> members (val (obj H a))) (val (obj H a))).

Lemma partial_all order a : partial order a (length (members (val (obj H a)))) = copied order a.
Proof. unfold partial, copied. by rewrite take_ge, drop_ge, app_nil_r by lia. Qed.

Lemma copied_app order new a : (forall x, x ∈ order ++ new -> reach x) -> (forall p, p ∈ members (val (obj H a)) -> closed order p) ->
  copied (order ++ new) a = copied order a.
Proof.
  intros Hs Hc. unfold copied. do 2 f_equal. apply list_fmap_ext. intros i p Hp. apply phi_app; [done|].
  apply Hc. by eapply list_elem_of_lookup_2.
Qed.

Lemma scan_loop_ok fuel g todo content :
  forall done, copying g (done ++ todo) content -> scan1 g = to + sizes H done ->
  (forall a, a ∈ done -> content a = copied (done ++ todo) a /\ forall p, p ∈ members (val (obj H a)) -> closed (done ++ todo) p) ->
  (forall a, a ∈ todo -> content a = obj H a) -> (length l <= length done + fuel)%nat ->
  exists g' new, let order := (done ++ todo) ++ new in
    scan_loop fuel from msize g = Ok (tt, g') /\ copying g' order (copied order) /\ scan1 g' = to + sizes H order /\
    (forall a p, a ∈ order -> p ∈ members (val (obj H a)) -> closed order p).
Proof.
  revert g todo content. induction fuel as [|fuel IH]; intros g todo content dn Hc Hs Hdone Htodo Hfuel.
  all: pose proof Hc as [C1 C2 C3 C4 C5 C6]; destruct todo as [|a todo].
  1, 3: rewrite app_nil_r in *; exists g, []; rewrite app_nil_r; cbv zeta; split;
    [cbn [scan_loop]; unfold mbind, st_bind, gets; rewrite Hs, C1, (proj2 (Z.ltb_ge _ _)) by lia; done|];
    split; [eapply copying_ext; [done|]; intros x Hx; by apply Hdone|]; split; [done|]; intros x p Hx; by apply Hdone.
  { exfalso. assert (length (dn ++ a :: todo) <= length l)%nat as Hlen.
    { apply submseteq_length, NoDup_submseteq; [done|]. intros x Hx. by apply reach_in, C3. }
    rewrite length_app in Hlen. simpl in Hlen. lia. }
  assert (a ∈ dn ++ a :: todo) as Ha by set_solver.
  assert (a ∉ dn) as Hna. { apply NoDup_app in C2 as (_ & Hd & _). intros Hin. apply (Hd a Hin). set_solver. }
  assert (scan1 g = loc H to (dn ++ a :: todo) a) as Hloc by (rewrite loc_new by done; lia).
  destruct (scan_object_ok g _ content a Hc Ha Hloc) as (g1 & new & c1 & Hr & Hc1 & Hca & Hco & Hcl & Hs1); [apply Htodo; set_solver|].
  assert (size (c1 a) = size (obj H a)) as Hsz by (by rewrite Hca, partial_all).
  set (g2 := mkGc (Mem g1) (scan1 g1 + size (c1 a)) (scan2 g1)).
  assert ((dn ++ [a]) ++ todo ++ new = (dn ++ a :: todo) ++ new) as Hassoc by (by rewrite <- !app_assoc).
  assert (copying g2 ((dn ++ [a]) ++ todo ++ new) c1) as Hc2 by (rewrite Hassoc; by destruct Hc1).
  pose proof (c_sub _ _ _ Hc1) as Hsub.
  destruct (IH g2 (todo ++ new) c1 (dn ++ [a]) Hc2) as (g3 & n3 & Hr3 & Hrest).
  - simpl. rewrite Hs1, loc_app, loc_new, sizes_app, Hsz by done. simpl. lia.
  - rewrite Hassoc. intros x Hx. apply elem_of_app in Hx as [Hx| ->%list_elem_of_singleton].
    + destruct (Hdone x Hx) as [He Hx2]. split; [|intros; by apply closed_app, Hx2].
      rewrite Hco by (by intros ->). unfold extend. rewrite decide_True by set_solver. rewrite He. symmetry. by apply copied_app.
    + rewrite Hca, partial_all. done.
  - intros x Hx. assert (x <> a) as Hxa.
    { intros ->. pose proof (c_nodup _ _ _ Hc2) as Hnd. apply NoDup_app in Hnd as (_ & Hd & _). apply (Hd a); set_solver. }
    rewrite Hco by done. unfold extend. case_decide as Hin; [|done]. apply Htodo.
    apply elem_of_app in Hx as [Hx|Hx]; [set_solver|]. exfalso.
    pose proof (c_nodup _ _ _ Hc1) as Hnd. apply NoDup_app in Hnd as (_ & Hd & _). by apply (Hd x).
  - rewrite length_app. simpl. lia.
  - rewrite Hassoc in Hrest. exists g3, (new ++ n3). rewrite app_assoc. split; [|done].
    cbn [scan_loop]. unfold mbind at 1, st_bind at 1, gets at 1. unfold mbind at 1, st_bind at 1, gets at 1.
    assert (0 < sizes H (a :: todo)) as Hpos.
    { apply (sizes_nonneg H (a :: todo)); [|done]. intros x Hx. apply pos_in, reach_in, C3. set_solver. }
    rewrite Hs, C1, (proj2 (Z.ltb_lt _ _)) by (rewrite sizes_app; lia).
    rewrite (st_bind_ok _ _ _ _ _ Hr). unfold mbind at 1, st_bind at 1, gets at 1.
    assert (load (scan1 g1) g1 = Ok (c1 a, g1)) as Hload by (unfold load; by rewrite Hs1, (c_to _ _ _ Hc1 a) by set_solver).
    rewrite (st_bind_ok _ _ _ _ _ Hload). unfold mbind, st_bind, set_scan1, modify. exact Hr3.
Qed.
End collector.
