(* ===== verification/LispAlloc.v ===== *)
(** * Collections and allocations as seen by the interpreter (proofs over LispHeap) *)

From stdpp Require Import strings pretty.
From S2P Require Import Prelude LispHeap LispGc.

(** ** The heap between two calls *)

Lemma layout_nonneg H a l b : layout H a l b -> a <= b.
Proof.
  intros Hl. pose proof (layout_sizes _ _ _ _ Hl). enough (0 <= sizes H l) by lia.
  apply sizes_nonneg. intros x Hx. by apply (layout_obj _ _ _ _ _ Hl).
Qed.

(** The static objects; a program that reads [(. x)] stores into the cdr of [Nil]. *)
Definition statics (nil_cdr : ptr) : gmap Z Obj :=
  <[True_ := mkObj 0 (TCONST CTrue NULL NULL)]> (<[Nil := mkObj 0 (TCONST CNil NULL nil_cdr)]>
  (<[Dot := mkObj 0 (TCONST CDot NULL NULL)]> (<[Cparen := mkObj 0 (TCONST CCparen NULL NULL)]> ∅))).

(** [l] are the objects of the current heap, in the order of their addresses. *)
Record lisp_ok (s : LISP) (l : list ptr) : Prop := {
  lk_layout : layout (Mem (Heap s)) (memory (Block s)) l (memory (Block s) + mem_nused (Block s));
  lk_used : mem_nused (Block s) <= memory_size (Block s) < 2 ^ 62;
  lk_cur : cur_heap (Block s) = memory (Block s);
  lk_base : HEAP_BASE <= memory (Block s) /\ HEAP_BASE <= next_heap (Block s);
  lk_disjoint : memory (Block s) + memory_size (Block s) <= next_heap (Block s) \/
                next_heap (Block s) + memory_size (Block s) <= memory (Block s);
  lk_objects a : a ∈ l -> proper (val (obj (Mem (Heap s)) a)) /\ forall p, p ∈ members (val (obj (Mem (Heap s)) a)) -> good l p;
  lk_symbols : good l (Symbols (Block s));
  lk_roots frame p : frame ∈ Roots s -> p ∈ frame -> good l p;
  lk_idle : gc_running (Block s) = false;
  lk_static : exists nil_cdr, forall p, p < HEAP_BASE -> Mem (Heap s) !! p = statics nil_cdr !! p
}.

Definition is_root (s : LISP) (p : ptr) : Prop := p = Symbols (Block s) \/ exists frame, frame ∈ Roots s /\ p ∈ frame.

(** The objects that the interpreter can still reach. *)
Definition live (s : LISP) (l : list ptr) : ptr -> Prop := reach (Mem (Heap s)) l (is_root s).

Definition renamed (theta : ptr -> ptr) (o : Obj) : Obj := mkObj (size o) (with_members (theta <$> members (val o)) (val o)).

(** The live objects of [s] are in [s'] at the addresses that [theta] gives, with their
    members and the roots renamed accordingly: the interpreter sees the same graph. *)
Record moved (theta : ptr -> ptr) (s : LISP) (l : list ptr) (s' : LISP) : Prop := {
  mv_objects a : live s l a -> Mem (Heap s') !! theta a = Some (renamed theta (obj (Mem (Heap s)) a));
  mv_inj a b : live s l a -> live s l b -> theta a = theta b -> a = b;
  mv_static p : p < HEAP_BASE -> theta p = p;
  mv_low p : p < HEAP_BASE -> Mem (Heap s') !! p = Mem (Heap s) !! p;
  mv_symbols : Symbols (Block s') = theta (Symbols (Block s));
  mv_roots : Roots s' = fmap (M:=list) theta <$> Roots s
}.

Lemma renamed_id o : renamed id o = o.
Proof. unfold renamed. rewrite list_fmap_id, with_members_same. by destruct o. Qed.

Lemma renamed_proper theta o : proper (val o) -> proper (val (renamed theta o)).
Proof. by destruct o as [n []]. Qed.

Lemma moved_refl s l : lisp_ok s l -> moved id s l s.
Proof.
  intros Hok. constructor; try done.
  - intros a Ha. destruct (layout_obj _ _ _ _ _ (lk_layout _ _ Hok) (reach_in _ _ _ _ Ha)) as (_ & _ & _ & [o Ho]).
    rewrite renamed_id. unfold obj. by rewrite Ho.
  - rewrite <- (list_fmap_id (Roots s)) at 1. apply list_fmap_ext. intros i f _. by rewrite list_fmap_id.
Qed.

(** ** A collection *)

Lemma layout_copies H g base order :
  (forall x, x ∈ order -> 0 < size (obj H x)) -> NoDup order ->
  (forall a, a ∈ order -> exists o, Mem g !! loc H base order a = Some o /\ size o = size (obj H a)) ->
  layout (Mem g) base (loc H base order <$> order) (base + sizes H order).
Proof.
  revert base. induction order as [|x order IH]; intros base Hp Hnd Hm; [simpl; lia|].
  apply NoDup_cons in Hnd as [Hx Hnd]. cbn [fmap list_fmap layout].
  assert (loc H base (x :: order) x = base) as -> by (simpl; by rewrite decide_True). split; [done|].
  destruct (Hm x ltac:(set_solver)) as (o & Ho & Hs). simpl in Ho. rewrite decide_True in Ho by done.
  exists o. split; [done|]. split; [rewrite Hs; apply Hp; set_solver|].
  replace (loc H base (x :: order) <$> order) with (loc H (base + size (obj H x)) order <$> order).
  - cbn [sizes foldr]. rewrite Hs. rewrite Z.add_assoc. apply IH; [intros; apply Hp; set_solver|done|].
    intros a Ha. destruct (Hm a ltac:(set_solver)) as (o' & Ho' & Hs'). simpl in Ho'. rewrite decide_False in Ho' by (by intros ->).
    by exists o'.
  - apply list_fmap_ext. intros i a Ha. simpl. rewrite decide_False; [done|]. intros ->. apply Hx. by eapply list_elem_of_lookup_2.
Qed.

(** ** A new object *)

Lemma layout_snoc H a l b o : layout H a l b -> 0 < size o -> layout (<[b := o]> H) a (l ++ [b]) (b + size o).
Proof.
  intros Hl Ho. assert (forall x, x ∈ l -> x <> b) as Hne by (intros x Hx ->; destruct (layout_obj _ _ _ _ _ Hl Hx); lia).
  revert a Hl Hne. induction l as [|x l IH]; intros a Hl Hne.
  - simpl in Hl. subst. split; [done|]. exists o. by rewrite lookup_insert_eq.
  - destruct Hl as (-> & o' & Ho' & Hs & Hl). split; [done|]. exists o'.
    assert (a <> b) by (apply Hne; by left). rewrite lookup_insert_ne by congruence. split; [done|]. split; [done|].
    apply IH; [done|]. intros y Hy. apply Hne. by right.
Qed.

Lemma obj_insert H p o : obj (<[p := o]> H) p = o.
Proof. unfold obj. by rewrite lookup_insert_eq. Qed.
Lemma obj_insert_ne H p q o : p <> q -> obj (<[p := o]> H) q = obj H q.
Proof. intros Hne. unfold obj. by rewrite lookup_insert_ne. Qed.

(** [s] with the object [o] behind the ones it has. *)
Definition placed (s : LISP) (o : Obj) : LISP :=
  mkLisp (with_mem_nused (mem_nused (Block s) + size o) (Block s))
    (mkGc (<[memory (Block s) + mem_nused (Block s) := o]> (Mem (Heap s))) (scan1 (Heap s)) (scan2 (Heap s))) (Roots s) (World s).

Lemma placed_ok s l o :
  lisp_ok s l -> 0 < size o -> mem_nused (Block s) + size o <= memory_size (Block s) -> proper (val o) ->
  (forall p, p ∈ members (val o) -> good l p) ->
  lisp_ok (placed s o) (l ++ [memory (Block s) + mem_nused (Block s)]).
Proof.
  intros [Hlay Hused Hcur Hb Hdisj Hobj Hsym Hroots Hidle Hstatic] Ho Hfit Hp Hm. set (p := memory (Block s) + mem_nused (Block s)) in *.
  assert (forall q, good l q -> good (l ++ [p]) q) as Hg by (intros q [Hq|Hq]; [left; apply elem_of_app; by left|by right]).
  constructor; cbn [placed with_mem_nused Block Heap Mem Roots memory mem_nused memory_size cur_heap next_heap Symbols gc_running].
  - rewrite Z.add_assoc. by apply layout_snoc.
  - lia.
  - done.
  - done.
  - done.
  - intros a [Ha| ->%list_elem_of_singleton]%elem_of_app.
    + rewrite obj_insert_ne by (intros <-; destruct (layout_obj _ _ _ _ _ Hlay Ha); lia).
      destruct (Hobj a Ha) as [H1 H2]. split; [done|]. auto.
    + rewrite obj_insert. auto.
  - auto.
  - intros f q Hf Hq. apply Hg. by eapply Hroots.
  - done.
  - destruct Hstatic as [d Hd]. exists d. intros q Hq. pose proof (layout_nonneg _ _ _ _ Hlay).
    rewrite lookup_insert_ne by lia. by apply Hd.
Qed.

Lemma moved_placed theta s l s' l' o : moved theta s l s' -> lisp_ok s' l' -> (forall a, live s l a -> theta a ∈ l') -> moved theta s l (placed s' o).
Proof.
  intros [H1 H2 H3 H4 H5 H6] Hok Hin. pose proof (layout_nonneg _ _ _ _ (lk_layout _ _ Hok)). pose proof (lk_base _ _ Hok).
  constructor; try done; cbn [placed Heap Mem].
  - intros a Ha. rewrite lookup_insert_ne; [by apply H1|]. intros He.
    destruct (layout_obj _ _ _ _ _ (lk_layout _ _ Hok) (Hin a Ha)). lia.
  - intros p Hp. rewrite lookup_insert_ne by lia. by apply H4.
Qed.

Lemma roundup_8 z : 0 <= z < 2 ^ 62 -> roundup z POINTER_SIZE = 8 * ((z + 7) / 8).
Proof.
  intros Hz. unfold roundup, POINTER_SIZE. rewrite w64_small by (unfold u64; lia).
  replace (z + 8 - 1) with (z + 7) by lia.
  replace (8 * ((z + 7) / 8)) with ((z + 7) / 2 ^ 3 * 2 ^ 3) by (change (2 ^ 3) with 8; lia).
  rewrite <- Z.shiftr_div_pow2, <- Z.shiftl_mul_pow2 by lia. apply Z.bits_inj'. intros n Hn.
  rewrite Z.land_spec. change (Z.lxor (8 - 1) max64) with (Z.ldiff (Z.ones 64) (Z.ones 3)).
  rewrite Z.ldiff_spec, !Z.testbit_ones_nonneg by lia.
  rewrite Z.shiftl_spec by lia. destruct (Z.ltb_spec n 3) as [Hn3|Hn3].
  - rewrite (Z.testbit_neg_r _ (n - 3)) by lia. by rewrite andb_false_r, andb_false_r.
  - rewrite Z.shiftr_spec by lia. replace (n - 3 + 3) with n by lia. rewrite andb_true_r.
    destruct (Z.ltb_spec n 64) as [H64|H64]; [by rewrite andb_true_r|].
    rewrite andb_false_r. symmetry. apply Z.bits_above_log2; [lia|]. destruct (decide (z + 7 = 0)); [lia|].
    assert (Z.log2 (z + 7) < 63) by (apply Z.log2_lt_pow2; lia). lia.
Qed.

Lemma object_size_ok n : 0 <= n < 2 ^ 60 -> object_size n = 8 * ((n + 7) / 8) + 8 /\ n + 8 <= object_size n < 2 ^ 61.
Proof.
  intros Hn. unfold object_size. assert (n <= 8 * ((n + 7) / 8) <= n + 7) as Hr.
  { pose proof (Z.div_mod (n + 7) 8 ltac:(lia)). pose proof (Z.mod_pos_bound (n + 7) 8 ltac:(lia)). lia. }
  rewrite (roundup_8 n) by lia. rewrite w64_small by (unfold u64, VALUE_OFFSET; lia). unfold VALUE_OFFSET.
  rewrite roundup_8 by lia. replace (8 * ((n + 7) / 8) + 8 + 7) with (7 + ((n + 7) / 8 + 1) * 8) by lia.
  rewrite Z.div_add by lia. change (7 / 8) with 0. lia.
Qed.

Lemma on_heap_ok {A} (m : St GC A) s a h : m (Heap s) = Ok (a, h) -> on_heap m s = Ok (a, mkLisp (Block s) h (Roots s) (World s)).
Proof. intros Hm. unfold on_heap. by rewrite Hm. Qed.

Lemma gets_bind {S A B} (f : S -> A) (k : A -> St S B) s : (gets f ≫= k) s = k (f s) s.
Proof. done. Qed.
Lemma set_Block_bind {B} f (k : unit -> St LISP B) s : (set_Block f ≫= k) s = k tt (mkLisp (f (Block s)) (Heap s) (Roots s) (World s)).
Proof. done. Qed.
Lemma set_Roots_bind {B} r (k : unit -> St LISP B) s : (set_Roots r ≫= k) s = k tt (mkLisp (Block s) (Heap s) r (World s)).
Proof. done. Qed.
Lemma set_scan1_bind {B} p (k : unit -> St LISP B) s :
  (on_heap (set_scan1 p) ≫= k) s = k tt (mkLisp (Block s) (mkGc (Mem (Heap s)) p (scan2 (Heap s))) (Roots s) (World s)).
Proof. done. Qed.
Lemma set_scan2_bind {B} p (k : unit -> St LISP B) s :
  (on_heap (set_scan2 p) ≫= k) s = k tt (mkLisp (Block s) (mkGc (Mem (Heap s)) (scan1 (Heap s)) p) (Roots s) (World s)).
Proof. done. Qed.

(** What the debug flag prints. *)
Definition gc_world (debug : bool) (nused old_nused : Z) (w : WORLD) : WORLD :=
  if debug then with_Output (Output w +:+ String.substring 0 99 (gc_message nused old_nused)) w else w.

(** The collector's calls, given what each of its phases returns. *)
Lemma gc_run s symbols roots g1 g2 g3 :
  let b := Block s in
  gc_running b = false ->
  forward (memory b) (memory_size b) (Symbols b) (mkGc (Mem (Heap s)) (next_heap b) (next_heap b)) = Ok (symbols, g1) ->
  forward_frames (memory b) (memory_size b) (Roots s) g1 = Ok (roots, g2) ->
  scan_loop (Z.to_nat (mem_nused b)) (memory b) (memory_size b) g2 = Ok (tt, g3) ->
  gc s = Ok (tt, mkLisp
    (mkBlock (next_heap b) (memory b) (scan1 g3 - next_heap b) (next_heap b) (cur_heap b) (memory_size b) false (debug_gc b) (always_gc b) symbols)
    g3 roots (gc_world (debug_gc b) (scan1 g3 - next_heap b) (mem_nused b) (World s))).
Proof.
  destruct s as [[m f u c n ms r d a sy] h ro out]. cbn [Block Heap Roots World memory from_space mem_nused cur_heap next_heap memory_size gc_running debug_gc always_gc Symbols].
  cbv zeta. intros -> H1 H2 H3. unfold gc. rewrite gets_bind. st_step assert_true.
  rewrite !set_Block_bind, gets_bind, set_scan2_bind, set_scan1_bind. unfold swap_heaps, with_gc_running.
  cbn [Block Heap Roots World Mem scan1 scan2 memory from_space mem_nused cur_heap next_heap memory_size gc_running debug_gc always_gc Symbols].
  rewrite (st_bind_ok _ _ _ _ _ (on_heap_ok _ (mkLisp _ _ _ _) _ _ H1)), set_Block_bind, gets_bind.
  rewrite (st_bind_ok _ _ _ _ _ (on_heap_ok _ (mkLisp _ _ _ _) _ _ H2)), set_Roots_bind.
  rewrite (st_bind_ok _ _ _ _ _ (on_heap_ok _ (mkLisp _ _ _ _) _ _ H3)), gets_bind, set_Block_bind. by destruct d.
Qed.

(** The state after the objects [order] were copied into the store [g]. *)
Definition collected (s : LISP) (order : list ptr) (g : GC) : LISP :=
  let b := Block s in let H := Mem (Heap s) in let theta := phi H (next_heap b) order in
  mkLisp (mkBlock (next_heap b) (memory b) (sizes H order) (next_heap b) (memory b) (memory_size b) false (debug_gc b) (always_gc b) (theta (Symbols b)))
    g (fmap (M:=list) theta <$> Roots s) (gc_world (debug_gc b) (sizes H order) (mem_nused b) (World s)).

(** [order] has been copied, and holds what the roots and its objects point to. *)
Record traced (s : LISP) (l order : list ptr) (g : GC) : Prop := {
  tr_copying : copying (Mem (Heap s)) l (next_heap (Block s)) (is_root s) g order (copied (Mem (Heap s)) (next_heap (Block s)) order);
  tr_members a p : a ∈ order -> p ∈ members (val (obj (Mem (Heap s)) a)) -> closed l order p;
  tr_symbols : closed l order (Symbols (Block s));
  tr_roots f p : f ∈ Roots s -> p ∈ f -> closed l order p
}.

(** The phases of the collector: the symbols, the frames, the copies. *)
Lemma gc_traces s l : lisp_ok s l -> exists order g, gc s = Ok (tt, collected s order g) /\ traced s l order g.
Proof.
  intros [Hlay Hused Hcur [Hb1 Hb2] Hdisj Hobj Hsym Hroots Hidle _]. set (b := Block s) in *. set (H := Mem (Heap s)) in *.
  set (from := memory b) in *. set (to := next_heap b) in *.
  assert (Hu : mem_nused b <= memory_size b) by lia. set (g0 := mkGc H to to).
  assert (copying H l to (is_root s) g0 [] (obj H)) as Hc0.
  { constructor; simpl; [lia|constructor|intros a Ha; by apply elem_of_nil in Ha| |intros a Ha; by apply elem_of_nil in Ha|]; done. }
  destruct (forward_ok H l from to (mem_nused b) (memory_size b) Hlay Hu Hb1 Hb2 Hdisj Hobj (is_root s) g0 [] (obj H) (Symbols b) Hc0 Hsym)
    as (g1 & n1 & Hr1 & Hc1 & Hcl1 & Hs1); [intros Hin; apply reach_root; [by left|done]|]. rewrite app_nil_l in *.
  destruct (forward_frames_ok H l from to (mem_nused b) (memory_size b) Hlay Hu Hb1 Hb2 Hdisj Hobj (is_root s) g1 n1 _ (Roots s) Hc1)
    as (g2 & n2 & Hr2 & Hc2 & Hcl2 & Hs2).
  { intros f p Hf Hp. split; [by apply (Hroots f)|]. intros Hin. apply reach_root; [right; by exists f|done]. }
  destruct (scan_loop_ok H l from to (mem_nused b) (memory_size b) Hlay Hu Hb1 Hb2 Hdisj Hobj (is_root s) (Z.to_nat (mem_nused b))
    g2 (n1 ++ n2) (obj H) []) as (g3 & n3 & Hr3 & Hc3 & Hs3 & Hcl3).
  { eapply copying_ext; [exact Hc2|]. intros x _. unfold extend. repeat case_decide; done. }
  { rewrite Hs2, Hs1. simpl. lia. }
  { intros a Ha. by apply elem_of_nil in Ha. }
  { done. }
  { pose proof (layout_sizes H _ _ _ Hlay) as Hsz.
    destruct (sizes_nonneg H l) as (_ & _ & Hlen); [intros a Ha; by destruct (layout_obj H _ _ _ _ Hlay Ha)|]. simpl. lia. }
  cbn [app] in *. set (order := (n1 ++ n2) ++ n3) in *. pose proof (c_sub _ _ _ _ _ _ _ Hc3) as Hsub.
  assert (forall p, closed l (n1 ++ n2) p -> phi H to order p = phi H to (n1 ++ n2) p) as Hphi by (intros; by eapply phi_app).
  assert (phi H to n1 (Symbols b) = phi H to order (Symbols b)) as Hsymphi.
  { rewrite Hphi by (by apply closed_app). symmetry. eapply phi_app; [|done]. intros a Ha. apply Hsub, elem_of_app. by left. }
  assert ((fmap (M:=list) (phi H to (n1 ++ n2)) <$> Roots s) = fmap (M:=list) (phi H to order) <$> Roots s) as Hrootphi.
  { apply list_fmap_ext. intros i f Hf. apply list_fmap_ext. intros j p Hp. symmetry. apply Hphi. apply (Hcl2 f); by eapply list_elem_of_lookup_2. }
  exists order, g3. split.
  - rewrite Hsymphi in Hr1. rewrite Hrootphi in Hr2. rewrite (gc_run s _ _ _ _ _ Hidle Hr1 Hr2 Hr3). fold b. by rewrite Hs3, Z.add_simpl_l, Hcur.
  - constructor; [done|exact Hcl3|by do 2 apply closed_app|]. intros f p Hf Hp. apply closed_app. by apply (Hcl2 f).
Qed.

Section traced.
Context (s : LISP) (l order : list ptr) (g : GC) (Hok : lisp_ok s l) (Htr : traced s l order g).
Let H := Mem (Heap s).
Let to := next_heap (Block s).
Let theta := phi H to order.

Lemma traced_live a : a ∈ order <-> live s l a.
Proof.
  split; [apply (c_sub _ _ _ _ _ _ _ (tr_copying _ _ _ _ Htr))|].
  induction 1 as [a Hroot Ha|a p Ha IH Hp Hpl]; [|by destruct (tr_members _ _ _ _ Htr a p IH Hp)].
  destruct Hroot as [->|(f & Hf & Hp)]; [by destruct (tr_symbols _ _ _ _ Htr)|by destruct (tr_roots _ _ _ _ Htr f a Hf Hp)].
Qed.

Lemma traced_static p : p < HEAP_BASE -> theta p = p.
Proof.
  intros Hp. eapply phi_static; [apply (c_sub _ _ _ _ _ _ _ (tr_copying _ _ _ _ Htr))|]. intros Hin.
  destruct (layout_obj _ _ _ _ _ (lk_layout _ _ Hok) Hin). pose proof (lk_base _ _ Hok). lia.
Qed.

Lemma traced_loc a : a ∈ order -> theta a = loc H to order a.
Proof. intros Ha. unfold theta, phi. by rewrite decide_True. Qed.

Lemma traced_pos a : a ∈ order -> 0 < size (obj H a).
Proof. intros Ha. eapply (layout_obj H); [apply (lk_layout _ _ Hok)|]. by eapply reach_in, traced_live. Qed.

Lemma traced_copy a : a ∈ order -> Mem g !! theta a = Some (renamed theta (obj H a)).
Proof. intros Ha. rewrite traced_loc by done. by apply (c_to _ _ _ _ _ _ _ (tr_copying _ _ _ _ Htr)). Qed.

Lemma traced_good p : good l p -> closed l order p -> good (theta <$> order) (theta p).
Proof.
  intros [Hp|Hp] Hcl; [|right; by rewrite traced_static]. left. apply list_elem_of_fmap. exists p. split; [done|]. by destruct Hcl.
Qed.

Lemma traced_moved : moved theta s l (collected s order g).
Proof.
  constructor; simpl; try done.
  - intros a Ha. by apply traced_copy, traced_live.
  - intros x y Hx%traced_live Hy%traced_live. rewrite !traced_loc by done. apply loc_inj; [apply traced_pos|done..].
  - apply traced_static.
  - apply (tr_copying _ _ _ _ Htr).
Qed.

Lemma traced_ok : lisp_ok (collected s order g) (theta <$> order).
Proof.
  pose proof (tr_copying _ _ _ _ Htr) as Hc. destruct Hok as [Hlay Hused Hcur [Hb1 Hb2] Hdisj Hobj Hsym Hroots Hidle Hstatic].
  pose proof (copying_sizes _ _ _ _ _ Hlay _ _ _ _ Hc) as Hsz.
  constructor; cbn [collected Block Heap Roots memory mem_nused memory_size cur_heap next_heap Symbols gc_running]; try done.
  - assert (theta <$> order = loc H to order <$> order) as ->.
    { apply list_fmap_ext. intros i a Ha. apply traced_loc. by eapply list_elem_of_lookup_2. }
    apply layout_copies; [apply traced_pos|apply Hc|]. intros a Ha. exists (renamed theta (obj H a)). by rewrite <- traced_loc, traced_copy.
  - unfold H in *. lia.
  - lia.
  - intros a (x & -> & Hx)%list_elem_of_fmap. unfold obj at 1 2. rewrite traced_copy by done. cbn [default].
    destruct (Hobj x (reach_in _ _ _ _ (proj1 (traced_live x) Hx))) as [Hp Hm]. split; [by apply renamed_proper|].
    intros p Hpm. unfold id, renamed in Hpm. cbn [val] in Hpm. rewrite members_with in Hpm by (by rewrite length_fmap).
    apply list_elem_of_fmap in Hpm as (q & -> & Hq). apply traced_good; [by apply Hm|by apply (tr_members _ _ _ _ Htr x)].
  - apply traced_good; [done|apply Htr].
  - intros f p (f0 & -> & Hf0)%list_elem_of_fmap (q & -> & Hq)%list_elem_of_fmap. apply traced_good; [by apply (Hroots f0)|by apply (tr_roots _ _ _ _ Htr f0)].
  - destruct Hstatic as [d Hd]. exists d. intros p Hp. rewrite (c_low _ _ _ _ _ _ _ Hc) by done. by apply Hd.
Qed.
End traced.

Lemma gc_ok s l :
  lisp_ok s l ->
  exists s' order, let H := Mem (Heap s) in let theta := phi H (next_heap (Block s)) order in
    gc s = Ok (tt, s') /\ moved theta s l s' /\ lisp_ok s' (theta <$> order) /\
    NoDup order /\ (forall a, a ∈ order <-> live s l a) /\
    mem_nused (Block s') = sizes H order /\ memory_size (Block s') = memory_size (Block s) /\
    always_gc (Block s') = always_gc (Block s) /\ debug_gc (Block s') = debug_gc (Block s) /\
    World s' = gc_world (debug_gc (Block s)) (sizes H order) (mem_nused (Block s)) (World s).
Proof.
  intros Hok. destruct (gc_traces s l Hok) as (order & g & E & Htr). exists (collected s order g), order. cbv zeta. split; [done|].
  split; [by apply traced_moved|]. split; [by apply (traced_ok s l)|]. split; [apply (tr_copying _ _ _ _ Htr)|]. split; [|done].
  intros a. by eapply traced_live.
Qed.

(** ** Allocation *)

Lemma live_size_le s l order : lisp_ok s l -> NoDup order -> (forall a, a ∈ order <-> live s l a) ->
  sizes (Mem (Heap s)) order <= mem_nused (Block s).
Proof.
  intros Hok Hnd Ho. pose proof (layout_sizes _ _ _ _ (lk_layout _ _ Hok)) as Hs.
  pose proof (sizes_sub (Mem (Heap s)) order l Hnd) as Hle. rewrite Hs in Hle. enough (sizes (Mem (Heap s)) order <= memory (Block s) + mem_nused (Block s) - memory (Block s)) by lia.
  apply Hle; intros a Ha; [by eapply reach_in, Ho|]. by apply (layout_obj _ _ _ _ _ (lk_layout _ _ Hok)).
Qed.

(** What happens before the object is placed: nothing, or a collection. *)
Lemma alloc_ok s l v n :
  lisp_ok s l -> 0 <= n < 2 ^ 60 -> proper v -> (forall p, p ∈ members v -> p < HEAP_BASE) ->
  exists theta s1 l1 order, moved theta s l s1 /\ lisp_ok s1 l1 /\ (forall a, live s l a -> theta a ∈ l1) /\
    NoDup order /\ (forall a, a ∈ order <-> live s l a) /\ memory_size (Block s1) = memory_size (Block s) /\
    (mem_nused (Block s1) + object_size n <= memory_size (Block s) <-> sizes (Mem (Heap s)) order + object_size n <= memory_size (Block s)) /\
    debug_gc (Block s1) = debug_gc (Block s) /\ (debug_gc (Block s) = false -> World s1 = World s) /\
    alloc v n s =
      if memory_size (Block s1) <? mem_nused (Block s1) + object_size n then Err FMemory
      else Ok (memory (Block s1) + mem_nused (Block s1), placed s1 (mkObj (object_size n) v)).
Proof.
  intros Hok Hn Hp Hm. destruct (object_size_ok n Hn) as [_ Hsz].
  assert (forall s1 l1, lisp_ok s1 l1 -> (b ← gets Block;
      (if memory_size b <? w64 (mem_nused b + object_size n) then fail FMemory else mret tt);;
      let obj := memory b + mem_nused b in
      on_heap (store obj (mkObj (object_size n) v));;
      set_Block (fun b => with_mem_nused (w64 (mem_nused b + object_size n)) b);;
      mret obj) s1 =
    if memory_size (Block s1) <? mem_nused (Block s1) + object_size n then Err FMemory
    else Ok (memory (Block s1) + mem_nused (Block s1), placed s1 (mkObj (object_size n) v))) as Hplace.
  { intros s1 l1 Hok1. pose proof (lk_used _ _ Hok1).
    pose proof (layout_nonneg _ _ _ _ (lk_layout _ _ Hok1)).
    rewrite gets_bind. rewrite w64_small by (unfold u64; lia). case_match; [done|].
    rewrite (st_bind_ok _ _ _ tt s1 eq_refl). unfold on_heap, store, set_Block, modify, mbind, st_bind, placed. cbn [Block]. by rewrite w64_small by (unfold u64; lia). }
  destruct (gc_ok s l Hok) as (sg & order & Hg). cbv zeta in Hg.
  destruct Hg as (Hgc & Hmv & Hokg & Hnd & Ho & Hu & Hms & Hag & Hdb & Hw). pose proof (live_size_le s l order Hok Hnd Ho) as Hle.
  set (theta := phi _ _ order) in *.
  assert (forall a, live s l a -> theta a ∈ theta <$> order) as Hin by (intros a Ha; apply list_elem_of_fmap; exists a; split; [done|by apply Ho]).
  pose proof (lk_used _ _ Hok). pose proof (lk_idle _ _ Hok) as Hidle.
  pose proof (layout_nonneg _ _ _ _ (lk_layout _ _ Hok)).
  unfold alloc. cbv zeta. rewrite gets_bind, Hidle.
  destruct (always_gc (Block s)) eqn:Hal.
  - exists theta, sg, (theta <$> order), order. split; [done|]. split; [done|]. split; [done|]. split; [done|]. split; [done|].
    split; [done|]. split; [by rewrite Hu|]. split; [done|]. split; [by rewrite Hw; intros ->|]. cbn [andb negb]. rewrite (st_bind_ok _ _ _ _ _ Hgc), gets_bind, Hag. by apply (Hplace _ (theta <$> order)).
  - cbn [andb negb]. rewrite (st_bind_ok _ _ _ tt s eq_refl), gets_bind, Hal, w64_small by (unfold u64; lia). cbn [andb negb].
    destruct (Z.ltb_spec (memory_size (Block s)) (mem_nused (Block s) + object_size n)).
    + exists theta, sg, (theta <$> order), order. split; [done|]. split; [done|]. split; [done|]. split; [done|]. split; [done|].
      split; [done|]. split; [by rewrite Hu|]. split; [done|]. split; [by rewrite Hw; intros ->|]. rewrite (st_bind_ok _ _ _ _ _ Hgc). by apply (Hplace _ (theta <$> order)).
    + exists id, s, l, order. split; [by apply moved_refl|]. split; [done|]. split; [intros a Ha; by eapply reach_in|].
      split; [done|]. split; [done|]. split; [done|]. split; [lia|]. split; [done|]. split; [done|]. rewrite (st_bind_ok _ _ _ tt s eq_refl). by apply (Hplace _ l).
Qed.

(** C11: a collection always completes. Every object that can be reached from the roots is
    in the new heap, once, with its members and the roots renamed alike, so that the
    interpreter sees the same graph; the heap holds nothing else, and is packed. *)
Theorem gc_correct s l :
  lisp_ok s l ->
  exists s' theta order, gc s = Ok (tt, s') /\ moved theta s l s' /\
    NoDup order /\ (forall a, a ∈ order <-> live s l a) /\ lisp_ok s' (theta <$> order) /\
    mem_nused (Block s') = sizes (Mem (Heap s)) order.
Proof.
  intros Hok. destruct (gc_ok s l Hok) as (s' & order & Hg). cbv zeta in Hg.
  destruct Hg as (Hgc & Hmv & Hokg & Hnd & Ho & Hu & _). by exists s', (phi (Mem (Heap s)) (next_heap (Block s)) order), order.
Qed.

(** C12: an allocation fails exactly when the objects that can be reached and the new one
    do not fit into the heap; otherwise it returns a fresh object, behind the others, and
    the interpreter sees the graph that it saw before, possibly at other addresses. *)
Theorem alloc_correct s l v n :
  lisp_ok s l -> 0 <= n < 2 ^ 60 -> proper v -> (forall p, p ∈ members v -> p < HEAP_BASE) ->
  exists order, NoDup order /\ (forall a, a ∈ order <-> live s l a) /\
  match alloc v n s with
  | Ok (p, s') =>
      sizes (Mem (Heap s)) order + object_size n <= memory_size (Block s) /\
      exists theta l', moved theta s l s' /\ lisp_ok s' (l' ++ [p]) /\ p ∉ l' /\ (forall a, live s l a -> theta a ∈ l') /\
        Mem (Heap s') !! p = Some (mkObj (object_size n) v)
  | Err e => e = FMemory /\ memory_size (Block s) < sizes (Mem (Heap s)) order + object_size n
  end.
Proof.
  intros Hok Hn Hp Hm. destruct (alloc_ok s l v n Hok Hn Hp Hm) as (theta & s1 & l1 & order & Hmv & Hok1 & Hin & Hnd & Ho & Hms & Hfit & _ & _ & Hrun).
  exists order. split; [done|]. split; [done|]. rewrite Hrun, Hms. destruct (object_size_ok n Hn) as [_ Hsz].
  destruct (Z.ltb_spec (memory_size (Block s)) (mem_nused (Block s1) + object_size n)); [split; [done|]; lia|]. split; [lia|].
  assert (lisp_ok (placed s1 (mkObj (object_size n) v)) (l1 ++ [memory (Block s1) + mem_nused (Block s1)])) as Hokp.
  { apply placed_ok; simpl; [done|lia|lia|done|]. intros p Hpm. right. by apply Hm. }
  exists theta, l1. split; [by apply (moved_placed _ _ _ _ l1)|]. split; [done|]. split; [|split; [done|cbn; by rewrite lookup_insert_eq]].
  pose proof (layout_nodup _ _ _ _ (lk_layout _ _ Hokp)) as Hnd'. apply NoDup_app in Hnd' as (_ & Hd & _). intros Hx. apply (Hd _ Hx). by left.
Qed.

(** ** An example: a list of one number, and a number that nobody holds *)

Definition small_heap : LISP :=
  mkLisp (mkBlock 1000 0 56 1000 2000 64 false false false Nil)
    (mkGc (<[1000 := mkObj 16 (TINT 5)]> (<[1016 := mkObj 24 (TCELL 1000 Nil)]> (<[1040 := mkObj 16 (TINT 6)]> (statics NULL)))) 0 0)
    [[1016]] (mkWorld "" "" [] 0).

Lemma small_heap_ok : lisp_ok small_heap [1000; 1016; 1040].
Proof.
  constructor; try done.
  - split; [done|]. eexists. split; [by vm_compute|]. split; [done|]. split; [done|]. eexists. split; [by vm_compute|]. split; [done|].
    split; [done|]. eexists. split; [by vm_compute|]. done.
  - vm_compute. by left.
  - intros a Ha. repeat (apply elem_of_cons in Ha as [->|Ha]); [| | |by apply elem_of_nil in Ha].
    1, 3: split; [done|]; intros p Hp; vm_compute in Hp; by apply elem_of_nil in Hp.
    split; [done|]. intros p Hp. change (p ∈ [1000; Nil]) in Hp. apply elem_of_cons in Hp as [->|Hp%list_elem_of_singleton].
    + left. by left.
    + right. by subst.
  - by right.
  - intros f p Hf Hp. apply list_elem_of_singleton in Hf as ->. apply list_elem_of_singleton in Hp as ->. left. right. by left.
  - exists NULL. intros p Hp. unfold small_heap. cbn [Heap Mem]. unfold HEAP_BASE in Hp. by rewrite !lookup_insert_ne by lia.
Qed.

(** The number that nobody holds is gone. *)
Lemma gc_correct_witness :
  (exists s' theta order, gc small_heap = Ok (tt, s') /\ moved theta small_heap [1000; 1016; 1040] s' /\
    NoDup order /\ (forall a, a ∈ order <-> live small_heap [1000; 1016; 1040] a) /\ lisp_ok s' (theta <$> order) /\
    mem_nused (Block s') = sizes (Mem (Heap small_heap)) order) /\
  match gc small_heap with
  | Ok (_, s') => Roots s' = [[2000]] /\ Mem (Heap s') !! 2000 = Some (mkObj 24 (TCELL 2024 Nil)) /\
      Mem (Heap s') !! 2024 = Some (mkObj 16 (TINT 5)) /\ mem_nused (Block s') = 40
  | Err _ => False
  end.
Proof. split; [exact (gc_correct small_heap _ small_heap_ok)|vm_compute; repeat split]. Defined.

(** There is room for a number once the heap is collected, but not for a cell as well. *)
Lemma alloc_correct_witness :
  (exists order, NoDup order /\ (forall a, a ∈ order <-> live small_heap [1000; 1016; 1040] a) /\
  match alloc (TCELL NULL NULL) 16 small_heap with
  | Ok (p, s') =>
      sizes (Mem (Heap small_heap)) order + object_size 16 <= memory_size (Block small_heap) /\
      exists theta l', moved theta small_heap [1000; 1016; 1040] s' /\ lisp_ok s' (l' ++ [p]) /\ p ∉ l' /\
        (forall a, live small_heap [1000; 1016; 1040] a -> theta a ∈ l') /\
        Mem (Heap s') !! p = Some (mkObj (object_size 16) (TCELL NULL NULL))
  | Err e => e = FMemory /\ memory_size (Block small_heap) < sizes (Mem (Heap small_heap)) order + object_size 16
  end) /\
  match alloc (TCELL NULL NULL) 16 small_heap with Ok (p, _) => p = 2040 | Err _ => False end /\
  alloc (TCELL NULL NULL) 24 small_heap = Err FMemory.
Proof.
  split; [|split; vm_compute; done].
  refine (alloc_correct small_heap _ (TCELL NULL NULL) 16 small_heap_ok _ I _); [lia|].
  intros p Hp. change (p ∈ [NULL; NULL]) in Hp. apply elem_of_cons in Hp as [->|Hp%list_elem_of_singleton]; [|subst p]; reflexivity.
Defined.
