(* ===== verification/LispObjects.v ===== *)
(** * Slots, members and constructors of the Lisp interpreter (kernel/minilisp.c)

    The C code reaches objects through slots ([Obj **]): entries of the root frames on the
    C stack, which the collector updates, and the addresses of three static variables.
    A pointer that was read from a slot before an allocation may be stale after it. *)

From stdpp Require Import strings pretty.
From S2P Require Import Prelude LispHeap.

(** ** Slots *)

(** [Slot depth i] is the entry [i] of the frame above [depth] other frames. *)
Inductive slot := Slot (depth i : nat) | NilVar | TrueVar | SymbolsVar.

Definition frame_at (depth : nat) (roots : list (list ptr)) : nat := (length roots - S depth)%nat.

Definition get (x : slot) : St LISP ptr :=
  match x with
  | Slot depth i => fun s =>
      match Roots s !! frame_at depth (Roots s) ≫= (fun frame : list ptr => frame !! i) with
      | Some p => Ok (p, s)
      | None => Err FNull
      end
  | NilVar => mret Nil
  | TrueVar => mret True_
  | SymbolsVar => gets (fun s => Symbols (Block s))
  end.

(** No code stores through the addresses of the variables [Nil] and [True]. *)
Definition put (x : slot) (p : ptr) : St LISP unit :=
  match x with
  | Slot depth i =>
      roots ← gets Roots;
      set_Roots (alter (fun frame : list ptr => <[i := p]> frame) (frame_at depth roots) roots)
  | SymbolsVar => set_Block (with_Symbols p)
  | NilVar | TrueVar => fail FNull
  end.

(** [ADD_ROOT( n )]: a frame of [n] slots for the rest of the function. *)
Definition ADD_ROOT {A} (n : nat) (f : nat -> St LISP A) : St LISP A :=
  roots ← gets Roots;
  set_Roots (replicate n NULL :: roots);;
  a ← f (length roots);
  roots ← gets Roots;
  set_Roots (tail roots);;
  mret a.

Definition DEFINE1 {A} (f : slot -> St LISP A) : St LISP A := ADD_ROOT 1 (fun d => f (Slot d 0)).
Definition DEFINE2 {A} (f : slot -> slot -> St LISP A) : St LISP A := ADD_ROOT 2 (fun d => f (Slot d 0) (Slot d 1)).
Definition DEFINE3 {A} (f : slot -> slot -> slot -> St LISP A) : St LISP A :=
  ADD_ROOT 3 (fun d => f (Slot d 0) (Slot d 1) (Slot d 2)).
Definition DEFINE4 {A} (f : slot -> slot -> slot -> slot -> St LISP A) : St LISP A :=
  ADD_ROOT 4 (fun d => f (Slot d 0) (Slot d 1) (Slot d 2) (Slot d 3)).

(** ** Members *)

Definition deref (p : ptr) : St LISP Obj := on_heap (load p).
Definition valof (p : ptr) : St LISP value := o ← deref p; mret (val o).

Definition car (p : ptr) : St LISP ptr :=
  v ← valof p;
  match v with TCELL a _ | TCONST _ a _ => mret a | _ => fail FNull end.
Definition cdr (p : ptr) : St LISP ptr :=
  v ← valof p;
  match v with TCELL _ d | TCONST _ _ d => mret d | _ => fail FNull end.

Definition set_val (p : ptr) (f : value -> option value) : St LISP unit :=
  o ← deref p;
  match f (val o) with
  | Some v => on_heap (store p (mkObj (size o) v))
  | None => fail FNull
  end.
Definition set_car (p q : ptr) : St LISP unit :=
  set_val p (fun v => match v with TCELL _ d => Some (TCELL q d) | TCONST c _ d => Some (TCONST c q d) | _ => None end).
Definition set_cdr (p q : ptr) : St LISP unit :=
  set_val p (fun v => match v with TCELL a _ => Some (TCELL a q) | TCONST c a _ => Some (TCONST c a q) | _ => None end).
Definition set_vars (p q : ptr) : St LISP unit :=
  set_val p (fun v => match v with TENV _ u => Some (TENV q u) | _ => None end).

Definition vars (p : ptr) : St LISP ptr := v ← valof p; match v with TENV a _ => mret a | _ => fail FNull end.
Definition up (p : ptr) : St LISP ptr := v ← valof p; match v with TENV _ a => mret a | _ => fail FNull end.
Definition params (p : ptr) : St LISP ptr :=
  v ← valof p; match v with TFUNCTION a _ _ | TMACRO a _ _ => mret a | _ => fail FNull end.
Definition body (p : ptr) : St LISP ptr :=
  v ← valof p; match v with TFUNCTION _ a _ | TMACRO _ a _ => mret a | _ => fail FNull end.
Definition env_of (p : ptr) : St LISP ptr :=
  v ← valof p; match v with TFUNCTION _ _ a | TMACRO _ _ a => mret a | _ => fail FNull end.
Definition name (p : ptr) : St LISP string :=
  v ← valof p; match v with TSYMBOL a => mret a | _ => fail FNull end.
Definition number (p : ptr) : St LISP Z :=
  v ← valof p; match v with TINT a => mret a | _ => fail FNull end.

(** ** Tests on the type *)

Definition is_cell (v : value) : bool := match v with TCELL _ _ => true | _ => false end.
Definition is_symbol (v : value) : bool := match v with TSYMBOL _ => true | _ => false end.
Definition is_int (v : value) : bool := match v with TINT _ => true | _ => false end.
Definition is_macro (v : value) : bool := match v with TMACRO _ _ _ => true | _ => false end.

(** [error( ... )]: the message goes to the terminal of the host, and the program ends. *)
Definition error {A} : St LISP A := fail FPanic.

(** ** Constructors *)

Definition make_int (value : Z) : St LISP ptr := alloc (TINT value) 4.

Definition cons (car cdr : slot) : St LISP ptr :=
  cell ← alloc (TCELL NULL NULL) 16;
  a ← get car;
  set_car cell a;;
  d ← get cdr;
  set_cdr cell d;;
  mret cell.

Definition make_symbol (name : string) : St LISP ptr := alloc (TSYMBOL name) (Z.of_nat (String.length name) + 1).

Definition make_primitive (fn : PRIMITIVE) : St LISP ptr := alloc (TPRIMITIVE fn) 8.

(** The two types that the assertion of [make_function] lets through. *)
Inductive function_type := Function | Macro.
Definition function_value (type : function_type) (p b e : ptr) : value :=
  match type with Function => TFUNCTION p b e | Macro => TMACRO p b e end.

Definition make_function (env : slot) (type : function_type) (params body : slot) : St LISP ptr :=
  r ← alloc (function_value type NULL NULL NULL) 24;
  p ← get params;
  b ← get body;
  e ← get env;
  set_val r (fun _ => Some (function_value type p b e));;
  mret r.

Definition make_env (vars up : slot) : St LISP ptr :=
  r ← alloc (TENV NULL NULL) 16;
  v ← get vars;
  u ← get up;
  set_val r (fun _ => Some (TENV v u));;
  mret r.

(** [((x . y) . a)] *)
Definition acons (x y a : slot) : St LISP ptr :=
  DEFINE1 (fun cell =>
    c ← cons x y;
    put cell c;;
    cons cell a).

(** ** Lists *)

(** [while (p != Nil)] *)
Fixpoint reverse_loop (fuel : nat) (p ret : ptr) : St LISP ptr :=
  if p =? Nil then mret ret else
  match fuel with
  | O => fail FFuel
  | S fuel =>
      next ← cdr p;
      set_cdr p ret;;
      reverse_loop fuel next p
  end.
Definition reverse (fuel : nat) (p : ptr) : St LISP ptr := reverse_loop fuel p Nil.

Fixpoint length_loop (fuel : nat) (list : ptr) (len : Z) : St LISP Z :=
  v ← valof list;
  if is_cell v then
    match fuel with
    | O => fail FFuel
    | S fuel => next ← cdr list; length_loop fuel next (len + 1)
    end
  else mret (if list =? Nil then len else -1).
Definition list_length (fuel : nat) (list : ptr) : St LISP Z := length_loop fuel list 0.

Definition is_list (obj : ptr) : St LISP bool :=
  if obj =? Nil then mret true else v ← valof obj; mret (is_cell v).

(** [for (Obj *p = block->Symbols; p != Nil; p = p->cdr)] *)
Fixpoint intern_find (fuel : nat) (name_ : string) (p : ptr) : St LISP (option ptr) :=
  if p =? Nil then mret None else
  match fuel with
  | O => fail FFuel
  | S fuel =>
      a ← car p;
      n ← name a;
      if String.eqb name_ n then mret (Some a) else next ← cdr p; intern_find fuel name_ next
  end.

Definition intern (fuel : nat) (name_ : string) : St LISP ptr :=
  p ← get SymbolsVar;
  found ← intern_find fuel name_ p;
  match found with
  | Some sym => mret sym
  | None =>
      DEFINE1 (fun sym =>
        s ← make_symbol name_;
        put sym s;;
        c ← cons sym SymbolsVar;
        put SymbolsVar c;;
        get sym)
  end.
