(* ===== verification/LispRel.v ===== *)
(** * Two runs with the same objects at different addresses (proofs over LispObjects)

    [beta] pairs the addresses of the objects of two heaps.  Two states are related
    ([sim]) when their roots and the members of paired objects hold paired pointers; the
    heaps may differ in place, size, garbage and in when they are collected.  Every
    operation of the interpreter keeps states related, for a new pairing when it
    allocates: a pointer that was read before an allocation is then not known to be
    paired any more, as it may be stale. *)

From stdpp Require Import strings pretty.
From S2P Require Import Prelude LispHeap LispGc LispAlloc LispObjects.

(** ** Related values and states *)

Abbreviation pairing := (ptr -> ptr -> Prop).

Definition prel (beta : pairing) (p q : ptr) : Prop := (p < HEAP_BASE /\ p = q) \/ beta p q.

Definition vrel (beta : pairing) (v w : value) : Prop :=
  match v, w with
  | TINT a, TINT b => a = b
  | TCELL a d, TCELL a' d' => prel beta a a' /\ prel beta d d'
  | TSYMBOL a, TSYMBOL b => a = b
  | TPRIMITIVE a, TPRIMITIVE b => a = b
  | TFUNCTION p b e, TFUNCTION p' b' e' | TMACRO p b e, TMACRO p' b' e' => prel beta p p' /\ prel beta b b' /\ prel beta e e'
  | TENV v u, TENV v' u' => prel beta v v' /\ prel beta u u'
  | TCONST c a d, TCONST c' a' d' => c = c' /\ a = NULL /\ d = NULL /\ a' = NULL /\ d' = NULL
  | _, _ => False
  end.

Definition orel (beta : pairing) (o1 o2 : Obj) : Prop := size o1 = size o2 /\ vrel beta (val o1) (val o2).

(** A pairing is one to one, between objects of the heaps. *)
Record bij (beta : pairing) : Prop := {
  bij_high p q : beta p q -> HEAP_BASE <= p /\ HEAP_BASE <= q;
  bij_fun p q q' : beta p q -> beta p q' -> q = q';
  bij_inj p p' q : beta p q -> beta p' q -> p = p'
}.

Record sim_at (beta : pairing) (l1 l2 : list ptr) (s1 s2 : LISP) : Prop := {
  sim_ok1 : lisp_ok s1 l1;
  sim_ok2 : lisp_ok s2 l2;
  sim_bij : bij beta;
  sim_in p q : beta p q -> p ∈ l1 /\ q ∈ l2;
  sim_obj p q : beta p q -> orel beta (obj (Mem (Heap s1)) p) (obj (Mem (Heap s2)) q);
  sim_symbols : prel beta (Symbols (Block s1)) (Symbols (Block s2));
  sim_roots : Forall2 (Forall2 (prel beta)) (Roots s1) (Roots s2);
  sim_world : World s1 = World s2;
  sim_quiet : debug_gc (Block s1) = false /\ debug_gc (Block s2) = false;
  sim_static p : p < HEAP_BASE -> Mem (Heap s1) !! p = statics NULL !! p /\ Mem (Heap s2) !! p = statics NULL !! p
}.

(** The number of root frames, slots that are known to hold paired objects, and whether
    the input is known to be free of dots. *)
Record ctx := mkCtx { depth : nat; held : nat -> nat -> Prop; undotted : Prop }.

(** The input does not use the notation of dotted pairs. *)
Definition dotless (s : string) : Prop := Forall (fun a => a <> Ascii.ascii_of_nat 46) (String.list_ascii_of_string s).

Definition slot_at (d i : nat) (roots : list (list ptr)) : option ptr :=
  roots !! frame_at d roots ≫= (fun frame : list ptr => frame !! i).

Definition holds (G : ctx) (beta : pairing) (r1 r2 : list (list ptr)) : Prop :=
  length r1 = depth G /\
  forall d i p q, held G d i -> (d < depth G)%nat -> slot_at d i r1 = Some p -> slot_at d i r2 = Some q -> beta p q.

(** A further frame; a further slot that holds paired objects. *)
Definition push (G : ctx) : ctx := mkCtx (S (depth G)) (fun d i => held G d i /\ (d < depth G)%nat) (undotted G).
Definition hold (d i : nat) (G : ctx) : ctx := mkCtx (depth G) (fun d' i' => held G d' i' \/ (d' = d /\ i' = i)) (undotted G).

(** A slot that may be overwritten. *)
Definition free (G : ctx) (x : slot) : Prop :=
  match x with
  | Slot d i => (d < depth G)%nat /\ ~ held G d i
  | _ => True
  end.

Definition sim (G : ctx) (beta : pairing) (s1 s2 : LISP) : Prop :=
  (exists l1 l2, sim_at beta l1 l2 s1 s2) /\ holds G beta (Roots s1) (Roots s2) /\ (undotted G -> dotless (Input (World s1))).

(** ** Related computations *)

(** Both runs return, or fail alike; either may run out of memory instead. *)
Definition out {A} (Q : A -> A -> LISP -> LISP -> Prop) (r1 r2 : res (A * LISP)) : Prop :=
  match r1, r2 with
  | Ok (a1, s1), Ok (a2, s2) => Q a1 a2 s1 s2
  | Ok _, Err e | Err e, Ok _ => e = FMemory
  | Err e1, Err e2 => e1 = e2 \/ e1 = FMemory \/ e2 = FMemory
  end.

(** Without an allocation the pairing stays. *)
Definition keeps {A} (G : ctx) (beta : pairing) (m1 m2 : St LISP A) (Q : A -> A -> Prop) : Prop :=
  forall s1 s2, sim G beta s1 s2 -> out (fun a1 a2 s1' s2' => sim G beta s1' s2' /\ Q a1 a2) (m1 s1) (m2 s2).

Definition agrees {A} (G : ctx) (beta : pairing) (m1 m2 : St LISP A) (Q : pairing -> A -> A -> Prop) : Prop :=
  forall s1 s2, sim G beta s1 s2 ->
    out (fun a1 a2 s1' s2' => exists beta', sim G beta' s1' s2' /\ Q beta' a1 a2) (m1 s1) (m2 s2).

Lemma out_mono {A} (Q R : A -> A -> LISP -> LISP -> Prop) r1 r2 :
  (forall a1 a2 s1 s2, Q a1 a2 s1 s2 -> R a1 a2 s1 s2) -> out Q r1 r2 -> out R r1 r2.
Proof. intros HQR. destruct r1 as [[a1 s1]|e1], r2 as [[a2 s2]|e2]; simpl; auto. Qed.

Lemma out_bind {A B} (Q : A -> A -> LISP -> LISP -> Prop) (R : B -> B -> LISP -> LISP -> Prop)
    (m1 m2 : St LISP A) (f1 f2 : A -> St LISP B) s1 s2 :
  out Q (m1 s1) (m2 s2) -> (forall a1 a2 t1 t2, Q a1 a2 t1 t2 -> out R (f1 a1 t1) (f2 a2 t2)) ->
  out R ((m1 ≫= f1) s1) ((m2 ≫= f2) s2).
Proof.
  intros HQ HR. unfold mbind, st_bind. destruct (m1 s1) as [[a1 t1]|e1], (m2 s2) as [[a2 t2]|e2]; simpl in HQ.
  - by apply HR.
  - subst. destruct (f1 a1 t1) as [[b1 u1]|?]; simpl; auto.
  - subst. destruct (f2 a2 t2) as [[b2 u2]|?]; simpl; auto.
  - done.
Qed.

Lemma sim_is_bij G beta s1 s2 : sim G beta s1 s2 -> bij beta.
Proof. intros [(l1 & l2 & H) _]. apply H. Qed.

Lemma keeps_bind {A B} G beta (m1 m2 : St LISP A) (f1 f2 : A -> St LISP B) Q R :
  keeps G beta m1 m2 Q -> (forall a1 a2, Q a1 a2 -> keeps G beta (f1 a1) (f2 a2) R) -> keeps G beta (m1 ≫= f1) (m2 ≫= f2) R.
Proof. intros Hm Hf s1 s2 Hs. eapply out_bind; [by apply Hm|]. intros a1 a2 t1 t2 [Ht Hq]. by apply (Hf a1 a2). Qed.

Lemma agrees_keeps {A B} G beta (m1 m2 : St LISP A) (f1 f2 : A -> St LISP B) Q R :
  keeps G beta m1 m2 Q -> (forall a1 a2, Q a1 a2 -> agrees G beta (f1 a1) (f2 a2) R) -> agrees G beta (m1 ≫= f1) (m2 ≫= f2) R.
Proof. intros Hm Hf s1 s2 Hs. eapply out_bind; [by apply Hm|]. intros a1 a2 t1 t2 [Ht Hq]. by apply (Hf a1 a2). Qed.

Lemma agrees_bind {A B} G beta (m1 m2 : St LISP A) (f1 f2 : A -> St LISP B) Q R :
  agrees G beta m1 m2 Q -> (forall beta' a1 a2, bij beta' -> Q beta' a1 a2 -> agrees G beta' (f1 a1) (f2 a2) R) ->
  agrees G beta (m1 ≫= f1) (m2 ≫= f2) R.
Proof.
  intros Hm Hf s1 s2 Hs. eapply out_bind; [by apply Hm|]. intros a1 a2 t1 t2 (beta' & Ht & Hq).
  apply (Hf beta' a1 a2); [by eapply sim_is_bij|done|done].
Qed.

Lemma keeps_agrees {A} G beta (m1 m2 : St LISP A) Q R : keeps G beta m1 m2 Q -> (forall a1 a2, Q a1 a2 -> R beta a1 a2) -> agrees G beta m1 m2 R.
Proof. intros Hm HR s1 s2 Hs. eapply out_mono; [|by apply Hm]. intros a1 a2 t1 t2 [Ht Hq]. exists beta. auto. Qed.

Lemma agrees_mono {A} G beta (m1 m2 : St LISP A) Q R :
  agrees G beta m1 m2 Q -> (forall beta' a1 a2, bij beta' -> Q beta' a1 a2 -> R beta' a1 a2) -> agrees G beta m1 m2 R.
Proof.
  intros Hm HR s1 s2 Hs. eapply out_mono; [|by apply Hm]. intros a1 a2 t1 t2 (beta' & Ht & Hq). exists beta'.
  split; [done|]. apply HR; [by eapply sim_is_bij|done].
Qed.

Lemma keeps_mono {A} G beta (m1 m2 : St LISP A) Q R : keeps G beta m1 m2 Q -> (forall a1 a2, Q a1 a2 -> R a1 a2) -> keeps G beta m1 m2 R.
Proof. intros Hm HR s1 s2 Hs. eapply out_mono; [|by apply Hm]. intros a1 a2 t1 t2 [Ht Hq]. auto. Qed.

Lemma agrees_bij {A} G beta (m1 m2 : St LISP A) Q : (bij beta -> agrees G beta m1 m2 Q) -> agrees G beta m1 m2 Q.
Proof. intros H s1 s2 Hs. apply H; [by eapply sim_is_bij|done]. Qed.
Lemma keeps_bij {A} G beta (m1 m2 : St LISP A) Q : (bij beta -> keeps G beta m1 m2 Q) -> keeps G beta m1 m2 Q.
Proof. intros H s1 s2 Hs. apply H; [by eapply sim_is_bij|done]. Qed.

Lemma keeps_ret {A} G beta (a1 a2 : A) (Q : A -> A -> Prop) : Q a1 a2 -> keeps G beta (mret a1) (mret a2) Q.
Proof. intros Hq s1 s2 Hs. simpl. done. Qed.
Lemma agrees_ret {A} G beta (a1 a2 : A) (Q : pairing -> A -> A -> Prop) : Q beta a1 a2 -> agrees G beta (mret a1) (mret a2) Q.
Proof. intros Hq s1 s2 Hs. simpl. by exists beta. Qed.
Lemma keeps_fail {A} G beta e (Q : A -> A -> Prop) : keeps G beta (fail e) (fail e) Q.
Proof. intros s1 s2 Hs. simpl. auto. Qed.
Lemma agrees_fail {A} G beta e (Q : pairing -> A -> A -> Prop) : agrees G beta (fail e) (fail e) Q.
Proof. intros s1 s2 Hs. simpl. auto. Qed.

Lemma keeps_ret_bind {A B} G beta (a1 a2 : A) (f1 f2 : A -> St LISP B) Q :
  keeps G beta (f1 a1) (f2 a2) Q -> keeps G beta (mret a1 ≫= f1) (mret a2 ≫= f2) Q.
Proof. exact id. Qed.
Lemma agrees_ret_bind {A B} G beta (a1 a2 : A) (f1 f2 : A -> St LISP B) Q :
  agrees G beta (f1 a1) (f2 a2) Q -> agrees G beta (mret a1 ≫= f1) (mret a2 ≫= f2) Q.
Proof. exact id. Qed.

Lemma bind_assoc {A B C} (m : St LISP A) (g : A -> St LISP B) (f : B -> St LISP C) s :
  ((m ≫= g) ≫= f) s = (m ≫= (fun a => g a ≫= f)) s.
Proof. unfold mbind, st_bind. by destruct (m s) as [[a s']|]. Qed.
Lemma agrees_assoc {A B C} G beta (m1 m2 : St LISP A) (g1 g2 : A -> St LISP B) (f1 f2 : B -> St LISP C) Q :
  agrees G beta (m1 ≫= (fun a => g1 a ≫= f1)) (m2 ≫= (fun a => g2 a ≫= f2)) Q -> agrees G beta ((m1 ≫= g1) ≫= f1) ((m2 ≫= g2) ≫= f2) Q.
Proof. intros H s1 s2 Hs. rewrite !bind_assoc. by apply H. Qed.

(** ** Pointers *)

Lemma prel_low beta p : p < HEAP_BASE -> prel beta p p.
Proof. by left. Qed.

Lemma prel_eqb beta p p' q q' : bij beta -> prel beta p q -> prel beta p' q' -> (p =? p') = (q =? q').
Proof.
  intros Hb H1 H2. apply eq_true_iff_eq. rewrite !Z.eqb_eq.
  destruct H1 as [[Hp ->]|H1], H2 as [[Hp' ->]|H2]; try done.
  - pose proof (bij_high _ Hb _ _ H2). split; intros; lia.
  - pose proof (bij_high _ Hb _ _ H1). split; intros; lia.
  - split; intros ->; [by eapply bij_fun|by eapply bij_inj].
Qed.

Lemma prel_low_r beta p q : bij beta -> prel beta p q -> p < HEAP_BASE -> p = q.
Proof. intros Hb [[_ ?]|H] Hp; [done|]. pose proof (bij_high _ Hb _ _ H). lia. Qed.

Lemma vrel_is_cell beta v w : vrel beta v w -> is_cell v = is_cell w.
Proof. by destruct v, w. Qed.
Lemma vrel_is_symbol beta v w : vrel beta v w -> is_symbol v = is_symbol w.
Proof. by destruct v, w. Qed.
Lemma vrel_is_int beta v w : vrel beta v w -> is_int v = is_int w.
Proof. by destruct v, w. Qed.
Lemma vrel_is_macro beta v w : vrel beta v w -> is_macro v = is_macro w.
Proof. by destruct v, w. Qed.

(** ** Reading *)

Lemma slot_related beta d i r1 r2 : Forall2 (Forall2 (prel beta)) r1 r2 -> option_Forall2 (prel beta) (slot_at d i r1) (slot_at d i r2).
Proof.
  intros Hr. unfold slot_at, frame_at. rewrite <- (Forall2_length _ _ _ Hr). set (n := (length r1 - S d)%nat).
  destruct (proj1 (Forall2_lookup _ _ _) Hr n) as [f1 f2 Hf|]; simpl; [|constructor]. by apply (proj1 (Forall2_lookup _ _ _) Hf).
Qed.

Lemma get_keeps G beta x : keeps G beta (get x) (get x) (prel beta).
Proof.
  intros s1 s2 Hs. pose proof Hs as [(l1 & l2 & H) _]. destruct x as [d i| | |]; cbn [get].
  - fold (slot_at d i (Roots s1)) (slot_at d i (Roots s2)). destruct (slot_related beta d i _ _ (sim_roots _ _ _ _ _ H)); [done|by left].
  - split; [done|]. by apply prel_low.
  - split; [done|]. by apply prel_low.
  - split; [done|]. apply H.
Qed.

Lemma get_held G beta d i : held G d i -> (d < depth G)%nat -> keeps G beta (get (Slot d i)) (get (Slot d i)) beta.
Proof.
  intros Hh Hd s1 s2 Hs. pose proof Hs as [(l1 & l2 & H) [[_ Hg] _]]. cbn [get].
  fold (slot_at d i (Roots s1)) (slot_at d i (Roots s2)). specialize (Hg d i).
  destruct (slot_related beta d i _ _ (sim_roots _ _ _ _ _ H)); [split; [done|]; by apply Hg|by left].
Qed.

Lemma statics_vrel beta p o : p < HEAP_BASE -> statics NULL !! p = Some o -> p <> NULL /\ vrel beta (val o) (val o) /\ exists c, val o = TCONST c NULL NULL.
Proof.
  intros Hp Ho. unfold statics in Ho.
  repeat (apply lookup_insert_Some in Ho as [[<- <-]|[_ Ho]]; [split; [done|split; [done|by eexists]]|]). by apply lookup_empty_Some in Ho.
Qed.

Lemma deref_keeps G beta p q : prel beta p q ->
  keeps G beta (deref p) (deref q) (fun o1 o2 => orel beta o1 o2 /\ (beta p q \/ (p <> NULL /\ p < HEAP_BASE /\ p = q /\ exists c, val o1 = TCONST c NULL NULL))).
Proof.
  intros Hp s1 s2 Hs. pose proof Hs as [(l1 & l2 & H) _]. unfold deref, on_heap, load. destruct s1 as [b1 h1 r1 w1], s2 as [b2 h2 r2 w2]. cbn [Heap Block Roots World].
  destruct Hp as [[Hlow <-]|Hp].
  - destruct (sim_static _ _ _ _ _ H p Hlow) as [E1 E2]. cbn [Heap] in E1, E2. rewrite E1, E2. destruct (statics NULL !! p) as [o|] eqn:E; [|simpl; auto].
    destruct (statics_vrel beta p o Hlow E) as (Hn & Hv & c & Hc). simpl. split; [done|]. split; [done|]. right. split_and!; [done..|by eexists].
  - destruct (sim_in _ _ _ _ _ H p q Hp) as [Hi1 Hi2]. pose proof (sim_obj _ _ _ _ _ H p q Hp) as Ho.
    destruct (layout_obj _ _ _ _ _ (lk_layout _ _ (sim_ok1 _ _ _ _ _ H)) Hi1) as (_ & _ & _ & [o1 E1]).
    destruct (layout_obj _ _ _ _ _ (lk_layout _ _ (sim_ok2 _ _ _ _ _ H)) Hi2) as (_ & _ & _ & [o2 E2]).
    unfold obj in Ho. cbn [Heap] in E1, E2, Ho. rewrite E1, E2 in *. simpl. split; [done|]. split; [done|]. by left.
Qed.

Lemma valof_keeps G beta p q : prel beta p q ->
  keeps G beta (valof p) (valof q) (fun v w => vrel beta v w /\ p <> NULL /\ (beta p q \/ (p < HEAP_BASE /\ p = q /\ exists c, v = TCONST c NULL NULL))).
Proof.
  intros Hp. apply keeps_bij. intros Hb. eapply keeps_bind; [by apply deref_keeps|]. cbv beta. intros o1 o2 [[_ Hv] Ho]. apply keeps_ret.
  split; [done|]. destruct Ho as [Ho|(? & ? & ? & ?)]; [|by auto]. pose proof (bij_high _ Hb _ _ Ho). split; [unfold NULL, HEAP_BASE in *; lia|by left].
Qed.

(** A member that holds a pointer: of an object of the heap, or NULL. *)
Definition member_of (beta : pairing) (p q a b : ptr) : Prop := prel beta a b /\ p <> NULL /\ (beta p q \/ (p < HEAP_BASE /\ p = q /\ a = NULL)).

Lemma car_keeps G beta p q : prel beta p q -> keeps G beta (car p) (car q) (member_of beta p q).
Proof.
  intros Hp. apply keeps_bij. intros Hb. eapply keeps_bind; [by apply valof_keeps|]. cbv beta. intros v w (Hv & Hn & Ho).
  destruct v, w; simpl in Hv; try done; try apply keeps_fail; apply keeps_ret; split_and!; try done; try apply Hv.
  - left. destruct Ho as [?|(_ & _ & c & ?)]; done.
  - destruct Hv as (_ & -> & _ & -> & _). by apply prel_low.
  - destruct Ho as [?|(? & ? & _)]; [by left|right]. by destruct Hv as (_ & ? & _).
Qed.

Lemma cdr_keeps G beta p q : prel beta p q -> keeps G beta (cdr p) (cdr q) (member_of beta p q).
Proof.
  intros Hp. apply keeps_bij. intros Hb. eapply keeps_bind; [by apply valof_keeps|]. cbv beta. intros v w (Hv & Hn & Ho).
  destruct v, w; simpl in Hv; try done; try apply keeps_fail; apply keeps_ret; split_and!; try done; try apply Hv.
  - left. destruct Ho as [?|(_ & _ & c & ?)]; done.
  - destruct Hv as (_ & _ & -> & _ & ->). by apply prel_low.
  - destruct Ho as [?|(? & ? & _)]; [by left|right]. by destruct Hv as (_ & _ & ? & _).
Qed.

Ltac member_keeps :=
  intros; eapply keeps_bind; [by apply valof_keeps|]; cbv beta;
  let Hv := fresh "Hv" in let Hn := fresh "Hn" in let Ho := fresh "Ho" in
  intros v w (Hv & Hn & Ho); destruct v, w; simpl in Hv; try done; try apply keeps_fail; apply keeps_ret; naive_solver.

Lemma vars_keeps G beta p q : prel beta p q -> keeps G beta (vars p) (vars q) (fun a b => prel beta a b /\ beta p q).
Proof. member_keeps. Qed.
Lemma up_keeps G beta p q : prel beta p q -> keeps G beta (up p) (up q) (prel beta).
Proof. member_keeps. Qed.
Lemma params_keeps G beta p q : prel beta p q -> keeps G beta (params p) (params q) (prel beta).
Proof. member_keeps. Qed.
Lemma body_keeps G beta p q : prel beta p q -> keeps G beta (body p) (body q) (prel beta).
Proof. member_keeps. Qed.
Lemma env_of_keeps G beta p q : prel beta p q -> keeps G beta (env_of p) (env_of q) (prel beta).
Proof. member_keeps. Qed.
Lemma name_keeps G beta p q : prel beta p q -> keeps G beta (name p) (name q) (fun s t => s = t /\ beta p q).
Proof. member_keeps. Qed.
Lemma number_keeps G beta p q : prel beta p q -> keeps G beta (number p) (number q) eq.
Proof. member_keeps. Qed.

(** ** Roots *)

Definition with_Roots (r : list (list ptr)) (s : LISP) : LISP := mkLisp (Block s) (Heap s) r (World s).

Lemma sim_good beta l1 l2 s1 s2 p q : sim_at beta l1 l2 s1 s2 -> prel beta p q -> good l1 p /\ good l2 q.
Proof.
  intros H [[Hp <-]|Hp]; [split; by right|]. destruct (sim_in _ _ _ _ _ H p q Hp). split; by left.
Qed.

Lemma lisp_ok_roots s l r : lisp_ok s l -> (forall frame p, frame ∈ r -> p ∈ frame -> good l p) -> lisp_ok (with_Roots r s) l.
Proof. intros [] Hr. by constructor. Qed.

Lemma sim_set_roots beta l1 l2 s1 s2 r1 r2 :
  sim_at beta l1 l2 s1 s2 -> Forall2 (Forall2 (prel beta)) r1 r2 -> sim_at beta l1 l2 (with_Roots r1 s1) (with_Roots r2 s2).
Proof.
  intros H Hr. constructor; try apply H; [| |done]; (apply lisp_ok_roots; [apply H|]).
  - intros f p Hf Hp. apply list_elem_of_lookup in Hf as [i Hi], Hp as [j Hj].
    destruct (Forall2_lookup_l _ _ _ _ _ Hr Hi) as (f2 & _ & Hff). destruct (Forall2_lookup_l _ _ _ _ _ Hff Hj) as (q & _ & Hpq).
    by destruct (sim_good _ _ _ _ _ _ _ H Hpq).
  - intros f q Hf Hp. apply list_elem_of_lookup in Hf as [i Hi], Hp as [j Hj].
    destruct (Forall2_lookup_r _ _ _ _ _ Hr Hi) as (f2 & _ & Hff). destruct (Forall2_lookup_r _ _ _ _ _ Hff Hj) as (p & _ & Hpq).
    by destruct (sim_good _ _ _ _ _ _ _ H Hpq).
Qed.

Lemma slot_at_alter d i p d' i' roots : (d < length roots)%nat -> (d' < length roots)%nat ->
  slot_at d' i' (alter (fun frame : list ptr => <[i := p]> frame) (frame_at d roots) roots) =
  if decide (d = d' /\ i = i') then (slot_at d i roots ≫= fun _ => Some p) else slot_at d' i' roots.
Proof.
  intros Hd Hd'. unfold slot_at, frame_at. rewrite length_alter. case_decide as E.
  - destruct E as [<- <-]. rewrite list_lookup_alter_eq. destruct (roots !! _) as [f|]; simpl; [|done].
    destruct (f !! i) as [q|] eqn:F; simpl; [rewrite list_lookup_insert_eq; [done|by eapply lookup_lt_Some]|].
    apply lookup_ge_None in F. by apply lookup_ge_None; rewrite length_insert.
  - destruct (decide (d = d')) as [<-|Hne].
    + rewrite list_lookup_alter_eq. destruct (roots !! _) as [f|]; simpl; [|done]. apply list_lookup_insert_ne. naive_solver.
    + by rewrite list_lookup_alter_ne by lia.
Qed.

Lemma put_sim beta l1 l2 s1 s2 d i p q : sim_at beta l1 l2 s1 s2 -> prel beta p q ->
  sim_at beta l1 l2 (with_Roots (alter (fun frame : list ptr => <[i := p]> frame) (frame_at d (Roots s1)) (Roots s1)) s1)
    (with_Roots (alter (fun frame : list ptr => <[i := q]> frame) (frame_at d (Roots s2)) (Roots s2)) s2).
Proof.
  intros H Hp. apply sim_set_roots; [done|]. pose proof (sim_roots _ _ _ _ _ H) as Hr. unfold frame_at. rewrite <- (Forall2_length _ _ _ Hr).
  apply Forall2_alter; [done|]. intros f1 f2 _ _ Hf. by apply Forall2_insert.
Qed.

Lemma put_keeps G beta x p q : prel beta p q -> free G x -> keeps G beta (put x p) (put x q) (fun _ _ => True).
Proof.
  intros Hp Hf s1 s2 [(l1 & l2 & H) [[Hlen Hh] Hdot]]. destruct x as [d i| | |]; cbn [put]; [|by left..|].
  - rewrite !gets_bind. unfold set_Roots, modify. simpl. split; [|done]. split; [exists l1, l2; by apply put_sim|split; [|exact Hdot]].
    pose proof (Forall2_length _ _ _ (sim_roots _ _ _ _ _ H)) as Hl. destruct Hf as [Hd Hf].
    split; cbn [Roots]; [by rewrite length_alter|]. intros d' i' p' q' Hd' Hlt. rewrite !slot_at_alter by congruence.
    case_decide as E; [|by apply Hh]. by destruct E as [<- <-].
  - unfold set_Block, modify. simpl. split; [|done]. split; [|done]. exists l1, l2. destruct (sim_good _ _ _ _ _ _ _ H Hp) as [G1 G2].
    destruct H as [[] [] ? ? ? ? ? ? ? ?]. constructor; try done; by constructor.
Qed.

(** The slot holds paired objects until something else is stored there. *)
Lemma put_hold {A} G beta d i p q (f1 f2 : unit -> St LISP A) Q : beta p q -> (d < depth G)%nat ->
  agrees (hold d i G) beta (f1 tt) (f2 tt) Q -> agrees G beta (put (Slot d i) p ≫= f1) (put (Slot d i) q ≫= f2) Q.
Proof.
  intros Hp Hd Hf s1 s2 [(l1 & l2 & H) [[Hlen Hh] Hdot]]. cbn [put]. pose proof (Forall2_length _ _ _ (sim_roots _ _ _ _ _ H)) as Hl.
  eapply out_mono; [|apply Hf; split; [exists l1, l2; apply put_sim; [exact H|right; exact Hp]|split; [|exact Hdot]]].
  - intros a1 a2 t1 t2 (beta' & [Hs [[Hlen' Hh'] Hdot']] & Hq). exists beta'. split; [|done]. split; [done|]. split; [|done]. split; [done|].
    intros d' i' p' q' Hd' Hlt. apply Hh'; [by left|done].
  - split; [unfold with_Roots; simpl; by rewrite length_alter|]. intros d' i' p' q' Hd' Hlt. cbn [depth hold with_Roots Roots] in *.
    rewrite !slot_at_alter by congruence. case_decide as E.
    + destruct (slot_at d i (Roots s1)), (slot_at d i (Roots s2)); simpl; congruence.
    + destruct Hd' as [Hd'|[-> ->]]; [by apply Hh|]. by destruct E.
Qed.

Lemma slot_at_push d i f roots : (d < length roots)%nat -> slot_at d i (f :: roots) = slot_at d i roots.
Proof. intros Hd. unfold slot_at, frame_at. simpl length. by replace (S (length roots) - S d)%nat with (S (length roots - S d)) by lia. Qed.

Lemma ADD_ROOT_agrees {A} G beta n (f1 f2 : nat -> St LISP A) Q :
  agrees (push G) beta (f1 (depth G)) (f2 (depth G)) Q -> agrees G beta (ADD_ROOT n f1) (ADD_ROOT n f2) Q.
Proof.
  intros Hf s1 s2 [(l1 & l2 & H) [[Hlen Hh] Hdot]]. unfold ADD_ROOT. rewrite !gets_bind, !set_Roots_bind.
  pose proof (sim_roots _ _ _ _ _ H) as Hr. rewrite <- (Forall2_length _ _ _ Hr), Hlen.
  eapply out_bind.
  - apply Hf. split.
    + exists l1, l2. apply sim_set_roots; [done|]. constructor; [|done]. apply Forall2_replicate. by apply prel_low.
    + split; [|exact Hdot]. split; [simpl; by rewrite Hlen|]. intros d i p q [Hd Hlt] _. cbn [Roots].
      rewrite !slot_at_push by (rewrite <- ?(Forall2_length _ _ _ Hr); by rewrite Hlen). by apply Hh.
  - intros a1 a2 t1 t2 (beta' & [(m1 & m2 & Ht) [[Hlen' Hh'] Hdot']] & Hq). rewrite !gets_bind, !set_Roots_bind. simpl. exists beta'. split; [|done].
    pose proof (sim_roots _ _ _ _ _ Ht) as Hr'. split.
    + exists m1, m2. apply sim_set_roots; [done|]. destruct Hr'; simpl; [constructor|done].
    + split; [|exact Hdot']. cbn [Roots]. destruct Hr' as [|g1 g2 r1 r2 Hg Hr']; [done|]. simpl in Hlen' |- *. injection Hlen' as Hlen'. split; [done|].
      intros d i p q Hd Hlt Hp1 Hp2. apply (Hh' d i p q); [done|simpl; lia|..]; rewrite slot_at_push; try done; [by rewrite Hlen'|].
      by rewrite <- (Forall2_length _ _ _ Hr'), Hlen'.
Qed.

(** ** Writing *)

Lemma vrel_members beta v w : vrel beta v w -> Forall2 (prel beta) (members v) (members w).
Proof. destruct v, w; cbn [vrel members]; try done; intros; destruct_and?; repeat (apply Forall2_nil; done) || (apply Forall2_cons; split; [done|]); done. Qed.

Lemma layout_update H a l b p o : layout H a l b -> p ∈ l -> size o = size (obj H p) -> layout (<[p := o]> H) a l b.
Proof.
  revert a. induction l as [|x l IH]; intros a Hl Hp Ho; [done|]. destruct Hl as (-> & o' & Ho' & Hs & Hl). split; [done|].
  destruct (decide (a = p)) as [->|Hne].
  - exists o. rewrite lookup_insert_eq. unfold obj in Ho. rewrite Ho' in Ho. simpl in Ho. split; [done|]. split; [lia|]. rewrite Ho.
    assert (forall y, y ∈ l -> y <> p) as Hn by (intros y Hy ->; destruct (layout_obj _ _ _ _ _ Hl Hy); lia).
    clear IH Hp. revert Hl Hn. generalize (p + size o'). induction l as [|y l IH]; intros a Hl Hn; [done|].
    destruct Hl as (-> & o'' & Ho'' & Hs' & Hl). split; [done|]. exists o''. rewrite lookup_insert_ne by (intros ->; by apply (Hn a); [left|]).
    split; [done|]. split; [done|]. apply IH; [done|]. intros y Hy. apply Hn. by right.
  - exists o'. rewrite lookup_insert_ne by congruence. split; [done|]. split; [done|]. apply IH; [done| |done].
    apply elem_of_cons in Hp as [->|Hp]; done.
Qed.

Definition with_Mem (h : gmap Z Obj) (s : LISP) : LISP := mkLisp (Block s) (mkGc h (scan1 (Heap s)) (scan2 (Heap s))) (Roots s) (World s).

Lemma lisp_ok_store s l p o :
  lisp_ok s l -> p ∈ l -> size o = size (obj (Mem (Heap s)) p) -> proper (val o) -> (forall q, q ∈ members (val o) -> good l q) ->
  lisp_ok (with_Mem (<[p := o]> (Mem (Heap s))) s) l.
Proof.
  intros [Hlay Hused Hcur Hb Hdisj Hobj Hsym Hroots Hidle Hstatic] Hp Hs Hpr Hm.
  constructor; cbn [with_Mem Block Heap Mem Roots]; try done.
  - by apply layout_update.
  - intros a Ha. destruct (decide (p = a)) as [->|Hne]; [by rewrite obj_insert|]. rewrite obj_insert_ne by done. auto.
  - destruct Hstatic as [d Hd]. exists d. intros q Hq. destruct (layout_obj _ _ _ _ _ Hlay Hp). rewrite lookup_insert_ne by lia. auto.
Qed.

Lemma set_val_keeps G beta p q f g :
  beta p q ->
  (forall v w, vrel beta v w -> proper v -> match f v, g w with Some a, Some b => vrel beta a b /\ proper a | None, None => True | _, _ => False end) ->
  keeps G beta (set_val p f) (set_val q g) (fun _ _ => True).
Proof.
  intros Hp Hf s1 s2 [(l1 & l2 & H) Hh]. destruct (sim_in _ _ _ _ _ H p q Hp) as [Hi1 Hi2].
  pose proof (sim_obj _ _ _ _ _ H p q Hp) as Ho. pose proof (sim_bij _ _ _ _ _ H) as Hb.
  destruct (layout_obj _ _ _ _ _ (lk_layout _ _ (sim_ok1 _ _ _ _ _ H)) Hi1) as (_ & _ & _ & [o1 E1]).
  destruct (layout_obj _ _ _ _ _ (lk_layout _ _ (sim_ok2 _ _ _ _ _ H)) Hi2) as (_ & _ & _ & [o2 E2]).
  destruct (lk_objects _ _ (sim_ok1 _ _ _ _ _ H) p Hi1) as [Hpr _].
  unfold obj in Ho, Hpr. rewrite E1, E2 in *. unfold id in *. cbn [default] in *. destruct Ho as [Hsz Hv].
  unfold set_val, deref, on_heap, load, mbind, st_bind. rewrite E1, E2. cbn [val size Block Heap Roots World].
  specialize (Hf _ _ Hv Hpr). destruct (f (val o1)) as [a|], (g (val o2)) as [b|]; try done; [|by left].
  destruct Hf as [Hvr Hpa]. unfold store, modify. simpl. split; [|done]. split; [|done].
  assert (proper b) as Hpb by (destruct a, b; simpl in *; done). pose proof (vrel_members _ _ _ Hvr) as Hm.
  exists l1, l2. change (sim_at beta l1 l2 (with_Mem (<[p := mkObj (size o1) a]> (Mem (Heap s1))) s1) (with_Mem (<[q := mkObj (size o2) b]> (Mem (Heap s2))) s2)).
  constructor; cbn [with_Mem Block Heap Mem Roots World]; try apply H.
  - apply lisp_ok_store; [apply H|done|unfold obj; by rewrite E1|done|]. intros x Hx. apply list_elem_of_lookup in Hx as [i Hi].
    destruct (Forall2_lookup_l _ _ _ _ _ Hm Hi) as (y & _ & Hxy). by destruct (sim_good _ _ _ _ _ _ _ H Hxy).
  - apply lisp_ok_store; [apply H|done|unfold obj; by rewrite E2|done|]. intros x Hx. apply list_elem_of_lookup in Hx as [i Hi].
    destruct (Forall2_lookup_r _ _ _ _ _ Hm Hi) as (y & _ & Hxy). by destruct (sim_good _ _ _ _ _ _ _ H Hxy).
  - intros x y Hxy. destruct (decide (p = x)) as [<-|Hne].
    + rewrite (bij_fun _ Hb _ _ _ Hxy Hp), !obj_insert. done.
    + rewrite !obj_insert_ne; [by apply H|intros <-; apply Hne; by eapply bij_inj|done].
  - intros x Hx. destruct (bij_high _ Hb _ _ Hp). rewrite !lookup_insert_ne by lia. by apply H.
Qed.

Lemma set_car_keeps G beta p q a b : beta p q -> prel beta a b -> keeps G beta (set_car p a) (set_car q b) (fun _ _ => True).
Proof. intros Hp Ha. apply set_val_keeps; [done|]. intros v w Hv Hpr. destruct v, w; simpl in *; naive_solver. Qed.
Lemma set_cdr_keeps G beta p q a b : beta p q -> prel beta a b -> keeps G beta (set_cdr p a) (set_cdr q b) (fun _ _ => True).
Proof. intros Hp Ha. apply set_val_keeps; [done|]. intros v w Hv Hpr. destruct v, w; simpl in *; naive_solver. Qed.
(** A static object has no [vars]: both runs fail. *)
Lemma set_vars_keeps G beta p q a b : prel beta p q -> prel beta a b -> keeps G beta (set_vars p a) (set_vars q b) (fun _ _ => True).
Proof.
  intros [[Hlow <-]|Hp] Ha.
  - eapply keeps_bind; [by apply deref_keeps, prel_low|]. cbv beta. intros o1 o2 [[_ Hv] Ho]. destruct Ho as [Ho|(_ & _ & _ & c & Hc)].
    + apply keeps_bij. intros Hb. pose proof (bij_high _ Hb _ _ Ho). lia.
    + rewrite Hc in *. destruct (val o2); try done. apply keeps_fail.
  - apply set_val_keeps; [done|]. intros v w Hv Hpr. destruct v, w; simpl in *; naive_solver.
Qed.

(** ** The outside *)

Definition no_dots_added (f : WORLD -> WORLD) : Prop := forall w, dotless (Input w) -> dotless (Input (f w)).

Lemma set_World_keeps G beta f : no_dots_added f -> keeps G beta (set_World f) (set_World f) (fun _ _ => True).
Proof.
  intros Hf s1 s2 [(l1 & l2 & H) [Hh Hdot]]. simpl. split; [|done]. split; [|split; [done|intros Hu; by apply Hf, Hdot]]. exists l1, l2.
  destruct H as [[] [] ? ? ? ? ? Hw ? ?]. constructor; try done; try by constructor. cbn [World]. by rewrite Hw.
Qed.

Lemma gets_World_keeps {A} G beta (f : WORLD -> A) : keeps G beta (gets (fun s => f (World s))) (gets (fun s => f (World s))) eq.
Proof. intros s1 s2 Hs. pose proof Hs as [(l1 & l2 & H) _]. simpl. split; [done|]. by rewrite (sim_world _ _ _ _ _ H). Qed.

Lemma write_keeps G beta s : keeps G beta (write s) (write s) (fun _ _ => True).
Proof. apply set_World_keeps. by intros w. Qed.
Lemma lisp_printf_keeps G beta s : keeps G beta (lisp_printf s) (lisp_printf s) (fun _ _ => True).
Proof. apply set_World_keeps. by intros w. Qed.

(** ** Allocation *)

Lemma vrel_renamed beta beta' theta1 theta2 v w :
  vrel beta v w -> (forall a b, a ∈ members v -> b ∈ members w -> prel beta a b -> prel beta' (theta1 a) (theta2 b)) ->
  vrel beta' (with_members (theta1 <$> members v) v) (with_members (theta2 <$> members w) w).
Proof.
  intros Hv Hm. destruct v, w; cbn [vrel members fmap list_fmap with_members] in *; try done; destruct_and?; split_and!;
    (apply Hm; [set_solver..|done]).
Qed.

(** The pairs of live objects, at their new addresses, and the new object. *)
Definition paired_anew (beta : pairing) (live1 live2 : ptr -> Prop) (theta1 theta2 : ptr -> ptr) (p1 p2 : ptr) : pairing :=
  fun x y => (exists a b, beta a b /\ live1 a /\ live2 b /\ x = theta1 a /\ y = theta2 b) \/ (x = p1 /\ y = p2).

Lemma slot_at_fmap d i (f : ptr -> ptr) (roots : list (list ptr)) : slot_at d i (fmap (M:=list) f <$> roots) = f <$> slot_at d i roots.
Proof.
  unfold slot_at, frame_at. rewrite length_fmap, list_lookup_fmap. destruct (roots !! _) as [g|]; simpl; [|done]. by rewrite list_lookup_fmap.
Qed.

Lemma slot_at_root d i (roots : list (list ptr)) p : slot_at d i roots = Some p -> exists frame, frame ∈ roots /\ p ∈ frame.
Proof.
  unfold slot_at. destruct (roots !! _) as [g|] eqn:E; simpl; [|done]. intros Hp. exists g. split; by eapply list_elem_of_lookup_2.
Qed.

Section alloc.
Context (beta : pairing) (l1 l2 : list ptr) (s1 s2 : LISP) (H : sim_at beta l1 l2 s1 s2).
Context (theta1 theta2 : ptr -> ptr) (t1 t2 : LISP) (m1 m2 : list ptr) (o : Obj).
Context (Hmv1 : moved theta1 s1 l1 t1) (Hmv2 : moved theta2 s2 l2 t2).
Context (Hok1 : lisp_ok t1 m1) (Hok2 : lisp_ok t2 m2).
Context (Hin1 : forall a, live s1 l1 a -> theta1 a ∈ m1) (Hin2 : forall a, live s2 l2 a -> theta2 a ∈ m2).
Context (Hw : World t1 = World t2) (Hq1 : debug_gc (Block t1) = false) (Hq2 : debug_gc (Block t2) = false).
Context (Hsize : 0 < size o) (Hfit1 : mem_nused (Block t1) + size o <= memory_size (Block t1))
  (Hfit2 : mem_nused (Block t2) + size o <= memory_size (Block t2)).
Context (Hproper : proper (val o)) (Hlow : forall p, p ∈ members (val o) -> p < HEAP_BASE).

Let p1 := memory (Block t1) + mem_nused (Block t1).
Let p2 := memory (Block t2) + mem_nused (Block t2).
Let beta' := paired_anew beta (live s1 l1) (live s2 l2) theta1 theta2 p1 p2.

Lemma placed_fresh t m : lisp_ok t m -> memory (Block t) + mem_nused (Block t) ∉ m.
Proof. intros Hok Hin. destruct (layout_obj _ _ _ _ _ (lk_layout _ _ Hok) Hin) as (? & ? & ? & _). lia. Qed.

Lemma anew_prel a b : prel beta a b -> (a ∈ l1 -> live s1 l1 a) -> (b ∈ l2 -> live s2 l2 b) -> prel beta' (theta1 a) (theta2 b).
Proof.
  intros [[Ha <-]|Hab] L1 L2; [left; rewrite (mv_static _ _ _ _ Hmv1), (mv_static _ _ _ _ Hmv2) by done; done|].
  destruct (sim_in _ _ _ _ _ H _ _ Hab). right. left. exists a, b. auto.
Qed.

Lemma anew_high x y : beta' x y -> HEAP_BASE <= x /\ HEAP_BASE <= y.
Proof.
  pose proof (layout_nonneg _ _ _ _ (lk_layout _ _ Hok1)). pose proof (layout_nonneg _ _ _ _ (lk_layout _ _ Hok2)).
  pose proof (lk_base _ _ Hok1). pose proof (lk_base _ _ Hok2).
  intros [(a & b & _ & La & Lb & -> & ->)|[-> ->]]; [|unfold p1, p2; lia].
  destruct (layout_obj _ _ _ _ _ (lk_layout _ _ Hok1) (Hin1 a La)). destruct (layout_obj _ _ _ _ _ (lk_layout _ _ Hok2) (Hin2 b Lb)). lia.
Qed.

Lemma anew_bij : bij beta'.
Proof.
  pose proof (sim_bij _ _ _ _ _ H) as Hb. pose proof (placed_fresh _ _ Hok1) as F1. pose proof (placed_fresh _ _ Hok2) as F2. fold p1 in F1. fold p2 in F2.
  constructor; [apply anew_high| |].
  - intros x y y' [(a & b & Hab & La & Lb & -> & ->)|[-> ->]] [(a' & b' & Hab' & La' & Lb' & Hx & ->)|[Hx ->]].
    + apply (mv_inj _ _ _ _ Hmv1) in Hx as <-; [|done..]. by rewrite (bij_fun _ Hb _ _ _ Hab Hab').
    + exfalso. apply F1. rewrite <- Hx. auto.
    + exfalso. apply F1. rewrite Hx. auto.
    + done.
  - intros x x' y [(a & b & Hab & La & Lb & -> & ->)|[-> ->]] [(a' & b' & Hab' & La' & Lb' & -> & Hy)|[-> Hy]].
    + apply (mv_inj _ _ _ _ Hmv2) in Hy as <-; [|done..]. by rewrite (bij_inj _ Hb _ _ _ Hab Hab').
    + exfalso. apply F2. rewrite <- Hy. auto.
    + exfalso. apply F2. rewrite Hy. auto.
    + done.
Qed.

Lemma anew_obj x y : beta' x y -> orel beta' (obj (Mem (Heap (placed t1 o))) x) (obj (Mem (Heap (placed t2 o))) y).
Proof.
  pose proof (placed_fresh _ _ Hok1) as F1. pose proof (placed_fresh _ _ Hok2) as F2. cbn [placed Heap Mem].
  intros [(a & b & Hab & La & Lb & -> & ->)|[-> ->]].
  - rewrite !obj_insert_ne by (intros E; rewrite E in *; auto).
    unfold obj. rewrite (mv_objects _ _ _ _ Hmv1 a La), (mv_objects _ _ _ _ Hmv2 b Lb). cbn [default].
    destruct (sim_obj _ _ _ _ _ H _ _ Hab) as [Hs Hv]. split; [done|]. unfold id, renamed. cbn [val].
    eapply vrel_renamed; [done|]. intros c d Hc Hd Hcd. apply anew_prel; [done|intros; by eapply reach_member..].
  - unfold p1, p2. rewrite !obj_insert. split; [done|].
    assert (forall q, q ∈ members (val o) -> prel beta' q q) as Hm by (intros; by apply prel_low, Hlow).
    destruct (val o); cbn [vrel members proper] in *; try done; split_and!; apply Hm; set_solver.
Qed.

Lemma anew_sim : sim_at beta' (m1 ++ [p1]) (m2 ++ [p2]) (placed t1 o) (placed t2 o).
Proof.
  constructor.
  - apply placed_ok; [done..|]. intros; right; auto.
  - apply placed_ok; [done..|]. intros; right; auto.
  - apply anew_bij.
  - intros x y [(a & b & _ & La & Lb & -> & ->)|[-> ->]]; rewrite !elem_of_app; [auto|]. split; right; by apply list_elem_of_singleton.
  - apply anew_obj.
  - cbn. rewrite (mv_symbols _ _ _ _ Hmv1), (mv_symbols _ _ _ _ Hmv2). apply anew_prel; [apply H|intros; apply reach_root; [by left|done]..].
  - cbn. rewrite (mv_roots _ _ _ _ Hmv1), (mv_roots _ _ _ _ Hmv2). apply Forall2_fmap.
    eapply Forall2_same_length_lookup. pose proof (sim_roots _ _ _ _ _ H) as Hr. split; [by eapply Forall2_length|].
    intros i f1 f2 Hf1 Hf2. pose proof (Forall2_lookup_lr _ _ _ _ _ _ Hr Hf1 Hf2) as Hf. apply Forall2_fmap.
    eapply Forall2_same_length_lookup. split; [by eapply Forall2_length|]. intros j a b Ha Hb.
    apply list_elem_of_lookup_2 in Hf1 as Hf1', Hf2 as Hf2'. apply anew_prel; [by eapply Forall2_lookup_lr| |];
      intros; apply reach_root; try done; right; eexists; (split; [done|by eapply list_elem_of_lookup_2]).
  - done.
  - done.
  - intros p Hp. pose proof (layout_nonneg _ _ _ _ (lk_layout _ _ Hok1)). pose proof (layout_nonneg _ _ _ _ (lk_layout _ _ Hok2)).
    pose proof (lk_base _ _ Hok1). pose proof (lk_base _ _ Hok2). cbn [placed Heap Mem]. rewrite !lookup_insert_ne by lia.
    rewrite (mv_low _ _ _ _ Hmv1), (mv_low _ _ _ _ Hmv2) by done. by apply H.
Qed.

Lemma anew_holds G : holds G beta (Roots s1) (Roots s2) -> holds G beta' (Roots (placed t1 o)) (Roots (placed t2 o)).
Proof.
  intros [Hlen Hh]. cbn [placed Roots]. rewrite (mv_roots _ _ _ _ Hmv1), (mv_roots _ _ _ _ Hmv2).
  split; [by rewrite length_fmap|]. intros d i x y Hd Hlt. rewrite !slot_at_fmap.
  destruct (slot_at d i (Roots s1)) as [a|] eqn:E1, (slot_at d i (Roots s2)) as [b|] eqn:E2; simpl; try done. intros [= <-] [= <-].
  pose proof (Hh d i a b Hd Hlt E1 E2) as Hab. destruct (sim_in _ _ _ _ _ H _ _ Hab). left. exists a, b.
  split; [done|]. split; [|split; [|done]]; (apply reach_root; [right; by eapply slot_at_root|done]).
Qed.
End alloc.

Lemma alloc_agrees G beta v n :
  proper v -> (forall p, p ∈ members v -> p < HEAP_BASE) -> 0 <= n < 2 ^ 60 -> agrees G beta (alloc v n) (alloc v n) (fun beta' p q => beta' p q).
Proof.
  intros Hp Hm Hn s1 s2 [(l1 & l2 & H) [Hh Hdot]]. destruct (object_size_ok n Hn) as [_ Hsz]. destruct (sim_quiet _ _ _ _ _ H) as [Q1 Q2].
  destruct (alloc_ok s1 l1 v n (sim_ok1 _ _ _ _ _ H) Hn Hp Hm) as (theta1 & t1 & m1 & o1 & Hmv1 & Hok1 & Hin1 & _ & _ & Hms1 & _ & Hd1 & Hw1 & ->).
  destruct (alloc_ok s2 l2 v n (sim_ok2 _ _ _ _ _ H) Hn Hp Hm) as (theta2 & t2 & m2 & o2 & Hmv2 & Hok2 & Hin2 & _ & _ & Hms2 & _ & Hd2 & Hw2 & ->).
  destruct (Z.ltb_spec (memory_size (Block t1)) (mem_nused (Block t1) + object_size n)) as [|F1],
    (Z.ltb_spec (memory_size (Block t2)) (mem_nused (Block t2) + object_size n)) as [|F2]; simpl; try (auto; done).
  assert (World t1 = World t2) as Hw by (rewrite Hw1, Hw2 by done; apply H).
  assert (0 < object_size n) as Hpos by lia.
  exists (paired_anew beta (live s1 l1) (live s2 l2) theta1 theta2
    (memory (Block t1) + mem_nused (Block t1)) (memory (Block t2) + mem_nused (Block t2))). split; [|by right]. split.
  - eexists _, _. eapply (anew_sim beta l1 l2 s1 s2 H theta1 theta2 t1 t2 m1 m2 (mkObj (object_size n) v)); try done; by rewrite ?Hd1, ?Hd2.
  - split; [|cbn [placed World]; rewrite Hw1 by done; exact Hdot]. by eapply (anew_holds beta l1 l2 s1 s2 H theta1 theta2 t1 t2 (mkObj (object_size n) v)).
Qed.
