(* ===== verification/LispReader.v ===== *)
(** * The reader and the printer of the Lisp interpreter (kernel/minilisp.c) *)

From stdpp Require Import strings pretty.
From S2P Require Import Prelude LispHeap LispObjects.

(** ** Characters *)

Definition EOF : Z := -1.

(** A [char] is signed. *)
Definition schar (a : Ascii.ascii) : Z := let n := Z.of_N (Ascii.N_of_ascii a) in if n <? 128 then n else n - 256.
Definition char_of (c : Z) : Ascii.ascii := Ascii.ascii_of_N (Z.to_N (wrap 8 c)).

(** The loop on [SerialPeak] ends when there is a byte. *)
Definition peek : St LISP Z :=
  w ← gets World;
  match Input w with
  | EmptyString => fail FWait
  | String a _ => mret (schar a)
  end.

Definition with_Input i (w : WORLD) := mkWorld i (Output w) (Slept w) (GensymCount w).
Definition get1char : St LISP Z :=
  w ← gets World;
  match Input w with
  | EmptyString => fail FWait
  | String a rest => set_World (with_Input rest);; mret (schar a)
  end.

(** In the C locale. *)
Definition isdigit (c : Z) : bool := (48 <=? c) && (c <=? 57).
Definition isalpha (c : Z) : bool := (65 <=? c) && (c <=? 90) || (97 <=? c) && (c <=? 122).
Definition isalnum (c : Z) : bool := isalpha c || isdigit c.

Definition symbol_chars : string := "~!@#$%^&*-_=+:/?<>".
Definition SYMBOL_MAX_LEN : Z := 200.

(** [strchr] also finds the end of the string. *)
Definition strchr (s : string) (c : Z) : bool := (c =? 0) || existsb (fun a => schar a =? c) (String.list_ascii_of_string s).

(** The C string in a buffer. *)
Fixpoint cstr (s : string) : string :=
  match s with
  | EmptyString => EmptyString
  | String a s => if schar a =? 0 then EmptyString else String a (cstr s)
  end.

(** ** The reader *)

Definition is_space (c : Z) : bool := (c =? 32) || (c =? 10) || (c =? 13) || (c =? 9).

Fixpoint skip_line (fuel : nat) : St LISP unit :=
  match fuel with
  | O => fail FFuel
  | S fuel =>
      c ← get1char;
      if (c =? EOF) || (c =? 10) then mret tt
      else if c =? 13 then
        n ← peek;
        if n =? 10 then get1char;; mret tt else mret tt
      else skip_line fuel
  end.

Fixpoint read_number (fuel : nat) (val : Z) : St LISP Z :=
  c ← peek;
  if isdigit c then
    match fuel with
    | O => fail FFuel
    | S fuel => c ← get1char; read_number fuel (int32 (val * 10 + (c - 48)))
    end
  else mret val.

(** [buf] holds [len] characters. *)
Fixpoint symbol_loop (fuel : nat) (buf : string) (len : Z) : St LISP string :=
  c ← peek;
  if isalnum c || strchr symbol_chars c then
    match fuel with
    | O => fail FFuel
    | S fuel =>
        if SYMBOL_MAX_LEN <=? len then error else
        c ← get1char;
        symbol_loop fuel (buf +:+ String (char_of c) EmptyString) (len + 1)
    end
  else mret buf.

Definition read_symbol (fuel : nat) (c : Z) : St LISP ptr :=
  buf ← symbol_loop fuel (String (char_of c) EmptyString) 1;
  intern fuel (cstr buf).

Section read.
Context (read_expr : St LISP ptr).

(** [for (;;)] in [read_list] *)
Fixpoint list_loop (fuel : nat) (obj head last : slot) : St LISP ptr :=
  match fuel with
  | O => fail FFuel
  | S fuel' =>
      e ← read_expr;
      put obj e;;
      if e =? NULL then error
      else if e =? Cparen then
        h ← get head;
        reverse fuel h
      else if e =? Dot then
        l ← read_expr;
        put last l;;
        close ← read_expr;
        if negb (close =? Cparen) then error else
        h ← get head;
        ret ← reverse fuel h;
        l ← get last;
        set_cdr h l;;
        mret ret
      else
        c ← cons obj head;
        put head c;;
        list_loop fuel' obj head last
  end.

Definition read_list (fuel : nat) : St LISP ptr :=
  DEFINE3 (fun obj head last =>
    put head Nil;;
    list_loop fuel obj head last).

Definition read_quote (fuel : nat) : St LISP ptr :=
  DEFINE2 (fun sym tmp =>
    s ← intern fuel "quote";
    put sym s;;
    e ← read_expr;
    put tmp e;;
    c ← cons tmp NilVar;
    put tmp c;;
    c ← cons sym tmp;
    put tmp c;;
    get tmp).
End read.

Fixpoint read_expr (fuel : nat) : St LISP ptr :=
  match fuel with
  | O => fail FFuel
  | S fuel =>
      c ← get1char;
      if is_space c then read_expr fuel
      else if c =? EOF then mret NULL
      else if c =? 59 then skip_line fuel;; read_expr fuel
      else if c =? 40 then read_list (read_expr fuel) fuel
      else if c =? 41 then mret Cparen
      else if c =? 46 then mret Dot
      else if c =? 39 then read_quote (read_expr fuel) fuel
      else if isdigit c then n ← read_number fuel (c - 48); make_int n
      else
        negative ← (if c =? 45 then p ← peek; mret (isdigit p) else mret false);
        if (negative : bool) then n ← read_number fuel 0; make_int (int32 (- n))
        else if isalpha c || strchr symbol_chars c then read_symbol fuel c
        else error
  end.

(** ** The printer *)

Section print.
Context (print : ptr -> St LISP unit).

(** [for (;;)] in the case of a cell *)
Fixpoint print_cells (fuel : nat) (obj : ptr) : St LISP unit :=
  match fuel with
  | O => fail FFuel
  | S fuel =>
      a ← car obj;
      print a;;
      d ← cdr obj;
      if d =? Nil then mret tt else
      v ← valof d;
      if negb (is_cell v) then write " . ";; print d
      else write " ";; print_cells fuel d
  end.
End print.

Fixpoint print (fuel : nat) (obj : ptr) : St LISP unit :=
  match fuel with
  | O => fail FFuel
  | S fuel =>
      v ← valof obj;
      match v with
      | TCELL _ _ =>
          write "(";;
          print_cells (print fuel) fuel obj;;
          write ")"
      | TINT n => lisp_printf (pretty n)
      | TSYMBOL s => lisp_printf s
      | TPRIMITIVE _ => lisp_printf "<primitive>"
      | TFUNCTION _ _ _ => lisp_printf "<function>"
      | TMACRO _ _ _ => lisp_printf "<macro>"
      | TMOVED _ => lisp_printf "<moved>"
      | TCONST CTrue _ _ => lisp_printf "t"
      | TCONST CNil _ _ => lisp_printf "()"
      | TCONST CDot _ _ | TCONST CCparen _ _ | TENV _ _ => error
      end
  end.
