(* ===== verification/LispEval.v ===== *)
(** * The evaluator and the primitives of the Lisp interpreter (kernel/minilisp.c)

    Recursion and loops run on fuel: [eval (S fuel)] gives [fuel] to its parts. *)

From stdpp Require Import strings pretty.
From S2P Require Import Prelude LispHeap LispObjects LispReader.

(** ** Environments *)

Definition add_variable (env sym val : slot) : St LISP unit :=
  DEFINE2 (fun vars_ tmp =>
    e ← get env;
    v ← vars e;
    put vars_ v;;
    t ← acons sym val vars_;
    put tmp t;;
    e ← get env;
    t ← get tmp;
    set_vars e t).

(** [for (; ( *vars )->type == TCELL; ...)] *)
Fixpoint push_loop (fuel : nat) (vars vals map sym val : slot) : St LISP unit :=
  p ← get vars;
  v ← valof p;
  if is_cell v then
    match fuel with
    | O => fail FFuel
    | S fuel =>
        q ← get vals;
        w ← valof q;
        if negb (is_cell w) then error else
        p ← get vars;
        a ← car p;
        put sym a;;
        q ← get vals;
        b ← car q;
        put val b;;
        m ← acons sym val map;
        put map m;;
        p ← get vars;
        p ← cdr p;
        put vars p;;
        q ← get vals;
        q ← cdr q;
        put vals q;;
        push_loop fuel vars vals map sym val
    end
  else mret tt.

Definition push_env (fuel : nat) (env vars vals : slot) : St LISP ptr :=
  DEFINE3 (fun map sym val =>
    put map Nil;;
    push_loop fuel vars vals map sym val;;
    p ← get vars;
    (if negb (p =? Nil) then m ← acons vars vals map; put map m else mret tt);;
    make_env map env).

(** The inner loop of [find]. *)
Fixpoint find_cell (fuel : nat) (cell sym : ptr) : St LISP ptr :=
  if cell =? Nil then mret NULL else
  match fuel with
  | O => fail FFuel
  | S fuel =>
      bind ← car cell;
      a ← car bind;
      if sym =? a then mret bind else next ← cdr cell; find_cell fuel next sym
  end.

Fixpoint find_loop (fuel : nat) (p sym : ptr) : St LISP ptr :=
  if p =? Nil then mret NULL else
  match fuel with
  | O => fail FFuel
  | S fuel' =>
      cell ← vars p;
      bind ← find_cell fuel cell sym;
      if negb (bind =? NULL) then mret bind else next ← up p; find_loop fuel' next sym
  end.
Definition find (fuel : nat) (env : slot) (sym : ptr) : St LISP ptr :=
  p ← get env; find_loop fuel p sym.

Section eval.
Context (eval : slot -> slot -> St LISP ptr) (fuel : nat).

(** ** Application *)

(** [for ( *lp = *list; *lp != Nil; *lp = ( *lp )->cdr)] *)
Fixpoint progn_loop (fuel : nat) (env lp r : slot) : St LISP unit :=
  p ← get lp;
  if p =? Nil then mret tt else
  match fuel with
  | O => fail FFuel
  | S fuel =>
      p ← get lp;
      a ← car p;
      put r a;;
      v ← eval env r;
      put r v;;
      p ← get lp;
      p ← cdr p;
      put lp p;;
      progn_loop fuel env lp r
  end.
Definition progn (env list : slot) : St LISP ptr :=
  DEFINE2 (fun lp r =>
    p ← get list;
    put lp p;;
    progn_loop fuel env lp r;;
    get r).

Fixpoint eval_loop (fuel : nat) (env head lp expr result : slot) : St LISP unit :=
  p ← get lp;
  if p =? Nil then mret tt else
  match fuel with
  | O => fail FFuel
  | S fuel =>
      p ← get lp;
      a ← car p;
      put expr a;;
      v ← eval env expr;
      put result v;;
      c ← cons result head;
      put head c;;
      p ← get lp;
      p ← cdr p;
      put lp p;;
      eval_loop fuel env head lp expr result
  end.
(** [lp = list]: the loop moves the slot of the caller, not the one declared for it. *)
Definition eval_list (env list : slot) : St LISP ptr :=
  DEFINE4 (fun head lp expr result =>
    put head Nil;;
    let lp := list in
    eval_loop fuel env head lp expr result;;
    h ← get head;
    reverse fuel h).

Definition apply_func (env fn args : slot) : St LISP ptr :=
  DEFINE3 (fun params_ newenv body_ =>
    f ← get fn;
    p ← params f;
    put params_ p;;
    f ← get fn;
    e ← env_of f;
    put newenv e;;
    e ← push_env fuel newenv params_ args;
    put newenv e;;
    f ← get fn;
    b ← body f;
    put body_ b;;
    progn newenv body_).

Definition macroexpand (env obj : slot) : St LISP ptr :=
  o ← get obj;
  v ← valof o;
  if negb (is_cell v) then mret o else
  a ← car o;
  v ← valof a;
  if negb (is_symbol v) then mret o else
  DEFINE3 (fun bind macro args =>
    a ← car o;
    b ← find fuel env a;
    put bind b;;
    not_macro ← (if b =? NULL then mret true else d ← cdr b; v ← valof d; mret (negb (is_macro v)));
    if (not_macro : bool) then get obj else
    b ← get bind;
    m ← cdr b;
    put macro m;;
    o ← get obj;
    d ← cdr o;
    put args d;;
    apply_func env macro args).

(** ** Primitives *)

Definition do_quote (env list : slot) : St LISP ptr :=
  l ← get list;
  n ← list_length fuel l;
  if negb (n =? 1) then error else
  car l.

Definition do_cons (env list : slot) : St LISP ptr :=
  l ← get list;
  n ← list_length fuel l;
  if negb (n =? 2) then error else
  cell ← eval_list env list;
  d ← cdr cell;
  a ← car d;
  set_cdr cell a;;
  mret cell.

(** [if (args->car->type != TCELL || args->cdr != Nil) error( ... )] *)
Definition one_cell (args : ptr) : St LISP ptr :=
  a ← car args;
  v ← valof a;
  if negb (is_cell v) then error else
  d ← cdr args;
  if negb (d =? Nil) then error else
  mret a.

Definition do_car (env list : slot) : St LISP ptr :=
  args ← eval_list env list;
  a ← one_cell args;
  car a.

Definition do_cdr (env list : slot) : St LISP ptr :=
  args ← eval_list env list;
  a ← one_cell args;
  cdr a.

(** [length( *list ) != 2 || ( *list )->car->type != TSYMBOL]; the symbol. *)
Definition symbol_and_expr (l : ptr) : St LISP ptr :=
  n ← list_length fuel l;
  if negb (n =? 2) then error else
  a ← car l;
  v ← valof a;
  if negb (is_symbol v) then error else mret a.

Definition do_setq (env list : slot) : St LISP ptr :=
  l ← get list;
  sym ← symbol_and_expr l;
  DEFINE2 (fun bind value_ =>
    b ← find fuel env sym;
    put bind b;;
    if b =? NULL then error else
    l ← get list;
    d ← cdr l;
    e ← car d;
    put value_ e;;
    v ← eval env value_;
    put value_ v;;
    b ← get bind;
    v ← get value_;
    set_cdr b v;;
    get value_).

Definition do_setcar (env list : slot) : St LISP ptr :=
  DEFINE1 (fun args =>
    l ← eval_list env list;
    put args l;;
    l ← get args;
    n ← list_length fuel l;
    if negb (n =? 2) then error else
    a ← car l;
    v ← valof a;
    if negb (is_cell v) then error else
    d ← cdr l;
    b ← car d;
    set_car a b;;
    car l).

(** [while (eval(root, env, cond) != Nil)] *)
Fixpoint while_loop (fuel : nat) (env list cond exprs : slot) : St LISP unit :=
  match fuel with
  | O => fail FFuel
  | S fuel =>
      v ← eval env cond;
      if v =? Nil then mret tt else
      l ← get list;
      d ← cdr l;
      put exprs d;;
      eval_list env exprs;;
      while_loop fuel env list cond exprs
  end.
Definition do_while (env list : slot) : St LISP ptr :=
  l ← get list;
  n ← list_length fuel l;
  if n <? 2 then error else
  DEFINE2 (fun cond exprs =>
    l ← get list;
    a ← car l;
    put cond a;;
    while_loop fuel env list cond exprs;;
    mret Nil).

(** [char buf\[10\]] *)
Definition do_gensym (env list : slot) : St LISP ptr :=
  n ← gets (fun s => GensymCount (World s));
  set_World (fun w => mkWorld (Input w) (Output w) (Slept w) (int32 (n + 1)));;
  make_symbol (String.substring 0 9 ("G__" +:+ pretty n)).

Fixpoint plus_loop (fuel : nat) (args : ptr) (sum : Z) : St LISP Z :=
  if args =? Nil then mret sum else
  match fuel with
  | O => fail FFuel
  | S fuel =>
      a ← car args;
      v ← valof a;
      if negb (is_int v) then error else
      n ← number a;
      next ← cdr args;
      plus_loop fuel next (int32 (sum + n))
  end.
Definition do_plus (env list : slot) : St LISP ptr :=
  args ← eval_list env list;
  sum ← plus_loop fuel args 0;
  make_int sum.

Fixpoint ints_loop (fuel : nat) (p : ptr) : St LISP unit :=
  if p =? Nil then mret tt else
  match fuel with
  | O => fail FFuel
  | S fuel =>
      a ← car p;
      v ← valof a;
      if negb (is_int v) then error else
      next ← cdr p;
      ints_loop fuel next
  end.
Fixpoint minus_loop (fuel : nat) (p : ptr) (r : Z) : St LISP Z :=
  if p =? Nil then mret r else
  match fuel with
  | O => fail FFuel
  | S fuel =>
      a ← car p;
      n ← number a;
      next ← cdr p;
      minus_loop fuel next (int32 (r - n))
  end.
Definition do_minus (env list : slot) : St LISP ptr :=
  args ← eval_list env list;
  ints_loop fuel args;;
  d ← cdr args;
  if d =? Nil then
    a ← car args;
    n ← number a;
    make_int (int32 (- n))
  else
    a ← car args;
    n ← number a;
    next ← cdr args;
    r ← minus_loop fuel next n;
    make_int r.

(** The two numbers in a list of two. *)
Definition two_ints (args : ptr) : St LISP (Z * Z) :=
  x ← car args;
  d ← cdr args;
  y ← car d;
  v ← valof x;
  if negb (is_int v) then error else
  w ← valof y;
  if negb (is_int w) then error else
  m ← number x;
  n ← number y;
  mret (m, n).

Definition do_lt (env list : slot) : St LISP ptr :=
  args ← eval_list env list;
  n ← list_length fuel args;
  if negb (n =? 2) then error else
  xy ← two_ints args;
  mret (if fst xy <? snd xy then True_ else Nil).

(** [for (; p->type == TCELL; p = p->cdr)], and the test of the rest *)
Fixpoint params_loop (fuel : nat) (p : ptr) : St LISP unit :=
  v ← valof p;
  if is_cell v then
    match fuel with
    | O => fail FFuel
    | S fuel =>
        a ← car p;
        w ← valof a;
        if negb (is_symbol w) then error else
        next ← cdr p;
        params_loop fuel next
    end
  else if negb (p =? Nil) && negb (is_symbol v) then error
  else mret tt.

Definition handle_function (env list : slot) (type : function_type) : St LISP ptr :=
  l ← get list;
  v ← valof l;
  if negb (is_cell v) then error else
  a ← car l;
  b ← is_list a;
  if negb b then error else
  d ← cdr l;
  w ← valof d;
  if negb (is_cell w) then error else
  p ← car l;
  params_loop fuel p;;
  DEFINE2 (fun params_ body_ =>
    l ← get list;
    a ← car l;
    put params_ a;;
    l ← get list;
    d ← cdr l;
    put body_ d;;
    make_function env type params_ body_).

Definition do_lambda (env list : slot) : St LISP ptr := handle_function env list Function.

Definition handle_defun (env list : slot) (type : function_type) : St LISP ptr :=
  l ← get list;
  a ← car l;
  v ← valof a;
  if negb (is_symbol v) then error else
  d ← cdr l;
  w ← valof d;
  if negb (is_cell w) then error else
  DEFINE3 (fun fn sym rest =>
    l ← get list;
    a ← car l;
    put sym a;;
    d ← cdr l;
    put rest d;;
    f ← handle_function env rest type;
    put fn f;;
    add_variable env sym fn;;
    get fn).

Definition do_defun (env list : slot) : St LISP ptr := handle_defun env list Function.
Definition do_defmacro (env list : slot) : St LISP ptr := handle_defun env list Macro.

Definition do_define (env list : slot) : St LISP ptr :=
  l ← get list;
  symbol_and_expr l;;
  DEFINE2 (fun sym value_ =>
    l ← get list;
    a ← car l;
    put sym a;;
    d ← cdr l;
    e ← car d;
    put value_ e;;
    v ← eval env value_;
    put value_ v;;
    add_variable env sym value_;;
    get value_).

Definition do_macroexpand (env list : slot) : St LISP ptr :=
  l ← get list;
  n ← list_length fuel l;
  if negb (n =? 1) then error else
  DEFINE1 (fun body_ =>
    l ← get list;
    a ← car l;
    put body_ a;;
    macroexpand env body_).

Definition do_println (env list : slot) : St LISP ptr :=
  DEFINE1 (fun tmp =>
    l ← get list;
    a ← car l;
    put tmp a;;
    v ← eval env tmp;
    print fuel v;;
    write newline;;
    mret Nil).

Definition do_panic (env list : slot) : St LISP ptr :=
  DEFINE1 (fun tmp =>
    l ← get list;
    a ← car l;
    put tmp a;;
    v ← eval env tmp;
    print fuel v;;
    write newline;;
    error).

(** [Sleep] takes a [COUNT]. *)
Definition do_sleep (env list : slot) : St LISP ptr :=
  DEFINE1 (fun sleep =>
    l ← get list;
    a ← car l;
    put sleep a;;
    v ← eval env sleep;
    put sleep v;;
    v ← get sleep;
    w ← valof v;
    if negb (is_int w) then error else
    n ← number v;
    set_World (fun w => mkWorld (Input w) (Output w) (Slept w ++ [w64 n]) (GensymCount w));;
    mret Nil).

Definition do_if (env list : slot) : St LISP ptr :=
  l ← get list;
  n ← list_length fuel l;
  if n <? 2 then error else
  DEFINE3 (fun cond then_ els =>
    l ← get list;
    a ← car l;
    put cond a;;
    v ← eval env cond;
    put cond v;;
    c ← get cond;
    if negb (c =? Nil) then
      l ← get list;
      d ← cdr l;
      a ← car d;
      put then_ a;;
      eval env then_
    else
      l ← get list;
      d ← cdr l;
      d ← cdr d;
      put els d;;
      e ← get els;
      if e =? Nil then mret Nil else progn env els).

Definition do_num_eq (env list : slot) : St LISP ptr :=
  l ← get list;
  n ← list_length fuel l;
  if negb (n =? 2) then error else
  values ← eval_list env list;
  xy ← two_ints values;
  mret (if fst xy =? snd xy then True_ else Nil).

Definition do_eq (env list : slot) : St LISP ptr :=
  l ← get list;
  n ← list_length fuel l;
  if negb (n =? 2) then error else
  values ← eval_list env list;
  a ← car values;
  d ← cdr values;
  b ← car d;
  mret (if a =? b then True_ else Nil).

(** The call through [fn]. *)
Definition call (fn : PRIMITIVE) : slot -> slot -> St LISP ptr :=
  match fn with
  | prim_quote => do_quote
  | prim_cons => do_cons
  | prim_car => do_car
  | prim_cdr => do_cdr
  | prim_setq => do_setq
  | prim_setcar => do_setcar
  | prim_while => do_while
  | prim_gensym => do_gensym
  | prim_plus => do_plus
  | prim_minus => do_minus
  | prim_lt => do_lt
  | prim_define => do_define
  | prim_defun => do_defun
  | prim_defmacro => do_defmacro
  | prim_macroexpand => do_macroexpand
  | prim_lambda => do_lambda
  | prim_if => do_if
  | prim_num_eq => do_num_eq
  | prim_eq => do_eq
  | prim_println => do_println
  | prim_panic => do_panic
  | prim_sleep => do_sleep
  end.

Definition apply (env fn args : slot) : St LISP ptr :=
  a ← get args;
  b ← is_list a;
  if negb b then error else
  f ← get fn;
  v ← valof f;
  match v with
  | TPRIMITIVE p => call p env args
  | TFUNCTION _ _ _ =>
      DEFINE1 (fun eargs =>
        l ← eval_list env args;
        put eargs l;;
        apply_func env fn eargs)
  | _ => error
  end.

Definition eval_body (env obj : slot) : St LISP ptr :=
  o ← get obj;
  v ← valof o;
  match v with
  | TINT _ | TPRIMITIVE _ | TFUNCTION _ _ _ | TCONST CTrue _ _ | TCONST CNil _ _ => mret o
  | TSYMBOL _ =>
      bind ← find fuel env o;
      if bind =? NULL then error else cdr bind
  | TCELL _ _ =>
      DEFINE3 (fun fn expanded args =>
        e ← macroexpand env obj;
        put expanded e;;
        o ← get obj;
        if negb (e =? o) then eval env expanded else
        a ← car o;
        put fn a;;
        f ← eval env fn;
        put fn f;;
        o ← get obj;
        d ← cdr o;
        put args d;;
        f ← get fn;
        v ← valof f;
        match v with
        | TPRIMITIVE _ | TFUNCTION _ _ _ => apply env fn args
        | _ => error
        end)
  | TMACRO _ _ _ | TENV _ _ | TMOVED _ | TCONST CDot _ _ | TCONST CCparen _ _ => error
  end.
End eval.

Fixpoint eval (fuel : nat) (env obj : slot) : St LISP ptr :=
  match fuel with
  | O => fail FFuel
  | S fuel => eval_body (eval fuel) fuel env obj
  end.

(** ** The start and the main loop *)

Definition add_primitive (fuel : nat) (env : slot) (name_ : string) (fn : PRIMITIVE) : St LISP unit :=
  DEFINE2 (fun sym prim =>
    s ← intern fuel name_;
    put sym s;;
    p ← make_primitive fn;
    put prim p;;
    add_variable env sym prim).

Definition define_constants (fuel : nat) (env : slot) : St LISP unit :=
  DEFINE1 (fun sym =>
    s ← intern fuel "t";
    put sym s;;
    add_variable env sym TrueVar).

Definition primitives : list (string * PRIMITIVE) :=
  [("quote", prim_quote); ("cons", prim_cons); ("car", prim_car); ("cdr", prim_cdr); ("setq", prim_setq);
   ("setcar", prim_setcar); ("while", prim_while); ("gensym", prim_gensym); ("+", prim_plus); ("-", prim_minus);
   ("<", prim_lt); ("define", prim_define); ("defun", prim_defun); ("defmacro", prim_defmacro);
   ("macroexpand", prim_macroexpand); ("lambda", prim_lambda); ("if", prim_if); ("=", prim_num_eq); ("eq", prim_eq);
   ("println", prim_println); ("panic", prim_panic); ("sleep", prim_sleep)]%string.

Fixpoint add_primitives (fuel : nat) (env : slot) (l : list (string * PRIMITIVE)) : St LISP unit :=
  match l with
  | [] => mret tt
  | (name_, fn) :: l => add_primitive fuel env name_ fn;; add_primitives fuel env l
  end.
Definition define_primitives (fuel : nat) (env : slot) : St LISP unit := add_primitives fuel env primitives.

(** The fields that the function does not set keep their value. *)
Definition lisp_init (heap1 heap2 : ptr) (heap_size : Z) (debug_gc always_gc : bool) (b : ALLOC_BLOCK) : ALLOC_BLOCK :=
  mkBlock heap1 (from_space b) 0 heap1 heap2 heap_size (gc_running b) debug_gc always_gc (Symbols b).

(** [for (;;)] in [lisp_repl_main] *)
Fixpoint repl (fuel : nat) (env expr : slot) : St LISP unit :=
  match fuel with
  | O => fail FFuel
  | S fuel =>
      e ← read_expr fuel;
      put expr e;;
      if e =? NULL then mret tt
      else if e =? Cparen then error
      else if e =? Dot then error
      else
        v ← eval fuel env expr;
        print fuel v;;
        write newline;;
        repl fuel env expr
  end.

Definition lisp_repl_main (fuel : nat) : St LISP unit :=
  set_Block (with_Symbols Nil);;
  DEFINE2 (fun env expr =>
    e ← make_env NilVar NilVar;
    put env e;;
    define_constants fuel env;;
    define_primitives fuel env;;
    repl fuel env expr).
