(* ===== verification/LispSame.v ===== *)
(** * The interpreter runs alike on related states (proofs over LispReader and LispEval)

    One lemma per function of the interpreter: started on related states, with the same
    slots and with related pointers, it returns related results. *)

From stdpp Require Import strings pretty.
From S2P Require Import Prelude LispHeap LispGc LispAlloc LispObjects LispRel LispReader LispEval.

(** ** Automation *)

Create HintDb lisp discriminated.
#[export] Hint Constants Opaque : lisp.

#[export] Hint Resolve get_keeps put_keeps valof_keeps car_keeps cdr_keeps vars_keeps up_keeps params_keeps body_keeps
  env_of_keeps name_keeps number_keeps set_car_keeps set_cdr_keeps set_vars_keeps set_World_keeps gets_World_keeps
  write_keeps lisp_printf_keeps : lisp.

Lemma free_push G i : free (push G) (Slot (depth G) i).
Proof. split; simpl; [lia|]. intros [_ ?]. lia. Qed.
Lemma free_param G x : free G x -> free (push G) x.
Proof. destruct x as [d i| | |]; try done. intros [Hd Hh]. split; simpl; [lia|]. by intros [? _]. Qed.
Lemma free_hold G d i j : free G (Slot d j) -> i <> j -> free (hold d i G) (Slot d j).
Proof. intros [Hd Hh] Hne. split; [done|]. simpl. naive_solver. Qed.

(** A slot of the own frame, after an object was stored there. *)
Lemma get_own G beta i : agrees (hold (depth G) i (push G)) beta (get (Slot (depth G) i)) (get (Slot (depth G) i)) (fun beta p q => beta p q).
Proof. eapply keeps_agrees; [apply get_held; [by right|simpl; lia]|done]. Qed.

#[export] Hint Resolve free_push free_param free_hold : lisp.
#[export] Hint Extern 1 (free _ SymbolsVar) => exact I : lisp.
#[export] Hint Extern 1 (prel _ _ _) => first [assumption | apply prel_low; reflexivity | right; assumption] : lisp.
#[export] Hint Extern 1 (no_dots_added _) => exact (fun w H => H) : lisp.
#[export] Hint Extern 1 (_ <> _ :> nat) => discriminate : lisp.

(** What a step returns, as hypotheses; an object with a member that is not [NULL], and a
    cell, are in the heap. *)
Ltac lisp_facts :=
  unfold member_of in *; destruct_and?; subst;
  repeat match goal with
    | H : _ \/ (_ < _ /\ _ = _ /\ ?a = NULL), Hn : ?a <> NULL |- _ => destruct H as [H|(_ & _ & H)]; [|by destruct (Hn H)]
    | H : _ \/ (_ < _ /\ _ = _ /\ exists c, ?v = TCONST c NULL NULL), E : negb (is_cell ?v) = false |- _ =>
        destruct H as [H|(_ & _ & ? & ->)]; [|done]
    end.

(** The second of two conditions that are equal in related runs. *)
Ltac lisp_cond :=
  lazymatch goal with
  | |- ?c = ?c => reflexivity
  | |- negb _ = negb _ => f_equal; lisp_cond
  | |- _ && _ = _ && _ => f_equal; lisp_cond
  | |- _ || _ = _ || _ => f_equal; lisp_cond
  | |- (_ =? _) = (_ =? _) => solve [symmetry; eapply prel_eqb; [eassumption|eauto with lisp|eauto with lisp]]
  | |- is_cell _ = is_cell _ => symmetry; eapply vrel_is_cell; eassumption
  | |- is_symbol _ = is_symbol _ => symmetry; eapply vrel_is_symbol; eassumption
  | |- is_int _ = is_int _ => symmetry; eapply vrel_is_int; eassumption
  | |- is_macro _ = is_macro _ => symmetry; eapply vrel_is_macro; eassumption
  end.

Ltac lisp_if c c' :=
  first [constr_eq c c' | replace c' with c by (symmetry; lisp_cond)];
  let E := fresh "E" in destruct c eqn:E.

(** One step of two related runs. *)
Ltac lisp_step :=
  lazymatch goal with
  | |- keeps _ _ (fail _) (fail _) _ => apply keeps_fail
  | |- keeps _ _ error error _ => apply keeps_fail
  | |- agrees _ _ (fail _) (fail _) _ => apply agrees_fail
  | |- agrees _ _ error error _ => apply agrees_fail
  | |- keeps _ _ (mret _) (mret _) _ => apply keeps_ret
  | |- agrees _ _ (mret _) (mret _) _ => apply agrees_ret
  | |- keeps _ _ (if ?c then _ else _) (if ?c' then _ else _) _ => lisp_if c c'
  | |- agrees _ _ (if ?c then _ else _) (if ?c' then _ else _) _ => lisp_if c c'
  | |- (if ?c then _ else _) = (if ?c' then _ else _) => lisp_if c c'
  | |- prel _ (if ?c then _ else _) (if ?c' then _ else _) => lisp_if c c'
  | |- agrees _ _ (DEFINE1 _) (DEFINE1 _) _ => apply ADD_ROOT_agrees
  | |- agrees _ _ (DEFINE2 _) (DEFINE2 _) _ => apply ADD_ROOT_agrees
  | |- agrees _ _ (DEFINE3 _) (DEFINE3 _) _ => apply ADD_ROOT_agrees
  | |- agrees _ _ (DEFINE4 _) (DEFINE4 _) _ => apply ADD_ROOT_agrees
  | |- agrees (hold ?d ?i _) _ (get (Slot ?d ?i) ≫= _) _ _ =>
      eapply agrees_keeps; [apply get_held; [by right|simpl; lia]|cbv beta; intros]
  | |- agrees _ _ ((if ?c then _ else _) ≫= _) ((if ?c' then _ else _) ≫= _) _ => lisp_if c c'
  | |- agrees _ _ ((_ ≫= _) ≫= _) ((_ ≫= _) ≫= _) _ => apply agrees_assoc
  | |- keeps _ _ (mret _ ≫= _) (mret _ ≫= _) _ => apply keeps_ret_bind
  | |- agrees _ _ (mret _ ≫= _) (mret _ ≫= _) _ => apply agrees_ret_bind
  | |- keeps _ _ (_ ≫= _) (_ ≫= _) _ =>
      eapply keeps_bind; [solve [eauto with lisp]|cbv beta; intros; lisp_facts]
  | |- agrees _ _ (_ ≫= _) (_ ≫= _) _ =>
      first [ eapply agrees_keeps; [solve [eauto with lisp]|cbv beta; intros; lisp_facts]
            | eapply agrees_bind; [solve [eauto with lisp]|cbv beta; intros; lisp_facts] ]
  | |- keeps _ _ _ _ _ => solve [eauto with lisp | eapply keeps_mono; [solve [eauto with lisp]|naive_solver]]
  | |- agrees _ _ _ _ _ =>
      first [ solve [eauto with lisp]
            | eapply agrees_mono; [solve [eauto with lisp]|cbv beta; intros; lisp_facts; eauto with lisp]
            | eapply keeps_agrees; [solve [eauto with lisp]|cbv beta; intros; lisp_facts; eauto with lisp] ]
  end.

Ltac lisp_run :=
  lazymatch goal with
  | |- keeps _ _ _ _ _ => apply keeps_bij; intros ?Hb
  | |- agrees _ _ _ _ _ => apply agrees_bij; intros ?Hb
  end;
  repeat (lisp_step; cbv beta); eauto with lisp.

(** ** Constructors *)

Abbreviation pointers := (fun (beta : pairing) (p q : ptr) => prel beta p q).
Abbreviation objects := (fun (beta : pairing) (p q : ptr) => beta p q).

Lemma alloc_scalar G beta v n : proper v -> members v = [] -> 0 <= n < 2 ^ 60 -> agrees G beta (alloc v n) (alloc v n) objects.
Proof. intros Hp Hm Hn. apply alloc_agrees; [done| |done]. rewrite Hm. intros p Hin. by apply elem_of_nil in Hin. Qed.

Lemma alloc_blank G beta v n : proper v -> Forall (fun p => p = NULL) (members v) -> 0 <= n < 2 ^ 60 -> agrees G beta (alloc v n) (alloc v n) objects.
Proof. intros Hp Hm Hn. apply alloc_agrees; [done| |done]. intros p Hin. by rewrite (proj1 (Forall_forall _ _) Hm p Hin). Qed.

Lemma make_int_agrees G beta n : agrees G beta (make_int n) (make_int n) objects.
Proof. unfold make_int. apply alloc_scalar; [exact I|reflexivity|lia]. Qed.
Lemma make_primitive_agrees G beta fn : agrees G beta (make_primitive fn) (make_primitive fn) objects.
Proof. unfold make_primitive. apply alloc_scalar; [exact I|reflexivity|lia]. Qed.
Lemma make_symbol_agrees G beta s : Z.of_nat (String.length s) < 2 ^ 59 -> agrees G beta (make_symbol s) (make_symbol s) objects.
Proof. intros Hs. unfold make_symbol. apply alloc_scalar; [exact I|reflexivity|lia]. Qed.

Lemma cell_agrees G beta : agrees G beta (alloc (TCELL NULL NULL) 16) (alloc (TCELL NULL NULL) 16) objects.
Proof. apply alloc_blank; [done| |lia]. by repeat constructor. Qed.
Lemma env_agrees G beta : agrees G beta (alloc (TENV NULL NULL) 16) (alloc (TENV NULL NULL) 16) objects.
Proof. apply alloc_blank; [done| |lia]. by repeat constructor. Qed.
Lemma function_agrees G beta type :
  agrees G beta (alloc (function_value type NULL NULL NULL) 24) (alloc (function_value type NULL NULL NULL) 24) objects.
Proof. apply alloc_blank; [by destruct type| |lia]. destruct type; by repeat constructor. Qed.

#[export] Hint Resolve make_int_agrees make_primitive_agrees make_symbol_agrees cell_agrees env_agrees function_agrees : lisp.

Lemma set_const_keeps G beta p q a b : beta p q -> vrel beta a b -> proper a ->
  keeps G beta (set_val p (fun _ => Some a)) (set_val q (fun _ => Some b)) (fun _ _ => True).
Proof. intros Hp Hv Ha. by apply set_val_keeps. Qed.

Lemma cons_agrees G beta x y : agrees G beta (cons x y) (cons x y) objects.
Proof. unfold cons. lisp_run. Qed.
#[export] Hint Resolve cons_agrees : lisp.

Lemma make_env_agrees G beta x y : agrees G beta (make_env x y) (make_env x y) objects.
Proof.
  unfold make_env. apply agrees_bij; intros Hb. do 3 lisp_step. eapply agrees_keeps; [by apply set_const_keeps|]. intros _ _ _. lisp_run.
Qed.
Lemma make_function_agrees G beta env type x y : agrees G beta (make_function env type x y) (make_function env type x y) objects.
Proof.
  unfold make_function. apply agrees_bij; intros Hb. do 4 lisp_step.
  eapply agrees_keeps; [apply set_const_keeps; [eassumption|destruct type; simpl; eauto|by destruct type]|]. intros _ _ _. lisp_run.
Qed.
Lemma acons_agrees G beta x y a : agrees G beta (acons x y a) (acons x y a) objects.
Proof. unfold acons. lisp_run. Qed.
#[export] Hint Resolve make_env_agrees make_function_agrees acons_agrees : lisp.

(** ** Lists *)

Lemma cdr_none p s : Mem (Heap s) !! p = None -> cdr p s = Err FNull.
Proof. intros N. unfold cdr, valof, deref, on_heap, load, mbind, st_bind. by rewrite N. Qed.

(** [set_cdr] on a static object leaves [NULL] without an object. *)
Lemma reverse_static fuel p ret1 ret2 (s1 s2 : LISP) :
  p < HEAP_BASE -> (forall q, q < HEAP_BASE -> Mem (Heap s1) !! q = statics NULL !! q /\ Mem (Heap s2) !! q = statics NULL !! q) ->
  exists e, (set_cdr p ret1;; reverse_loop fuel NULL p) s1 = Err e /\ (set_cdr p ret2;; reverse_loop fuel NULL p) s2 = Err e.
Proof.
  intros Hp Hs. destruct (Hs p Hp) as [E1 E2].
  assert (forall s ret, Mem (Heap s) !! p = statics NULL !! p -> Mem (Heap s) !! NULL = None ->
    (set_cdr p ret;; reverse_loop fuel NULL p) s =
      Err match statics NULL !! p with None => FNull | Some _ => if decide (p = NULL) then FNull else match fuel with O => FFuel | _ => FNull end end) as Hrun.
  { intros s ret E N. unfold set_cdr, set_val, deref, on_heap, load, store, modify, mbind, st_bind. rewrite E.
    destruct (statics NULL !! p) as [o|] eqn:Eo; [|done]. destruct (statics_vrel (fun _ _ => False) p o Hp Eo) as (Hne & _ & c & Hc).
    rewrite decide_False by done. cbv beta iota. rewrite Hc. cbn [Block Heap Roots World Mem].
    destruct fuel; [done|]. cbn [reverse_loop]. change (NULL =? Nil) with false. cbv iota. unfold mbind, st_bind.
    rewrite cdr_none; [done|]. cbn [Heap Mem]. by rewrite lookup_insert_ne. }
  eexists. split; apply Hrun; try done; by apply Hs.
Qed.

Lemma reverse_loop_keeps G beta fuel p q ret1 ret2 : prel beta p q -> prel beta ret1 ret2 ->
  ret1 = Nil \/ beta ret1 ret2 ->
  keeps G beta (reverse_loop fuel p ret1) (reverse_loop fuel q ret2) (fun a b => prel beta a b /\ (a = Nil \/ beta a b)).
Proof.
  revert p q ret1 ret2. induction fuel as [|fuel IH]; intros p q ret1 ret2 Hp Hr Hn; cbn [reverse_loop]; [lisp_run|].
  apply keeps_bij; intros Hb. lisp_step; [by apply keeps_ret|]. lisp_step.
  match goal with H : _ \/ _ |- _ => destruct H as [Hpq|(Hlow & -> & ->)] end.
  - lisp_step. apply IH; [done|by right..].
  - assert (NULL = a2) as <- by (by apply (prel_low_r beta)). intros s1 s2 [(l1 & l2 & Hs) _].
    destruct (reverse_static fuel q ret1 ret2 s1 s2 Hlow (sim_static _ _ _ _ _ Hs)) as (e & -> & ->). by left.
Qed.

Lemma reverse_keeps G beta fuel p q : prel beta p q -> keeps G beta (reverse fuel p) (reverse fuel q) (fun a b => prel beta a b /\ (a = Nil \/ beta a b)).
Proof. intros Hp. apply reverse_loop_keeps; [done|by apply prel_low|by left]. Qed.

Lemma length_loop_keeps G beta fuel p q n : prel beta p q -> keeps G beta (length_loop fuel p n) (length_loop fuel q n) eq.
Proof.
  revert p q n. induction fuel as [|fuel IH]; intros p q n Hp; cbn [length_loop]; lisp_run.
Qed.
Lemma list_length_keeps G beta fuel p q : prel beta p q -> keeps G beta (list_length fuel p) (list_length fuel q) eq.
Proof. apply length_loop_keeps. Qed.
Lemma is_list_keeps G beta p q : prel beta p q -> keeps G beta (is_list p) (is_list q) eq.
Proof. intros Hp. unfold is_list. lisp_run. by eapply vrel_is_cell. Qed.
#[export] Hint Resolve reverse_keeps list_length_keeps is_list_keeps : lisp.

Definition option_rel (beta : pairing) (x y : option ptr) : Prop :=
  match x, y with Some p, Some q => beta p q | None, None => True | _, _ => False end.

Lemma intern_find_keeps G beta fuel s p q : prel beta p q ->
  keeps G beta (intern_find fuel s p) (intern_find fuel s q) (option_rel beta).
Proof. revert p q. induction fuel as [|fuel IH]; intros p q Hp; cbn [intern_find]; lisp_run; done. Qed.

Lemma intern_agrees G beta fuel s : Z.of_nat (String.length s) < 2 ^ 59 -> agrees G beta (intern fuel s) (intern fuel s) objects.
Proof.
  intros Hs. unfold intern. apply agrees_bij; intros Hb. lisp_step. eapply agrees_keeps; [by apply intern_find_keeps|].
  intros [x|] [y|] Hf; try done; [lisp_run|]. apply ADD_ROOT_agrees. lisp_step.
  apply put_hold; [done|simpl; lia|]. do 2 lisp_step. apply get_own.
Qed.
#[export] Hint Resolve intern_agrees : lisp.

(** ** Environments *)

Lemma add_variable_agrees G beta env sym val :
  agrees G beta (add_variable env sym val) (add_variable env sym val) (fun _ _ _ => True).
Proof. unfold add_variable. lisp_run. Qed.
#[export] Hint Resolve add_variable_agrees : lisp.

Lemma push_loop_agrees G beta fuel vars vals map sym val :
  free G vars -> free G vals -> free G map -> free G sym -> free G val ->
  agrees G beta (push_loop fuel vars vals map sym val) (push_loop fuel vars vals map sym val) (fun _ _ _ => True).
Proof. revert beta. induction fuel as [|fuel IH]; intros beta F1 F2 F3 F4 F5; cbn [push_loop]; lisp_run. Qed.
#[export] Hint Resolve push_loop_agrees : lisp.

Lemma push_env_agrees G beta fuel env vars vals : free G vars -> free G vals ->
  agrees G beta (push_env fuel env vars vals) (push_env fuel env vars vals) objects.
Proof. intros F1 F2. unfold push_env. lisp_run. Qed.
#[export] Hint Resolve push_env_agrees : lisp.

(** What [find] returns is in the heap, unless it was asked for [NULL]. *)
Definition found (beta : pairing) (sym p q : ptr) : Prop := prel beta p q /\ (p = NULL \/ sym = NULL \/ beta p q).

Lemma find_cell_keeps G beta fuel p q x y : prel beta p q -> prel beta x y ->
  keeps G beta (find_cell fuel p x) (find_cell fuel q y) (found beta x).
Proof.
  revert p q. induction fuel as [|fuel IH]; intros p q Hp Hx; cbn [find_cell]; lisp_run; unfold found; eauto with lisp.
  split; [done|]. match goal with H : (_ =? _) = true |- _ => apply Z.eqb_eq in H as -> end. naive_solver.
Qed.

Lemma find_loop_keeps G beta fuel p q x y : prel beta p q -> prel beta x y ->
  keeps G beta (find_loop fuel p x) (find_loop fuel q y) (found beta x).
Proof.
  revert p q. induction fuel as [|fuel IH]; intros p q Hp Hx; cbn [find_loop]; apply keeps_bij; intros Hb.
  - repeat lisp_step. split; eauto with lisp.
  - lisp_step; [apply keeps_ret; split; eauto with lisp|]. lisp_step. eapply keeps_bind; [by apply find_cell_keeps|].
    cbv beta. intros r1 r2 Hf. pose proof Hf as [Hr _]. repeat lisp_step; done.
Qed.

Lemma find_keeps G beta fuel env x y : prel beta x y -> keeps G beta (find fuel env x) (find fuel env y) (found beta x).
Proof. intros Hx. eapply keeps_bind; [apply get_keeps|]. intros p q Hp. by apply find_loop_keeps. Qed.

(** ** The printer *)

Lemma print_cells_keeps G beta (pr : ptr -> St LISP unit) fuel p q :
  (forall p q, prel beta p q -> keeps G beta (pr p) (pr q) (fun _ _ => True)) -> prel beta p q ->
  keeps G beta (print_cells pr fuel p) (print_cells pr fuel q) (fun _ _ => True).
Proof. intros Hpr. revert p q. induction fuel as [|fuel IH]; intros p q Hp; cbn [print_cells]; lisp_run. Qed.

Lemma print_keeps G beta fuel p q : prel beta p q -> keeps G beta (print fuel p) (print fuel q) (fun _ _ => True).
Proof.
  revert p q. induction fuel as [|fuel IH]; intros p q Hp; cbn [print]; [lisp_run|].
  apply keeps_bij; intros Hb. lisp_step. destruct a1, a2; try done; cbn [vrel] in *; destruct_and?; subst; try apply lisp_printf_keeps.
  - lisp_step. eapply keeps_bind; [apply print_cells_keeps; [exact IH|done]|]. intros _ _ _. apply write_keeps.
  - lisp_run.
  - case_match; try apply lisp_printf_keeps; lisp_run.
Qed.
#[export] Hint Resolve print_keeps : lisp.

(** ** The reader *)

Lemma peek_keeps G beta : keeps G beta peek peek eq.
Proof.
  unfold peek. eapply keeps_bind; [apply (gets_World_keeps G beta id)|]. intros w _ <-. unfold id. case_match; lisp_run.
Qed.

Lemma schar_dot a : schar a = 46 -> a = Ascii.ascii_of_nat 46.
Proof.
  unfold schar. intros H. rewrite <- (Ascii.ascii_N_embedding a). pose proof (Ascii.N_ascii_bounded a).
  assert (Ascii.N_of_ascii a = 46%N) as -> by (destruct (Z.ltb_spec (Z.of_N (Ascii.N_of_ascii a)) 128); lia). done.
Qed.

Lemma get1char_keeps G beta : keeps G beta get1char get1char (fun c d => c = d /\ (undotted G -> c <> 46)).
Proof.
  intros s1 s2 Hs. pose proof Hs as [(l1 & l2 & H) [Hh Hdot]]. unfold get1char. rewrite !gets_bind, <- (sim_world _ _ _ _ _ H).
  destruct (Input (World s1)) as [|a i] eqn:Ei; [by left|]. split; [|split; [done|intros Hu]].
  - split; [|split; [done|]].
    + exists l1, l2. destruct H as [[] [] ? ? ? ? ? Hw ? ?]. constructor; try done; try by constructor. cbn [World]. by rewrite Hw.
    + cbn [World with_Input Input]. intros Hu. specialize (Hdot Hu). by apply Forall_cons in Hdot as [_ ?].
  - specialize (Hdot Hu). apply Forall_cons in Hdot as [Ha _]. intros Hc. by apply Ha, schar_dot.
Qed.
#[export] Hint Resolve peek_keeps get1char_keeps : lisp.

Lemma skip_line_keeps G beta fuel : keeps G beta (skip_line fuel) (skip_line fuel) (fun _ _ => True).
Proof. induction fuel as [|fuel IH]; cbn [skip_line]; lisp_run. Qed.

Lemma read_number_keeps G beta fuel n : keeps G beta (read_number fuel n) (read_number fuel n) eq.
Proof. revert n. induction fuel as [|fuel IH]; intros n; cbn [read_number]; lisp_run. Qed.
#[export] Hint Resolve skip_line_keeps read_number_keeps : lisp.

Lemma string_snoc_length s a : String.length (s +:+ String a EmptyString) = S (String.length s).
Proof. induction s as [|b s IH]; [done|]. change (S (String.length (s +:+ String a EmptyString)) = S (S (String.length s))). by rewrite IH. Qed.

Lemma symbol_loop_keeps G beta fuel buf len : Z.of_nat (String.length buf) = len -> len <= SYMBOL_MAX_LEN ->
  keeps G beta (symbol_loop fuel buf len) (symbol_loop fuel buf len) (fun s t => s = t /\ Z.of_nat (String.length s) <= SYMBOL_MAX_LEN).
Proof.
  revert buf len. induction fuel as [|fuel IH]; intros buf len Hl Hm; cbn [symbol_loop]; apply keeps_bij; intros Hb.
  - repeat lisp_step. split; [done|lia].
  - repeat lisp_step; try (split; [done|lia]). apply IH; [rewrite string_snoc_length; lia|]. match goal with H : (_ <=? _) = false |- _ => apply Z.leb_gt in H end. lia.
Qed.

Lemma cstr_length s : (String.length (cstr s) <= String.length s)%nat.
Proof. induction s as [|a s IH]; simpl; [lia|]. case_match; simpl; lia. Qed.

Lemma read_symbol_agrees G beta fuel c : agrees G beta (read_symbol fuel c) (read_symbol fuel c) objects.
Proof.
  unfold read_symbol. eapply agrees_keeps; [by apply symbol_loop_keeps|]. cbv beta. intros s t [<- Hs]. apply intern_agrees.
  pose proof (cstr_length s). unfold SYMBOL_MAX_LEN in Hs. lia.
Qed.

(** Expressions that can be read without a dot. *)
Abbreviation no_dot := (fun (beta : pairing) (p q : ptr) => prel beta p q /\ p <> Dot).

Lemma object_not_dot beta p q : bij beta -> beta p q -> p <> Dot.
Proof. intros Hb Hp ->. by destruct (bij_high _ Hb _ _ Hp). Qed.
Lemma nil_or_object_not_dot beta p q : bij beta -> p = Nil \/ beta p q -> p <> Dot.
Proof. intros Hb [->|Hp]; [done|by eapply object_not_dot]. Qed.
#[export] Hint Resolve read_symbol_agrees object_not_dot nil_or_object_not_dot : lisp.
#[export] Hint Extern 1 (_ <> Dot) => discriminate : lisp.

Section read.
Context (rd : St LISP ptr) (Hrd : forall G beta, undotted G -> agrees G beta rd rd no_dot).
Hint Resolve Hrd : lisp.

Lemma list_loop_agrees G beta fuel obj head last : undotted G -> free G obj -> free G head ->
  agrees G beta (list_loop rd fuel obj head last) (list_loop rd fuel obj head last) no_dot.
Proof.
  intros Hu F1 F2. revert beta. induction fuel as [|fuel IH]; intros beta; cbn [list_loop]; [lisp_run|].
  apply agrees_bij; intros Hb. repeat lisp_step; [eauto with lisp..|]. by apply Z.eqb_eq in E1.
Qed.
Hint Resolve list_loop_agrees : lisp.

Lemma read_list_agrees G beta fuel : undotted G -> agrees G beta (read_list rd fuel) (read_list rd fuel) no_dot.
Proof. intros Hu. unfold read_list. lisp_run. Qed.

Lemma read_quote_agrees G beta fuel : undotted G -> agrees G beta (read_quote rd fuel) (read_quote rd fuel) no_dot.
Proof.
  intros Hu. unfold read_quote. assert (Z.of_nat (String.length "quote") < 2 ^ 59) by (simpl; lia).
  apply agrees_bij; intros Hb. do 8 lisp_step. apply put_hold; [done|simpl; lia|].
  eapply agrees_mono; [apply get_own|]. eauto with lisp.
Qed.
End read.

(** Nothing that was allocated is [Dot]. *)
Lemma read_expr_agrees G beta fuel : undotted G -> agrees G beta (read_expr fuel) (read_expr fuel) no_dot.
Proof.
  intros Hu. revert G beta Hu. induction fuel as [|fuel IH]; intros G beta Hu; cbn [read_expr]; [lisp_run|].
  apply agrees_bij; intros Hb. repeat lisp_step; eauto with lisp.
  - by apply read_list_agrees.
  - exfalso. apply H1; [done|lia].
  - by apply read_quote_agrees.
Qed.
