(* ===== verification/LispInvisible.v ===== *)
(** * The evaluator runs alike on related states: the collector cannot be observed *)

From stdpp Require Import strings pretty.
From S2P Require Import Prelude LispHeap LispGc LispAlloc LispObjects LispRel LispReader LispEval LispSame.

Section eval.
Context (ev : slot -> slot -> St LISP ptr) (Hev : forall G beta env obj, agrees G beta (ev env obj) (ev env obj) pointers).
Hint Resolve Hev : lisp.
Context (fuel : nat).

(** ** Application *)

Lemma progn_loop_agrees G beta n env lp r : free G lp -> free G r ->
  agrees G beta (progn_loop ev n env lp r) (progn_loop ev n env lp r) (fun _ _ _ => True).
Proof. intros F1 F2. revert beta. induction n as [|n IH]; intros beta; cbn [progn_loop]; lisp_run. Qed.
Hint Resolve progn_loop_agrees : lisp.

Lemma progn_agrees G beta env list : agrees G beta (progn ev fuel env list) (progn ev fuel env list) pointers.
Proof. unfold progn. lisp_run. Qed.

Lemma eval_loop_agrees G beta n env head lp expr result : free G head -> free G lp -> free G expr -> free G result ->
  agrees G beta (eval_loop ev n env head lp expr result) (eval_loop ev n env head lp expr result) (fun _ _ _ => True).
Proof. intros F1 F2 F3 F4. revert beta. induction n as [|n IH]; intros beta; cbn [eval_loop]; lisp_run. Qed.
Hint Resolve progn_agrees eval_loop_agrees : lisp.

Lemma eval_list_agrees G beta env list : free G list -> agrees G beta (eval_list ev fuel env list) (eval_list ev fuel env list) pointers.
Proof. intros F. unfold eval_list. cbv zeta. lisp_run. Qed.

Lemma apply_func_agrees G beta env fn args : free G args ->
  agrees G beta (apply_func ev fuel env fn args) (apply_func ev fuel env fn args) pointers.
Proof. intros F. unfold apply_func. lisp_run. Qed.
Hint Resolve eval_list_agrees apply_func_agrees : lisp.

Lemma find_pointer G beta env x y : prel beta x y -> keeps G beta (find fuel env x) (find fuel env y) (prel beta).
Proof. intros Hx. eapply keeps_mono; [by apply find_keeps|]. by intros a b []. Qed.
Hint Resolve find_pointer : lisp.

Lemma macroexpand_agrees G beta env obj : agrees G beta (macroexpand ev fuel env obj) (macroexpand ev fuel env obj) pointers.
Proof. unfold macroexpand. lisp_run. Qed.
Hint Resolve macroexpand_agrees : lisp.

(** ** Primitives *)

Lemma do_quote_agrees G beta env list : agrees G beta (do_quote fuel env list) (do_quote fuel env list) pointers.
Proof. unfold do_quote. lisp_run. Qed.

Lemma do_cons_agrees G beta env list : free G list -> agrees G beta (do_cons ev fuel env list) (do_cons ev fuel env list) pointers.
Proof. intros F. unfold do_cons. lisp_run. Qed.

Lemma one_cell_keeps G beta p q : prel beta p q -> keeps G beta (one_cell p) (one_cell q) (prel beta).
Proof. intros Hp. unfold one_cell. lisp_run. Qed.
Hint Resolve one_cell_keeps : lisp.

Lemma do_car_agrees G beta env list : free G list -> agrees G beta (do_car ev fuel env list) (do_car ev fuel env list) pointers.
Proof. intros F. unfold do_car. lisp_run. Qed.
Lemma do_cdr_agrees G beta env list : free G list -> agrees G beta (do_cdr ev fuel env list) (do_cdr ev fuel env list) pointers.
Proof. intros F. unfold do_cdr. lisp_run. Qed.

Lemma symbol_and_expr_keeps G beta p q : prel beta p q ->
  keeps G beta (symbol_and_expr fuel p) (symbol_and_expr fuel q) (fun a b => prel beta a b /\ a <> NULL).
Proof. intros Hp. unfold symbol_and_expr. lisp_run. Qed.
Hint Resolve symbol_and_expr_keeps : lisp.

Lemma do_setcar_agrees G beta env list : free G list -> agrees G beta (do_setcar ev fuel env list) (do_setcar ev fuel env list) pointers.
Proof. intros F. unfold do_setcar. lisp_run. Qed.

Lemma while_loop_agrees G beta n env list cond exprs : free G exprs ->
  agrees G beta (while_loop ev fuel n env list cond exprs) (while_loop ev fuel n env list cond exprs) (fun _ _ _ => True).
Proof. intros F. revert beta. induction n as [|n IH]; intros beta; cbn [while_loop]; lisp_run. Qed.
Hint Resolve while_loop_agrees : lisp.

Lemma do_while_agrees G beta env list : agrees G beta (do_while ev fuel env list) (do_while ev fuel env list) pointers.
Proof. unfold do_while. lisp_run. Qed.

Lemma plus_loop_keeps G beta n p q z : prel beta p q -> keeps G beta (plus_loop n p z) (plus_loop n q z) eq.
Proof. revert p q z. induction n as [|n IH]; intros p q z Hp; cbn [plus_loop]; lisp_run. Qed.
Lemma ints_loop_keeps G beta n p q : prel beta p q -> keeps G beta (ints_loop n p) (ints_loop n q) (fun _ _ => True).
Proof. revert p q. induction n as [|n IH]; intros p q Hp; cbn [ints_loop]; lisp_run. Qed.
Lemma minus_loop_keeps G beta n p q z : prel beta p q -> keeps G beta (minus_loop n p z) (minus_loop n q z) eq.
Proof. revert p q z. induction n as [|n IH]; intros p q z Hp; cbn [minus_loop]; lisp_run. Qed.
Lemma two_ints_keeps G beta p q : prel beta p q -> keeps G beta (two_ints p) (two_ints q) eq.
Proof. intros Hp. unfold two_ints. lisp_run. Qed.
Lemma params_loop_keeps G beta n p q : prel beta p q -> keeps G beta (params_loop n p) (params_loop n q) (fun _ _ => True).
Proof. revert p q. induction n as [|n IH]; intros p q Hp; cbn [params_loop]; lisp_run. Qed.
Hint Resolve plus_loop_keeps ints_loop_keeps minus_loop_keeps two_ints_keeps params_loop_keeps : lisp.

Lemma do_plus_agrees G beta env list : free G list -> agrees G beta (do_plus ev fuel env list) (do_plus ev fuel env list) pointers.
Proof. intros F. unfold do_plus. lisp_run. Qed.
Lemma do_minus_agrees G beta env list : free G list -> agrees G beta (do_minus ev fuel env list) (do_minus ev fuel env list) pointers.
Proof. intros F. unfold do_minus. lisp_run. Qed.
Lemma do_lt_agrees G beta env list : free G list -> agrees G beta (do_lt ev fuel env list) (do_lt ev fuel env list) pointers.
Proof. intros F. unfold do_lt. lisp_run. Qed.
Lemma do_num_eq_agrees G beta env list : free G list -> agrees G beta (do_num_eq ev fuel env list) (do_num_eq ev fuel env list) pointers.
Proof. intros F. unfold do_num_eq. lisp_run. Qed.
Lemma do_eq_agrees G beta env list : free G list -> agrees G beta (do_eq ev fuel env list) (do_eq ev fuel env list) pointers.
Proof. intros F. unfold do_eq. lisp_run. Qed.

Lemma handle_function_agrees G beta env list type :
  agrees G beta (handle_function fuel env list type) (handle_function fuel env list type) pointers.
Proof. unfold handle_function. lisp_run. Qed.
Hint Resolve handle_function_agrees : lisp.
Lemma handle_defun_agrees G beta env list type : agrees G beta (handle_defun fuel env list type) (handle_defun fuel env list type) pointers.
Proof. unfold handle_defun. lisp_run. Qed.

Lemma do_define_agrees G beta env list : agrees G beta (do_define ev fuel env list) (do_define ev fuel env list) pointers.
Proof. unfold do_define. lisp_run. Qed.
Lemma do_macroexpand_agrees G beta env list : agrees G beta (do_macroexpand ev fuel env list) (do_macroexpand ev fuel env list) pointers.
Proof. unfold do_macroexpand. lisp_run. Qed.
Lemma do_println_agrees G beta env list : agrees G beta (do_println ev fuel env list) (do_println ev fuel env list) pointers.
Proof. unfold do_println. lisp_run. Qed.
Lemma do_panic_agrees G beta env list : agrees G beta (do_panic ev fuel env list) (do_panic ev fuel env list) pointers.
Proof. unfold do_panic. lisp_run. Qed.
Lemma do_if_agrees G beta env list : agrees G beta (do_if ev fuel env list) (do_if ev fuel env list) pointers.
Proof. unfold do_if. lisp_run. Qed.

Lemma substring_length n m s : (String.length (String.substring n m s) <= m)%nat.
Proof.
  revert n m. induction s as [|a s IH]; intros [|n] [|m]; simpl; try lia; [specialize (IH 0%nat m)|specialize (IH n 0%nat)|specialize (IH n (S m))]; lia.
Qed.

Lemma do_gensym_agrees G beta env list : agrees G beta (do_gensym env list) (do_gensym env list) pointers.
Proof.
  unfold do_gensym. apply agrees_bij; intros Hb. eapply agrees_keeps; [apply (gets_World_keeps G beta GensymCount)|].
  cbv beta. intros n _ <-. eapply agrees_keeps; [apply set_World_keeps; by intros w|]. intros _ _ _.
  eapply agrees_mono; [apply make_symbol_agrees|intros; by right].
  pose proof (substring_length 0 9 ("G__" +:+ pretty n)). lia.
Qed.

Lemma do_sleep_agrees G beta env list : agrees G beta (do_sleep ev env list) (do_sleep ev env list) pointers.
Proof. unfold do_sleep. lisp_run. Qed.

(** The binding stays in the heap while the value is evaluated. *)
Lemma do_setq_agrees G beta env list : agrees G beta (do_setq ev fuel env list) (do_setq ev fuel env list) pointers.
Proof.
  unfold do_setq. apply agrees_bij; intros Hb. do 2 lisp_step. apply ADD_ROOT_agrees.
  eapply agrees_keeps; [by apply find_keeps|]. cbv beta. intros b1 b2 [Hp Hor].
  destruct (decide (b1 = NULL)) as [->|Hn].
  { assert (NULL = b2) as <- by (by apply (prel_low_r beta)). lisp_step. rewrite Z.eqb_refl. apply agrees_fail. }
  assert (beta b1 b2) as Hb12 by (destruct Hor as [?|[?|?]]; done).
  apply put_hold; [done|simpl; lia|]. repeat lisp_step.
Qed.

Hint Resolve do_quote_agrees do_cons_agrees do_car_agrees do_cdr_agrees do_setq_agrees do_setcar_agrees do_while_agrees
  do_gensym_agrees do_plus_agrees do_minus_agrees do_lt_agrees do_define_agrees do_macroexpand_agrees do_if_agrees
  do_num_eq_agrees do_eq_agrees do_println_agrees do_panic_agrees do_sleep_agrees : lisp.

Lemma call_agrees G beta fn env list : free G list -> agrees G beta (call ev fuel fn env list) (call ev fuel fn env list) pointers.
Proof.
  intros F. destruct fn; cbn [call]; auto with lisp; unfold do_defun, do_defmacro, do_lambda;
    [apply handle_defun_agrees|apply handle_defun_agrees|apply handle_function_agrees].
Qed.
Hint Resolve call_agrees : lisp.

(** ** Evaluation *)

(** The cases of the type of an object. *)
Ltac lisp_match :=
  match goal with
  | Hv : vrel _ ?v ?w |- agrees _ _ (match ?v with _ => _ end) _ _ =>
      destruct v, w; try done; cbn [vrel] in Hv; destruct_and?; subst;
      try match goal with |- agrees _ _ (match ?c with CTrue => _ | _ => _ end) _ _ => destruct c end
  end.

Lemma apply_agrees G beta env fn args : free G args -> agrees G beta (apply ev fuel env fn args) (apply ev fuel env fn args) pointers.
Proof. intros F. unfold apply. apply agrees_bij; intros Hb. repeat lisp_step; lisp_match; repeat lisp_step. Qed.
Hint Resolve apply_agrees : lisp.

Lemma eval_body_agrees G beta env obj : agrees G beta (eval_body ev fuel env obj) (eval_body ev fuel env obj) pointers.
Proof.
  unfold eval_body. apply agrees_bij; intros Hb. do 2 lisp_step. lisp_match; repeat lisp_step; try lisp_match; repeat lisp_step; eauto with lisp.
Qed.
End eval.

Lemma eval_agrees G beta fuel env obj : agrees G beta (eval fuel env obj) (eval fuel env obj) pointers.
Proof.
  revert G beta env obj. induction fuel as [|fuel IH]; intros G beta env obj; [apply agrees_fail|]. by apply eval_body_agrees.
Qed.
#[export] Hint Resolve eval_agrees read_expr_agrees : lisp.

(** ** The main loop *)

Lemma repl_agrees G beta fuel env expr : undotted G -> free G expr ->
  agrees G beta (repl fuel env expr) (repl fuel env expr) (fun _ _ _ => True).
Proof. intros Hu F. revert beta. induction fuel as [|fuel IH]; intros beta; cbn [repl]; lisp_run. Qed.

Lemma add_primitive_agrees G beta fuel env s fn : Z.of_nat (String.length s) < 2 ^ 59 ->
  agrees G beta (add_primitive fuel env s fn) (add_primitive fuel env s fn) (fun _ _ _ => True).
Proof. intros Hs. unfold add_primitive. lisp_run. Qed.

Lemma add_primitives_agrees G beta fuel env l : Forall (fun x => Z.of_nat (String.length x.1) < 2 ^ 59) l ->
  agrees G beta (add_primitives fuel env l) (add_primitives fuel env l) (fun _ _ _ => True).
Proof.
  intros Hl. revert beta. induction Hl as [|[s fn] l Hs Hl IH]; intros beta; cbn [add_primitives]; [by apply agrees_ret|].
  eapply agrees_bind; [by apply add_primitive_agrees|]. auto.
Qed.

Lemma define_primitives_agrees G beta fuel env :
  agrees G beta (define_primitives fuel env) (define_primitives fuel env) (fun _ _ _ => True).
Proof. apply add_primitives_agrees. repeat constructor; simpl; lia. Qed.
Lemma define_constants_agrees G beta fuel env :
  agrees G beta (define_constants fuel env) (define_constants fuel env) (fun _ _ _ => True).
Proof. unfold define_constants. assert (Z.of_nat (String.length "t") < 2 ^ 59) by (simpl; lia). lisp_run. Qed.
#[export] Hint Resolve repl_agrees define_primitives_agrees define_constants_agrees : lisp.

(** ** Whole runs *)

(** A freshly initialised interpreter: two disjoint heaps above the static objects. *)
Record fresh (s : LISP) (b : ALLOC_BLOCK) (heap1 heap2 size : Z) (always_gc : bool) (w : WORLD) : Prop := {
  fr_state : s = mkLisp (lisp_init heap1 heap2 size false always_gc b) (mkGc (statics NULL) NULL NULL) [] w;
  fr_idle : gc_running b = false;
  fr_size : 0 <= size < 2 ^ 62;
  fr_base : HEAP_BASE <= heap1 /\ HEAP_BASE <= heap2;
  fr_disjoint : heap1 + size <= heap2 \/ heap2 + size <= heap1
}.

Lemma fresh_ok s b heap1 heap2 size always_gc w : fresh s b heap1 heap2 size always_gc w ->
  lisp_ok (mkLisp (with_Symbols Nil (Block s)) (Heap s) (Roots s) (World s)) [].
Proof.
  intros [-> Hi Hs Hb Hd]. constructor; cbn [Block Heap Roots Mem lisp_init with_Symbols memory mem_nused memory_size cur_heap next_heap Symbols gc_running]; try done.
  - cbn [layout]. lia.
  - intros a Ha. by apply elem_of_nil in Ha.
  - by right.
  - intros f p Hf. by apply elem_of_nil in Hf.
  - by exists NULL.
Qed.

Lemma fresh_sim s1 s2 b1 b2 heap1 heap2 size1 heap1' heap2' size2 always1 always2 w :
  fresh s1 b1 heap1 heap2 size1 always1 w -> fresh s2 b2 heap1' heap2' size2 always2 w -> dotless (Input w) ->
  sim (mkCtx 0 (fun _ _ => False) True) (fun _ _ => False)
    (mkLisp (with_Symbols Nil (Block s1)) (Heap s1) (Roots s1) (World s1)) (mkLisp (with_Symbols Nil (Block s2)) (Heap s2) (Roots s2) (World s2)).
Proof.
  intros F1 F2 Hw. pose proof (fresh_ok _ _ _ _ _ _ _ F1) as O1. pose proof (fresh_ok _ _ _ _ _ _ _ F2) as O2.
  destruct F1 as [-> _ _ _ _], F2 as [-> _ _ _ _]. split; [exists [], []|split; [|done]].
  - constructor; try done. by apply prel_low.
  - split; [done|]. by intros d i p q [].
Qed.

Lemma lisp_repl_main_agrees s1 s2 fuel : 
  sim (mkCtx 0 (fun _ _ => False) True) (fun _ _ => False)
    (mkLisp (with_Symbols Nil (Block s1)) (Heap s1) (Roots s1) (World s1)) (mkLisp (with_Symbols Nil (Block s2)) (Heap s2) (Roots s2) (World s2)) ->
  out (fun _ _ s1' s2' => exists beta, sim (mkCtx 0 (fun _ _ => False) True) beta s1' s2') (lisp_repl_main fuel s1) (lisp_repl_main fuel s2).
Proof.
  intros Hs. unfold lisp_repl_main. rewrite !set_Block_bind.
  eapply out_mono; [|match goal with |- out _ (?m ?x) (?n ?y) =>
    enough (agrees (mkCtx 0 (fun _ _ => False) True) (fun _ _ => False) m n (fun _ _ _ => True)) as Ha by (apply Ha; exact Hs) end].
  - intros a1 a2 t1 t2 (beta & Ht & _). by exists beta.
  - lisp_run. by apply repl_agrees; [|apply free_push].
Qed.

(** Two runs end alike: both return, with the same terminal, sleeps and counters, or both
    fail in the same way; but either may run out of memory. *)
Definition alike (r1 r2 : res (unit * LISP)) : Prop :=
  match r1, r2 with
  | Ok (_, t1), Ok (_, t2) => World t1 = World t2
  | Ok _, Err e | Err e, Ok _ => e = FMemory
  | Err e1, Err e2 => e1 = e2 \/ e1 = FMemory \/ e2 = FMemory
  end.

(** C10: the collector cannot be observed. Two runs of the interpreter on the same input, with
    heaps of any sizes at any addresses, collecting at every allocation or only when memory
    is short, write the same bytes, sleep alike and end alike; only one of them may run out
    of memory. *)
Theorem collector_invisible fuel s1 s2 b1 b2 heap1 heap2 size1 heap1' heap2' size2 always1 always2 w :
  fresh s1 b1 heap1 heap2 size1 always1 w -> fresh s2 b2 heap1' heap2' size2 always2 w -> dotless (Input w) ->
  alike (lisp_repl_main fuel s1) (lisp_repl_main fuel s2).
Proof.
  intros F1 F2 Hw. pose proof (lisp_repl_main_agrees s1 s2 fuel (fresh_sim _ _ _ _ _ _ _ _ _ _ _ _ _ F1 F2 Hw)) as H.
  destruct (lisp_repl_main fuel s1) as [[? t1]|e1], (lisp_repl_main fuel s2) as [[? t2]|e2]; try done.
  destruct H as (beta & (l1 & l2 & Ht) & _). apply Ht.
Qed.

(** ** One run *)

(** Two states that differ only in the sizes and places of the heaps and in when they are
    collected. *)
Lemma sim_same (U : Prop) s1 s2 l : lisp_ok s1 l -> lisp_ok s2 l -> debug_gc (Block s1) = false -> debug_gc (Block s2) = false ->
  Heap s1 = Heap s2 -> Roots s1 = Roots s2 -> World s1 = World s2 -> Symbols (Block s1) = Symbols (Block s2) ->
  (forall p, p < HEAP_BASE -> Mem (Heap s1) !! p = statics NULL !! p) -> (U -> dotless (Input (World s1))) ->
  sim (mkCtx (length (Roots s1)) (fun _ _ => False) U) (fun p q => p = q /\ p ∈ l) s1 s2.
Proof.
  intros Hok Hok2 Hd Hd2 Hh Hr Hw Hs Hst Hu. assert (forall p, good l p -> prel (fun p q => p = q /\ p ∈ l) p p) as Hg by (intros p [Hp|Hp]; [by right|by left]).
  split; [exists l, l|split; [|done]].
  - constructor; try done.
    + constructor; [|naive_solver..]. intros p q [<- Hp]. destruct (layout_obj _ _ _ _ _ (lk_layout _ _ Hok) Hp) as (_ & ? & _).
      pose proof (lk_base _ _ Hok). lia.
    + naive_solver.
    + rewrite <- Hh. intros p q [<- Hp]. split; [done|]. destruct (lk_objects _ _ Hok p Hp) as [Hpr Hm].
      destruct (val (obj (Mem (Heap s1)) p)); cbn [vrel members proper] in *; try done; split_and!; apply Hg, Hm; set_solver.
    + rewrite <- Hs. apply Hg, Hok.
    + rewrite <- Hr. apply Forall2_same_length_lookup. split; [done|]. intros i f f' Hf Hf'. rewrite Hf in Hf'. injection Hf' as <-.
      apply Forall2_same_length_lookup. split; [done|]. intros j p p' Hp Hp'. rewrite Hp in Hp'. injection Hp' as <-.
      apply Hg, (lk_roots _ _ Hok f); by eapply list_elem_of_lookup_2.
    + rewrite <- Hh. auto.
  - split; [done|]. by intros d i p q [].
Qed.

Lemma sim_refl s l : lisp_ok s l -> debug_gc (Block s) = false ->
  (forall p, p < HEAP_BASE -> Mem (Heap s) !! p = statics NULL !! p) ->
  sim (mkCtx (length (Roots s)) (fun _ _ => False) False) (fun p q => p = q /\ p ∈ l) s s.
Proof. intros. by apply sim_same. Qed.

(** C13: evaluation is memory safe under the moving collector. Started with a well-formed
    heap, every evaluation that returns leaves a well-formed heap, no matter how often the
    collector moved the objects: all roots and members are valid, and the result is. *)
Theorem eval_safe fuel env obj s l p s' :
  lisp_ok s l -> debug_gc (Block s) = false -> (forall q, q < HEAP_BASE -> Mem (Heap s) !! q = statics NULL !! q) ->
  eval fuel env obj s = Ok (p, s') ->
  exists l', lisp_ok s' l' /\ good l' p /\ length (Roots s') = length (Roots s) /\
    (forall q, q < HEAP_BASE -> Mem (Heap s') !! q = statics NULL !! q).
Proof.
  intros Hok Hd Hst Hrun. pose proof (eval_agrees _ _ fuel env obj _ _ (sim_refl s l Hok Hd Hst)) as H. rewrite Hrun in H.
  destruct H as (beta & [(l1 & l2 & Ht) [[Hlen _] _]] & Hp). exists l1. split; [apply Ht|]. split; [by destruct (sim_good _ _ _ _ _ _ _ Ht Hp)|].
  split; [done|]. intros q Hq. by apply Ht.
Qed.
