(* ===== verification/LispRuns.v ===== *)
(** * Runs of the Lisp interpreter (examples over LispEval, and the instances of the theorems) *)

From stdpp Require Import strings pretty.
From S2P Require Import Prelude LispHeap LispGc LispAlloc LispObjects LispRel LispReader LispEval LispSame LispInvisible.

Definition no_block : ALLOC_BLOCK := mkBlock 0 0 0 0 0 0 false false false 0.
Definition end_of_input : string := String (Ascii.ascii_of_nat 255) EmptyString.

(** An interpreter with [input], and what a run leaves on the terminal. *)
Definition interpreter (heap1 heap2 size : Z) (always_gc : bool) (input : string) : LISP :=
  mkLisp (lisp_init heap1 heap2 size false always_gc no_block) (mkGc (statics NULL) NULL NULL) [] (mkWorld (input +:+ end_of_input) "" [] 0).

Definition output (fuel : nat) (s : LISP) : res string :=
  match lisp_repl_main fuel s with Ok (_, t) => Ok (Output (World t)) | Err e => Err e end.

Definition line (s : string) : string := s +:+ newline.

(** The sum of the numbers up to six, with a macro, an assignment and a list. *)
Definition program : string :=
  "(defun sum (n) (if (< n 2) n (+ n (sum (- n 1))))) (sum 6) (define x '(1 -2 (a))) (setcar x 'b) x ; the list" +:+ newline +:+
  "(defmacro twice (e) (cons '+ (cons e (cons e ())))) (twice (sum 3)) (eq 'x 'x)".

Definition roomy : LISP := interpreter 1000 100000 20000 false program.
Definition cramped : LISP := interpreter 70000 200 5000 true program.

Lemma interpreter_fresh heap1 heap2 size always_gc input :
  0 <= size < 2 ^ 62 -> HEAP_BASE <= heap1 -> HEAP_BASE <= heap2 -> heap1 + size <= heap2 \/ heap2 + size <= heap1 ->
  fresh (interpreter heap1 heap2 size always_gc input) no_block heap1 heap2 size always_gc (mkWorld (input +:+ end_of_input) "" [] 0).
Proof. by constructor. Qed.

(** One interpreter never collects, the other one moves all objects at every allocation. *)
Lemma collector_invisible_witness :
  alike (lisp_repl_main 200 roomy) (lisp_repl_main 200 cramped) /\
  output 200 cramped = Ok (line "<function>" +:+ line "21" +:+ line "(1 -2 (a))" +:+ line "(b -2 (a))" +:+ line "(b -2 (a))" +:+
    line "<macro>" +:+ line "12" +:+ line "t").
Proof.
  split; [|vm_compute; reflexivity].
  refine (collector_invisible 200 roomy cramped no_block no_block 1000 100000 20000 70000 200 5000 false true
    (mkWorld (program +:+ end_of_input) "" [] 0) _ _ _).
  - apply interpreter_fresh; unfold HEAP_BASE; lia.
  - apply interpreter_fresh; unfold HEAP_BASE; lia.
  - refine (bool_decide_unpack _ _). vm_compute. exact I.
Defined.

(** A heap with the list that adds up one number. *)
Definition adding : LISP :=
  mkLisp (mkBlock 1000 0 104 1000 2000 500 false false true Nil)
    (mkGc (<[1000 := mkObj 16 (TPRIMITIVE prim_plus)]> (<[1016 := mkObj 16 (TINT 2)]> (<[1032 := mkObj 24 (TCELL 1016 Nil)]>
      (<[1056 := mkObj 24 (TCELL 1000 1032)]> (<[1080 := mkObj 24 (TENV Nil Nil)]> (statics NULL)))))) 0 0)
    [[1056; 1080]] (mkWorld "" "" [] 0).
Definition adding_objects : list ptr := [1000; 1016; 1032; 1056; 1080].

Lemma adding_ok : lisp_ok adding adding_objects.
Proof.
  constructor; try done.
  - repeat (split; [done|]; eexists; split; [by vm_compute|]; split; [done|]). done.
  - by left.
  - intros a Ha. repeat (apply elem_of_cons in Ha as [->|Ha]); [..|by apply elem_of_nil in Ha]; (split; [done|]);
      intros p Hp; vm_compute in Hp; repeat (apply elem_of_cons in Hp as [->|Hp]); try (by apply elem_of_nil in Hp);
      first [by right|left; refine (bool_decide_unpack _ _); vm_compute; exact I].
  - by right.
  - intros f p Hf Hp. apply list_elem_of_singleton in Hf as ->. repeat (apply elem_of_cons in Hp as [->|Hp]); try (by apply elem_of_nil in Hp);
      left; refine (bool_decide_unpack _ _); vm_compute; exact I.
  - exists NULL. intros p Hp. unfold adding. cbn [Heap Mem]. unfold HEAP_BASE in Hp. by rewrite !lookup_insert_ne by lia.
Qed.

Definition added : res (ptr * LISP) := eval 20 (Slot 0 1) (Slot 0 0) adding.

(** Every allocation moves all objects; the sum comes out at an address of the new heap. *)
Lemma eval_safe_witness :
  match added with
  | Ok (p, s') =>
      (exists l', lisp_ok s' l' /\ good l' p /\ length (Roots s') = length (Roots adding) /\
        (forall q, q < HEAP_BASE -> Mem (Heap s') !! q = statics NULL !! q)) /\
      Mem (Heap s') !! p = Some (mkObj 16 (TINT 2)) /\ memory (Block s') = 1000
  | Err _ => False
  end.
Proof.
  assert (exists p s', added = Ok (p, s') /\ Mem (Heap s') !! p = Some (mkObj 16 (TINT 2)) /\ memory (Block s') = 1000) as (p & s' & Hrun & Hrest).
  { eexists _, _. split; [vm_compute; reflexivity|]. split; vm_compute; reflexivity. }
  rewrite Hrun. split; [|exact Hrest].
  refine (eval_safe 20 (Slot 0 1) (Slot 0 0) adding adding_objects p s' adding_ok eq_refl _ Hrun).
  intros q Hq. unfold adding. cbn [Heap Mem]. unfold HEAP_BASE in Hq. rewrite !lookup_insert_ne by lia. reflexivity.
Defined.

(** ** What the reader and the primitives do at their edges *)

(** A symbol whose name is longer than the print buffer is printed in part. *)
Example long_symbol : output 300 (interpreter 1000 100000 60000 false ("'" +:+ String.concat "" (replicate 12 "abcdefghij")))
  = Ok (line (String.concat "" (replicate 9 "abcdefghij") +:+ "abcdefghi")).
Proof. vm_compute. reflexivity. Qed.

(** A dot without an element before it stores into the static object of the empty list. *)
Example dot_overwrites_nil :
  match lisp_repl_main 200 (interpreter 1000 100000 20000 false "'( . 5)") with
  | Ok (_, s) => Output (World s) = line "()" /\ exists p, Mem (Heap s) !! Nil = Some (mkObj 0 (TCONST CNil NULL p)) /\ HEAP_BASE <= p
  | Err _ => False
  end.
Proof. vm_compute. split; [reflexivity|]. eexists. split; [reflexivity|discriminate]. Qed.

(** These calls without arguments follow the null pointer in the empty list. *)
Example no_arguments : forall s, s ∈ ["(println)"; "(car)"; "(cdr)"; "(-)"; "(sleep)"; "(panic)"; "(defun)"]%string ->
  output 200 (interpreter 1000 100000 20000 false s) = Err FNull.
Proof.
  intros s Hs. repeat (apply elem_of_cons in Hs as [->|Hs]; [vm_compute; reflexivity|]). by apply elem_of_nil in Hs.
Qed.

(** A byte 0 belongs to a symbol, and ends its name. *)
Example nul_symbol : output 200 (interpreter 1000 100000 20000 false ("'a" +:+ String (Ascii.ascii_of_nat 0) "b")) = Ok (line "a").
Proof. vm_compute. reflexivity. Qed.
