(* ===== verification/LispText.v ===== *)
(** * Reading what was printed (proofs over LispReader)

    [show] is the text of an expression.  A run with room for everything is followed step
    by step; [LispInvisible] carries the result over to every other heap. *)

From stdpp Require Import strings pretty.
From S2P Require Import Prelude LispHeap LispGc LispAlloc LispObjects LispRel LispReader LispEval LispSame LispInvisible.

(** ** Strings *)

Lemma sapp_assoc (a b c : string) : a +:+ (b +:+ c) = (a +:+ b) +:+ c.
Proof. induction a as [|x a IH]; [done|]. change (String x (a +:+ (b +:+ c)) = String x ((a +:+ b) +:+ c)). by rewrite IH. Qed.
Lemma sapp_nil_r (a : string) : a +:+ "" = a.
Proof. induction a as [|x a IH]; [done|]. change (String x (a +:+ "") = String x a). by rewrite IH. Qed.
Lemma sapp_length (a b : string) : String.length (a +:+ b) = (String.length a + String.length b)%nat.
Proof. induction a as [|x a IH]; [done|]. change (S (String.length (a +:+ b)) = S (String.length a + String.length b)). by rewrite IH. Qed.

(** ** Expressions and their text *)

Inductive sexp := EInt (z : Z) | ESym (s : string) | EList (l : list sexp).

Section sexp_ind.
Context (P : sexp -> Prop) (Hint : forall z, P (EInt z)) (Hsym : forall s, P (ESym s)) (Hlist : forall l, Forall P l -> P (EList l)).
Fixpoint sexp_ind' (e : sexp) : P e :=
  match e with
  | EInt z => Hint z
  | ESym s => Hsym s
  | EList l => Hlist l ((fix go l : Forall P l := match l with [] => Forall_nil_2 P | e :: l => Forall_cons_2 P e l (sexp_ind' e) (go l) end) l)
  end.
End sexp_ind.

Fixpoint show (e : sexp) : string :=
  match e with
  | EInt z => pretty z
  | ESym s => s
  | EList l =>
      "(" +:+ (fix go (first : bool) (l : list sexp) : string :=
        match l with
        | [] => ")"
        | e :: l => (if first then "" else " ") +:+ show e +:+ go false l
        end) true l
  end.

(** The elements that are left of a list, and its end. *)
Fixpoint show_rest (first : bool) (l : list sexp) : string :=
  match l with
  | [] => ")"
  | e :: l => (if first then "" else " ") +:+ show e +:+ show_rest false l
  end.

Lemma show_list l : show (EList l) = "(" +:+ show_rest true l.
Proof. reflexivity. Qed.

(** Characters that end a symbol or a number. *)
Definition symbol_char (a : Ascii.ascii) : bool := isalnum (schar a) || strchr symbol_chars (schar a).
Definition symbol_start (a : Ascii.ascii) : bool := isalpha (schar a) || strchr symbol_chars (schar a).

Definition chars (s : string) : list Ascii.ascii := String.list_ascii_of_string s.

(** The names that the reader takes for a symbol. *)
Definition readable_symbol (s : string) : Prop :=
  match chars s with
  | [] => False
  | a :: l => symbol_start a = true /\ isdigit (schar a) = false /\
      (schar a = 45 -> match l with b :: _ => isdigit (schar b) = false | [] => True end) /\
      Forall (fun b => symbol_char b = true /\ schar b <> 0) (a :: l)
  end.

Fixpoint readable (e : sexp) : Prop :=
  match e with
  | EInt z => - 2 ^ 31 <= z < 2 ^ 31
  | ESym s => readable_symbol s /\ (String.length s <= 99)%nat
  | EList l => (fix go l := match l with [] => True | e :: l => readable e /\ go l end) l
  end.

Lemma readable_list l : readable (EList l) <-> Forall readable l.
Proof.
  cbn [readable]. induction l as [|e l IH]; [done|]. rewrite Forall_cons. by rewrite IH.
Qed.

(** ** Expressions in the heap *)

(** The expression at [p]; its numbers and cells are at addresses in [F], its symbols at
    addresses in [G]. *)
Fixpoint repr (H : gmap Z Obj) (F G : ptr -> Prop) (p : ptr) (e : sexp) : Prop :=
  match e with
  | EInt z => F p /\ HEAP_BASE <= p /\ exists n, H !! p = Some (mkObj n (TINT z))
  | ESym s => G p /\ HEAP_BASE <= p /\ exists n, H !! p = Some (mkObj n (TSYMBOL s))
  | EList l =>
      (fix go p l := match l with
       | [] => p = Nil
       | e :: l => F p /\ HEAP_BASE <= p /\ exists n a d, H !! p = Some (mkObj n (TCELL a d)) /\ repr H F G a e /\ go d l
       end) p l
  end.

Fixpoint repr_list (H : gmap Z Obj) (F G : ptr -> Prop) (p : ptr) (l : list sexp) : Prop :=
  match l with
  | [] => p = Nil
  | e :: l => F p /\ HEAP_BASE <= p /\ exists n a d, H !! p = Some (mkObj n (TCELL a d)) /\ repr H F G a e /\ repr_list H F G d l
  end.

Lemma repr_EList H F G p l : repr H F G p (EList l) <-> repr_list H F G p l.
Proof.
  cbn [repr]. revert p. induction l as [|e l IH]; intros p; [done|]. cbn [repr_list].
  split; intros (HF & Hb & n & a & d & Hp & He & Hl); (split; [done|]; split; [done|]; exists n, a, d; split; [done|]; split; [done|]; by apply IH).
Qed.

Lemma repr_mono H H' (F F' G G' : ptr -> Prop) p e :
  (forall a, F a -> F' a) -> (forall a, G a -> G' a) -> (forall a, F a \/ G a -> H' !! a = H !! a) -> repr H F G p e -> repr H' F' G' p e.
Proof.
  intros HF HG Ha. revert p. induction e as [z|s|l IH] using sexp_ind'; intros p.
  - intros (Hf & Hb & n & Hp). split; [auto|]. split; [done|]. exists n. by rewrite Ha by (by left).
  - intros (Hg & Hb & n & Hp). split; [auto|]. split; [done|]. exists n. by rewrite Ha by (by right).
  - rewrite !repr_EList. revert p. induction IH as [|e l He Hl IHl]; intros p; [done|]. cbn [repr_list].
    intros (Hf & Hb & n & a & d & Hp & Hra & Hrl). split; [auto|]. split; [done|]. exists n, a, d. rewrite Ha by (by left). auto.
Qed.

(** An expression is at an address of the heap, or [Nil]. *)
Lemma repr_address H F G p e : repr H F G p e -> p = Nil \/ HEAP_BASE <= p.
Proof. destruct e as [z|s|[|e l]]; [intros (_ & ? & _); by right|intros (_ & ? & _); by right|by left|intros (_ & ? & _); by right]. Qed.

(** ** Printing *)

Lemma substring_all s m : (String.length s <= m)%nat -> String.substring 0 m s = s.
Proof. revert m. induction s as [|a s IH]; intros [|m] Hm; simpl in *; try done; [lia|]. by rewrite IH by lia. Qed.

Lemma pretty_go_length k x s : (x < 10 ^ N.of_nat k)%N -> (String.length (pretty_N_go x s) <= k + String.length s)%nat.
Proof.
  revert x s. induction k as [|k IH]; intros x s Hx.
  - assert (x = 0)%N as -> by (simpl in Hx; lia). by rewrite pretty_N_go_0.
  - destruct (decide (x = 0)%N) as [->|Hne]; [rewrite pretty_N_go_0; lia|]. rewrite pretty_N_go_step by lia.
    specialize (IH (x `div` 10)%N (String (pretty_N_char (x `mod` 10)) s)). simpl in IH. etrans; [apply IH|lia].
    apply N.Div0.div_lt_upper_bound. replace (N.of_nat (S k)) with (N.succ (N.of_nat k)) in Hx by lia. by rewrite N.pow_succ_r' in Hx.
Qed.

Lemma pretty_length z : - 2 ^ 31 <= z < 2 ^ 31 -> (String.length (pretty z) <= 99)%nat.
Proof.
  assert (forall p, (Npos p < 10 ^ N.of_nat 10)%N -> (String.length (pretty (Npos p)) <= 10)%nat) as Hp.
  { intros p Hp. unfold pretty, pretty_N. rewrite decide_False by done. pose proof (pretty_go_length 10 (Npos p) "" Hp) as H. simpl in H. lia. }
  intros Hz. destruct z as [|p|p].
  - simpl. lia.
  - specialize (Hp p). change (pretty (Z.pos p)) with (pretty (Npos p)). etrans; [apply Hp|lia]. simpl (N.of_nat 10). lia.
  - specialize (Hp p). change (pretty (Z.neg p)) with ("-" +:+ pretty (Npos p)). change (S (String.length (pretty (Npos p))) <= 99)%nat.
    enough (String.length (pretty (Npos p)) <= 10)%nat by lia. apply Hp. simpl (N.of_nat 10). lia.
Qed.

Definition with_output (o : string) (s : LISP) : LISP := mkLisp (Block s) (Heap s) (Roots s) (with_Output (Output (World s) +:+ o) (World s)).

Lemma write_run o s : write o s = Ok (tt, with_output o s).
Proof. done. Qed.

Lemma valof_run p s n v : Mem (Heap s) !! p = Some (mkObj n v) -> valof p s = Ok (v, s).
Proof. intros Hp. unfold valof, deref, on_heap, load, mbind, st_bind. rewrite Hp. by destruct s. Qed.
Lemma car_run p s n a d : Mem (Heap s) !! p = Some (mkObj n (TCELL a d)) -> car p s = Ok (a, s).
Proof. intros Hp. unfold car. by rewrite (st_bind_ok _ _ _ _ _ (valof_run _ _ _ _ Hp)). Qed.
Lemma cdr_run p s n a d : Mem (Heap s) !! p = Some (mkObj n (TCELL a d)) -> cdr p s = Ok (d, s).
Proof. intros Hp. unfold cdr. by rewrite (st_bind_ok _ _ _ _ _ (valof_run _ _ _ _ Hp)). Qed.
Lemma name_run p s n x : Mem (Heap s) !! p = Some (mkObj n (TSYMBOL x)) -> name p s = Ok (x, s).
Proof. intros Hp. unfold name. by rewrite (st_bind_ok _ _ _ _ _ (valof_run _ _ _ _ Hp)). Qed.

Lemma with_output_twice a b s : with_output b (with_output a s) = with_output (a +:+ b) s.
Proof. unfold with_output, with_Output. cbn [World Output Block Heap Roots Input Slept GensymCount]. by rewrite sapp_assoc. Qed.

(** Printing takes one level of fuel for every level of the expression and every element. *)
Fixpoint depth_of (e : sexp) : nat :=
  match e with
  | EInt _ | ESym _ => 1
  | EList l => S (S ((fix go l := match l with [] => 0 | e :: l => depth_of e + S (go l) end) l))
  end%nat.
Fixpoint depth_list (l : list sexp) : nat := match l with [] => 0 | e :: l => depth_of e + S (depth_list l) end%nat.
Lemma depth_EList l : depth_of (EList l) = S (S (depth_list l)).
Proof. reflexivity. Qed.

Lemma print_cells_run H F G pr fuel p l s :
  (forall e q s, e ∈ l -> repr H F G q e -> Mem (Heap s) = H -> pr q s = Ok (tt, with_output (show e) s)) ->
  l <> [] -> Mem (Heap s) = H -> repr_list H F G p l -> (length l <= fuel)%nat ->
  (print_cells pr fuel p;; write ")") s = Ok (tt, with_output (show_rest true l) s).
Proof.
  revert p l s. induction fuel as [|fuel IH]; intros p l s Hpr Hne HH Hr Hlen; [destruct l; [done|simpl in *; lia]|].
  destruct l as [|e l]; [done|]. destruct Hr as (_ & _ & n & a & d & Hp & He & Hl). cbn [print_cells].
  assert (forall o, Mem (Heap (with_output o s)) = H) as HH' by done.
  unfold mbind, st_bind. rewrite (car_run p s n a d) by (by rewrite HH). rewrite (Hpr e a s) by (exact He || exact HH || apply list_elem_of_here).
  rewrite (cdr_run p (with_output (show e) s) n a d) by (by rewrite HH'). destruct l as [|e' l].
  - simpl in Hl. subst d. rewrite Z.eqb_refl. cbn [show_rest mret st_ret]. rewrite write_run, with_output_twice. done.
  - pose proof Hl as (_ & Hb & n' & a' & d' & Hd & _).
    rewrite (proj2 (Z.eqb_neq d Nil)) by (intros ->; unfold Nil, HEAP_BASE in *; lia).
    rewrite (valof_run d (with_output (show e) s) n' (TCELL a' d')) by (by rewrite HH'). cbn [is_cell negb]. rewrite write_run.
    specialize (IH d (e' :: l) (with_output " " (with_output (show e) s))). unfold mbind, st_bind in IH. rewrite IH;
      [|intros ??? He'; apply Hpr; by right|done|done|done|simpl in *; lia].
    rewrite !with_output_twice. cbn [show_rest]. by rewrite !sapp_assoc, sapp_nil_r.
Qed.

Lemma depth_pos e : (1 <= depth_of e)%nat.
Proof. destruct e; simpl; lia. Qed.
Lemma depth_elem e l : e ∈ l -> (depth_of e <= depth_list l)%nat.
Proof. induction 1; simpl; lia. Qed.
Lemma depth_length l : (length l <= depth_list l)%nat.
Proof. induction l; simpl; lia. Qed.

Lemma print_run H F G e fuel p s :
  readable e -> Mem (Heap s) = H -> H !! Nil = Some (mkObj 0 (TCONST CNil NULL NULL)) -> repr H F G p e -> (depth_of e <= fuel)%nat ->
  print fuel p s = Ok (tt, with_output (show e) s).
Proof.
  intros Hrd HH HN. revert fuel p s Hrd HH. induction e as [z|n|l IH] using sexp_ind'; intros [|fuel] p s Hrd HH Hr Hf; try (simpl in Hf; lia).
  - destruct Hr as (_ & _ & k & Hp). cbn [print]. unfold mbind, st_bind. rewrite (valof_run p s k (TINT z)) by (by rewrite HH).
    unfold lisp_printf. by rewrite substring_all by (by apply pretty_length).
  - destruct Hr as (_ & _ & k & Hp). cbn [print]. unfold mbind, st_bind. rewrite (valof_run p s k (TSYMBOL n)) by (by rewrite HH).
    unfold lisp_printf. by rewrite substring_all by apply Hrd.
  - rewrite depth_EList in Hf. rewrite readable_list in Hrd. rewrite repr_EList in Hr. rewrite show_list. cbn [print].
    destruct l as [|e l].
    + simpl in Hr. subst p. unfold mbind, st_bind. by rewrite (valof_run Nil s 0 (TCONST CNil NULL NULL)) by (by rewrite HH).
    + pose proof Hr as (_ & _ & n & a & d & Hp & _). unfold mbind at 1, st_bind at 1.
      rewrite (valof_run p s n (TCELL a d)) by (by rewrite HH). unfold mbind at 1, st_bind at 1. rewrite write_run.
      rewrite (print_cells_run H F G (print fuel) fuel p (e :: l)); [by rewrite with_output_twice| |done|done|done|pose proof (depth_length (e :: l)); lia].
      intros e' q s' He' Hq Hs'. rewrite Forall_forall in IH, Hrd. apply IH; auto. pose proof (depth_elem e' (e :: l) He'). lia.
Qed.

(** ** Characters and numbers *)

Lemma symbol_start_class a : symbol_start a = true ->
  is_space (schar a) = false /\ (schar a =? EOF) = false /\ (schar a =? 59) = false /\ (schar a =? 40) = false /\
  (schar a =? 41) = false /\ (schar a =? 46) = false /\ (schar a =? 39) = false /\ isalpha (schar a) || strchr symbol_chars (schar a) = true.
Proof. destruct a as [[] [] [] [] [] [] [] []]; vm_compute; intros [=]; by split_and!. Qed.

Lemma symbol_char_digit a : symbol_char a = false -> isdigit (schar a) = false.
Proof. unfold symbol_char, isalnum. destruct (isdigit (schar a)); [|done]. by rewrite orb_true_r. Qed.

Lemma char_of_schar a : char_of (schar a) = a.
Proof. destruct a as [[] [] [] [] [] [] [] []]; by vm_compute. Qed.

Lemma digit_class a : isdigit (schar a) = true ->
  is_space (schar a) = false /\ (schar a =? EOF) = false /\ (schar a =? 59) = false /\ (schar a =? 40) = false /\
  (schar a =? 41) = false /\ (schar a =? 46) = false /\ (schar a =? 39) = false.
Proof. destruct a as [[] [] [] [] [] [] [] []]; vm_compute; intros [=]; by split_and!. Qed.

Definition digits (s : string) : Prop := Forall (fun a => isdigit (schar a) = true) (chars s).

(** The number that continues [v] with the digits of [s]. *)
Fixpoint decimal (s : string) (v : Z) : Z :=
  match s with
  | EmptyString => v
  | String a s => decimal s (v * 10 + (schar a - 48))
  end.

Lemma int32_step a d : int32 (int32 a * 10 + d) = int32 (a * 10 + d).
Proof.
  unfold int32. f_equal. set (q := (a + 2 ^ 31) / 2 ^ 32).
  replace ((a + 2 ^ 31) mod 2 ^ 32) with (a + 2 ^ 31 - 2 ^ 32 * q) by (unfold q; rewrite Z.mod_eq by lia; lia).
  replace ((a + 2 ^ 31 - 2 ^ 32 * q - 2 ^ 31) * 10 + d + 2 ^ 31) with (a * 10 + d + 2 ^ 31 + (- (10 * q)) * 2 ^ 32) by lia.
  by rewrite Z.mod_add by lia.
Qed.

Lemma pretty_char x : (x < 10)%N -> schar (pretty_N_char x) = 48 + Z.of_N x /\ isdigit (schar (pretty_N_char x)) = true.
Proof.
  intros Hx. assert (x = 0 \/ x = 1 \/ x = 2 \/ x = 3 \/ x = 4 \/ x = 5 \/ x = 6 \/ x = 7 \/ x = 8 \/ x = 9)%N as Hc by lia.
  repeat destruct Hc as [->|Hc]; [by vm_compute..|]. subst. by vm_compute.
Qed.

Lemma pretty_go_spec x s : digits s -> digits (pretty_N_go x s) /\ decimal (pretty_N_go x s) 0 = decimal s (Z.of_N x) /\
  (x <> 0%N \/ s <> EmptyString -> pretty_N_go x s <> EmptyString).
Proof.
  revert s. induction (N.lt_wf_0 x) as [x _ IH]; intros s Hs. destruct (decide (x = 0)%N) as [->|Hne].
  - rewrite pretty_N_go_0. split; [done|]. split; [done|]. by intros [?|?].
  - rewrite pretty_N_go_step by lia. assert (x `mod` 10 < 10)%N as Hm by (apply N.mod_lt; lia).
    destruct (pretty_char _ Hm) as [Hc Hd]. destruct (IH (x `div` 10)%N) with (s := String (pretty_N_char (x `mod` 10)) s) as (H1 & H2 & H3).
    + apply N.div_lt; lia.
    + unfold digits, chars. cbn [String.list_ascii_of_string]. by constructor.
    + split; [done|]. split; [|intros _; apply H3; by right]. rewrite H2. cbn [decimal]. f_equal. rewrite Hc, N2Z.inj_div, N2Z.inj_mod.
      pose proof (Z.div_mod (Z.of_N x) 10 ltac:(lia)). lia.
Qed.

(** The digits of a number: the first one, the other ones. *)
Lemma pretty_digits n : exists a s, pretty n = String a s /\ isdigit (schar a) = true /\ digits s /\ decimal s (schar a - 48) = Z.of_N n.
Proof.
  assert (digits (pretty n) /\ decimal (pretty n) 0 = Z.of_N n /\ pretty n <> EmptyString) as (H1 & H2 & H3).
  { unfold pretty, pretty_N. case_decide as Hn; [subst; split_and!; try done; by repeat constructor|].
    destruct (pretty_go_spec n EmptyString) as (H1 & H2 & H3); [constructor|]. split_and!; [done|done|]. apply H3. by left. }
  destruct (pretty n) as [|a s]; [done|]. exists a, s. inversion H1; subst. by split_and!.
Qed.

(** ** Reading characters *)

Definition with_input (i : string) (s : LISP) : LISP := mkLisp (Block s) (Heap s) (Roots s) (with_Input i (World s)).

Lemma get1char_run s a i : Input (World s) = String a i -> get1char s = Ok (schar a, with_input i s).
Proof. intros H. unfold get1char, mbind, st_bind, gets. by rewrite H. Qed.
Lemma peek_run s a i : Input (World s) = String a i -> peek s = Ok (schar a, s).
Proof. intros H. unfold peek, mbind, st_bind, gets. by rewrite H. Qed.

Lemma with_input_twice i j s : with_input j (with_input i s) = with_input j s.
Proof. done. Qed.

Lemma sapp_cons a (s t : string) : String a s +:+ t = String a (s +:+ t).
Proof. done. Qed.

Lemma read_number_run ds c rest fuel v s :
  digits ds -> isdigit (schar c) = false -> Input (World s) = ds +:+ String c rest -> (String.length ds <= fuel)%nat ->
  read_number fuel (int32 v) s = Ok (int32 (decimal ds v), with_input (String c rest) s).
Proof.
  intros Hd Hc. revert fuel v s. induction ds as [|a ds IH]; intros fuel v s Hi Hf.
  - change (Input (World s) = String c rest) in Hi. assert (s = with_input (String c rest) s) as Hs by (destruct s as [? ? ? []]; simpl in Hi; by subst).
    destruct fuel; cbn [read_number]; unfold mbind, st_bind; rewrite (peek_run s c rest Hi), Hc; by rewrite <- Hs.
  - rewrite sapp_cons in Hi. inversion Hd as [|? ? Ha Hds]; subst. destruct fuel as [|fuel]; [simpl in Hf; lia|]. cbn [read_number].
    unfold mbind, st_bind. rewrite (peek_run _ _ _ Hi), Ha, (get1char_run _ _ _ Hi).
    replace (int32 v * 10 + (schar a - 48)) with (int32 v * 10 + (schar a - 48)) by done. rewrite int32_step.
    rewrite (IH Hds fuel _ (with_input (ds +:+ String c rest) s)); [done|done|simpl in Hf; lia].
Qed.

Lemma symbol_loop_run cs c rest fuel buf len s :
  Forall (fun b => symbol_char b = true) (chars cs) -> symbol_char c = false -> Input (World s) = cs +:+ String c rest ->
  (String.length cs <= fuel)%nat -> len + Z.of_nat (String.length cs) <= SYMBOL_MAX_LEN ->
  symbol_loop fuel buf len s = Ok (buf +:+ cs, with_input (String c rest) s).
Proof.
  intros Hd Hc. revert fuel buf len s. induction cs as [|a cs IH]; intros fuel buf len s Hi Hf Hl; unfold symbol_char in Hc.
  - change (Input (World s) = String c rest) in Hi. assert (s = with_input (String c rest) s) as Hs by (destruct s as [? ? ? []]; simpl in Hi; by subst).
    rewrite sapp_nil_r. destruct fuel; cbn [symbol_loop]; unfold mbind, st_bind; rewrite (peek_run s c rest Hi), Hc; by rewrite <- Hs.
  - rewrite sapp_cons in Hi. inversion Hd as [|? ? Ha Hds]; subst. destruct fuel as [|fuel]; [simpl in Hf; lia|]. cbn [symbol_loop].
    unfold symbol_char in Ha. unfold mbind, st_bind. rewrite (peek_run _ _ _ Hi), Ha. cbn [String.length] in Hl, Hf.
    rewrite (proj2 (Z.leb_gt SYMBOL_MAX_LEN len)) by lia. rewrite (get1char_run _ _ _ Hi), char_of_schar.
    rewrite (IH Hds fuel _ _ (with_input (cs +:+ String c rest) s)); [|done|lia|lia]. by rewrite <- sapp_assoc.
Qed.

Lemma cstr_all s : Forall (fun b => schar b <> 0) (chars s) -> cstr s = s.
Proof.
  induction s as [|a s IH]; intros H; [done|]. inversion H as [|? ? Ha Hs]; subst. cbn [cstr].
  rewrite (proj2 (Z.eqb_neq _ _)) by done. by rewrite IH.
Qed.

(** ** A heap with room *)

Definition top (s : LISP) : ptr := memory (Block s) + mem_nused (Block s).

Record room_for (s : LISP) (n : Z) : Prop := {
  ro_never : always_gc (Block s) = false;
  ro_used : 0 <= mem_nused (Block s);
  ro_room : mem_nused (Block s) + n <= memory_size (Block s) < 2 ^ 62;
  ro_base : HEAP_BASE <= memory (Block s)
}.

Lemma alloc_run s v n room : room_for s room -> object_size n <= room -> 0 <= n < 2 ^ 60 ->
  alloc v n s = Ok (top s, placed s (mkObj (object_size n) v)).
Proof.
  intros [Ha Hu Hr _] Hn Hn0. destruct (object_size_ok n Hn0) as [_ Hs]. unfold alloc.
  rewrite gets_bind, Ha. cbn [negb andb]. rewrite (st_bind_ok _ _ s tt s eq_refl), gets_bind.
  assert (w64 (mem_nused (Block s) + object_size n) = mem_nused (Block s) + object_size n) as Hw by (apply w64_small; unfold u64; lia).
  rewrite Ha, Hw, (proj2 (Z.ltb_ge _ _)) by lia. cbn [negb andb]. rewrite (st_bind_ok _ _ s tt s eq_refl), gets_bind, Hw.
  rewrite (proj2 (Z.ltb_ge _ _)) by lia. rewrite (st_bind_ok _ _ s tt s eq_refl). unfold mbind, st_bind, on_heap, store, set_Block, modify, placed, top.
  destruct s as [b [m x1 x2] r w]. cbn [Block Heap Roots World Mem scan1 scan2 size with_mem_nused mem_nused memory] in *. by rewrite Hw.
Qed.

(** What a slot holds. *)
Definition slot_val (x : slot) (s : LISP) : option ptr :=
  match x with
  | Slot d i => slot_at d i (Roots s)
  | NilVar => Some Nil
  | TrueVar => Some True_
  | SymbolsVar => Some (Symbols (Block s))
  end.

Lemma get_run x s p : slot_val x s = Some p -> get x s = Ok (p, s).
Proof.
  destruct x; cbn [slot_val get]; [|by intros [= <-]..]. unfold slot_at. by intros ->.
Qed.

Lemma slot_val_placed x s o : slot_val x (placed s o) = slot_val x s.
Proof. by destruct x. Qed.
Lemma slot_val_mem x s h : slot_val x (with_Mem h s) = slot_val x s.
Proof. by destruct x. Qed.

Lemma set_val_run p s o f v : Mem (Heap s) !! p = Some o -> f (val o) = Some v ->
  set_val p f s = Ok (tt, with_Mem (<[p := mkObj (size o) v]> (Mem (Heap s))) s).
Proof. intros Hp Hv. unfold set_val, deref, on_heap, load, store, modify, mbind, st_bind. rewrite Hp. cbn [Heap Block Roots World]. by rewrite Hv. Qed.

Lemma set_car_run p s n a d q : Mem (Heap s) !! p = Some (mkObj n (TCELL a d)) ->
  set_car p q s = Ok (tt, with_Mem (<[p := mkObj n (TCELL q d)]> (Mem (Heap s))) s).
Proof. intros Hp. unfold set_car. by rewrite (set_val_run p s _ _ (TCELL q d) Hp). Qed.
Lemma set_cdr_run p s n a d q : Mem (Heap s) !! p = Some (mkObj n (TCELL a d)) ->
  set_cdr p q s = Ok (tt, with_Mem (<[p := mkObj n (TCELL a q)]> (Mem (Heap s))) s).
Proof. intros Hp. unfold set_cdr. by rewrite (set_val_run p s _ _ (TCELL a q) Hp). Qed.

Lemma cons_run s room x y a d : room_for s room -> 24 <= room -> slot_val x s = Some a -> slot_val y s = Some d ->
  cons x y s = Ok (top s, placed s (mkObj 24 (TCELL a d))).
Proof.
  intros Hr Hs Hx Hy. unfold cons. assert (object_size 16 = 24) as H24 by (by vm_compute).
  rewrite (st_bind_ok _ _ _ _ _ (alloc_run s (TCELL NULL NULL) 16 room Hr ltac:(lia) ltac:(lia))). rewrite H24.
  set (s1 := placed s (mkObj 24 (TCELL NULL NULL))).
  rewrite (st_bind_ok _ _ _ _ _ (get_run x s1 a Hx)).
  assert (Mem (Heap s1) !! top s = Some (mkObj 24 (TCELL NULL NULL))) as H1 by (unfold s1; cbn [placed Heap Mem]; apply lookup_insert_eq).
  rewrite (st_bind_ok _ _ _ _ _ (set_car_run (top s) s1 _ _ _ a H1)).
  set (s2 := with_Mem _ s1). rewrite (st_bind_ok _ _ _ _ _ (get_run y s2 d Hy)).
  assert (Mem (Heap s2) !! top s = Some (mkObj 24 (TCELL a NULL))) as H2 by (unfold s2; cbn [with_Mem Heap Mem]; apply lookup_insert_eq).
  rewrite (st_bind_ok _ _ _ _ _ (set_cdr_run (top s) s2 _ _ _ d H2)).
  unfold mret, st_ret, s2, s1, with_Mem, placed, top. cbn [Block Heap Roots World Mem scan1 scan2]. by rewrite !insert_insert_eq.
Qed.

(** ** Frames *)

Lemma ADD_ROOT_run {A} n (f : nat -> St LISP A) s a s' :
  f (length (Roots s)) (with_Roots (replicate n NULL :: Roots s) s) = Ok (a, s') -> ADD_ROOT n f s = Ok (a, with_Roots (tail (Roots s')) s').
Proof.
  intros H. unfold ADD_ROOT. rewrite gets_bind, set_Roots_bind. rewrite (st_bind_ok _ _ _ _ _ H). by rewrite gets_bind, set_Roots_bind.
Qed.

Lemma put_run i p s frame roots : Roots s = frame :: roots ->
  put (Slot (length roots) i) p s = Ok (tt, with_Roots (<[i := p]> frame :: roots) s).
Proof.
  intros Hr. unfold put. rewrite gets_bind, Hr. unfold set_Roots, modify, frame_at. cbn [length]. by rewrite Nat.sub_diag.
Qed.

Lemma slot_own i s frame roots : Roots s = frame :: roots -> slot_val (Slot (length roots) i) s = frame !! i.
Proof. intros Hr. cbn [slot_val]. unfold slot_at, frame_at. rewrite Hr. cbn [length]. by rewrite Nat.sub_diag. Qed.

(** ** A state that follows another one *)

(** More of the heap is in use, the objects that were there have not changed, and some of
    the input has been read. *)
Record ext (s s' : LISP) : Prop := {
  ex_used : mem_nused (Block s) <= mem_nused (Block s');
  ex_block : Block s' = with_Symbols (Symbols (Block s')) (with_mem_nused (mem_nused (Block s')) (Block s));
  ex_mem a : a < top s -> Mem (Heap s') !! a = Mem (Heap s) !! a;
  ex_world : World s' = with_Input (Input (World s')) (World s)
}.

Lemma ext_refl s : ext s s.
Proof. constructor; [done|by destruct s as [[]]|done|by destruct s as [? ? ? []]]. Qed.

Lemma ext_top s s' : ext s s' -> memory (Block s') = memory (Block s) /\ top s <= top s'.
Proof. intros [Hu Hb _ _]. unfold top. rewrite Hb. cbn. lia. Qed.

Lemma ext_trans s1 s2 s3 : ext s1 s2 -> ext s2 s3 -> ext s1 s3.
Proof.
  intros H1 H2. pose proof (ext_top _ _ H1) as [_ Ht]. destruct H1 as [U1 B1 M1 W1], H2 as [U2 B2 M2 W2]. constructor; [lia| | |].
  - rewrite B2 at 1. rewrite B1. done.
  - intros a Ha. rewrite M2 by lia. by apply M1.
  - rewrite W2, W1. done.
Qed.

Lemma ext_placed s o : 0 < size o -> ext s (placed s o).
Proof.
  intros Ho. constructor; [simpl; lia|by destruct s as [[]]| |by destruct s as [? ? ? []]].
  intros a Ha. cbn [placed Heap Mem]. apply lookup_insert_ne. unfold top in Ha. lia.
Qed.
Lemma ext_roots s s' r : ext s s' -> ext s (with_Roots r s').
Proof. intros []. by constructor. Qed.
Lemma ext_from_roots s s' r : ext (with_Roots r s) s' -> ext s s'.
Proof. intros []. by constructor. Qed.
Lemma ext_input s s' i : ext s s' -> ext s (with_input i s').
Proof. intros [U B M W]. constructor; [done|done|done|]. cbn [with_input World]. by rewrite W. Qed.
Lemma ext_symbols s s' p : ext s s' -> ext s (mkLisp (with_Symbols p (Block s')) (Heap s') (Roots s') (World s')).
Proof. intros [U B M W]. constructor; [done| |done|done]. cbn [Block]. by rewrite B. Qed.
Lemma ext_write s s' h : ext s s' -> (forall a, a < top s -> h !! a = Mem (Heap s') !! a) -> ext s (with_Mem h s').
Proof. intros [U B M W] Hh. constructor; [done|done| |done]. intros a Ha. cbn [with_Mem Heap Mem]. rewrite Hh by done. auto. Qed.

Lemma room_for_ext s s' n m : ext s s' -> room_for s n -> top s' - top s + m <= n -> 0 <= m -> room_for s' m.
Proof.
  intros He [Ha Hu Hr Hb] Hm Hm0. pose proof (ext_top _ _ He) as [Hmem Ht]. destruct He as [U B _ _].
  assert (always_gc (Block s') = always_gc (Block s)) as Ea by (by rewrite B).
  assert (memory_size (Block s') = memory_size (Block s)) as Es by (by rewrite B).
  unfold top in *. constructor; [congruence|lia|lia|lia].
Qed.

Lemma room_for_le s n m : room_for s n -> m <= n -> room_for s m.
Proof. intros [] Hm. constructor; try done. lia. Qed.

(** ** The symbol table *)

(** The names in the list at [p]; its cells and symbols are at addresses in [S]. *)
Fixpoint symtab (H : gmap Z Obj) (S : ptr -> Prop) (p : ptr) (T : list string) : Prop :=
  match T with
  | [] => p = Nil
  | n :: T => S p /\ HEAP_BASE <= p /\ exists k a d m, H !! p = Some (mkObj k (TCELL a d)) /\
      S a /\ HEAP_BASE <= a /\ H !! a = Some (mkObj m (TSYMBOL n)) /\ symtab H S d T
  end.

Lemma symtab_mono H H' (S S' : ptr -> Prop) p T :
  (forall a, S a -> S' a) -> (forall a, S a -> H' !! a = H !! a) -> symtab H S p T -> symtab H' S' p T.
Proof.
  intros HS HH. revert p. induction T as [|n T IH]; intros p; [done|].
  intros (Hp & Hb & k & a & d & m & Hc & Ha & Hba & Hs & Ht). split; [auto|]. split; [done|]. exists k, a, d, m. rewrite !HH by done. split_and!; auto.
Qed.

Lemma symtab_not_nil H S p n T : symtab H S p (n :: T) -> p <> Nil.
Proof. intros (_ & Hb & _). unfold HEAP_BASE, Nil in *. lia. Qed.

Lemma intern_find_run H S fuel n p T s :
  Mem (Heap s) = H -> symtab H S p T -> (length T <= fuel)%nat ->
  exists r, intern_find fuel n p s = Ok (r, s) /\
    match r with Some a => S a /\ HEAP_BASE <= a /\ exists m, H !! a = Some (mkObj m (TSYMBOL n)) | None => True end.
Proof.
  intros HH. revert fuel p. induction T as [|x T IH]; intros fuel p Ht Hf.
  - simpl in Ht. subst p. exists None. by destruct fuel.
  - pose proof (symtab_not_nil _ _ _ _ _ Ht) as Hp. destruct Ht as (_ & _ & k & a & d & m & Hc & Ha & Hba & Hs & Ht). destruct fuel as [|fuel]; [simpl in Hf; lia|].
    cbn [intern_find]. rewrite (proj2 (Z.eqb_neq _ _) Hp). rewrite <- HH in Hc, Hs. rewrite (st_bind_ok _ _ _ _ _ (car_run _ _ _ _ _ Hc)).
    rewrite (st_bind_ok _ _ _ _ _ (name_run _ _ _ _ Hs)).
    destruct (String.eqb_spec n x) as [->|_]; [exists (Some a); rewrite HH in Hs; eauto 10|].
    rewrite (st_bind_ok _ _ _ _ _ (cdr_run _ _ _ _ _ Hc)). apply IH; [done|simpl in Hf; lia].
Qed.

(** The addresses in [S], and the ones that came into use between two states. *)
Definition within (S : ptr -> Prop) (lo hi : ptr) (a : ptr) : Prop := S a \/ lo <= a < hi.

Lemma object_size_bounds n : 0 <= n < 2 ^ 60 -> 0 < object_size n <= n + 15.
Proof. intros Hn. destruct (object_size_ok n Hn) as [E _]. rewrite E. dlia. Qed.

Lemma mem_placed_new s o : Mem (Heap (placed s o)) !! top s = Some o.
Proof. cbn [placed Heap Mem]. apply lookup_insert_eq. Qed.
Lemma mem_placed_old s o a : a < top s -> Mem (Heap (placed s o)) !! a = Mem (Heap s) !! a.
Proof. intros Ha. cbn [placed Heap Mem]. apply lookup_insert_ne. unfold top in Ha. lia. Qed.
Lemma top_placed s o : top (placed s o) = top s + size o.
Proof. unfold top. cbn. lia. Qed.

Lemma intern_run fuel n S T s room :
  let len := Z.of_nat (String.length n) in
  room_for s room -> len + 40 <= room -> len < 2 ^ 50 -> (forall a, S a -> a < top s) ->
  symtab (Mem (Heap s)) S (Symbols (Block s)) T -> (length T <= fuel)%nat ->
  exists s' a T', intern fuel n s = Ok (a, s') /\ ext s s' /\ Roots s' = Roots s /\ World s' = World s /\ top s' <= top s + len + 40 /\
    within S (top s) (top s') a /\ HEAP_BASE <= a /\ (exists m, Mem (Heap s') !! a = Some (mkObj m (TSYMBOL n))) /\
    symtab (Mem (Heap s')) (within S (top s) (top s')) (Symbols (Block s')) T' /\ (length T' <= Datatypes.S (length T))%nat.
Proof.
  intros len Hr Hroom Hlen HS Ht Hf. unfold intern. rewrite (st_bind_ok _ _ _ _ _ (get_run SymbolsVar s _ eq_refl)).
  destruct (intern_find_run _ S fuel n _ T s eq_refl Ht Hf) as (r & E & Hfound). rewrite (st_bind_ok _ _ _ _ _ E).
  destruct r as [a|].
  { destruct Hfound as (Ha & Hb & Hm). exists s, a, T. split_and!; try done; [apply ext_refl|lia|by left| |lia].
    eapply symtab_mono; [|done|done]. intros x Hx. by left. }
  clear Hfound E. unfold make_symbol. set (sz := Z.of_nat (String.length n) + 1).
  pose proof (object_size_bounds sz ltac:(unfold sz; lia)) as Hsz. set (o1 := mkObj (object_size sz) (TSYMBOL n)).
  set (s1 := with_Roots ([NULL] :: Roots s) s). assert (room_for s1 room) as Hr1 by (by destruct Hr).
  set (s2 := with_Roots ([top s] :: Roots s) (placed s1 o1)).
  assert (ext s s2) as E2 by (apply ext_roots, (ext_from_roots s _ ([NULL] :: Roots s)), ext_placed; simpl; lia).
  assert (top s2 = top s + object_size sz) as Ht2 by (unfold s2, s1, top; cbn; lia).
  assert (room_for s2 24) as Hr2 by (eapply room_for_ext; [done|done|unfold sz, len in *; lia|lia]).
  set (o2 := mkObj 24 (TCELL (top s) (Symbols (Block s)))). set (s3 := placed s2 o2).
  set (s4 := mkLisp (with_Symbols (top s2) (Block s3)) (Heap s3) (Roots s3) (World s3)).
  assert (ext s s4) as E4 by (eapply ext_trans; [exact E2|apply ext_symbols, ext_placed; simpl; lia]).
  assert (Mem (Heap s4) !! top s = Some o1) as Ho1.
  { change (Mem (Heap (placed s2 o2)) !! top s = Some o1). rewrite mem_placed_old by lia. exact (mem_placed_new s1 o1). }
  assert (Mem (Heap s4) !! top s2 = Some o2) as Ho2 by exact (mem_placed_new s2 o2).
  assert (top s4 = top s2 + 24) as Ht4 by exact (top_placed s2 o2).
  assert (HEAP_BASE <= top s) as Hbase by (destruct Hr; unfold top; lia).
  exists (with_Roots (Roots s) s4), (top s), (n :: T).
  change (top (with_Roots (Roots s) s4)) with (top s4). change (Heap (with_Roots (Roots s) s4)) with (Heap s4).
  change (Symbols (Block (with_Roots (Roots s) s4))) with (top s2). rewrite Ht4, Ht2. split_and!.
  - apply (ADD_ROOT_run 1 _ s (top s) s4). fold s1. cbv beta.
    rewrite (st_bind_ok _ _ _ _ _ (alloc_run s1 (TSYMBOL n) sz room Hr1 ltac:(unfold sz, len in *; lia) ltac:(unfold sz; lia))).
    rewrite (st_bind_ok _ _ _ _ _ (put_run 0 (top s1) (placed s1 o1) [NULL] (Roots s) eq_refl)). change (top s1) with (top s). fold s2.
    rewrite (st_bind_ok _ _ _ _ _ (cons_run s2 24 (Slot (length (Roots s)) 0) SymbolsVar (top s) (Symbols (Block s)) Hr2 ltac:(lia)
      (slot_own 0 s2 [top s] (Roots s) eq_refl) eq_refl)).
    rewrite (st_bind_ok (put SymbolsVar (top s2)) _ s3 tt s4 eq_refl).
    by rewrite (get_run (Slot (length (Roots s)) 0) s4 (top s) (slot_own 0 s4 [top s] (Roots s) eq_refl)).
  - by apply ext_roots.
  - done.
  - done.
  - unfold sz, len in *. lia.
  - right. lia.
  - done.
  - by exists (object_size sz).
  - split; [right; lia|]. split; [lia|]. exists 24, (top s), (Symbols (Block s)), (object_size sz). split_and!; [rewrite <- Ht2; exact Ho2|right; lia|exact Hbase|exact Ho1|].
    apply (symtab_mono (Mem (Heap s)) _ S); [intros x Hx; by left| |done]. intros a Ha. apply (ex_mem _ _ E4). auto.
  - done.
Qed.

(** ** Lists under construction *)

(** The list at [p] has the cells and elements [cs]. *)
Fixpoint chain (H : gmap Z Obj) (p : ptr) (cs : list (ptr * ptr)) : Prop :=
  match cs with
  | [] => p = Nil
  | (c, a) :: cs => p = c /\ HEAP_BASE <= c /\ exists n d, H !! c = Some (mkObj n (TCELL a d)) /\ chain H d cs
  end.

Lemma chain_mono H H' p cs : (forall c, c ∈ cs.*1 -> H' !! c = H !! c) -> chain H p cs -> chain H' p cs.
Proof.
  revert p. induction cs as [|[c a] cs IH]; intros p HH; [done|]. intros (-> & Hb & n & d & Hc & Hd). split; [done|]. split; [done|].
  exists n, d. rewrite HH by (rewrite fmap_cons; apply list_elem_of_here). split; [done|]. apply IH; [|done]. intros x Hx. apply HH. rewrite fmap_cons. by right.
Qed.

Lemma reverse_loop_run cs : forall ds p q s fuel,
  chain (Mem (Heap s)) p cs -> chain (Mem (Heap s)) q ds -> NoDup (cs.*1 ++ ds.*1) -> (length cs <= fuel)%nat ->
  exists h r, reverse_loop fuel p q s = Ok (r, with_Mem h s) /\ chain h r (rev cs ++ ds) /\
    (forall a, a ∉ cs.*1 -> h !! a = Mem (Heap s) !! a).
Proof.
  induction cs as [|[c a] cs IH]; intros ds p q s fuel Hp Hq Hnd Hf.
  - simpl in Hp. subst p. exists (Mem (Heap s)), q. split; [|done]. by destruct fuel, s as [? [] ? ?].
  - destruct Hp as (-> & Hb & n & d & Hc & Hd). destruct fuel as [|fuel]; [simpl in Hf; lia|]. cbn [reverse_loop].
    rewrite (proj2 (Z.eqb_neq c Nil)) by (unfold HEAP_BASE, Nil in *; lia). rewrite (st_bind_ok _ _ _ _ _ (cdr_run _ _ _ _ _ Hc)).
    rewrite (st_bind_ok _ _ _ _ _ (set_cdr_run _ _ _ _ _ q Hc)). set (s1 := with_Mem (<[c := mkObj n (TCELL a q)]> (Mem (Heap s))) s).
    rewrite fmap_cons in Hnd. cbn [fst] in Hnd. apply NoDup_cons in Hnd as [Hni Hnd].
    assert (forall x, x <> c -> Mem (Heap s1) !! x = Mem (Heap s) !! x) as Hx by (intros x Hx; apply lookup_insert_ne; congruence).
    destruct (IH ((c, a) :: ds) d c s1 fuel) as (h & r & E & Hr & Hh).
    + eapply chain_mono; [|done]. intros x Hin. apply Hx. intros ->. apply Hni, elem_of_app. by left.
    + split; [done|]. split; [done|]. exists n, q. split; [apply lookup_insert_eq|]. eapply chain_mono; [|done].
      intros x Hin. apply Hx. intros ->. apply Hni, elem_of_app. by right.
    + rewrite fmap_cons. cbn [fst]. rewrite <- Permutation_middle. by apply NoDup_cons.
    + simpl in Hf. lia.
    + exists h, r. split; [done|]. split; [by cbn [rev]; rewrite <- app_assoc|]. intros x Hin. rewrite fmap_cons in Hin. cbn [fst] in Hin.
      apply not_elem_of_cons in Hin as [Hne Hin]. rewrite Hh by done. by apply Hx.
Qed.

Lemma chain_repr_list H F G p cs es : 
  chain H p cs -> (forall c, c ∈ cs.*1 -> F c) -> Forall2 (fun ca e => repr H F G ca.2 e) cs es -> repr_list H F G p es.
Proof.
  intros Hc HF Hes. revert p Hc HF. induction Hes as [|[c a] e cs es He Hes IH]; intros p Hc HF; [done|].
  destruct Hc as (-> & Hb & n & d & Hc & Hd). cbn [repr_list]. split; [apply HF; rewrite fmap_cons; apply list_elem_of_here|]. split; [done|].
  exists n, a, d. split; [done|]. split; [done|]. apply IH; [done|]. intros x Hx. apply HF. rewrite fmap_cons. by right.
Qed.

(** ** Reading an expression *)

(** [read_expr] with the given fuel reads the text of [e], behind a space or not. *)
Definition reads (fuel : nat) (e : sexp) : Prop := forall (space : bool) c rest s S T,
  let len := String.length (show e) in
  symbol_char c = false -> Input (World s) = (if space then " " else "") +:+ show e +:+ String c rest ->
  room_for s (64 * Z.of_nat len) -> Z.of_nat len < 2 ^ 50 -> (forall a, S a -> a < top s) ->
  symtab (Mem (Heap s)) S (Symbols (Block s)) T -> (length T + 2 * len + 2 + (if space then 1 else 0) <= fuel)%nat ->
  exists s' p T', read_expr fuel s = Ok (p, s') /\ ext s s' /\ Roots s' = Roots s /\ Input (World s') = String c rest /\
    top s' <= top s + 64 * Z.of_nat len /\ repr (Mem (Heap s')) (fun a => top s <= a < top s') (within S (top s) (top s')) p e /\
    symtab (Mem (Heap s')) (within S (top s) (top s')) (Symbols (Block s')) T' /\ (length T' <= length T + len)%nat.

(** In the loop of [read_list]: [cs] are the cells and elements so far, [ds] the
    expressions at the elements, the last one first; [base] and [S] belong to the start. *)
Definition elsewhere (base : ptr) (s : LISP) (cs : list (ptr * ptr)) (a : ptr) : Prop := base <= a < top s /\ a ∉ cs.*1.
Definition known (S : ptr -> Prop) (base : ptr) (s : LISP) (cs : list (ptr * ptr)) (a : ptr) : Prop := S a \/ elsewhere base s cs a.

Record building (s0 : LISP) (S : ptr -> Prop) (roots : list (list ptr)) (head : ptr) (cs : list (ptr * ptr)) (ds : list sexp) (T : list string) (s : LISP) : Prop := {
  bu_ext : ext s0 s;
  bu_roots : exists o l, Roots s = [o; head; l] :: roots;
  bu_chain : chain (Mem (Heap s)) head cs;
  bu_nodup : NoDup cs.*1;
  bu_cells c : c ∈ cs.*1 -> top s0 <= c < top s;
  bu_elems : Forall2 (fun ca e => repr (Mem (Heap s)) (elsewhere (top s0) s cs) (known S (top s0) s cs) ca.2 e) cs ds;
  bu_symtab : symtab (Mem (Heap s)) (known S (top s0) s cs) (Symbols (Block s)) T
}.

Lemma building_step s0 S roots head cs ds T s s1 p e T1 o l :
  building s0 S roots head cs ds T s -> (forall a, S a -> a < top s0) -> HEAP_BASE <= top s1 -> ext s s1 ->
  repr (Mem (Heap s1)) (fun a => top s <= a < top s1) (within (known S (top s0) s cs) (top s) (top s1)) p e ->
  symtab (Mem (Heap s1)) (within (known S (top s0) s cs) (top s) (top s1)) (Symbols (Block s1)) T1 ->
  building s0 S roots (top s1) ((top s1, p) :: cs) (e :: ds) T1
    (with_Roots ([p; top s1; l] :: roots) (placed (with_Roots ([p; head; o] :: roots) s1) (mkObj 24 (TCELL p head)))).
Proof.
  intros [He Hro Hch Hnd Hcs Hel _] HS Hb E1 Hp Ht. set (s3 := with_Roots _ _).
  pose proof (proj2 (ext_top _ _ He)) as Ht0. pose proof (proj2 (ext_top _ _ E1)) as Ht1.
  assert (top s3 = top s1 + 24) as Ht3 by (unfold s3, top; cbn; lia).
  assert (forall a, a < top s1 -> Mem (Heap s3) !! a = Mem (Heap s1) !! a) as H31 by (intros a Ha; by apply (mem_placed_old s1)).
  assert (forall a, a < top s -> Mem (Heap s3) !! a = Mem (Heap s) !! a) as H3 by (intros a Ha; rewrite H31 by lia; by apply (ex_mem _ _ E1)).
  assert (forall a, top s <= a < top s1 -> elsewhere (top s0) s3 ((top s1, p) :: cs) a) as Hnew.
  { intros a Ha. split; [lia|]. rewrite fmap_cons. apply not_elem_of_cons. split; [simpl; lia|]. intros Hin%Hcs. lia. }
  assert (forall a, elsewhere (top s0) s cs a -> elsewhere (top s0) s3 ((top s1, p) :: cs) a) as Hold.
  { intros a [Ha Hin]. split; [lia|]. rewrite fmap_cons. apply not_elem_of_cons. split; [simpl; lia|done]. }
  assert (forall a, known S (top s0) s cs a -> known S (top s0) s3 ((top s1, p) :: cs) a /\ a < top s) as Hkn.
  { intros a [Ha|Ha]; [split; [by left|specialize (HS a Ha); lia]|split; [right; auto|destruct Ha; lia]]. }
  constructor.
  - apply ext_roots. eapply ext_trans; [exact He|]. eapply ext_trans; [exact E1|]. apply (ext_from_roots s1 _ ([p; head; o] :: roots)). by apply ext_placed.
  - by exists p, l.
  - split; [done|]. split; [done|]. exists 24, head. split; [exact (mem_placed_new s1 _)|]. eapply chain_mono; [|done]. intros c Hc%Hcs. apply H3. lia.
  - rewrite fmap_cons. apply NoDup_cons. split; [|done]. simpl. intros Hin%Hcs. lia.
  - intros c Hc. rewrite fmap_cons in Hc. apply elem_of_cons in Hc as [->|Hc%Hcs]; simpl; lia.
  - constructor.
    + eapply repr_mono; [exact Hnew| | |exact Hp].
      * intros a [Ha|Ha]; [by apply Hkn|right; auto].
      * intros a [Ha|[Ha|Ha]]; apply H31; [lia|apply Hkn in Ha; lia|lia].
    + eapply Forall2_impl; [exact Hel|]. intros ca e' Hr. eapply repr_mono; [exact Hold|intros a Ha; by apply Hkn| |exact Hr].
      intros a [[Ha _]|Ha]; apply H3; [lia|by apply Hkn].
  - eapply symtab_mono; [| |exact Ht].
    + intros a [Ha|Ha]; [by apply Hkn|right; auto].
    + intros a [Ha|Ha]; apply H31; [apply Hkn in Ha; lia|lia].
Qed.

Lemma Forall2_rev {A B} (P : A -> B -> Prop) l k : Forall2 P l k -> Forall2 P (rev l) (rev k).
Proof. induction 1 as [|x y l k Hx _ IH]; [constructor|]. cbn [rev]. apply Forall2_app; [done|by repeat constructor]. Qed.

(** The end of the list: the cells are turned round. *)
Lemma building_end s0 S roots head cs ds T s fuel :
  building s0 S roots head cs ds T s -> (forall a, S a -> a < top s0) -> (length cs <= fuel)%nat ->
  exists h p, LispObjects.reverse fuel head s = Ok (p, with_Mem h s) /\ ext s0 (with_Mem h s) /\
    repr_list h (fun a => top s0 <= a < top s) (within S (top s0) (top s)) p (rev ds) /\
    symtab h (within S (top s0) (top s)) (Symbols (Block s)) T.
Proof.
  intros [He Hro Hch Hnd Hcs Hel Hst] HS Hf.
  destruct (reverse_loop_run cs [] head Nil s fuel Hch eq_refl ltac:(by rewrite app_nil_r) Hf) as (h & p & E & Hc & Hh).
  rewrite app_nil_r in Hc. exists h, p. split; [exact E|].
  assert (forall a, known S (top s0) s cs a -> h !! a = Mem (Heap s) !! a) as Hkn.
  { intros a [Ha|[_ Ha]]; apply Hh; [|done]. intros Hin%Hcs. specialize (HS a Ha). lia. }
  assert (forall a, known S (top s0) s cs a -> within S (top s0) (top s) a) as Hw by (intros a [Ha|[Ha _]]; [by left|by right]).
  split; [apply ext_write; [done|]; intros a Ha; apply Hh; intros Hin%Hcs; lia|]. split.
  - apply (chain_repr_list _ _ _ _ (rev cs)); [done|intros a Ha; apply Hcs; by rewrite (Permutation_rev cs)|].
    apply Forall2_rev. eapply Forall2_impl; [exact Hel|]. intros ca e Hr. eapply repr_mono; [| | |exact Hr]; [by intros a [Ha _]|exact Hw|].
    intros a [Ha|Ha]; apply Hkn; [by right|done].
  - by eapply symtab_mono.
Qed.

Lemma show_rest_next l rest : exists c r, show_rest false l +:+ rest = String c r /\ symbol_char c = false.
Proof. destruct l as [|e l]; [by eexists _, _|]. cbn [show_rest]. by eexists _, _. Qed.

Lemma read_close fuel s i : Input (World s) = ")" +:+ i -> read_expr (S fuel) s = Ok (Cparen, with_input i s).
Proof. intros Hi. cbn [read_expr]. by rewrite (st_bind_ok _ _ _ _ _ (get1char_run _ _ _ Hi)). Qed.

Lemma repr_read H F G p e : repr H F G p e -> (p =? NULL) = false /\ (p =? Cparen) = false /\ (p =? Dot) = false.
Proof. intros [->|Hp]%repr_address; [done|]. unfold NULL, Cparen, Dot, HEAP_BASE in *. split_and!; apply Z.eqb_neq; lia. Qed.

Lemma room_for_base s n : room_for s n -> HEAP_BASE <= top s.
Proof. intros []. unfold top. lia. Qed.

Definition first_cost (first : bool) : Z := if first then 24 else 0.

Lemma list_loop_run rf roots S s0 l : forall first fuel head cs ds T s rest,
  let len := String.length (show_rest first l) in
  Forall (reads rf) l -> (forall a, S a -> a < top s0) -> building s0 S roots head cs ds T s ->
  Input (World s) = show_rest first l +:+ rest -> room_for s (64 * Z.of_nat len + first_cost first) -> Z.of_nat len < 2 ^ 50 ->
  (length T + 2 * len + 2 <= rf)%nat -> (1 + 2 * length l + length cs <= fuel)%nat ->
  exists s' p T', list_loop (read_expr rf) fuel (Slot (length roots) 0) (Slot (length roots) 1) (Slot (length roots) 2) s = Ok (p, s') /\
    ext s0 s' /\ tail (Roots s') = roots /\ Input (World s') = rest /\ top s' <= top s + 64 * Z.of_nat len + first_cost first /\
    repr_list (Mem (Heap s')) (fun a => top s0 <= a < top s') (within S (top s0) (top s')) p (rev ds ++ l) /\
    symtab (Mem (Heap s')) (within S (top s0) (top s')) (Symbols (Block s')) T' /\ (length T' <= length T + len)%nat.
Proof.
  induction l as [|e l IH]; intros first fuel head cs ds T s rest len Hrd HS Hbu Hi Hro Hlen Hrf Hf; (destruct fuel as [|fuel]; [simpl in Hf; lia|]);
    pose proof (bu_roots _ _ _ _ _ _ _ _ Hbu) as (o & l0 & Hroots).
  - destruct rf as [|rf]; [lia|]. cbn [list_loop]. rewrite (st_bind_ok _ _ _ _ _ (read_close rf s rest Hi)).
    rewrite (st_bind_ok _ _ _ _ _ (put_run 0 Cparen (with_input rest s) [o; head; l0] roots Hroots)). cbn [Z.eqb Pos.eqb NULL Cparen].
    set (s1 := with_Roots ([Cparen; head; l0] :: roots) (with_input rest s)).
    assert (building s0 S roots head cs ds T s1) as Hbu1.
    { destruct Hbu as [E _ Hc Hn Hcs He Ht]. constructor; try done; [by apply ext_roots, ext_input|by eexists _, _]. }
    rewrite (proj2 (Z.eqb_neq Cparen NULL)) by done. rewrite Z.eqb_refl.
    rewrite (st_bind_ok _ _ _ _ _ (get_run (Slot (length roots) 1) s1 head (slot_own 1 s1 _ _ eq_refl))).
    destruct (building_end _ _ _ _ _ _ _ _ (Datatypes.S fuel) Hbu1 HS ltac:(simpl in Hf; lia)) as (h & p & E & He & Hp & Ht).
    exists (with_Mem h s1), p, T. rewrite app_nil_r. split_and!; try done; [|lia]. change (top (with_Mem h s1)) with (top s). unfold first_cost. destruct first; lia.
  - apply Forall_cons in Hrd as [Hrd Hrds]. cbn [show_rest] in Hi, len.
    destruct (show_rest_next l rest) as (c & r & Hcr & Hc). rewrite <- !sapp_assoc, Hcr in Hi.
    assert (len = (if first then 0 else 1) + String.length (show e) + String.length (show_rest false l))%nat as Hl
      by (unfold len; rewrite !sapp_length; by destruct first).
    pose proof (proj2 (ext_top _ _ (bu_ext _ _ _ _ _ _ _ _ Hbu))) as Ht0.
    destruct (Hrd (negb first) c r s (known S (top s0) s cs) T Hc) as (s1 & p & T1 & E1 & He1 & Hr1 & Hi1 & Ht1 & Hp & Hst & HT).
    { rewrite Hi. by destruct first. }
    { eapply room_for_le; [done|]. unfold first_cost. destruct first; lia. } { lia. }
    { intros a [Ha|[Ha _]]; [specialize (HS a Ha)|]; lia. } { apply Hbu. } { destruct first; simpl; lia. }
    cbn [list_loop]. rewrite (st_bind_ok _ _ _ _ _ E1). rewrite Hroots in Hr1.
    rewrite (st_bind_ok _ _ _ _ _ (put_run 0 p s1 _ _ Hr1)). cbn [list_insert insert].
    destruct (repr_read _ _ _ _ _ Hp) as (-> & -> & ->). pose proof (room_for_base _ _ Hro) as Hbase. pose proof (proj2 (ext_top _ _ He1)) as Ht01.
    set (s2 := with_Roots ([p; head; l0] :: roots) s1).
    assert (room_for s2 (24 + 64 * Z.of_nat (String.length (show_rest false l)))) as Hro2.
    { eapply (room_for_ext s); [by apply ext_roots|exact Hro| |lia]. change (top s2) with (top s1). unfold first_cost. destruct first; lia. }
    rewrite (st_bind_ok _ _ _ _ _ (cons_run s2 _ (Slot (length roots) 0) (Slot (length roots) 1) p head Hro2 ltac:(lia)
      (slot_own 0 s2 _ _ eq_refl) (slot_own 1 s2 _ _ eq_refl))).
    set (s3 := placed s2 (mkObj 24 (TCELL p head))).
    rewrite (st_bind_ok _ _ _ _ _ (put_run 1 (top s2) s3 [p; head; l0] roots eq_refl)). cbn [list_insert insert]. change (top s2) with (top s1).
    pose proof (building_step s0 S roots head cs ds T s s1 p e T1 l0 l0 Hbu HS ltac:(lia) He1 Hp Hst) as Hbu3.
    set (s4 := with_Roots _ _) in Hbu3. change (with_Roots _ s3) with s4.
    assert (top s4 = top s1 + 24) as Ht4 by (unfold s4, top; cbn; lia).
    destruct (IH false fuel (top s1) ((top s1, p) :: cs) (e :: ds) T1 s4 rest Hrds HS Hbu3) as (s' & q & T' & E' & He' & Hr' & Hi' & Ht' & Hq & Hst' & HT').
    { rewrite Hcr. exact Hi1. } { eapply (room_for_ext s2); [by apply ext_roots, ext_placed|exact Hro2| |unfold first_cost; lia].
      rewrite Ht4. change (top s2) with (top s1). unfold first_cost. lia. } { lia. } { destruct first; lia. } { simpl in *. lia. }
    exists s', q, T'. split; [exact E'|]. cbn [rev] in Hq. rewrite <- app_assoc in Hq.
    split_and!; try done; [|lia]. rewrite Ht4 in Ht'. unfold first_cost in *. destruct first; lia.
Qed.

(** ** Every expression is read *)

Lemma pretty_nonneg z : 0 <= z -> pretty z = pretty (Z.to_N z).
Proof. destruct z; [done|done|lia]. Qed.
Lemma pretty_neg z : z < 0 -> pretty z = String (Ascii.ascii_of_nat 45) (pretty (Z.to_N (- z))).
Proof. destruct z; [lia|lia|done]. Qed.

Lemma isdigit_range a : isdigit (schar a) = true -> 0 <= schar a - 48 < 10.
Proof. unfold isdigit. intros [H1%Z.leb_le H2%Z.leb_le]%andb_true_iff. lia. Qed.

(** The end of reading a number. *)
Lemma make_int_reads z c rest s S T room :
  room_for s room -> 16 <= room -> (forall a, S a -> a < top s) -> symtab (Mem (Heap s)) S (Symbols (Block s)) T ->
  exists s' p, make_int z (with_input (String c rest) s) = Ok (p, s') /\ ext s s' /\ Roots s' = Roots s /\ Input (World s') = String c rest /\
    top s' = top s + 16 /\ repr (Mem (Heap s')) (fun a => top s <= a < top s') (within S (top s) (top s')) p (EInt z) /\
    symtab (Mem (Heap s')) (within S (top s) (top s')) (Symbols (Block s')) T.
Proof.
  intros Hr Hroom HS Ht. set (s1 := with_input (String c rest) s). assert (room_for s1 room) as Hr1 by (by destruct Hr).
  assert (object_size 4 = 16) as H16 by (by vm_compute). set (s2 := placed s1 (mkObj 16 (TINT z))).
  assert (ext s1 s2) as E by (by apply ext_placed). assert (top s2 = top s + 16) as Ht2 by exact (top_placed s1 _).
  exists s2, (top s). unfold make_int. rewrite (alloc_run s1 (TINT z) 4 room Hr1) by lia. rewrite H16. split_and!; try done.
  - eapply ext_trans; [apply ext_input, ext_refl|exact E].
  - split; [lia|]. split; [by eapply room_for_base|]. exists 16. exact (mem_placed_new s1 _).
  - eapply symtab_mono; [| |exact Ht]; [intros a Ha; by left|]. intros a Ha. apply (mem_placed_old s1). by apply HS.
Qed.

Lemma reads_int z fuel c rest s S T :
  let len := String.length (show (EInt z)) in
  - 2 ^ 31 <= z < 2 ^ 31 -> symbol_char c = false -> Input (World s) = show (EInt z) +:+ String c rest -> room_for s (64 * Z.of_nat len) ->
  (forall a, S a -> a < top s) -> symtab (Mem (Heap s)) S (Symbols (Block s)) T -> (len + 1 <= fuel)%nat ->
  exists s' p, read_expr fuel s = Ok (p, s') /\ ext s s' /\ Roots s' = Roots s /\ Input (World s') = String c rest /\
    top s' = top s + 16 /\ repr (Mem (Heap s')) (fun a => top s <= a < top s') (within S (top s) (top s')) p (EInt z) /\
    symtab (Mem (Heap s')) (within S (top s) (top s')) (Symbols (Block s')) T.
Proof.
  intros len Hz Hc%symbol_char_digit Hi Hr HS Ht Hf. subst len. cbn [show] in *. destruct fuel as [|fuel]; [lia|].
  destruct (Z.lt_ge_cases z 0) as [Hn|Hn].
  - rewrite (pretty_neg z Hn) in *. destruct (pretty_digits (Z.to_N (- z))) as (a & ds & E & Ha & Hd & Hv). rewrite E in *.
    cbn [read_expr]. rewrite (st_bind_ok _ _ _ _ _ (get1char_run _ _ _ Hi)). change (schar (Ascii.ascii_of_nat 45)) with 45.
    set (s1 := with_input (String a ds +:+ String c rest) s).
    change (is_space 45) with false. change (45 =? EOF) with false. change (45 =? 59) with false. change (45 =? 40) with false.
    change (45 =? 41) with false. change (45 =? 46) with false. change (45 =? 39) with false. change (isdigit 45) with false. change (45 =? 45) with true. cbv iota.
    assert ((p ← peek; mret (isdigit p)) s1 = Ok (true, s1)) as Hp.
    { rewrite (st_bind_ok _ _ _ _ _ (peek_run s1 a (ds +:+ String c rest) eq_refl)). by rewrite Ha. }
    rewrite (st_bind_ok _ _ _ _ _ Hp). cbv iota.
    assert (read_number fuel 0 s1 = Ok (int32 (- z), with_input (String c rest) s)) as Hnum.
    { change 0 with (int32 0). rewrite (read_number_run (String a ds) c rest fuel 0 s1); [|by constructor|done|done|simpl in *; lia].
      do 3 f_equal. cbn [decimal]. rewrite <- Z2N.id by lia. exact Hv. }
    rewrite (st_bind_ok _ _ _ _ _ Hnum).
    assert (int32 (- int32 (- z)) = z) as ->.
    { destruct (decide (z = - 2 ^ 31)) as [->|]; [by vm_compute|]. rewrite (int32_small (- z)) by lia. rewrite int32_small; lia. }
    apply (make_int_reads z c rest s S T _ Hr); [simpl in *; lia|done|done].
  - rewrite (pretty_nonneg z Hn) in *. destruct (pretty_digits (Z.to_N z)) as (a & ds & E & Ha & Hd & Hv). rewrite E in *.
    cbn [read_expr]. rewrite (st_bind_ok _ _ _ _ _ (get1char_run _ _ _ Hi)).
    destruct (digit_class a Ha) as (-> & -> & -> & -> & -> & -> & ->). rewrite Ha. pose proof (isdigit_range a Ha) as Hrg.
    rewrite <- (int32_small (schar a - 48)) by lia.
    rewrite (st_bind_ok _ _ _ _ _ (read_number_run ds c rest fuel (schar a - 48) (with_input (ds +:+ String c rest) s) Hd Hc eq_refl ltac:(simpl in *; lia))).
    rewrite Hv, Z2N.id, int32_small by lia. apply (make_int_reads z c rest s S T _ Hr); [simpl in *; lia|done|done].
Qed.

Lemma reads_symbol n fuel c rest s S T :
  let len := String.length n in
  readable_symbol n -> (len <= 99)%nat -> symbol_char c = false -> Input (World s) = n +:+ String c rest -> room_for s (64 * Z.of_nat len) ->
  (forall a, S a -> a < top s) -> symtab (Mem (Heap s)) S (Symbols (Block s)) T -> (length T + len + 1 <= fuel)%nat ->
  exists s' p T', read_expr fuel s = Ok (p, s') /\ ext s s' /\ Roots s' = Roots s /\ Input (World s') = String c rest /\
    top s' <= top s + Z.of_nat len + 40 /\ repr (Mem (Heap s')) (fun a => top s <= a < top s') (within S (top s) (top s')) p (ESym n) /\
    symtab (Mem (Heap s')) (within S (top s) (top s')) (Symbols (Block s')) T' /\ (length T' <= length T + len)%nat.
Proof.
  intros len Hn Hlen Hc Hi Hr HS Ht Hf. subst len. destruct n as [|a cs]; [done|]. destruct Hn as (Hst & Hnd & Hminus & Hall).
  destruct fuel as [|fuel]; [simpl in *; lia|]. cbn [read_expr]. rewrite (st_bind_ok _ _ _ _ _ (get1char_run _ _ _ Hi)).
  destruct (symbol_start_class a Hst) as (-> & -> & -> & -> & -> & -> & -> & Hsym). rewrite Hnd.
  set (s1 := with_input (cs +:+ String c rest) s).
  assert ((if schar a =? 45 then p ← peek; mret (isdigit p) else mret false) s1 = Ok (false, s1)) as Hneg.
  { destruct (Z.eqb_spec (schar a) 45) as [H45|]; [|done]. specialize (Hminus H45). destruct cs as [|b cs].
    - rewrite (st_bind_ok _ _ _ _ _ (peek_run s1 c rest eq_refl)). by rewrite (symbol_char_digit c Hc).
    - rewrite (st_bind_ok _ _ _ _ _ (peek_run s1 b (cs +:+ String c rest) eq_refl)). simpl in Hminus. by rewrite Hminus. }
  rewrite (st_bind_ok _ _ _ _ _ Hneg). cbv iota. rewrite Hsym. unfold read_symbol. rewrite char_of_schar.
  assert (Forall (fun b => symbol_char b = true) (chars cs)) as Hcs by (inversion Hall; subst; eapply Forall_impl; [done|]; by intros ? []).
  rewrite (st_bind_ok _ _ _ _ _ (symbol_loop_run cs c rest fuel (String a EmptyString) 1 s1 Hcs Hc eq_refl
    ltac:(simpl in *; lia) ltac:(unfold SYMBOL_MAX_LEN; simpl in *; lia))).
  rewrite cstr_all by (eapply (Forall_impl _ _ _ Hall); by intros ? []).
  change (String a EmptyString +:+ cs) with (String a cs). set (s2 := with_input (String c rest) s1).
  assert (room_for s2 (64 * Z.of_nat (String.length (String a cs)))) as Hr2 by (by destruct Hr).
  destruct (intern_run fuel (String a cs) S T s2 _ Hr2 ltac:(simpl in *; lia) ltac:(simpl in *; lia) HS Ht ltac:(lia))
    as (s' & p & T' & E & He & Hro & Hw & Htop & Hp & Hb & Hm & Hst' & HT).
  exists s', p, T'. split_and!; try done.
  - eapply ext_trans; [|exact He]. apply ext_input, ext_input, ext_refl.
  - by rewrite Hw.
  - simpl in *. lia.
Qed.

Lemma show_rest_length l : (length l < String.length (show_rest false l))%nat /\ (length l <= String.length (show_rest true l))%nat.
Proof.
  assert (forall l, (length l < String.length (show_rest false l))%nat) as H.
  { intros k. induction k as [|e k IH]; [simpl; lia|]. cbn [show_rest length]. rewrite !sapp_length. simpl. lia. }
  split; [done|]. destruct l as [|e l]; [simpl; lia|]. cbn [show_rest length]. rewrite !sapp_length. specialize (H l). simpl. lia.
Qed.

Lemma reads_list l rf c rest s S T :
  let len := String.length (show (EList l)) in
  Forall (reads rf) l -> Input (World s) = show (EList l) +:+ String c rest -> room_for s (64 * Z.of_nat len) -> Z.of_nat len < 2 ^ 50 ->
  (forall a, S a -> a < top s) -> symtab (Mem (Heap s)) S (Symbols (Block s)) T -> (length T + 2 * len + 1 <= rf)%nat -> 
  exists s' p T', read_expr (Datatypes.S rf) s = Ok (p, s') /\ ext s s' /\ Roots s' = Roots s /\ Input (World s') = String c rest /\
    top s' <= top s + 64 * Z.of_nat len /\ repr (Mem (Heap s')) (fun a => top s <= a < top s') (within S (top s) (top s')) p (EList l) /\
    symtab (Mem (Heap s')) (within S (top s) (top s')) (Symbols (Block s')) T' /\ (length T' <= length T + len)%nat.
Proof.
  intros len Hl Hi Hr Hlen HS Ht Hf. rewrite show_list in Hi. set (rl := String.length (show_rest true l)).
  assert (len = Datatypes.S rl) as Hlr by reflexivity. pose proof (proj2 (show_rest_length l)) as Hll. fold rl in Hll.
  set (i := show_rest true l +:+ String c rest). cbn [read_expr].
  rewrite (st_bind_ok _ _ _ _ _ (get1char_run s (Ascii.ascii_of_nat 40) i Hi)). change (schar (Ascii.ascii_of_nat 40)) with 40.
  change (is_space 40) with false. change (40 =? EOF) with false. change (40 =? 59) with false. change (40 =? 40) with true. cbv iota.
  unfold read_list, DEFINE3. set (s1 := with_Roots ([NULL; Nil; NULL] :: Roots s) (with_input i s)).
  assert (building s (fun a => S a) (Roots s) Nil [] [] T s1) as Hbu.
  { constructor; [apply ext_roots, ext_input, ext_refl|by eexists _, _|done|apply NoDup_nil_2| |apply Forall2_nil_2|].
    - intros x Hx. by apply elem_of_nil in Hx.
    - eapply symtab_mono; [| |exact Ht]; [intros x Hx; by left|done]. }
  assert (room_for s1 (64 * Z.of_nat rl + first_cost true)) as Hr1.
  { eapply (room_for_ext s); [apply Hbu|exact Hr| |unfold first_cost; lia]. change (top s1) with (top s). unfold first_cost. lia. }
  destruct (list_loop_run rf (Roots s) S s l true rf Nil [] [] T s1 (String c rest) Hl HS Hbu eq_refl Hr1)
    as (s' & p & T' & E & He & Htl & Hi' & Htop & Hp & Hst & HT); [fold rl; lia|fold rl; lia|simpl; lia|].
  exists (with_Roots (tail (Roots s')) s'), p, T'. split_and!.
  - apply (ADD_ROOT_run 3 _ (with_input i s)). cbv beta. change (Roots (with_input i s)) with (Roots s).
    rewrite (st_bind_ok _ _ _ _ _ (put_run 1 Nil (with_Roots ([NULL; NULL; NULL] :: Roots s) (with_input i s)) [NULL; NULL; NULL] (Roots s) eq_refl)).
    exact E.
  - by apply ext_roots.
  - exact Htl.
  - exact Hi'.
  - change (top (with_Roots (tail (Roots s')) s')) with (top s'). change (top s1) with (top s) in Htop. unfold first_cost in Htop. fold rl in Htop. lia.
  - apply repr_EList. exact Hp.
  - exact Hst.
  - fold rl in HT. lia.
Qed.

(** Reading the text without a space before it is enough. *)
Lemma reads_space e : (forall fuel c rest s S T,
    let len := String.length (show e) in
    symbol_char c = false -> Input (World s) = show e +:+ String c rest -> room_for s (64 * Z.of_nat len) -> Z.of_nat len < 2 ^ 50 ->
    (forall a, S a -> a < top s) -> symtab (Mem (Heap s)) S (Symbols (Block s)) T -> (length T + 2 * len + 2 <= fuel)%nat ->
    exists s' p T', read_expr fuel s = Ok (p, s') /\ ext s s' /\ Roots s' = Roots s /\ Input (World s') = String c rest /\
      top s' <= top s + 64 * Z.of_nat len /\ repr (Mem (Heap s')) (fun a => top s <= a < top s') (within S (top s) (top s')) p e /\
      symtab (Mem (Heap s')) (within S (top s) (top s')) (Symbols (Block s')) T' /\ (length T' <= length T + len)%nat) ->
  forall fuel, reads fuel e.
Proof.
  intros H fuel [] c rest s S T len Hc Hi Hr Hlen HS Ht Hf; [|by apply H; rewrite ?Nat.add_0_r in Hf].
  destruct fuel as [|fuel]; [lia|]. set (i := show e +:+ String c rest). set (s1 := with_input i s).
  destruct (H fuel c rest s1 S T Hc eq_refl) as (s' & p & T' & E & He & Hro & Hi' & Htop & Hp & Hst & HT); [by destruct Hr|done|done|done|unfold len in *; lia|].
  exists s', p, T'. split_and!; try done.
  - cbn [read_expr]. rewrite (st_bind_ok _ _ _ _ _ (get1char_run s (Ascii.ascii_of_nat 32) i Hi)). exact E.
  - eapply ext_trans; [apply ext_input, ext_refl|exact He].
Qed.

Lemma show_pos e : readable e -> (1 <= String.length (show e))%nat.
Proof.
  destruct e as [z|n|l]; cbn [readable].
  - intros _. destruct (pretty_digits (Z.to_N z)) as (a & ds & E & _). destruct (pretty_digits (Z.to_N (- z))) as (b & es & E' & _).
    destruct (Z.lt_ge_cases z 0); cbn [show]; [rewrite pretty_neg by done|rewrite pretty_nonneg, E by done]; simpl; lia.
  - intros [Hn _]. destruct n; [done|]. simpl. lia.
  - rewrite show_list. simpl. lia.
Qed.

Lemma reads_all e : readable e -> forall fuel, reads fuel e.
Proof.
  induction e as [z|n|l IH] using sexp_ind'; intros Hrd; pose proof (show_pos _ Hrd) as Hpos; apply reads_space;
    intros fuel c rest s S T len Hc Hi Hr Hlen HS Ht Hf; fold len in Hpos.
  - destruct (reads_int z fuel c rest s S T Hrd Hc Hi Hr HS Ht ltac:(unfold len in *; lia)) as (s' & p & E & He & Hro & Hi' & Htop & Hp & Hst).
    exists s', p, T. split_and!; try done; lia.
  - destruct Hrd as [Hn Hl]. destruct (reads_symbol n fuel c rest s S T Hn Hl Hc Hi Hr HS Ht ltac:(unfold len in *; cbn [show] in *; lia))
      as (s' & p & T' & E & He & Hro & Hi' & Htop & Hp & Hst & HT).
    exists s', p, T'. split_and!; try done. change (String.length n) with len in Htop. lia.
  - rewrite readable_list in Hrd. destruct fuel as [|rf]; [lia|]. apply (reads_list l rf c rest s S T); try done; [|unfold len in *; lia].
    apply Forall_forall. intros e He. rewrite Forall_forall in IH, Hrd. apply IH; auto.
Qed.

(** ** Reading and printing *)

(** An expression is read and printed, without the evaluation between. *)
Definition echo (fuel : nat) : St LISP unit := p ← read_expr fuel; print fuel p.

Lemma depth_le e : readable e -> (depth_of e <= 2 * String.length (show e))%nat.
Proof.
  induction e as [z|n|l IH] using sexp_ind'; intros Hrd; [pose proof (show_pos _ Hrd); simpl in *; lia..|].
  rewrite depth_EList, show_list. change (String.length ("(" +:+ show_rest true l)) with (S (String.length (show_rest true l))).
  rewrite readable_list in Hrd.
  assert (depth_list l + 2 <= 2 * String.length (show_rest false l))%nat as H.
  { induction l as [|e l IHl]; [simpl; lia|]. apply Forall_cons in IH as [He IH], Hrd as [Hr Hrd]. specialize (IHl IH Hrd). specialize (He Hr).
    cbn [depth_list show_rest]. rewrite !sapp_length. simpl. lia. }
  assert (String.length (show_rest false l) <= S (String.length (show_rest true l)))%nat as Ht.
  { destruct l as [|e l]; [simpl; lia|]. cbn [show_rest]. rewrite !sapp_length. simpl. lia. }
  lia.
Qed.

Lemma echo_with_room fuel e c rest s T :
  let len := String.length (show e) in
  readable e -> symbol_char c = false -> Input (World s) = show e +:+ String c rest -> room_for s (64 * Z.of_nat len) -> Z.of_nat len < 2 ^ 50 ->
  symtab (Mem (Heap s)) (fun a => a < top s) (Symbols (Block s)) T -> Mem (Heap s) !! Nil = Some (mkObj 0 (TCONST CNil NULL NULL)) ->
  (length T + 2 * len + 2 <= fuel)%nat ->
  exists s', echo fuel s = Ok (tt, s') /\
    World s' = mkWorld (String c rest) (Output (World s) +:+ show e) (Slept (World s)) (GensymCount (World s)).
Proof.
  intros len Hrd Hc Hi Hr Hlen Ht HN Hf.
  destruct (reads_all e Hrd fuel false c rest s (fun a => a < top s) T Hc Hi Hr Hlen ltac:(done) Ht ltac:(unfold len in *; lia))
    as (s1 & p & T' & E & He & Hro & Hi' & Htop & Hp & _). pose proof (room_for_base _ _ Hr) as Hb. pose proof (depth_le e Hrd).
  unfold echo. rewrite (st_bind_ok _ _ _ _ _ E). exists (with_output (show e) s1). split.
  - eapply print_run; [done|done| |done|unfold len in *; lia]. rewrite (ex_mem _ _ He); [done|]. unfold HEAP_BASE, Nil in *. lia.
  - change (World (with_output (show e) s1)) with (with_Output (Output (World s1) +:+ show e) (World s1)). by rewrite (ex_world _ _ He), Hi'.
Qed.

(** The text has no dots. *)
Lemma chars_app a b : chars (a +:+ b) = chars a ++ chars b.
Proof. induction a as [|x a IH]; [done|]. change (x :: chars (a +:+ b) = x :: (chars a ++ chars b)). by rewrite IH. Qed.
Lemma dotless_app a b : dotless a -> dotless b -> dotless (a +:+ b).
Proof. unfold dotless. change (String.list_ascii_of_string (a +:+ b)) with (chars (a +:+ b)). rewrite chars_app. apply Forall_app_2. Qed.

Lemma not_dot a : isdigit (schar a) = true \/ symbol_char a = true -> a <> Ascii.ascii_of_nat 46.
Proof. intros H ->. by destruct H. Qed.

Lemma digits_dotless ds : digits ds -> dotless ds.
Proof. intros H. eapply Forall_impl; [exact H|]. intros a Ha. apply not_dot. by left. Qed.

Lemma show_dotless e : readable e -> dotless (show e).
Proof.
  assert (forall n, dotless (pretty (n : N))) as Hnum.
  { intros n. destruct (pretty_digits n) as (a & ds & -> & Ha & Hd & _). apply digits_dotless. by constructor. }
  induction e as [z|n|l IH] using sexp_ind'; intros Hrd.
  - cbn [show]. destruct (Z.lt_ge_cases z 0); [rewrite pretty_neg by done; constructor; [done|apply Hnum]|rewrite pretty_nonneg by done; apply Hnum].
  - destruct Hrd as [Hn _]. cbn [show]. unfold readable_symbol in Hn. unfold dotless. change (String.list_ascii_of_string n) with (chars n).
    destruct (chars n) as [|a cs]; [done|]. destruct Hn as (_ & _ & _ & Hn). eapply Forall_impl; [exact Hn|].
    intros x [Hx _]. apply not_dot. by right.
  - rewrite show_list. apply dotless_app; [by repeat constructor|]. rewrite readable_list in Hrd. generalize true.
    induction l as [|e l IHl]; intros b; [by repeat constructor|]. apply Forall_cons in IH as [He IH], Hrd as [Hr Hrd].
    cbn [show_rest]. apply dotless_app; [destruct b; by repeat constructor|]. apply dotless_app; [by apply He|by apply IHl].
Qed.

(** [s] with room for everything. *)
Definition relaxed (s : LISP) : LISP :=
  mkLisp (let b := Block s in mkBlock (memory b) (from_space b) (mem_nused b) (cur_heap b) (memory b + 2 ^ 62) (2 ^ 62 - 1) (gc_running b) (debug_gc b) false (Symbols b))
    (Heap s) (Roots s) (World s).

Lemma relaxed_ok s l : lisp_ok s l -> lisp_ok (relaxed s) l.
Proof. intros []. constructor; try done; simpl; lia. Qed.

Lemma echo_agrees U fuel beta d : U -> agrees (mkCtx d (fun _ _ => False) U) beta (echo fuel) (echo fuel) (fun _ _ _ => True).
Proof.
  intros HU. unfold echo. eapply agrees_bind; [by apply read_expr_agrees|]. cbv beta. intros beta' p q _ [Hp _].
  eapply keeps_agrees; [by apply print_keeps|done].
Qed.

(** The text goes to the terminal and the input is consumed up to [rest]; or the memory is
    exhausted. *)
Definition echoes (fuel : nat) (text rest : string) (s : LISP) : Prop :=
  match echo fuel s with
  | Ok (_, s') => World s' = mkWorld rest (Output (World s) +:+ text) (Slept (World s)) (GensymCount (World s))
  | Err f => f = FMemory
  end.

(** C14: what the printer writes the reader reads.  On the text of any expression of
    integers, symbols and lists, at whatever state of the heap and of the symbol table, the
    reader builds an expression from which the printer writes the same text again; it
    consumes exactly the text.  It can only fail for lack of memory, and does not if 64 bytes
    are free for every character. *)
Theorem read_print_roundtrip fuel e c rest s l T :
  let len := String.length (show e) in
  readable e -> symbol_char c = false -> dotless (String c rest) -> Input (World s) = show e +:+ String c rest ->
  lisp_ok s l -> debug_gc (Block s) = false -> memory_size (Block s) <= 2 ^ 61 ->
  (forall p, p < HEAP_BASE -> Mem (Heap s) !! p = statics NULL !! p) ->
  symtab (Mem (Heap s)) (fun a => a < top s) (Symbols (Block s)) T ->
  Z.of_nat len < 2 ^ 50 -> (length T + 2 * len + 2 <= fuel)%nat ->
  echoes fuel (show e) (String c rest) s /\
  (always_gc (Block s) = false -> mem_nused (Block s) + 64 * Z.of_nat len <= memory_size (Block s) -> exists s', echo fuel s = Ok (tt, s')).
Proof.
  intros len Hrd Hc Hdot Hi Hok Hd Hsize Hst Ht Hlen Hf.
  assert (0 <= mem_nused (Block s)) as Hu by (pose proof (layout_nonneg _ _ _ _ (lk_layout _ _ Hok)); lia).
  pose proof (lk_used _ _ Hok) as Hused. pose proof (proj1 (lk_base _ _ Hok)) as Hb.
  assert (Mem (Heap s) !! Nil = Some (mkObj 0 (TCONST CNil NULL NULL))) as HN by (by rewrite (Hst Nil)). split.
  - destruct (echo_with_room fuel e c rest (relaxed s) T Hrd Hc Hi) as (s2 & E2 & Hw2); [|done|done|done|done|].
    { constructor; simpl; [done|lia|fold len; lia|done]. }
    pose proof (sim_same True s (relaxed s) l Hok (relaxed_ok _ _ Hok) Hd Hd eq_refl eq_refl eq_refl eq_refl Hst) as Hsim.
    pose proof (echo_agrees True fuel _ _ I _ _ (Hsim ltac:(intros _; rewrite Hi; apply dotless_app; [by apply show_dotless|done]))) as H.
    unfold echoes. rewrite E2 in H. destruct (echo fuel s) as [[? s1]|f]; [|done]. destruct H as (beta & [(l1 & l2 & Hs) _] & _). by rewrite (sim_world _ _ _ _ _ Hs).
  - intros Ha Hroom. destruct (echo_with_room fuel e c rest s T Hrd Hc Hi) as (s2 & E2 & _); [|done|done|done|done|by exists s2].
    constructor; [done|done|fold len; lia|done].
Qed.

(** A fresh interpreter that moves all objects at every allocation. *)
Definition expression : sexp := EList [ESym "a"; EList [EInt 12; EInt (-2147483648); ESym "a"]; EList []; ESym "set!"].
Definition reading : LISP :=
  mkLisp (with_Symbols Nil (lisp_init 1000 100000 2000 false true (mkBlock 0 0 0 0 0 0 false false false 0)))
    (mkGc (statics NULL) NULL NULL) [] (mkWorld (show expression +:+ " (b)") "> " [] 0).

Lemma read_print_roundtrip_witness :
  show expression = "(a (12 -2147483648 a) () set!)" /\ echoes 64 (show expression) " (b)" reading.
Proof.
  split; [vm_compute; reflexivity|].
  refine (proj1 (read_print_roundtrip 64 expression (Ascii.ascii_of_nat 32) "(b)" reading [] [] _ _ _ _ _ _ _ _ _ _ _)).
  - cbn. split_and!; try done; repeat constructor; done.
  - reflexivity.
  - refine (bool_decide_unpack _ _). vm_compute. exact I.
  - vm_compute. reflexivity.
  - apply (fresh_ok (mkLisp (lisp_init 1000 100000 2000 false true (mkBlock 0 0 0 0 0 0 false false false 0)) (mkGc (statics NULL) NULL NULL) []
      (mkWorld (show expression +:+ " (b)") "> " [] 0)) (mkBlock 0 0 0 0 0 0 false false false 0) 1000 100000 2000 true (mkWorld (show expression +:+ " (b)") "> " [] 0)).
    constructor; try reflexivity; unfold HEAP_BASE; lia.
  - reflexivity.
  - cbn. lia.
  - reflexivity.
  - reflexivity.
  - vm_compute. reflexivity.
  - apply Nat.leb_le. vm_compute. reflexivity.
Defined.

(** The run of the witness has memory enough. *)
Example reading_echoed :
  (match echo 64 reading with Ok (_, s') => Some (Output (World s')) | Err _ => None end) = Some "> (a (12 -2147483648 a) () set!)".
Proof. vm_compute. reflexivity. Qed.
