(* ===== verification/Isr.v ===== *)
(** * Interrupt levels (kernel/isr.c, and the IRQ part of hal/unix_hal.c)

    The HAL part gives every level a signal mask and blocks signals with
    [sigprocmask]; the Isr unit counts the disables of each level and selects the mask
    of the highest disabled level. *)

From S2P Require Import Prelude.

(** ** [enum IRQ_LEVEL] *)

Definition IRQ_LEVEL_NONE : Z := 0.
Definition IRQ_LEVEL_CRIT : Z := 1.
Definition IRQ_LEVEL_SOFT : Z := 2.
Definition IRQ_LEVEL_SERIAL_WRITE : Z := 3.
Definition IRQ_LEVEL_SERIAL_READ : Z := 4.
Definition IRQ_LEVEL_TIMER : Z := 5.
Definition IRQ_LEVEL_WATCHDOG : Z := 6.
Definition IRQ_LEVEL_RESET : Z := 7.
Definition IRQ_LEVEL_COUNT : Z := 8.
Definition IRQ_LEVEL_MAX : Z := IRQ_LEVEL_TIMER.

(** The signal numbers of the Linux build ([HAL_ISR_*]) and [NSIG]. *)
Definition HAL_ISR_TRAMPOLINE : Z := 17.
Definition HAL_ISR_WATCHDOG : Z := 26.
Definition HAL_ISR_TIMER : Z := 14.
Definition HAL_ISR_SOFT : Z := 10.
Definition HAL_ISR_CRIT : Z := 12.
Definition HAL_ISR_SERIAL_WRITE : Z := 28.
Definition HAL_ISR_SERIAL_READ : Z := 29.
Definition HAL_ISR_RESET : Z := 2.
Definition NSIG : Z := 65.

(** The functions the kernel installs as [ISR_HANDLER] (they take no argument) and the
    ones it installs as [HAL_ISR_HANDLER] (they take the level). *)
Inductive ISR_HANDLER :=
| CritInterrupt_ | SoftInterrupt_ | TimerInterrupt_ | SendBytesInterrupt_ | GetBytesInterrupt_.
Inductive HAL_ISR_HANDLER := IsrHandlerWrapper_ | HalReset_ | WatchdogInterrupt_.

#[export] Instance ISR_HANDLER_eq_dec : EqDecision ISR_HANDLER.
Proof. solve_decision. Defined.
#[export] Instance HAL_ISR_HANDLER_eq_dec : EqDecision HAL_ISR_HANDLER.
Proof. solve_decision. Defined.

(** The globals of both units, the signal mask of the process and the signals that are
    raised but not delivered. *)
Record CPU := mkCPU {
  IsrDisabledCount : list Z;
  IsrHandlerTable : list (option ISR_HANDLER);
  HalIrqToMask : list (gset Z);            (* HalIrqToSigaction[level].sa_mask *)
  HalIrqToSignal : list Z;
  HalSignalToHandler : list (option HAL_ISR_HANDLER);
  HalSignalToIrq : list Z;
  SignalMask : gset Z;
  Pending : gset Z
}.

Definition set_IsrDisabledCount v c := mkCPU v (IsrHandlerTable c) (HalIrqToMask c)
  (HalIrqToSignal c) (HalSignalToHandler c) (HalSignalToIrq c) (SignalMask c) (Pending c).
Definition set_IsrHandlerTable v c := mkCPU (IsrDisabledCount c) v (HalIrqToMask c)
  (HalIrqToSignal c) (HalSignalToHandler c) (HalSignalToIrq c) (SignalMask c) (Pending c).
Definition set_HalIrqToMask v c := mkCPU (IsrDisabledCount c) (IsrHandlerTable c) v
  (HalIrqToSignal c) (HalSignalToHandler c) (HalSignalToIrq c) (SignalMask c) (Pending c).
Definition set_HalIrqToSignal v c := mkCPU (IsrDisabledCount c) (IsrHandlerTable c)
  (HalIrqToMask c) v (HalSignalToHandler c) (HalSignalToIrq c) (SignalMask c) (Pending c).
Definition set_HalSignalToHandler v c := mkCPU (IsrDisabledCount c) (IsrHandlerTable c)
  (HalIrqToMask c) (HalIrqToSignal c) v (HalSignalToIrq c) (SignalMask c) (Pending c).
Definition set_HalSignalToIrq v c := mkCPU (IsrDisabledCount c) (IsrHandlerTable c)
  (HalIrqToMask c) (HalIrqToSignal c) (HalSignalToHandler c) v (SignalMask c) (Pending c).
Definition set_SignalMask v c := mkCPU (IsrDisabledCount c) (IsrHandlerTable c)
  (HalIrqToMask c) (HalIrqToSignal c) (HalSignalToHandler c) (HalSignalToIrq c) v (Pending c).
Definition set_Pending v c := mkCPU (IsrDisabledCount c) (IsrHandlerTable c)
  (HalIrqToMask c) (HalIrqToSignal c) (HalSignalToHandler c) (HalSignalToIrq c) (SignalMask c) v.

Definition rd {A} (f : CPU -> list A) (i : Z) : St CPU A := fun c => liftr (arr_get (f c) i) c.

Definition wr {A} (f : CPU -> list A) (g : list A -> CPU -> CPU) (i : Z) (v : A) : St CPU unit :=
  l ← (fun c => liftr (arr_set (f c) i v) c);
  modify (g l).

(** ** hal/unix_hal.c *)

(** [sigprocmask( SIG_SETMASK, ... )]. *)
Definition HalSetIrq (irq : Z) : St CPU unit :=
  mask ← rd HalIrqToMask irq;
  modify (set_SignalMask mask).

(** Whether every signal of the level's mask is blocked. *)
Definition HalIsIrqAtomic (level : Z) : St CPU bool :=
  levelSet ← rd HalIrqToMask level;
  curSet ← gets SignalMask;
  mret (bool_decide (levelSet ⊆ curSet)).

(** [raise]: the signal becomes pending; its delivery is a step of its own
    (see [Deliver]). *)
Definition HalRaiseInterrupt (level : Z) : St CPU unit :=
  sig ← rd HalIrqToSignal level;
  modify (fun c => set_Pending ({[sig]} ∪ Pending c) c).

Definition HalClearSignals : St CPU unit :=
  modify (fun c => set_HalIrqToMask (replicate (Z.to_nat IRQ_LEVEL_COUNT) ∅)
    (set_HalIrqToSignal (replicate (Z.to_nat IRQ_LEVEL_COUNT) 0) c));;
  modify (fun c => set_HalSignalToHandler (replicate (Z.to_nat NSIG) None)
    (set_HalSignalToIrq (replicate (Z.to_nat NSIG) IRQ_LEVEL_NONE) c)).

(** Adds [signum] to the masks of [n] levels from [i] on: the [for] loops of
    [HalBlockSignal] and [HalRegisterIsrHandler]. *)
Fixpoint AddToMasks (n : nat) (i signum : Z) : St CPU unit :=
  match n with
  | O => mret tt
  | S n =>
      m ← rd HalIrqToMask i;
      wr HalIrqToMask set_HalIrqToMask i ({[signum]} ∪ m);;
      AddToMasks n (i + 1) signum
  end.

Definition HalBlockSignal (which : Z) : St CPU unit :=
  AddToMasks (Z.to_nat IRQ_LEVEL_COUNT) 0 which.

Definition HalIsrInit : St CPU unit :=
  HalClearSignals;; HalBlockSignal HAL_ISR_TRAMPOLINE.

(** The [sigaction] calls of [HalIsrFinalize] install [HalIsrHandler] with the masks of
    the table; the model reads the tables at delivery. *)
Definition HalRegisterIsrHandler (handler : HAL_ISR_HANDLER) (which level : Z) : St CPU unit :=
  a ← HalIsIrqAtomic IRQ_LEVEL_MAX;
  assert a;;
  AddToMasks (Z.to_nat (IRQ_LEVEL_COUNT - level)) level which;;
  wr HalIrqToSignal set_HalIrqToSignal level which;;
  wr HalSignalToHandler set_HalSignalToHandler which (Some handler);;
  wr HalSignalToIrq set_HalSignalToIrq which level;;
  HalSetIrq IRQ_LEVEL_MAX.

(** ** kernel/isr.c *)

Definition IsrStartup : St CPU unit :=
  HalIsrInit;;
  modify (set_IsrDisabledCount (replicate (Z.to_nat IRQ_LEVEL_COUNT) 0));;
  modify (set_IsrHandlerTable (replicate (Z.to_nat IRQ_LEVEL_COUNT) None)).

Definition IsrCheckLevel (changingLevel candidateLevel : Z) (enable : bool) : St CPU bool :=
  n ← rd IsrDisabledCount candidateLevel;
  if (n >? 0) || ((candidateLevel =? changingLevel) && negb enable) then
    HalSetIrq candidateLevel;; mret true
  else mret false.

(** The loop of [IsrDefer] from the level [l] down. *)
Fixpoint DeferFrom (l : nat) (level : Z) (enable : bool) : St CPU unit :=
  match l with
  | O => HalSetIrq IRQ_LEVEL_NONE
  | S l' =>
      found ← IsrCheckLevel level (Z.of_nat l) enable;
      if (found : bool) then mret tt else DeferFrom l' level enable
  end.

Definition IsrDefer (level : Z) (enable : bool) : St CPU unit :=
  DeferFrom (Z.to_nat (IRQ_LEVEL_COUNT - 1)) level enable.

Definition IsrDisable (level : Z) : St CPU unit :=
  n ← rd IsrDisabledCount level;
  (if n =? 0 then IsrDefer level false else mret tt);;
  n ← rd IsrDisabledCount level;
  wr IsrDisabledCount set_IsrDisabledCount level (w64 (n + 1)).

Definition IsrEnable (level : Z) : St CPU unit :=
  a ← HalIsIrqAtomic level;
  assert a;;
  n ← rd IsrDisabledCount level;
  assert (n >? 0);;
  wr IsrDisabledCount set_IsrDisabledCount level (w64 (n - 1));;
  n ← rd IsrDisabledCount level;
  if n =? 0 then IsrDefer level true else mret tt.

Definition IsrIncrement (level : Z) : St CPU unit :=
  a ← HalIsIrqAtomic level;
  assert a;;
  n ← rd IsrDisabledCount level;
  assert (n =? 0);;
  wr IsrDisabledCount set_IsrDisabledCount level (w64 (n + 1)).

Definition IsrDecrement (level : Z) : St CPU unit :=
  a ← HalIsIrqAtomic level;
  assert a;;
  n ← rd IsrDisabledCount level;
  assert (n =? 1);;
  wr IsrDisabledCount set_IsrDisabledCount level (w64 (n - 1)).

(** The loop of [IsrIsAtomic]: [n] levels from [level + n - 1] down to [level]. *)
Fixpoint AtomicFrom (n : nat) (level : Z) : St CPU bool :=
  match n with
  | O => mret false
  | S n' =>
      let l := level + Z.of_nat n' in
      c ← rd IsrDisabledCount l;
      a ← HalIsIrqAtomic l;
      if c =? 0 then assert (negb a);; AtomicFrom n' level
      else assert a;; mret true
  end.

Definition IsrIsAtomic (level : Z) : St CPU bool :=
  assert (negb (level =? IRQ_LEVEL_NONE));;
  AtomicFrom (Z.to_nat (IRQ_LEVEL_COUNT - level)) level.

Definition IsrIsEdge (level : Z) : St CPU bool :=
  a ← HalIsIrqAtomic level;
  n ← rd IsrDisabledCount level;
  mret (a && (n =? 0)).

Definition IsrRegisterHandler (handler : ISR_HANDLER) (which level : Z) : St CPU unit :=
  wr IsrHandlerTable set_IsrHandlerTable level (Some handler);;
  HalRegisterIsrHandler IsrHandlerWrapper_ which level.

(** ** Well-formed states *)

(** The disable count and the signal mask of a level. *)
Definition cnt (counts : list Z) (l : Z) : Z := default 0 (counts !! Z.to_nat l).
Definition mask_of (c : CPU) (l : Z) : gset Z := default ∅ (HalIrqToMask c !! Z.to_nat l).

(** The highest level up to [n] that satisfies [d], [IRQ_LEVEL_NONE] if there is none. *)
Fixpoint highest (n : nat) (d : Z -> bool) : Z :=
  match n with
  | O => IRQ_LEVEL_NONE
  | S n' => if d (Z.of_nat n) then Z.of_nat n else highest n' d
  end.

Definition top (counts : list Z) : Z := highest 7 (fun l => 0 <? cnt counts l).

(** Every level from CRIT up has its own signal, so the masks grow strictly. *)
Definition masks_ok (c : CPU) : Prop :=
  length (HalIrqToMask c) = 8%nat /\
  forall i j, 0 <= i < j -> j < 8 -> mask_of c i ⊂ mask_of c j.

Definition counts_ok (counts : list Z) : Prop := length counts = 8%nat /\ Forall u64 counts.

#[export] Instance counts_ok_dec counts : Decision (counts_ok counts).
Proof. unfold counts_ok, u64. apply _. Defined.

(** Between interrupts: the mask is that of the highest disabled level. *)
Definition cpu_ok (c : CPU) : Prop :=
  masks_ok c /\ counts_ok (IsrDisabledCount c) /\
  SignalMask c = mask_of c (top (IsrDisabledCount c)).

(** The state with other counts and the mask they call for. *)
Definition relevel (c : CPU) (counts : list Z) : CPU :=
  set_SignalMask (mask_of c (top counts)) (set_IsrDisabledCount counts c).

(** ** Lemmas *)

Lemma highest_spec n d :
  0 <= highest n d <= Z.of_nat n /\
  (highest n d = 0 \/ d (highest n d) = true) /\
  forall l, highest n d < l <= Z.of_nat n -> d l = false.
Proof.
  induction n as [|n (H1 & H2 & H3)]; cbn [highest].
  - unfold IRQ_LEVEL_NONE. split; [lia|]. split; [by left|]. intros l Hl. lia.
  - destruct (d (Z.of_nat (S n))) eqn:Hd.
    + split; [lia|]. split; [by right|]. intros l Hl. lia.
    + split; [lia|]. split; [done|]. intros l Hl.
      destruct (decide (l = Z.of_nat (S n))) as [->|]; [done|apply H3; lia].
Qed.

Lemma highest_ext n d d' :
  (forall l, 1 <= l <= Z.of_nat n -> d l = d' l) -> highest n d = highest n d'.
Proof.
  intros H. induction n as [|n IH]; [done|]. cbn [highest]. rewrite H by lia.
  rewrite IH; [done|]. intros l Hl. apply H. lia.
Qed.

Lemma rd_ok {A} (f : CPU -> list A) i v c :
  0 <= i -> f c !! Z.to_nat i = Some v -> rd f i c = Ok (v, c).
Proof. intros. unfold rd. by apply liftr_ok, arr_get_ok. Qed.

Lemma wr_ok {A} (f : CPU -> list A) g i v c :
  0 <= i < zlen (f c) -> wr f g i v c = Ok (tt, g (<[Z.to_nat i := v]> (f c)) c).
Proof. intros. unfold wr, mbind, st_bind. by rewrite (liftr_ok _ _ _ (arr_set_ok _ _ v H)). Qed.

Lemma counts_lookup counts l :
  counts_ok counts -> 0 <= l < 8 -> counts !! Z.to_nat l = Some (cnt counts l).
Proof.
  intros [Hl _] H. unfold cnt. destruct (lookup_lt_is_Some_2 counts (Z.to_nat l)) as [x ->]; [lia|done].
Qed.

Lemma counts_u64 counts l : counts_ok counts -> u64 (cnt counts l).
Proof.
  intros [_ Hu]. unfold cnt. destruct (counts !! Z.to_nat l) eqn:H; simpl; [|unfold u64; lia].
  by eapply (Forall_lookup_1 u64).
Qed.

Lemma cnt_insert counts l v k :
  counts_ok counts -> 0 <= l < 8 -> 0 <= k ->
  cnt (<[Z.to_nat l := v]> counts) k = if decide (k = l) then v else cnt counts k.
Proof.
  intros [Hl _] H Hk. unfold cnt. destruct (decide (k = l)) as [->|Hne].
  - by rewrite list_lookup_insert_eq by lia.
  - rewrite list_lookup_insert_ne by lia. done.
Qed.

Lemma cnt_insert_le counts n v k : cnt (<[n := v]> counts) k <= Z.max v (cnt counts k).
Proof.
  unfold cnt. rewrite list_lookup_insert. case_decide; simpl; lia.
Qed.

Lemma counts_ok_insert counts l v :
  counts_ok counts -> u64 v -> counts_ok (<[l := v]> counts).
Proof. intros [Hl Hu] Hv. split; [by rewrite length_insert|by apply Forall_insert]. Qed.

Lemma mask_lookup c l :
  length (HalIrqToMask c) = 8%nat -> 0 <= l < 8 -> HalIrqToMask c !! Z.to_nat l = Some (mask_of c l).
Proof.
  intros Hl H. unfold mask_of.
  destruct (lookup_lt_is_Some_2 (HalIrqToMask c) (Z.to_nat l)) as [x ->]; [lia|done].
Qed.

Lemma mask_mono c i j : masks_ok c -> 0 <= i < 8 -> 0 <= j < 8 -> mask_of c i ⊆ mask_of c j <-> i <= j.
Proof.
  intros [_ Hm] Hi Hj. split.
  - intros Hs. destruct (decide (i <= j)) as [|Hlt]; [done|]. pose proof (Hm j i ltac:(lia) ltac:(lia)). set_solver.
  - intros Hle. destruct (decide (i = j)) as [->|]; [done|]. pose proof (Hm i j ltac:(lia) ltac:(lia)). set_solver.
Qed.

Lemma top_range counts : 0 <= top counts < 8.
Proof. unfold top. pose proof (highest_spec 7 (fun l => 0 <? cnt counts l)) as (H & _). lia. Qed.

Lemma HalSetIrq_ok l c :
  length (HalIrqToMask c) = 8%nat -> 0 <= l < 8 ->
  HalSetIrq l c = Ok (tt, set_SignalMask (mask_of c l) c).
Proof. intros Hl H. unfold HalSetIrq. st_step rd_ok by (lia || by apply mask_lookup). done. Qed.

Lemma DeferFrom_ok n level enable c :
  masks_ok c -> counts_ok (IsrDisabledCount c) -> (n < 8)%nat ->
  DeferFrom n level enable c = Ok (tt, set_SignalMask
    (mask_of c (highest n (fun l => (0 <? cnt (IsrDisabledCount c) l) || ((l =? level) && negb enable)))) c).
Proof.
  intros Hm Hc. induction n as [|n IH]; intros Hn.
  - cbn [DeferFrom highest]. by apply HalSetIrq_ok; [apply Hm|].
  - cbn [DeferFrom highest]. unfold IsrCheckLevel.
    assert (rd IsrDisabledCount (Z.of_nat (S n)) c =
      Ok (cnt (IsrDisabledCount c) (Z.of_nat (S n)), c)) as Hr
      by (apply rd_ok; [lia|by apply counts_lookup; [|lia]]).
    unfold mbind at 1 2, st_bind at 1 2. rewrite Hr, Z.gtb_ltb.
    destruct ((0 <? cnt (IsrDisabledCount c) (Z.of_nat (S n))) || _) eqn:Hd.
    + unfold mbind, st_bind. rewrite HalSetIrq_ok by (apply Hm || lia). done.
    + simpl. apply IH. lia.
Qed.

Lemma HalIsIrqAtomic_ok l c :
  cpu_ok c -> 0 <= l < 8 -> HalIsIrqAtomic l c = Ok (l <=? top (IsrDisabledCount c), c).
Proof.
  intros (Hm & Hc & Hs) Hl. unfold HalIsIrqAtomic.
  st_step rd_ok by (lia || by apply mask_lookup; [apply Hm|]). unfold mbind, st_bind, gets, mret, st_ret.
  do 2 f_equal. pose proof (top_range (IsrDisabledCount c)). rewrite Hs.
  destruct (Z.leb_spec l (top (IsrDisabledCount c))).
  - apply bool_decide_eq_true. by apply mask_mono.
  - apply bool_decide_eq_false. intros Hsub. apply mask_mono in Hsub; [lia|done|done|done].
Qed.

Lemma top_ge counts l : 1 <= l < 8 -> 0 < cnt counts l -> l <= top counts.
Proof.
  intros Hl Hc. unfold top. pose proof (highest_spec 7 (fun l => 0 <? cnt counts l)) as (_ & _ & H).
  destruct (decide (l <= highest 7 (fun l => 0 <? cnt counts l))); [done|].
  specialize (H l ltac:(lia)). simpl in H. destruct (Z.ltb_spec 0 (cnt counts l)); [done|lia].
Qed.

Lemma top_pos counts : top counts = 0 \/ 0 < cnt counts (top counts).
Proof.
  unfold top. pose proof (highest_spec 7 (fun l => 0 <? cnt counts l)) as (_ & [H|H] & _); [by left|].
  right. destruct (Z.ltb_spec 0 (cnt counts (highest 7 (fun l => 0 <? cnt counts l)))); done.
Qed.

Lemma top_above counts l : counts_ok counts -> top counts < l < 8 -> cnt counts l = 0.
Proof.
  intros Hc Hl. pose proof (top_range counts). pose proof (counts_u64 counts l Hc) as Hu.
  destruct (decide (0 < cnt counts l)); [|unfold u64 in Hu; lia].
  pose proof (top_ge counts l ltac:(lia) ltac:(done)). lia.
Qed.

Lemma top_ext counts counts' :
  (forall l, 1 <= l < 8 -> 0 < cnt counts l <-> 0 < cnt counts' l) -> top counts = top counts'.
Proof.
  intros H. apply highest_ext. intros l Hl. specialize (H l ltac:(lia)).
  destruct (Z.ltb_spec 0 (cnt counts l)), (Z.ltb_spec 0 (cnt counts' l)); done || (exfalso; lia).
Qed.

Lemma relevel_ok c counts : cpu_ok c -> counts_ok counts -> cpu_ok (relevel c counts).
Proof. intros (Hm & _ & _) Hc. by split_and!. Qed.

Lemma relevel_same c : cpu_ok c -> relevel c (IsrDisabledCount c) = c.
Proof. intros (_ & _ & Hs). destruct c; unfold relevel, set_SignalMask, mask_of in *; simpl in *. by rewrite Hs. Qed.

Lemma relevel_twice c a b : relevel (relevel c a) b = relevel c b.
Proof. done. Qed.

(** One more disable: the counter is incremented and the mask follows.  The first disable
    of a level sets the mask whatever it was. *)
Lemma IsrDisable_enter level c :
  masks_ok c -> counts_ok (IsrDisabledCount c) -> 1 <= level < 8 -> cnt (IsrDisabledCount c) level < max64 ->
  (0 < cnt (IsrDisabledCount c) level -> SignalMask c = mask_of c (top (IsrDisabledCount c))) ->
  IsrDisable level c =
    Ok (tt, relevel c (<[Z.to_nat level := cnt (IsrDisabledCount c) level + 1]> (IsrDisabledCount c))).
Proof.
  intros Hm Hc Hl Hmax Hs. pose proof (counts_u64 _ level Hc) as Hu.
  unfold max64, u64 in *. set (counts := IsrDisabledCount c) in *.
  set (counts' := <[Z.to_nat level := cnt counts level + 1]> counts).
  unfold IsrDisable. st_step rd_ok by (lia || by apply counts_lookup; [|lia]).
  assert (forall l, 1 <= l < 8 -> cnt counts' l = if decide (l = level) then cnt counts level + 1 else cnt counts l)
    as Hins by (intros; apply cnt_insert; lia || done).
  assert ((if cnt counts level =? 0 then IsrDefer level false else mret tt) c =
    Ok (tt, set_SignalMask (mask_of c (top counts')) c)) as Hd.
  { destruct (Z.eqb_spec (cnt counts level) 0) as [H0|H0].
    - unfold IsrDefer. change (Z.to_nat (IRQ_LEVEL_COUNT - 1)) with 7%nat.
      rewrite DeferFrom_ok by (done || lia). do 4 f_equal. apply highest_ext. intros l Hl'.
      rewrite Hins by lia. fold counts. destruct (decide (l = level)) as [->|].
      + rewrite Z.eqb_refl, orb_true_r. symmetry. apply Z.ltb_lt. lia.
      + destruct (Z.eqb_spec l level); [done|]. by rewrite orb_false_r.
    - assert (top counts' = top counts) as -> by (apply top_ext; intros l Hl'; rewrite Hins by done; case_decide; subst; lia).
      rewrite <- Hs by lia. by destruct c. }
  rewrite (st_bind_ok _ _ _ _ _ Hd).
  st_step rd_ok by (lia || by apply counts_lookup; [|lia]).
  change (IsrDisabledCount (set_SignalMask _ c)) with counts.
  rewrite w64_small by (unfold u64; lia).
  rewrite wr_ok by (unfold zlen; destruct Hc as [Hlen _]; simpl; fold counts; rewrite Hlen; lia). done.
Qed.

Lemma IsrDisable_ok level c :
  cpu_ok c -> 1 <= level < 8 -> cnt (IsrDisabledCount c) level < max64 ->
  IsrDisable level c =
    Ok (tt, relevel c (<[Z.to_nat level := cnt (IsrDisabledCount c) level + 1]> (IsrDisabledCount c))).
Proof. intros (Hm & Hc & Hs) Hl Hmax. by apply IsrDisable_enter. Qed.

(** One enable: it needs a disable to match; the counter is decremented and the mask
    follows. *)
Lemma IsrEnable_ok level c :
  cpu_ok c -> 1 <= level < 8 -> 0 < cnt (IsrDisabledCount c) level ->
  IsrEnable level c =
    Ok (tt, relevel c (<[Z.to_nat level := cnt (IsrDisabledCount c) level - 1]> (IsrDisabledCount c))).
Proof.
  intros Hok Hl Hpos. pose proof Hok as (Hm & Hc & Hs). pose proof (counts_u64 _ level Hc) as Hu.
  unfold u64 in *. set (counts := IsrDisabledCount c) in *.
  set (counts' := <[Z.to_nat level := cnt counts level - 1]> counts).
  assert (forall l, 1 <= l < 8 -> cnt counts' l = if decide (l = level) then cnt counts level - 1 else cnt counts l)
    as Hins by (intros; apply cnt_insert; lia || done).
  assert (counts_ok counts') as Hc' by (apply counts_ok_insert; [done|unfold u64; lia]).
  unfold IsrEnable. st_step HalIsIrqAtomic_ok by (done || lia).
  st_step assert_true by (apply Z.leb_le; by apply top_ge).
  st_step rd_ok by (lia || by apply counts_lookup; [|lia]).
  st_step assert_true by (rewrite Z.gtb_ltb; by apply Z.ltb_lt). fold counts.
  rewrite w64_small by (unfold u64; lia).
  st_step wr_ok by (unfold zlen; destruct Hc as [Hlen _]; fold counts; rewrite Hlen; lia). fold counts counts'.
  st_step rd_ok by (lia || by apply counts_lookup; [|lia]).
  rewrite Hins, decide_True by (done || lia).
  destruct (Z.eqb_spec (cnt counts level - 1) 0) as [H0|H0].
  - unfold IsrDefer. change (Z.to_nat (IRQ_LEVEL_COUNT - 1)) with 7%nat.
    rewrite DeferFrom_ok by (done || lia).
    rewrite (highest_ext 7 _ (fun l => 0 <? cnt counts' l)) by (intros; by rewrite andb_false_r, orb_false_r).
    done.
  - unfold relevel. assert (top counts' = top counts) as ->
      by (apply top_ext; intros l Hl'; rewrite Hins by done; case_decide; subst; lia).
    rewrite <- Hs. by destruct c.
Qed.

(** An enable without a matching disable panics. *)
Lemma IsrEnable_unmatched level c :
  cpu_ok c -> 1 <= level < 8 -> cnt (IsrDisabledCount c) level = 0 -> IsrEnable level c = Err FPanic.
Proof.
  intros Hok Hl H0. unfold IsrEnable. st_step HalIsIrqAtomic_ok by (done || lia).
  destruct (level <=? top (IsrDisabledCount c)); [|done]. st_step assert_true.
  st_step rd_ok by (lia || by apply counts_lookup; [apply Hok|lia]). by rewrite H0.
Qed.

Lemma AtomicFrom_ok n level c :
  cpu_ok c -> 1 <= level -> level + Z.of_nat n <= 8 -> top (IsrDisabledCount c) < level + Z.of_nat n ->
  AtomicFrom n level c = Ok (level <=? top (IsrDisabledCount c), c).
Proof.
  intros Hok Hl. pose proof Hok as (Hm & Hc & Hs). induction n as [|n IH]; intros Hn Ht; cbn [AtomicFrom].
  { destruct (Z.leb_spec level (top (IsrDisabledCount c))); [lia|done]. }
  st_step rd_ok by (lia || by apply counts_lookup; [|lia]).
  st_step HalIsIrqAtomic_ok by (done || lia).
  set (l := level + Z.of_nat n) in *.
  destruct (Z.eqb_spec (cnt (IsrDisabledCount c) l) 0) as [H0|H0].
  - assert (top (IsrDisabledCount c) <> l) as Hne
      by (intros He; destruct (top_pos (IsrDisabledCount c)) as [|Hp]; [lia|rewrite He in Hp; lia]).
    destruct (Z.leb_spec l (top (IsrDisabledCount c))); [lia|]. st_step assert_true. apply IH; lia.
  - assert (l <= top (IsrDisabledCount c)) as Hle
      by (apply top_ge; [lia|pose proof (counts_u64 _ l Hc); unfold u64 in *; lia]).
    destruct (Z.leb_spec l (top (IsrDisabledCount c))); [|lia]. st_step assert_true.
    destruct (Z.leb_spec level (top (IsrDisabledCount c))); [done|lia].
Qed.

(** [IsrIsAtomic] never panics and tells whether the level or a higher one is disabled. *)
Lemma IsrIsAtomic_ok level c :
  cpu_ok c -> 1 <= level < 8 -> IsrIsAtomic level c = Ok (level <=? top (IsrDisabledCount c), c).
Proof.
  intros Hok Hl. unfold IsrIsAtomic. st_step assert_true by (zcases; done || (exfalso; unfold IRQ_LEVEL_NONE in *; lia)).
  pose proof (top_range (IsrDisabledCount c)). unfold IRQ_LEVEL_COUNT. apply AtomicFrom_ok; [done|lia|lia|lia].
Qed.

Lemma disable_enable level c :
  cpu_ok c -> 1 <= level < 8 -> cnt (IsrDisabledCount c) level < max64 ->
  exists c1, IsrDisable level c = Ok (tt, c1) /\ cpu_ok c1 /\
    IsrDisabledCount c1 = <[Z.to_nat level := cnt (IsrDisabledCount c) level + 1]> (IsrDisabledCount c) /\
    mask_of c level ⊆ SignalMask c1 /\ SignalMask c ⊆ SignalMask c1 /\
    IsrEnable level c1 = Ok (tt, c).
Proof.
  intros Hok Hl Hmax. pose proof Hok as (Hm & Hc & Hs). pose proof (counts_u64 _ level Hc) as Hu.
  rewrite (IsrDisable_ok level c Hok Hl Hmax). set (counts := IsrDisabledCount c) in *.
  set (counts' := <[Z.to_nat level := cnt counts level + 1]> counts). eexists. split; [done|].
  assert (counts_ok counts') as Hc' by (apply counts_ok_insert; [done|unfold max64, u64 in *; lia]).
  assert (cnt counts' level = cnt counts level + 1) as Hn
    by (unfold counts'; rewrite cnt_insert by (lia || done); by rewrite decide_True).
  assert (level <= top counts') as Hge by (apply top_ge; [done|unfold u64 in *; lia]).
  assert (top counts <= top counts') as Hge'.
  { pose proof (top_range counts). destruct (top_pos counts) as [->|Hp]; [apply top_range|].
    destruct (decide (top counts = 0)) as [->|H0]; [apply top_range|].
    apply top_ge; [lia|]. unfold counts'. rewrite cnt_insert by (done || lia).
    case_decide; [unfold u64 in *|]; lia. }
  split; [by apply relevel_ok|]. split; [done|].
  pose proof (top_range counts). pose proof (top_range counts').
  split; [|split].
  - change (mask_of c level ⊆ mask_of c (top counts')). apply mask_mono; [done|lia|lia|done].
  - rewrite Hs. change (mask_of c (top counts) ⊆ mask_of c (top counts')). apply mask_mono; done.
  - rewrite IsrEnable_ok.
    + rewrite relevel_twice. change (IsrDisabledCount (relevel c counts')) with counts'. rewrite Hn.
      replace (<[Z.to_nat level := cnt counts level + 1 - 1]> counts') with counts; [by rewrite relevel_same|].
      unfold counts'. rewrite list_insert_insert_eq, Z.add_simpl_r. symmetry. apply list_insert_id.
      by apply counts_lookup; [|lia].
    + by apply relevel_ok.
    + done.
    + change (0 < cnt counts' level). unfold u64 in *. lia.
Qed.

(** ** Nested critical sections *)

(** Well-bracketed use of one level after another, sections inside sections. *)
Inductive sections := Done | Nest (level : Z) (body rest : sections).

Fixpoint run_sections (p : sections) : St CPU unit :=
  match p with
  | Done => mret tt
  | Nest level body rest =>
      IsrDisable level;; run_sections body;; IsrEnable level;; run_sections rest
  end.

Fixpoint depth (p : sections) : Z :=
  match p with Done => 0 | Nest _ body rest => Z.max (1 + depth body) (depth rest) end.

Fixpoint levels_ok (p : sections) : Prop :=
  match p with
  | Done => True
  | Nest level body rest => 1 <= level < 8 /\ levels_ok body /\ levels_ok rest
  end.

Lemma depth_nonneg p : 0 <= depth p.
Proof. induction p; simpl; lia. Qed.

Lemma run_sections_ok p c :
  cpu_ok c -> levels_ok p -> (forall l, cnt (IsrDisabledCount c) l + depth p <= max64) ->
  run_sections p c = Ok (tt, c).
Proof.
  revert c. induction p as [|level body IHb rest IHr]; intros c Hok Hl Hd; [done|].
  simpl in Hd. destruct Hl as (Hl & Hlb & Hlr). cbn [run_sections].
  pose proof (depth_nonneg body). pose proof (depth_nonneg rest).
  destruct (disable_enable level c Hok Hl) as (c1 & Hdis & Hok1 & Hcnt & _ & _ & Hen);
    [pose proof (Hd level); lia|].
  rewrite (st_bind_ok _ _ _ _ _ Hdis).
  assert (forall l, cnt (IsrDisabledCount c1) l + depth body <= max64) as Hd1.
  { intros l. rewrite Hcnt. pose proof (Hd l). pose proof (Hd level).
    pose proof (cnt_insert_le (IsrDisabledCount c) (Z.to_nat level) (cnt (IsrDisabledCount c) level + 1) l). lia. }
  rewrite (st_bind_ok _ _ _ _ _ (IHb c1 Hok1 Hlb Hd1)).
  rewrite (st_bind_ok _ _ _ _ _ Hen). apply IHr; [done|done|]. intros l. specialize (Hd l). lia.
Qed.

(** A CPU after [KernelInit], [SerialStartup] and [WatchdogEnable] have registered every
    level, with no level disabled. *)
Definition registered : res (unit * CPU) :=
  (IsrStartup;; IsrDisable IRQ_LEVEL_MAX;;
   IsrRegisterHandler CritInterrupt_ HAL_ISR_CRIT IRQ_LEVEL_CRIT;;
   IsrRegisterHandler SoftInterrupt_ HAL_ISR_SOFT IRQ_LEVEL_SOFT;;
   HalRegisterIsrHandler HalReset_ HAL_ISR_RESET IRQ_LEVEL_RESET;;
   IsrRegisterHandler TimerInterrupt_ HAL_ISR_TIMER IRQ_LEVEL_TIMER;;
   IsrRegisterHandler SendBytesInterrupt_ HAL_ISR_SERIAL_WRITE IRQ_LEVEL_SERIAL_WRITE;;
   IsrRegisterHandler GetBytesInterrupt_ HAL_ISR_SERIAL_READ IRQ_LEVEL_SERIAL_READ;;
   HalRegisterIsrHandler WatchdogInterrupt_ HAL_ISR_WATCHDOG IRQ_LEVEL_WATCHDOG;;
   IsrEnable IRQ_LEVEL_MAX) (mkCPU [] [] [] [] [] [] ∅ ∅).

Definition cpu0 : CPU :=
  match registered with Ok (_, c) => c | Err _ => mkCPU [] [] [] [] [] [] ∅ ∅ end.

Lemma masks_chain c :
  length (HalIrqToMask c) = 8%nat ->
  (forall i, 0 <= i < 7 -> mask_of c i ⊂ mask_of c (i + 1)) -> masks_ok c.
Proof.
  intros Hl H. split; [done|]. intros i j [Hi Hij] Hj.
  assert (forall n : nat, i + 1 + Z.of_nat n < 8 -> mask_of c i ⊂ mask_of c (i + 1 + Z.of_nat n)) as Hn.
  { induction n as [|n IH]; intros Hb.
    - rewrite Z.add_0_r. apply H. lia.
    - etransitivity; [apply IH; lia|].
      replace (i + 1 + Z.of_nat (S n)) with (i + 1 + Z.of_nat n + 1) by lia. apply H. lia. }
  replace j with (i + 1 + Z.of_nat (Z.to_nat (j - i - 1))) by lia. apply Hn. lia.
Qed.

Lemma cpu0_ok : cpu_ok cpu0.
Proof.
  split; [|split].
  - apply masks_chain; [by vm_compute|]. intros i Hi.
    assert (i = 0 \/ i = 1 \/ i = 2 \/ i = 3 \/ i = 4 \/ i = 5 \/ i = 6) as Hc by lia.
    repeat destruct Hc as [->|Hc]; try subst i; apply (bool_decide_unpack _); vm_compute; exact I.
  - apply (bool_decide_unpack _). vm_compute. exact I.
  - apply (bool_decide_unpack _). vm_compute. exact I.
Qed.

Lemma cpu0_counts : IsrDisabledCount cpu0 = replicate 8 0.
Proof. vm_compute. reflexivity. Qed.

(** C7: between [IsrDisable] and the matching [IsrEnable] every signal of the level is
    blocked, nothing that was blocked is opened, and the pair restores the state. *)
Theorem critical_section level c :
  cpu_ok c -> 1 <= level < 8 -> cnt (IsrDisabledCount c) level < max64 ->
  exists c1, IsrDisable level c = Ok (tt, c1) /\ cpu_ok c1 /\
    IsrDisabledCount c1 = <[Z.to_nat level := cnt (IsrDisabledCount c) level + 1]> (IsrDisabledCount c) /\
    mask_of c level ⊆ SignalMask c1 /\ SignalMask c ⊆ SignalMask c1 /\
    IsrEnable level c1 = Ok (tt, c).
Proof. apply disable_enable. Qed.

Lemma critical_section_witness :
  exists c1, IsrDisable IRQ_LEVEL_CRIT cpu0 = Ok (tt, c1) /\
    mask_of cpu0 IRQ_LEVEL_CRIT ⊆ SignalMask c1 /\ IsrEnable IRQ_LEVEL_CRIT c1 = Ok (tt, cpu0).
Proof.
  destruct (critical_section IRQ_LEVEL_CRIT cpu0 cpu0_ok) as (c1 & H1 & _ & _ & H2 & _ & H3).
  - vm_compute. by split.
  - vm_compute. reflexivity.
  - exact (ex_intro _ c1 (conj H1 (conj H2 H3))).
Defined.

(** Any well-bracketed nesting of critical sections, of any levels in any order,
    runs without a panic and restores the disable counts and the signal mask. *)
Theorem nested_sections p c :
  cpu_ok c -> levels_ok p -> (forall l, cnt (IsrDisabledCount c) l + depth p <= max64) ->
  run_sections p c = Ok (tt, c).
Proof. apply run_sections_ok. Qed.

Lemma nested_sections_witness :
  run_sections (Nest IRQ_LEVEL_CRIT (Nest IRQ_LEVEL_TIMER (Nest IRQ_LEVEL_CRIT Done Done) Done) Done)
    cpu0 = Ok (tt, cpu0).
Proof.
  apply nested_sections.
  - exact cpu0_ok.
  - repeat split; discriminate.
  - intros l. unfold cnt. rewrite cpu0_counts.
    destruct (replicate 8 0 !! Z.to_nat l) eqn:E; simpl; [|done].
    apply lookup_replicate in E as [-> _]. done.
Defined.
