(* ===== verification/Coroutine.v ===== *)
(** * Coroutines (kernel/coroutine.c, context.c, the stack management of hal/unix_hal.c)

    A coroutine runs on a stack of its own.  The HAL makes the stack by a detour through
    the operating system: a signal handler that runs on the new stack saves its registers
    with [setjmp] and returns; a [longjmp] to them starts the new context.  What a
    [jmp_buf] holds is the place where the control continues.  The function of the
    coroutine is client code: any step function of its locals and of the data behind
    [params] and [result].  The contents of the stacks are not modelled. *)

From S2P Require Import Prelude Isr.

(** The smallest stack that [sigaltstack] accepts (Linux). *)
Definition MINSIGSTKSZ : Z := 2048.

Inductive COROUTINE_STATUS := COROUTINE_MORE | COROUTINE_DONE.
Inductive STACK_INIT_ROUTINE := ContextBootstrap_ | CoRoutineWrapper_.
(** The two contexts of a [COROUTINE_CONTEXT]. *)
Inductive which := CallerState | RoutineState.

#[export] Instance which_eq_dec : EqDecision which.
Proof. solve_decision. Defined.
#[export] Instance COROUTINE_STATUS_eq_dec : EqDecision COROUTINE_STATUS.
Proof. solve_decision. Defined.

Section coroutine.
Context {L D : Type}.

(** What a function does next: it goes on at [l], yields and goes on at [l] when it is
    resumed, or returns. *)
Inductive action := Goes (l : L) | Yields (l : L) | Returns.
Record COROUTINE_FUNCTION := mkFunction { entry : L; step : L -> D -> action * D }.

(** The calls of [ContextSwitch]: in [CoroutineNext], in [CoroutineYield] and in the loop
    of [CoRoutineWrapper]. *)
Inductive call := ToNext | ToYield (l : L) | ToWrapper.

(** [jmp_buf] *)
Inductive Registers :=
| Garbage
| InInitial                                          (* behind [setjmp] of [HalGetInitialStackFrame] *)
| InTrampoline (foo : option STACK_INIT_ROUTINE)     (* behind [setjmp] of [HalStackTrampoline] *)
| InSwitch (k : call).                               (* behind [setjmp] of [HalContextSwitch] *)

Record MACHINE_CONTEXT := mkMachineContext { MFoo : option STACK_INIT_ROUTINE; Regs : Registers }.

(** [Arg] and [MainArg] are the context itself and the coroutine. *)
Record CONTEXT := mkContext {
  MachineState : MACHINE_CONTEXT;
  Main : option STACK_INIT_ROUTINE;
  TimesRun : Z; TimesSwitched : Z; LastRanTime : Z; LastSelectedTime : Z;
  High : Z; Low : Z
}.

(** [Params] and [Result] are the data [Data] of the machine. *)
Record COROUTINE := mkCoroutine {
  Foo : option COROUTINE_FUNCTION;
  Status : option COROUTINE_STATUS;
  Caller : CONTEXT;
  Routine : CONTEXT
}.

(** The CPU, the action and the stack for the trampoline signal that the process has
    installed, the globals of the HAL, the coroutine, its data and the time. *)
Record MACHINE := mkMachine {
  Cpu : CPU;
  Trampoline : option (gset Z);         (* sa_mask of the installed HalStackTrampoline *)
  AltStack : option (Z * Z);
  halTempContext : option which;
  halTempContextProcessed : bool;
  Co : COROUTINE;
  Data : D;
  Now : Z
}.

Definition with_Cpu c m := mkMachine c (Trampoline m) (AltStack m) (halTempContext m) (halTempContextProcessed m) (Co m) (Data m) (Now m).
Definition with_Trampoline a m := mkMachine (Cpu m) a (AltStack m) (halTempContext m) (halTempContextProcessed m) (Co m) (Data m) (Now m).
Definition with_AltStack a m := mkMachine (Cpu m) (Trampoline m) a (halTempContext m) (halTempContextProcessed m) (Co m) (Data m) (Now m).
Definition with_halTemp c b m := mkMachine (Cpu m) (Trampoline m) (AltStack m) c b (Co m) (Data m) (Now m).
Definition with_Co c m := mkMachine (Cpu m) (Trampoline m) (AltStack m) (halTempContext m) (halTempContextProcessed m) c (Data m) (Now m).
Definition with_Data d m := mkMachine (Cpu m) (Trampoline m) (AltStack m) (halTempContext m) (halTempContextProcessed m) (Co m) d (Now m).

Definition on_cpu {A} (c : St CPU A) : St MACHINE A := fun m =>
  match c (Cpu m) with Ok (a, c) => Ok (a, with_Cpu c m) | Err e => Err e end.

Definition context (w : which) (c : COROUTINE) : CONTEXT := match w with CallerState => Caller c | RoutineState => Routine c end.
Definition put_context (w : which) (x : CONTEXT) : St MACHINE unit := modify (fun m => with_Co
  (match w with
   | CallerState => mkCoroutine (Foo (Co m)) (Status (Co m)) x (Routine (Co m))
   | RoutineState => mkCoroutine (Foo (Co m)) (Status (Co m)) (Caller (Co m)) x
   end) m).
Definition put_Status (s : COROUTINE_STATUS) : St MACHINE unit := modify (fun m => with_Co
  (mkCoroutine (Foo (Co m)) (Some s) (Caller (Co m)) (Routine (Co m))) m).
Definition put_machine (w : which) (f : MACHINE_CONTEXT -> MACHINE_CONTEXT) : St MACHINE unit :=
  x ← gets (fun m => context w (Co m));
  put_context w (mkContext (f (MachineState x)) (Main x) (TimesRun x) (TimesSwitched x) (LastRanTime x) (LastSelectedTime x) (High x) (Low x)).

(** ** hal/unix_hal.c *)

(** The first return of [setjmp]; [foo] and [arg] stay on the new stack. *)
Definition HalStackTrampoline : St MACHINE unit :=
  t ← gets halTempContext;
  match t with
  | None => fail FNull
  | Some w =>
      x ← gets (fun m => context w (Co m));
      let foo := MFoo (MachineState x) in
      put_machine w (fun c => mkMachineContext (MFoo c) (InTrampoline foo));;
      modify (with_halTemp (Some w) true);;
      modify (with_halTemp None true)
  end.

(** A pending trampoline signal that is not blocked is delivered: its handler runs on the
    alternate stack, with its mask, and the mask of before is restored. *)
Definition deliver_trampoline : St MACHINE unit :=
  c ← gets Cpu;
  if bool_decide (HAL_ISR_TRAMPOLINE ∈ Pending c) && negb (bool_decide (HAL_ISR_TRAMPOLINE ∈ SignalMask c)) then
    t ← gets Trampoline;
    a ← gets AltStack;
    match t, a with
    | Some sa_mask, Some _ =>
        on_cpu (modify (set_Pending (Pending c ∖ {[HAL_ISR_TRAMPOLINE]})));;
        on_cpu (modify (set_SignalMask ({[HAL_ISR_TRAMPOLINE]} ∪ sa_mask ∪ SignalMask c)));;
        HalStackTrampoline;;
        on_cpu (modify (set_SignalMask (SignalMask c)))
    | _, _ => fail FNull
    end
  else mret tt.

Definition HalCreateStackFrame (w : which) (stack stackSize : Z) (foo : STACK_INIT_ROUTINE) : St MACHINE unit :=
  put_machine w (fun c => mkMachineContext (Some foo) (Regs c));;
  oldSet ← on_cpu (gets SignalMask);
  mask ← on_cpu (rd HalIrqToMask IRQ_LEVEL_MAX);
  on_cpu (modify (fun c => set_SignalMask (SignalMask c ∪ mask) c));;
  modify (with_Trampoline (Some mask));;
  modify (with_halTemp (Some w) false);;
  assert (MINSIGSTKSZ <=? stackSize);;
  modify (with_AltStack (Some (stack, stackSize)));;
  (* raise( HAL_ISR_TRAMPOLINE ) *)
  on_cpu (modify (fun c => set_Pending ({[HAL_ISR_TRAMPOLINE]} ∪ Pending c) c));;
  deliver_trampoline;;
  on_cpu (modify (fun c => set_SignalMask (SignalMask c ∖ {[HAL_ISR_TRAMPOLINE]}) c));;
  deliver_trampoline;;
  processed ← gets halTempContextProcessed;
  assert processed;;
  modify (with_AltStack None);;
  on_cpu (modify (set_SignalMask oldSet)).

Definition HalGetInitialStackFrame (w : which) : St MACHINE unit :=
  put_machine w (fun c => mkMachineContext (MFoo c) InInitial).

(** Saves the call [k]; the control continues at the registers that are returned. *)
Definition HalContextSwitch (old new : which) (k : call) : St MACHINE Registers :=
  a ← on_cpu (HalIsIrqAtomic IRQ_LEVEL_MAX);
  assert a;;
  put_machine old (fun c => mkMachineContext (MFoo c) (InSwitch k));;
  gets (fun m => Regs (MachineState (context new (Co m)))).

(** ** kernel/context.c *)

Definition ContextInit (w : which) (Pointer Size : Z) (foo : STACK_INIT_ROUTINE) : St MACHINE unit :=
  x ← gets (fun m => context w (Co m));
  if negb (Size =? 0) then
    put_context w (mkContext (MachineState x) (Some foo) 0 0 0 0 (Pointer + Size) Pointer);;
    HalCreateStackFrame w Pointer Size ContextBootstrap_
  else
    put_context w (mkContext (MachineState x) (Main x) 0 0 0 0 max64 0);;
    HalGetInitialStackFrame w.

(** Where the control continues: behind a jump, or, when the contexts are the same, in the
    caller. *)
Inductive transfer := Jump (r : Registers) | Return (k : call).

Definition ContextSwitch (old new : which) (k : call) : St MACHINE transfer :=
  time ← gets Now;
  n ← gets (fun m => context new (Co m));
  if negb (bool_decide (old = new)) then
    put_context new (mkContext (MachineState n) (Main n) (CounterAdd (TimesRun n) 1) (CounterAdd (TimesSwitched n) 1) time time (High n) (Low n));;
    on_cpu (IsrDisable IRQ_LEVEL_MAX);;
    r ← HalContextSwitch old new k;
    mret (Jump r)
  else
    put_context new (mkContext (MachineState n) (Main n) (CounterAdd (TimesRun n) 1) (TimesSwitched n) time (LastSelectedTime n) (High n) (Low n));;
    mret (Return k).

(** The second return of [setjmp] in [HalContextSwitch], and the end of [ContextSwitch]. *)
Definition SwitchedIn : St MACHINE unit :=
  a ← on_cpu (HalIsIrqAtomic IRQ_LEVEL_MAX);
  assert a;;
  on_cpu (IsrEnable IRQ_LEVEL_MAX).

(** ** kernel/coroutine.c *)

Definition CoroutineInit (foo : COROUTINE_FUNCTION) (stack size : Z) : St MACHINE unit :=
  modify (fun m => with_Co (mkCoroutine (Some foo) (Status (Co m)) (Caller (Co m)) (Routine (Co m))) m);;
  ContextInit RoutineState stack size CoRoutineWrapper_.

Definition CoroutineYield (l : L) : St MACHINE transfer :=
  put_Status COROUTINE_MORE;;
  ContextSwitch RoutineState CallerState (ToYield l).

(** One round of the loop of [CoRoutineWrapper]. *)
Definition WrapperLoop : St MACHINE transfer :=
  put_Status COROUTINE_DONE;;
  ContextSwitch RoutineState CallerState ToWrapper.

(** The function from [l] on, until the control leaves the coroutine. *)
Fixpoint RunFrom (fuel : nat) (l : L) : St MACHINE transfer :=
  match fuel with
  | O => fail FFuel
  | S fuel =>
      foo ← gets (fun m => Foo (Co m));
      d ← gets Data;
      match foo with
      | None => fail FNull
      | Some foo =>
          let '(a, d) := step foo l d in
          modify (with_Data d);;
          match a with
          | Goes l => RunFrom fuel l
          | Yields l => CoroutineYield l
          | Returns => WrapperLoop
          end
      end
  end.

Definition CoRoutineWrapper (fuel : nat) : St MACHINE transfer :=
  foo ← gets (fun m => Foo (Co m));
  match foo with None => fail FNull | Some foo => RunFrom fuel (entry foo) end.

Definition ContextBootstrap (fuel : nat) : St MACHINE transfer :=
  on_cpu (IsrEnable IRQ_LEVEL_MAX);;
  main ← gets (fun m => Main (Routine (Co m)));
  match main with Some CoRoutineWrapper_ => CoRoutineWrapper fuel | _ => fail FNull end.

(** Behind the [ContextSwitch] of the call [k]; [CoroutineNext] is never called on the
    stack of the coroutine. *)
Definition After (fuel : nat) (k : call) : St MACHINE transfer :=
  match k with
  | ToYield l => RunFrom fuel l
  | ToWrapper => WrapperLoop
  | ToNext => fail FNull
  end.

(** The control has left the caller: it runs on the stack of the coroutine until the
    coroutine switches. *)
Definition OnRoutine (fuel : nat) (t : transfer) : St MACHINE transfer :=
  match t with
  | Jump (InTrampoline foo) =>
      a ← on_cpu (HalIsIrqAtomic IRQ_LEVEL_MAX);
      assert a;;
      match foo with Some ContextBootstrap_ => ContextBootstrap fuel | _ => fail FNull end
  | Jump (InSwitch k) => SwitchedIn;; After fuel k
  | Return k => After fuel k
  | Jump InInitial => panic
  | Jump Garbage => fail FNull
  end.

Definition OnCaller (t : transfer) : St MACHINE unit :=
  match t with
  | Jump (InSwitch ToNext) => SwitchedIn
  | _ => fail FNull
  end.

Definition CoroutineNext (fuel : nat) : St MACHINE COROUTINE_STATUS :=
  t ← ContextSwitch CallerState RoutineState ToNext;
  t ← OnRoutine fuel t;
  OnCaller t;;
  s ← gets (fun m => Status (Co m));
  match s with Some s => mret s | None => fail FNull end.

(** [for(status = CoroutineNext(&co); status != COROUTINE_DONE; status = CoroutineNext(&co))];
    the data that the body of the loop sees. *)
Fixpoint ForEach (calls fuel : nat) : St MACHINE (list D) :=
  match calls with
  | O => fail FFuel
  | S calls =>
      s ← CoroutineNext fuel;
      if bool_decide (s = COROUTINE_DONE) then mret [] else
      d ← gets Data;
      ds ← ForEach calls fuel;
      mret (d :: ds)
  end.

(** ** The coroutine as a generator *)

(** The function from [l] on, up to the next yield ([Some] of where it goes on) or return. *)
Fixpoint upto (fuel : nat) (f : COROUTINE_FUNCTION) (l : L) (d : D) : option (option L * D) :=
  match fuel with
  | O => None
  | S fuel =>
      match step f l d with
      | (Goes l, d) => upto fuel f l d
      | (Yields l, d) => Some (Some l, d)
      | (Returns, d) => Some (None, d)
      end
  end.

(** The data at every yield, and at the end. *)
Fixpoint generate (calls fuel : nat) (f : COROUTINE_FUNCTION) (l : L) (d : D) : option (list D * D) :=
  match calls with
  | O => None
  | S calls =>
      match upto fuel f l d with
      | None => None
      | Some (None, d) => Some ([], d)
      | Some (Some l, d) => match generate calls fuel f l d with Some (ds, e) => Some (d :: ds, e) | None => None end
      end
  end.

(** ** The state between two calls *)

Inductive place := Start | At (l : L) | Finished.

Definition entered (f : COROUTINE_FUNCTION) (p : place) : option L :=
  match p with Start => Some (entry f) | At l => Some l | Finished => None end.
Definition leaves (o : option L) : place := match o with Some l => At l | None => Finished end.
Definition status (o : option L) : COROUTINE_STATUS := match o with Some _ => COROUTINE_MORE | None => COROUTINE_DONE end.

Definition at_place (p : place) (x : CONTEXT) : Prop :=
  match p with
  | Start => Regs (MachineState x) = InTrampoline (Some ContextBootstrap_) /\ Main x = Some CoRoutineWrapper_
  | At l => Regs (MachineState x) = InSwitch (ToYield l)
  | Finished => Regs (MachineState x) = InSwitch ToWrapper
  end.

(** The CPU can take one more disable of the highest atomic level. *)
Definition cpu_ready (c : CPU) : Prop := cpu_ok c /\ cnt (IsrDisabledCount c) IRQ_LEVEL_MAX < max64.

Record suspended (f : COROUTINE_FUNCTION) (p : place) (m : MACHINE) : Prop := {
  su_cpu : cpu_ready (Cpu m);
  su_foo : Foo (Co m) = Some f;
  su_place : at_place p (Routine (Co m))
}.

(** What [to] steps of the coroutine change. *)
Record stepped (f : COROUTINE_FUNCTION) (o : option L) (d : D) (m : MACHINE) : Prop := {
  sd_foo : Foo (Co m) = Some f;
  sd_data : Data m = d;
  sd_status : Status (Co m) = Some (status o);
  sd_place : at_place (leaves o) (Routine (Co m))
}.

(** ** The switch *)

Definition raised (c : CPU) : CPU :=
  relevel c (<[Z.to_nat IRQ_LEVEL_MAX := cnt (IsrDisabledCount c) IRQ_LEVEL_MAX + 1]> (IsrDisabledCount c)).

Lemma switch_levels c : cpu_ready c ->
  IsrDisable IRQ_LEVEL_MAX c = Ok (tt, raised c) /\ HalIsIrqAtomic IRQ_LEVEL_MAX (raised c) = Ok (true, raised c) /\
  IsrEnable IRQ_LEVEL_MAX (raised c) = Ok (tt, c).
Proof.
  intros [Hok Hmax]. destruct (disable_enable IRQ_LEVEL_MAX c Hok) as (c1 & Hd & Hok1 & Hc & _ & _ & He); [unfold IRQ_LEVEL_MAX, IRQ_LEVEL_TIMER; lia|done|].
  pose proof (IsrDisable_ok IRQ_LEVEL_MAX c Hok ltac:(unfold IRQ_LEVEL_MAX, IRQ_LEVEL_TIMER; lia) Hmax) as Hd'.
  assert (c1 = raised c) as -> by (rewrite Hd in Hd'; by injection Hd'). split; [done|]. split; [|done].
  rewrite HalIsIrqAtomic_ok by (done || (unfold IRQ_LEVEL_MAX, IRQ_LEVEL_TIMER; lia)). do 2 f_equal. apply Z.leb_le, top_ge.
  - unfold IRQ_LEVEL_MAX, IRQ_LEVEL_TIMER; lia.
  - rewrite Hc, cnt_insert by (apply Hok || (unfold IRQ_LEVEL_MAX, IRQ_LEVEL_TIMER; lia)). rewrite decide_True by done.
    pose proof (counts_u64 _ IRQ_LEVEL_MAX (proj1 (proj2 Hok))). unfold u64 in *. lia.
Qed.

Lemma on_cpu_run {A} (c : St CPU A) m a c' : c (Cpu m) = Ok (a, c') -> on_cpu c m = Ok (a, with_Cpu c' m).
Proof. intros H. unfold on_cpu. by rewrite H. Qed.

Lemma ContextSwitch_to_routine m : cpu_ready (Cpu m) -> exists m',
  ContextSwitch CallerState RoutineState ToNext m = Ok (Jump (Regs (MachineState (Routine (Co m)))), m') /\
  Cpu m' = raised (Cpu m) /\ Foo (Co m') = Foo (Co m) /\ Data m' = Data m /\
  MachineState (Routine (Co m')) = MachineState (Routine (Co m)) /\ Main (Routine (Co m')) = Main (Routine (Co m)) /\
  Regs (MachineState (Caller (Co m'))) = InSwitch ToNext.
Proof.
  intros (Hd & Ha & _)%switch_levels. destruct m as [c t al h hp [foo st ca ro] d now]. simpl in *.
  unfold ContextSwitch. rewrite bool_decide_false by done. unfold HalContextSwitch, mbind, st_bind, gets, put_context, modify. cbn -[on_cpu raised CounterAdd].
  rewrite (on_cpu_run _ _ tt (raised c)) by done. rewrite (on_cpu_run _ _ true (raised c)) by done.
  eexists. split; [reflexivity|]. by split_and!.
Qed.

Lemma ContextSwitch_to_caller m k : cpu_ready (Cpu m) -> exists m',
  ContextSwitch RoutineState CallerState k m = Ok (Jump (Regs (MachineState (Caller (Co m)))), m') /\
  Cpu m' = raised (Cpu m) /\ Foo (Co m') = Foo (Co m) /\ Data m' = Data m /\ Status (Co m') = Status (Co m) /\
  Regs (MachineState (Routine (Co m'))) = InSwitch k.
Proof.
  intros (Hd & Ha & _)%switch_levels. destruct m as [c t al h hp [foo st ca ro] d now]. simpl in *.
  unfold ContextSwitch. rewrite bool_decide_false by done. unfold HalContextSwitch, mbind, st_bind, gets, put_context, modify. cbn -[on_cpu raised CounterAdd].
  rewrite (on_cpu_run _ _ tt (raised c)) by done. rewrite (on_cpu_run _ _ true (raised c)) by done.
  eexists. split; [reflexivity|]. by split_and!.
Qed.

Lemma SwitchedIn_ok c m : cpu_ready c -> Cpu m = raised c -> SwitchedIn m = Ok (tt, with_Cpu c m).
Proof.
  intros (_ & Ha & He)%switch_levels Hm. unfold SwitchedIn. st_step (on_cpu_run _ m true (raised c)) by (by rewrite Hm).
  st_step assert_true. by rewrite (on_cpu_run _ _ tt c).
Qed.

(** ** The coroutine runs to its next switch *)

Lemma leave_ok f o d m :
  cpu_ready (Cpu m) -> Foo (Co m) = Some f -> Data m = d -> Regs (MachineState (Caller (Co m))) = InSwitch ToNext ->
  exists m', (put_Status (status o);; ContextSwitch RoutineState CallerState (match o with Some l => ToYield l | None => ToWrapper end)) m =
    Ok (Jump (InSwitch ToNext), m') /\ Cpu m' = raised (Cpu m) /\ stepped f o d m'.
Proof.
  intros Hc Hf Hd Hr.
  set (m1 := with_Co (mkCoroutine (Foo (Co m)) (Some (status o)) (Caller (Co m)) (Routine (Co m))) m).
  destruct (ContextSwitch_to_caller m1 (match o with Some l => ToYield l | None => ToWrapper end) Hc)
    as (m' & E & Hc' & Hf' & Hd' & Hs' & Hr'). change (Regs (MachineState (Caller (Co m1)))) with (Regs (MachineState (Caller (Co m)))) in E.
  rewrite Hr in E. exists m'. split; [exact E|]. split; [done|]. constructor.
  - by rewrite Hf'.
  - by rewrite Hd'.
  - by rewrite Hs'.
  - by destruct o.
Qed.

Lemma RunFrom_ok fuel f l d o d' m :
  upto fuel f l d = Some (o, d') -> cpu_ready (Cpu m) -> Foo (Co m) = Some f -> Data m = d ->
  Regs (MachineState (Caller (Co m))) = InSwitch ToNext ->
  exists m', RunFrom fuel l m = Ok (Jump (InSwitch ToNext), m') /\ Cpu m' = raised (Cpu m) /\ stepped f o d' m'.
Proof.
  revert l d m. induction fuel as [|fuel IH]; intros l d m Hu Hc Hf Hd Hr; [done|]. cbn [upto RunFrom] in *.
  unfold mbind, st_bind, gets, modify. rewrite Hf, Hd. destruct (step f l d) as [[l'|l'|] d1].
  - by apply (IH l' d1 (with_Data d1 m)).
  - injection Hu as <- <-. by apply (leave_ok f (Some l') d1 (with_Data d1 m)).
  - injection Hu as <- <-. by apply (leave_ok f None d1 (with_Data d1 m)).
Qed.

(** A finished coroutine only switches back. *)
Definition runs_to (fuel : nat) (f : COROUTINE_FUNCTION) (p : place) (d : D) (o : option L) (d' : D) : Prop :=
  match entered f p with Some l => upto fuel f l d = Some (o, d') | None => o = None /\ d' = d end.

Lemma OnRoutine_ok fuel f p d o d' c m :
  cpu_ready c -> Cpu m = raised c -> Foo (Co m) = Some f -> Data m = d -> at_place p (Routine (Co m)) ->
  Regs (MachineState (Caller (Co m))) = InSwitch ToNext -> runs_to fuel f p d o d' ->
  exists m', OnRoutine fuel (Jump (Regs (MachineState (Routine (Co m))))) m = Ok (Jump (InSwitch ToNext), m') /\
    Cpu m' = raised c /\ stepped f o d' m'.
Proof.
  intros Hc Hm Hf Hd Hp Hr Hrun. pose proof (switch_levels c Hc) as (_ & Ha & He). destruct p as [|l|]; simpl in Hp, Hrun.
  - destruct Hp as [-> Hmain]. cbn [OnRoutine]. st_step (on_cpu_run _ m true (raised c)) by (by rewrite Hm). st_step assert_true.
    unfold ContextBootstrap. st_step (on_cpu_run _ _ tt c). unfold mbind at 1, st_bind at 1, gets at 1. simpl. rewrite Hmain.
    unfold CoRoutineWrapper, mbind at 1, st_bind at 1, gets at 1. simpl. rewrite Hf. by apply (RunFrom_ok fuel f (entry f) d).
  - rewrite Hp. cbn [OnRoutine]. st_step (SwitchedIn_ok c m) by done. by apply (RunFrom_ok fuel f l d).
  - rewrite Hp. destruct Hrun as [-> ->]. cbn [OnRoutine]. st_step (SwitchedIn_ok c m) by done. by apply (leave_ok f None d (with_Cpu c m)).
Qed.

Lemma CoroutineNext_ok fuel f p m o d' :
  suspended f p m -> runs_to fuel f p (Data m) o d' ->
  exists m', CoroutineNext fuel m = Ok (status o, m') /\ suspended f (leaves o) m' /\ Cpu m' = Cpu m /\ Data m' = d'.
Proof.
  intros [Hc Hf Hp] Hrun. destruct (ContextSwitch_to_routine m Hc) as (m1 & E1 & Hc1 & Hf1 & Hd1 & Hr1 & Hm1 & Hn1).
  unfold CoroutineNext. rewrite (st_bind_ok _ _ _ _ _ E1). rewrite <- Hr1.
  destruct (OnRoutine_ok fuel f p (Data m) o d' (Cpu m) m1) as (m2 & E2 & Hc2 & [Hf2 Hd2 Hs2 Hp2]); try done.
  - by rewrite Hf1.
  - destruct p; simpl in *; rewrite ?Hr1, ?Hm1; done.
  - rewrite (st_bind_ok _ _ _ _ _ E2). cbn [OnCaller]. st_step (SwitchedIn_ok (Cpu m) m2) by done.
    unfold mbind, st_bind, gets. simpl. rewrite Hs2. eexists. split; [reflexivity|]. split; [by constructor|]. done.
Qed.

Lemma ForEach_ok calls fuel f p l m ds e :
  suspended f p m -> entered f p = Some l -> generate calls fuel f l (Data m) = Some (ds, e) ->
  exists m', ForEach calls fuel m = Ok (ds, m') /\ suspended f Finished m' /\ Cpu m' = Cpu m /\ Data m' = e.
Proof.
  revert p l m ds. induction calls as [|calls IH]; intros p l m ds Hs Hl Hg; [done|]. cbn [generate ForEach] in *.
  destruct (upto fuel f l (Data m)) as [[o d]|] eqn:Hu; [|done].
  destruct (CoroutineNext_ok fuel f p m o d Hs) as (m1 & E1 & Hs1 & Hc1 & Hd1); [unfold runs_to; by rewrite Hl|].
  rewrite (st_bind_ok _ _ _ _ _ E1). destruct o as [l'|]; simpl.
  - destruct (generate calls fuel f l' d) as [[ds' e']|] eqn:Hg'; [|done]. injection Hg as <- <-.
    destruct (IH (At l') l' m1 ds' Hs1 eq_refl) as (m2 & E2 & Hs2 & Hc2 & Hd2); [by rewrite Hd1|].
    unfold mbind, st_bind, gets. rewrite E2. exists m2. split; [by rewrite Hd1|]. by rewrite Hc2.
  - injection Hg as <- <-. by exists m1.
Qed.

(** ** The stack *)

(** The trampoline signal is blocked at the highest atomic level and is not pending. *)
Definition bootable (c : CPU) : Prop :=
  length (HalIrqToMask c) = 8%nat /\ HAL_ISR_TRAMPOLINE ∈ mask_of c IRQ_LEVEL_MAX /\ HAL_ISR_TRAMPOLINE ∉ Pending c.

Lemma set_cpu_same c T s : T ∉ Pending c ->
  set_SignalMask (SignalMask c) (set_Pending (({[T]} ∪ Pending c) ∖ {[T]}) (set_SignalMask s (set_Pending ({[T]} ∪ Pending c) c))) = c.
Proof. intros HT. destruct c; unfold set_SignalMask, set_Pending; simpl in *. f_equal. set_solver. Qed.

Lemma deliver_blocked m : HAL_ISR_TRAMPOLINE ∈ SignalMask (Cpu m) -> deliver_trampoline m = Ok (tt, m).
Proof.
  intros H. unfold deliver_trampoline, mbind, st_bind, gets. rewrite (bool_decide_true (_ ∈ SignalMask _)) by done. by rewrite andb_false_r.
Qed.

Lemma deliver_now m w sa a :
  HAL_ISR_TRAMPOLINE ∈ Pending (Cpu m) -> HAL_ISR_TRAMPOLINE ∉ SignalMask (Cpu m) ->
  Trampoline m = Some sa -> AltStack m = Some a -> halTempContext m = Some w ->
  exists m', deliver_trampoline m = Ok (tt, m') /\ Cpu m' = set_Pending (Pending (Cpu m) ∖ {[HAL_ISR_TRAMPOLINE]}) (Cpu m) /\
    halTempContextProcessed m' = true /\ halTempContext m' = None /\ Data m' = Data m /\ Foo (Co m') = Foo (Co m) /\
    Regs (MachineState (context w (Co m'))) = InTrampoline (MFoo (MachineState (context w (Co m)))) /\
    Main (context w (Co m')) = Main (context w (Co m)).
Proof.
  intros Hp Hm Ht Ha Hc. unfold deliver_trampoline, HalStackTrampoline, on_cpu, mbind, st_bind, gets, modify.
  rewrite bool_decide_true, bool_decide_false by done. cbn [andb negb]. rewrite Ht, Ha. destruct m as [[] ? ? ? ? co ? ?].
  simpl in Hc. subst. destruct w; cbn; (eexists; split; [reflexivity|by split_and!]).
Qed.

(** The next component of a computation, evaluated. *)
Local Ltac run_step := first [erewrite st_bind_ok by (apply on_cpu_run; reflexivity) | erewrite st_bind_ok by reflexivity]; cbv beta.

Lemma HalCreateStackFrame_ok w stack size foo m :
  bootable (Cpu m) -> MINSIGSTKSZ <= size ->
  exists m', HalCreateStackFrame w stack size foo m = Ok (tt, m') /\ Cpu m' = Cpu m /\ Data m' = Data m /\ Foo (Co m') = Foo (Co m) /\
    Regs (MachineState (context w (Co m'))) = InTrampoline (Some foo) /\ Main (context w (Co m')) = Main (context w (Co m)) /\
    halTempContext m' = None.
Proof.
  intros (Hlen & Hin & Hp) Hsize. destruct m as [c t al h hp co d now]. cbn [Cpu] in *. unfold HalCreateStackFrame.
  do 2 run_step. set (mask := mask_of c IRQ_LEVEL_MAX) in *.
  st_step (on_cpu_run _ _ mask c) by (apply rd_ok; [done|by apply mask_lookup; [|unfold IRQ_LEVEL_MAX, IRQ_LEVEL_TIMER; lia]]).
  do 3 run_step. st_step assert_true by lia. do 2 run_step. st_step deliver_blocked by (simpl; set_solver). run_step.
  match goal with |- context [(deliver_trampoline ≫= _) ?x] => set (m2 := x) end.
  destruct (deliver_now m2 w mask (stack, size)) as (m3 & E & Hc & Hproc & Hh & Hd & Hf & Hr & Hm); [set_solver..|done|done|done|].
  rewrite (st_bind_ok _ _ _ _ _ E). run_step. rewrite Hproc. st_step assert_true. run_step.
  eexists. split; [by apply on_cpu_run|]. cbn [Cpu with_Cpu with_AltStack Co Data halTempContext]. split_and!; try done.
  - rewrite Hc. exact (set_cpu_same c HAL_ISR_TRAMPOLINE ((SignalMask c ∪ mask) ∖ {[HAL_ISR_TRAMPOLINE]}) Hp).
  - rewrite Hf. by destruct w.
  - rewrite Hr. by destruct w.
  - rewrite Hm. by destruct w.
Qed.

(** A stack that [sigaltstack] refuses. *)
Lemma HalCreateStackFrame_small w stack size foo m :
  length (HalIrqToMask (Cpu m)) = 8%nat -> size < MINSIGSTKSZ -> HalCreateStackFrame w stack size foo m = Err FPanic.
Proof.
  intros Hlen Hsize. destruct m as [c t al h hp co d now]. cbn [Cpu] in *. unfold HalCreateStackFrame.
  do 2 run_step. st_step (on_cpu_run _ _ (mask_of c IRQ_LEVEL_MAX) c)
    by (apply rd_ok; [done|by apply mask_lookup; [|unfold IRQ_LEVEL_MAX, IRQ_LEVEL_TIMER; lia]]).
  do 3 run_step. unfold assert. by rewrite (proj2 (Z.leb_gt _ _)).
Qed.

Lemma CoroutineInit_ok f stack size m :
  bootable (Cpu m) -> cpu_ready (Cpu m) -> MINSIGSTKSZ <= size ->
  exists m', CoroutineInit f stack size m = Ok (tt, m') /\ suspended f Start m' /\ Cpu m' = Cpu m /\ Data m' = Data m.
Proof.
  intros Hb Hc Hs. unfold CoroutineInit, ContextInit. do 2 run_step.
  rewrite (proj2 (Z.eqb_neq size 0)) by (unfold MINSIGSTKSZ in *; lia). cbn [negb]. run_step.
  match goal with |- context [HalCreateStackFrame _ _ _ _ ?x] => set (m1 := x) end.
  destruct (HalCreateStackFrame_ok RoutineState stack size ContextBootstrap_ m1 Hb Hs) as (m2 & E & Hc2 & Hd & Hf & Hr & Hm & _).
  exists m2. split; [done|]. split; [|by rewrite Hc2, Hd]. constructor; [by rewrite Hc2|by rewrite Hf|split; [exact Hr|exact Hm]].
Qed.

Lemma coroutine_generates_ok f stack size calls fuel m ds d :
  bootable (Cpu m) -> cpu_ready (Cpu m) -> MINSIGSTKSZ <= size -> generate calls fuel f (entry f) (Data m) = Some (ds, d) ->
  exists m', (CoroutineInit f stack size;; ForEach calls fuel) m = Ok (ds, m') /\ suspended f Finished m' /\ Cpu m' = Cpu m /\ Data m' = d.
Proof.
  intros Hb Hc Hs Hg. destruct (CoroutineInit_ok f stack size m Hb Hc Hs) as (m1 & E & Hs1 & Hc1 & Hd1).
  rewrite (st_bind_ok _ _ _ _ _ E). rewrite <- Hd1 in Hg. destruct (ForEach_ok calls fuel f Start (entry f) m1 ds d Hs1 eq_refl Hg)
    as (m2 & E2 & Hs2 & Hc2 & Hd2). exists m2. by rewrite Hc2.
Qed.
End coroutine.

Arguments COROUTINE_FUNCTION : clear implicits.
Arguments MACHINE : clear implicits.
Arguments Garbage {L}.

(** ** The coroutine of test/test15.c *)

Record RANGE := mkRange { RLow : Z; RHigh : Z; RStep : Z; Last : Z }.

(** At the entry, at the test of the loop, and behind the yield. *)
Inductive RangeLocals := Entered | Testing (cur : Z) | Yielded (cur : Z).

Definition RangeRoutine : COROUTINE_FUNCTION RangeLocals RANGE := mkFunction Entered (fun l d =>
  match l with
  | Entered => (Goes (Testing (RLow d)), d)
  | Testing cur =>
      if cur <? RHigh d then (Yields (Yielded cur), mkRange (RLow d) (RHigh d) (RStep d) cur) else (Returns, d)
  | Yielded cur => (Goes (Testing (w64 (cur + RStep d))), d)
  end).

(** The numbers from [low] on, before [high]. *)
Fixpoint range (n : nat) (low high step : Z) : list Z :=
  match n with
  | O => []
  | S n => if low <? high then low :: range n (low + step) high step else []
  end.

Lemma generate_step {L D} n fuel (f : COROUTINE_FUNCTION L D) l d :
  generate (S n) fuel f l d =
    match upto fuel f l d with
    | None => None
    | Some (None, d) => Some ([], d)
    | Some (Some l, d) => match generate n fuel f l d with Some (ds, e) => Some (d :: ds, e) | None => None end
    end.
Proof. reflexivity. Qed.

Definition upto_range (cur : Z) (d : RANGE) : option (option RangeLocals * RANGE) :=
  if cur <? RHigh d then Some (Some (Yielded cur), mkRange (RLow d) (RHigh d) (RStep d) cur) else Some (None, d).

Lemma upto_yielded cur d : u64 (cur + RStep d) -> upto 3 RangeRoutine (Yielded cur) d = upto_range (cur + RStep d) d.
Proof. intros H. cbn [upto step RangeRoutine]. rewrite w64_small by done. unfold upto_range. by destruct (_ <? _). Qed.
Lemma upto_entered d : upto 3 RangeRoutine Entered d = upto_range (RLow d) d.
Proof. cbn [upto step RangeRoutine]. unfold upto_range. by destruct (_ <? _). Qed.

Lemma range_from n l d cur :
  upto 3 RangeRoutine l d = upto_range cur d ->
  0 <= cur -> 0 < RStep d -> RHigh d + RStep d < 2 ^ 64 -> RHigh d <= cur + Z.of_nat n * RStep d ->
  exists ds e, generate (S n) 3 RangeRoutine l d = Some (ds, e) /\ Last <$> ds = range n cur (RHigh d) (RStep d).
Proof.
  revert l d cur. induction n as [|n IH]; intros l d cur Hu Hc Hs Hh Hn; rewrite generate_step, Hu; unfold upto_range;
    cbn [range]; destruct (Z.ltb_spec cur (RHigh d)) as [Hl|Hl].
  - lia.
  - by exists [], d.
  - set (d' := mkRange (RLow d) (RHigh d) (RStep d) cur).
    destruct (IH (Yielded cur) d' (cur + RStep d)) as (ds & e & E & El); [|cbn [d' RHigh RStep]; lia..|].
    + apply (upto_yielded cur d'). cbn [d' RStep]. unfold u64. lia.
    + rewrite E. exists (d' :: ds), e. split; [done|]. rewrite fmap_cons. by rewrite El.
  - by exists [], d.
Qed.

Lemma range_generates n d :
  0 <= RLow d -> 0 < RStep d -> RHigh d + RStep d < 2 ^ 64 -> RHigh d <= RLow d + Z.of_nat n * RStep d ->
  exists ds e, generate (S n) 3 RangeRoutine Entered d = Some (ds, e) /\ Last <$> ds = range n (RLow d) (RHigh d) (RStep d).
Proof. intros. by apply range_from; [apply upto_entered|..]. Qed.

(** [ThreadMain] up to [SchedulerShutdown], with any parameters. *)
Definition ThreadMain (calls fuel : nat) (stack size : Z) : St (MACHINE RangeLocals RANGE) (list RANGE) :=
  CoroutineInit RangeRoutine stack size;; ForEach calls fuel.

(** ** Properties *)

(** C40: a coroutine is its function run as a generator.  After [CoroutineInit], repeated
    calls of [CoroutineNext] see exactly the data that the function has at its yields, and
    answer [COROUTINE_DONE] when it returns and ever after, without running it again; every
    call leaves the interrupt levels, the signal mask and the pending signals as they were. *)
Theorem coroutine_generates {L D} (f : COROUTINE_FUNCTION L D) stack size calls fuel m ds d :
  bootable (Cpu m) -> cpu_ready (Cpu m) -> MINSIGSTKSZ <= size -> generate calls fuel f (entry f) (Data m) = Some (ds, d) ->
  exists m', (CoroutineInit f stack size;; ForEach calls fuel) m = Ok (ds, m') /\ Cpu m' = Cpu m /\ Data m' = d /\
    exists m'', CoroutineNext fuel m' = Ok (COROUTINE_DONE, m'') /\ Cpu m'' = Cpu m /\ Data m'' = d.
Proof.
  intros Hb Hc Hs Hg. destruct (coroutine_generates_ok f stack size calls fuel m ds d Hb Hc Hs Hg) as (m' & E & Hf & Hc' & Hd).
  exists m'. split_and!; try done. destruct (CoroutineNext_ok fuel f Finished m' None d Hf) as (m'' & E'' & _ & Hc'' & Hd''); [done|].
  exists m''. by rewrite Hc''.
Qed.

(** The range coroutine counts from [low] to [high] in steps, for every range that does not overflow. *)
Lemma range_counts stack size n (m : MACHINE RangeLocals RANGE) :
  let d := Data m in
  bootable (Cpu m) -> cpu_ready (Cpu m) -> MINSIGSTKSZ <= size ->
  0 <= RLow d -> 0 < RStep d -> RHigh d + RStep d < 2 ^ 64 -> RHigh d <= RLow d + Z.of_nat n * RStep d ->
  exists ds m', ThreadMain (S n) 3 stack size m = Ok (ds, m') /\ Last <$> ds = range n (RLow d) (RHigh d) (RStep d).
Proof.
  intros d Hb Hc Hs H1 H2 H3 H4. destruct (range_generates n d H1 H2 H3 H4) as (ds & e & Hg & Hl).
  destruct (coroutine_generates_ok RangeRoutine stack size (S n) 3 m ds e Hb Hc Hs Hg) as (m' & E & _). by exists ds, m'.
Qed.

(** A machine before [CoroutineInit], with uninitialised memory in the coroutine. *)
Definition machine0 {L D} (d : D) : MACHINE L D :=
  let x := mkContext (mkMachineContext None Garbage) None 0 0 0 0 0 0 in
  mkMachine cpu0 None None None false (mkCoroutine None None x x) d 0.

Lemma bootable0 : bootable cpu0.
Proof. split; [by vm_compute|]. split; apply (bool_decide_unpack _); vm_compute; exact I. Qed.
Lemma ready0 : cpu_ready cpu0.
Proof. split; [exact cpu0_ok|]. rewrite cpu0_counts. by vm_compute. Qed.

Lemma coroutine_generates_witness :
  exists ds d m', generate 4 3 RangeRoutine Entered (mkRange 3 8 2 0) = Some (ds, d) /\ Last <$> ds = [3; 5; 7] /\
    (CoroutineInit RangeRoutine 4096 32768;; ForEach 4 3) (machine0 (mkRange 3 8 2 0)) = Ok (ds, m') /\ Cpu m' = Cpu (machine0 (L:=RangeLocals) (mkRange 3 8 2 0)).
Proof.
  destruct (coroutine_generates RangeRoutine 4096 32768 4 3 (machine0 (mkRange 3 8 2 0)) _ _ bootable0 ready0
    ltac:(unfold MINSIGSTKSZ; lia) eq_refl) as (m' & E & Hc & _).
  eexists _, _, m'. split; [reflexivity|]. split; [reflexivity|]. split; [exact E|exact Hc].
Defined.
