(* ===== verification/Watchdog.v ===== *)
(** * The watchdog (kernel/watchdog.c, utils/flags.h, HalPetWatchdog of hal/unix_hal.c)

    Every part of the system that is to be watched has a flag; when all flags have been
    notified the hardware watchdog is reset.  [FLAG] is [int]; a flag field is kept as its
    bit pattern, an integer in [0, 2^32). *)

From S2P Require Import Prelude Isr.

(** ** Flags *)

Definition FlagOn (field flag : Z) : Z := Z.lor field flag.
Definition FlagOff (field flag : Z) : Z := Z.land field (wrap 32 (Z.lnot flag)).
Definition FlagToggle (field flag : Z) : Z := Z.lxor field flag.
Definition FlagGet (field flag : Z) : Z := Z.land field flag.
Definition FlagGetBit (index : Z) : Z := wrap 32 (Z.shiftl 1 index).
Definition FlagsEqual (a b : Z) : bool := a =? b.
Definition FLAG_MAX_INDEX : Z := 31.
Definition FLAG_NONE : Z := 0.
Definition FLAG_ALL : Z := wrap 32 (-1).

(** ** State and operations *)

(** [VirtualTimer] is [ITIMER_VIRTUAL], in microseconds. *)
Record WATCHDOG := mkWatchdog {
  Cpu : CPU;
  Now : Z;
  VirtualTimer : option Z;
  Timeout : Z;
  WatchdogDesiredMask : Z;
  WatchdogCurMask : Z;
  WatchdogLastUpdatedTime : Z;
  WatchdogLastClearedTime : Z
}.

Definition on_cpu {A} (m : St CPU A) : St WATCHDOG A := fun s =>
  match m (Cpu s) with
  | Ok (a, c) => Ok (a, mkWatchdog c (Now s) (VirtualTimer s) (Timeout s) (WatchdogDesiredMask s) (WatchdogCurMask s)
      (WatchdogLastUpdatedTime s) (WatchdogLastClearedTime s))
  | Err e => Err e
  end.

Definition set_masks (desired cur : Z) : St WATCHDOG unit := modify (fun s =>
  mkWatchdog (Cpu s) (Now s) (VirtualTimer s) (Timeout s) desired cur (WatchdogLastUpdatedTime s) (WatchdogLastClearedTime s)).
Definition set_times (updated cleared : Z) : St WATCHDOG unit := modify (fun s =>
  mkWatchdog (Cpu s) (Now s) (VirtualTimer s) (Timeout s) (WatchdogDesiredMask s) (WatchdogCurMask s) updated cleared).
Definition set_Timeout (t : Z) : St WATCHDOG unit := modify (fun s =>
  mkWatchdog (Cpu s) (Now s) (VirtualTimer s) t (WatchdogDesiredMask s) (WatchdogCurMask s)
    (WatchdogLastUpdatedTime s) (WatchdogLastClearedTime s)).
Definition set_VirtualTimer (t : option Z) : St WATCHDOG unit := modify (fun s =>
  mkWatchdog (Cpu s) (Now s) t (Timeout s) (WatchdogDesiredMask s) (WatchdogCurMask s)
    (WatchdogLastUpdatedTime s) (WatchdogLastClearedTime s)).

(** [tv_usec] is a signed [long]; [setitimer] refuses values outside [0, 999999] and is
    switched off by zero. *)
Definition signed64 (z : Z) : Z := (z + 2 ^ 63) mod 2 ^ 64 - 2 ^ 63.

Definition HalPetWatchdog (when : Z) : St WATCHDOG unit :=
  let tv_usec := signed64 (when * 1000) in
  assert ((0 <=? tv_usec) && (tv_usec <=? 999999));;
  set_VirtualTimer (if tv_usec =? 0 then None else Some tv_usec).

Definition WatchdogEnable (timeout : Z) : St WATCHDOG unit :=
  set_Timeout timeout;;
  set_masks FLAG_NONE FLAG_NONE;;
  set_times 0 0;;
  on_cpu (HalRegisterIsrHandler WatchdogInterrupt_ HAL_ISR_WATCHDOG IRQ_LEVEL_WATCHDOG);;
  HalPetWatchdog timeout.

(** The code of [WatchdogNotify] between [IsrDisable] and [IsrEnable]. *)
Definition NotifyLocked (flag : Z) : St WATCHDOG unit :=
  desired ← gets WatchdogDesiredMask;
  assert (negb (FlagGet flag desired =? 0));;
  time ← gets Now;
  cleared ← gets WatchdogLastClearedTime;
  set_times time cleared;;
  cur ← gets WatchdogCurMask;
  set_masks desired (FlagOn cur flag);;
  cur ← gets WatchdogCurMask;
  if FlagsEqual cur desired then
    timeout ← gets Timeout;
    HalPetWatchdog timeout;;
    set_masks desired FLAG_NONE;;
    set_times time time
  else mret tt.

Definition WatchdogNotify (index : Z) : St WATCHDOG unit :=
  assert (index <=? FLAG_MAX_INDEX);;
  let flag := FlagGetBit index in
  on_cpu (IsrDisable IRQ_LEVEL_WATCHDOG);;
  NotifyLocked flag;;
  on_cpu (IsrEnable IRQ_LEVEL_WATCHDOG).

Definition WatchdogAddFlag (index : Z) : St WATCHDOG unit :=
  assert (index <=? FLAG_MAX_INDEX);;
  let flag := FlagGetBit index in
  on_cpu (IsrDisable IRQ_LEVEL_WATCHDOG);;
  desired ← gets WatchdogDesiredMask;
  cur ← gets WatchdogCurMask;
  set_masks (FlagOn desired flag) cur;;
  on_cpu (IsrEnable IRQ_LEVEL_WATCHDOG).

Definition WatchdogInterrupt : St WATCHDOG unit := panic.

(** ** Flag fields as sets *)

Definition is_set (mask : Z) (S : gset Z) : Prop :=
  0 <= mask /\ forall i, 0 <= i -> Z.testbit mask i = bool_decide (i ∈ S).

Lemma is_set_none : is_set FLAG_NONE ∅.
Proof. split; [done|]. intros i Hi. by rewrite Z.testbit_0_l, bool_decide_false by set_solver. Qed.

Lemma bit_flag i j : 0 <= i <= FLAG_MAX_INDEX -> 0 <= j -> Z.testbit (FlagGetBit i) j = bool_decide (j = i).
Proof.
  unfold FLAG_MAX_INDEX. intros Hi Hj. unfold FlagGetBit. rewrite Z.shiftl_1_l.
  rewrite wrap_small by (split; [apply Z.pow_nonneg; lia|apply Z.pow_lt_mono_r; lia]).
  rewrite Z.pow2_bits_eqb by lia. destruct (Z.eqb_spec i j); [by rewrite bool_decide_true|by rewrite bool_decide_false].
Qed.

Lemma flag_nonneg i : 0 <= FlagGetBit i.
Proof. apply wrap_range. lia. Qed.

Lemma is_set_on mask S i : 0 <= i <= FLAG_MAX_INDEX -> is_set mask S -> is_set (FlagOn mask (FlagGetBit i)) ({[i]} ∪ S).
Proof.
  intros Hi [H0 Hm]. split; [apply Z.lor_nonneg; split; [done|apply flag_nonneg]|]. intros j Hj.
  unfold FlagOn. rewrite Z.lor_spec, Hm, bit_flag by done. do 2 case_bool_decide; simpl; try case_bool_decide; set_solver.
Qed.

Lemma is_set_get mask S i : 0 <= i <= FLAG_MAX_INDEX -> is_set mask S ->
  (FlagGet (FlagGetBit i) mask =? 0) = negb (bool_decide (i ∈ S)).
Proof.
  intros Hi [H0 Hm]. unfold FlagGet. assert (Z.testbit (Z.land (FlagGetBit i) mask) i = bool_decide (i ∈ S)) as Hb.
  { rewrite Z.land_spec, bit_flag, Hm by lia. by rewrite bool_decide_true. }
  case_bool_decide as Hin.
  - apply Z.eqb_neq. intros E. by rewrite E, Z.testbit_0_l in Hb.
  - apply Z.eqb_eq. apply Z.bits_inj'. intros j Hj. rewrite Z.testbit_0_l, Z.land_spec, bit_flag by done.
    case_bool_decide; [subst j|done]. rewrite Hm by done. by rewrite bool_decide_false.
Qed.

Lemma is_set_equal a b S T : is_set a S -> is_set b T -> (forall i, i ∈ S -> 0 <= i) -> (forall i, i ∈ T -> 0 <= i) ->
  FlagsEqual a b = bool_decide (S = T).
Proof.
  intros [Ha Hs] [Hb Ht] HS HT. unfold FlagsEqual. case_bool_decide as E.
  - apply Z.eqb_eq. apply Z.bits_inj'. intros j Hj. by rewrite Hs, Ht, E by done.
  - apply Z.eqb_neq. intros ->. apply E. apply set_eq. intros j. split; intros Hj.
    + pose proof (HS j Hj) as H0. specialize (Hs j H0). rewrite Ht, (bool_decide_true (j ∈ S)) in Hs by done. by apply bool_decide_eq_true in Hs.
    + pose proof (HT j Hj) as H0. specialize (Ht j H0). rewrite Hs, (bool_decide_true (j ∈ T)) in Ht by done. by apply bool_decide_eq_true in Ht.
Qed.

(** The watchdog watches the flags [D], of which those in [S] have been notified since it was last reset. *)
Record watching (s : WATCHDOG) (D S : gset Z) : Prop := {
  w_cpu : cpu_ok (Cpu s) /\ cnt (IsrDisabledCount (Cpu s)) IRQ_LEVEL_WATCHDOG < max64;
  w_desired : is_set (WatchdogDesiredMask s) D;
  w_cur : is_set (WatchdogCurMask s) S;
  w_flags : forall i, i ∈ D -> 0 <= i <= FLAG_MAX_INDEX;
  w_sub : S ⊆ D
}.

(** The code between the disable and the enable of the watchdog's level. *)
Lemma guarded (body : St WATCHDOG unit) s s' :
  cpu_ok (Cpu s) -> cnt (IsrDisabledCount (Cpu s)) IRQ_LEVEL_WATCHDOG < max64 ->
  (forall c, body (mkWatchdog c (Now s) (VirtualTimer s) (Timeout s) (WatchdogDesiredMask s) (WatchdogCurMask s)
      (WatchdogLastUpdatedTime s) (WatchdogLastClearedTime s)) =
    Ok (tt, mkWatchdog c (Now s') (VirtualTimer s') (Timeout s') (WatchdogDesiredMask s') (WatchdogCurMask s')
      (WatchdogLastUpdatedTime s') (WatchdogLastClearedTime s'))) ->
  Cpu s' = Cpu s ->
  (on_cpu (IsrDisable IRQ_LEVEL_WATCHDOG);; body;; on_cpu (IsrEnable IRQ_LEVEL_WATCHDOG)) s = Ok (tt, s').
Proof.
  intros Hok Hmax Hbody Hc. destruct (disable_enable IRQ_LEVEL_WATCHDOG (Cpu s) Hok) as (c1 & Hd & _ & _ & _ & _ & He);
    [unfold IRQ_LEVEL_WATCHDOG; lia|done|].
  unfold mbind, st_bind, on_cpu at 1. rewrite Hd, Hbody. unfold on_cpu. simpl. rewrite He, <- Hc. by destruct s'.
Qed.

(** A notification of a watched flag completes, outside interrupts, and counts the
    flag; when it is the last one that was missing the hardware watchdog is armed for another
    timeout and all flags are expected again, otherwise the hardware watchdog runs on.  A flag that is not
    watched is refused. *)
Theorem watchdog_notify s D S i :
  watching s D S -> 0 <= Timeout s <= 999 ->
  (i ∈ D -> exists s', WatchdogNotify i s = Ok (tt, s') /\ Timeout s' = Timeout s /\ Cpu s' = Cpu s /\
    (if decide ({[i]} ∪ S = D) then
       VirtualTimer s' = (if Timeout s =? 0 then None else Some (Timeout s * 1000)) /\ watching s' D ∅
     else VirtualTimer s' = VirtualTimer s /\ watching s' D ({[i]} ∪ S))) /\
  (i ∉ D -> 0 <= i -> WatchdogNotify i s = Err FPanic).
Proof.
  intros [[Hok Hmax] Hd Hc Hfl Hsub] Ht. split.
  - intros Hi. pose proof (Hfl i Hi) as Hir. pose proof (is_set_get _ D i Hir Hd) as Hget. rewrite bool_decide_true in Hget by done.
    pose proof (is_set_on _ S i Hir Hc) as Hon.
    assert (FlagsEqual (FlagOn (WatchdogCurMask s) (FlagGetBit i)) (WatchdogDesiredMask s) = bool_decide ({[i]} ∪ S = D)) as Heq.
    { apply is_set_equal; [done|done| |intros; by apply Hfl]. intros j Hj. apply Hfl. set_solver. }
    assert (forall b, HalPetWatchdog (Timeout s) b =
      Ok (tt, mkWatchdog (Cpu b) (Now b) (if Timeout s =? 0 then None else Some (Timeout s * 1000)) (Timeout b) (WatchdogDesiredMask b)
        (WatchdogCurMask b) (WatchdogLastUpdatedTime b) (WatchdogLastClearedTime b))) as Hpet.
    { intros b. unfold HalPetWatchdog, signed64. replace ((Timeout s * 1000 + 2 ^ 63) mod 2 ^ 64 - 2 ^ 63) with (Timeout s * 1000).
      - rewrite (proj2 (Z.leb_le _ _)), (proj2 (Z.leb_le _ _)) by lia. st_step assert_true.
        unfold set_VirtualTimer, modify. replace (Timeout s * 1000 =? 0) with (Timeout s =? 0); [done|].
        destruct (Z.eqb_spec (Timeout s) 0), (Z.eqb_spec (Timeout s * 1000) 0); done || lia.
      - rewrite Z.mod_small by lia. lia. }
    set (full := bool_decide ({[i]} ∪ S = D)) in *.
    exists (mkWatchdog (Cpu s) (Now s) (if full then if Timeout s =? 0 then None else Some (Timeout s * 1000) else VirtualTimer s)
      (Timeout s) (WatchdogDesiredMask s) (if full then FLAG_NONE else FlagOn (WatchdogCurMask s) (FlagGetBit i))
      (Now s) (if full then Now s else WatchdogLastClearedTime s)).
    split; [|split; [done|split; [done|]]].
    + unfold WatchdogNotify. rewrite (proj2 (Z.leb_le _ _)) by lia. st_step assert_true. cbv zeta.
      apply guarded; [done|done|intros c|done].
      { unfold NotifyLocked, mbind, st_bind, gets, set_times, set_masks, modify, assert. simpl. rewrite Hget. simpl. rewrite Heq.
        destruct full; [|done]. rewrite Hpet. done. }
    + unfold full. case_decide as Hf; [rewrite bool_decide_true by done|rewrite bool_decide_false by done].
      * split; [done|]. constructor; simpl; try done. apply is_set_none.
      * split; [done|]. constructor; simpl; try done. set_solver.
  - intros Hi H0. unfold WatchdogNotify. destruct (Z.leb_spec i FLAG_MAX_INDEX) as [Hle|]; [|done]. st_step assert_true. cbv zeta.
    destruct (disable_enable IRQ_LEVEL_WATCHDOG (Cpu s) Hok) as (c1 & Hdis & _); [unfold IRQ_LEVEL_WATCHDOG; lia|done|].
    unfold mbind, st_bind, on_cpu at 1. rewrite Hdis. unfold NotifyLocked, mbind, st_bind, gets, assert. simpl.
    rewrite (is_set_get _ D i) by (done || lia). by rewrite bool_decide_false.
Qed.

(** HalPetWatchdog arms the timer for a timeout below one second (zero switches it
    off); it passes the whole timeout as microseconds of the interval timer, which refuses a second or
    more, so that a longer timeout fails the CHECK. *)
Theorem pet_bounds s when :
  0 <= when < 2 ^ 53 ->
  HalPetWatchdog when s =
    if when <=? 999 then
      Ok (tt, mkWatchdog (Cpu s) (Now s) (if when =? 0 then None else Some (when * 1000)) (Timeout s)
        (WatchdogDesiredMask s) (WatchdogCurMask s) (WatchdogLastUpdatedTime s) (WatchdogLastClearedTime s))
    else Err FPanic.
Proof.
  intros Hw. unfold HalPetWatchdog, signed64. rewrite Z.mod_small by lia.
  replace (when * 1000 + 2 ^ 63 - 2 ^ 63) with (when * 1000) by lia. rewrite (proj2 (Z.leb_le _ _)) by lia. simpl.
  destruct (Z.leb_spec when 999).
  - rewrite (proj2 (Z.leb_le _ _)) by lia. st_step assert_true. unfold set_VirtualTimer, modify.
    replace (when * 1000 =? 0) with (when =? 0); [done|]. destruct (Z.eqb_spec when 0), (Z.eqb_spec (when * 1000) 0); done || lia.
  - by rewrite (proj2 (Z.leb_gt (when * 1000) 999999)) by lia.
Qed.

(** A watchdog with the flags 0 and 3, of which the flag 0 has been notified. *)
Definition watch0 : WATCHDOG := mkWatchdog cpu0 100 (Some 500000) 500 9 1 90 80.

Lemma watch0_ok : watching watch0 ({[0]} ∪ ({[3]} ∪ ∅)) ({[0]} ∪ ∅).
Proof.
  constructor.
  - split; [exact cpu0_ok|]. change (Cpu watch0) with cpu0. rewrite cpu0_counts. vm_compute. reflexivity.
  - apply (is_set_on (FlagOn FLAG_NONE (FlagGetBit 3)) ({[3]} ∪ ∅) 0); [unfold FLAG_MAX_INDEX; lia|].
    apply (is_set_on FLAG_NONE ∅ 3); [unfold FLAG_MAX_INDEX; lia|]. apply is_set_none.
  - apply (is_set_on FLAG_NONE ∅ 0); [unfold FLAG_MAX_INDEX; lia|]. apply is_set_none.
  - unfold FLAG_MAX_INDEX. intros i Hi. apply elem_of_union in Hi as [->%elem_of_singleton|Hi]; [lia|].
    apply elem_of_union in Hi as [->%elem_of_singleton|Hi]; [lia|]. by apply not_elem_of_empty in Hi.
  - apply (bool_decide_unpack _). vm_compute. exact I.
Defined.

Lemma watchdog_notify_witness :
  exists s', WatchdogNotify 3 watch0 = Ok (tt, s') /\ VirtualTimer s' = Some 500000.
Proof.
  destruct (proj1 (watchdog_notify watch0 ({[0]} ∪ ({[3]} ∪ ∅)) ({[0]} ∪ ∅) 3 watch0_ok ltac:(vm_compute; split; discriminate)))
    as (s' & Hrun & _ & _ & H).
  - apply (bool_decide_unpack _). vm_compute. exact I.
  - exists s'. split; [exact Hrun|]. rewrite decide_True in H; [exact (proj1 H)|].
    apply (bool_decide_unpack _). vm_compute. exact I.
Defined.

Lemma pet_bounds_witness : HalPetWatchdog 1000 watch0 = Err FPanic.
Proof. exact (pet_bounds watch0 1000 ltac:(lia)). Defined.
