(* ===== verification/AvrHal.v ===== *)
(** * The hardware layer of the AVR processor (hal/avr_hal.c, hal/avr_hal.h)

    A context switch pushes the 32 registers and the status register on the stack of the old
    thread, exchanges the stack pointers and pops what the new thread pushed
    when it was switched away from, or what [HalCreateStackFrame] put there.  The assembly is a list of
    instructions; addresses are 16-bit words, memory is a function from addresses to
    bytes.  The numbers of the bits of device registers come from avr/io.h and are
    parameters. *)

From S2P Require Import Prelude.

Abbreviation w16 := (wrap 16).

(** ** The processor *)

Record CPU := mkCpu { R : list Z; SREG : Z; SP : Z; PC : Z; mem : Z -> Z }.

Inductive instr := PUSH (r : nat) | POP (r : nat) | IN (r : nat) (a : Z) | OUT (a : Z) (r : nat) | RET.

Definition store (a v : Z) (m : Z -> Z) : Z -> Z := fun b => if b =? a then v else m b.

(** The I/O address of the status register. *)
Definition SREG_IO : Z := 63.

(** A push stores below the stack and then moves the stack pointer, a pop moves it first.  The
    high byte of a return address is at the lower address. *)
Definition step_instr (i : instr) (c : CPU) : res CPU :=
  match i with
  | PUSH r => v ← arr_get (R c) (Z.of_nat r); Ok (mkCpu (R c) (SREG c) (w16 (SP c - 1)) (PC c) (store (SP c) v (mem c)))
  | POP r =>
      let sp := w16 (SP c + 1) in
      rs ← arr_set (R c) (Z.of_nat r) (mem c sp); Ok (mkCpu rs (SREG c) sp (PC c) (mem c))
  | IN r a => if a =? SREG_IO then rs ← arr_set (R c) (Z.of_nat r) (SREG c); Ok (mkCpu rs (SREG c) (SP c) (PC c) (mem c)) else Err FMemory
  | OUT a r => if a =? SREG_IO then v ← arr_get (R c) (Z.of_nat r); Ok (mkCpu (R c) v (SP c) (PC c) (mem c)) else Err FMemory
  | RET =>
      let hi := w16 (SP c + 1) in let lo := w16 (SP c + 2) in
      Ok (mkCpu (R c) (SREG c) lo (256 * mem c hi + mem c lo) (mem c))
  end.

Fixpoint exec (code : list instr) (c : CPU) : res CPU :=
  match code with [] => Ok c | i :: code => c ← step_instr i c; exec code c end.

(** r0 to r31. *)
Definition HAL_SAVE_STATE : list instr :=
  [PUSH 0; PUSH 1; PUSH 2; PUSH 3; PUSH 4; PUSH 5; PUSH 6; PUSH 7; PUSH 8; PUSH 9; PUSH 10; PUSH 11; PUSH 12; PUSH 13;
   PUSH 14; PUSH 15; PUSH 16; PUSH 17; PUSH 18; PUSH 19; PUSH 20; PUSH 21; PUSH 22; PUSH 23; PUSH 24; PUSH 25; PUSH 26;
   PUSH 27; PUSH 28; PUSH 29; PUSH 30; PUSH 31; IN 0 0x3F; PUSH 0].

Definition HAL_RESTORE_STATE : list instr :=
  [POP 0; OUT 0x3F 0; POP 31; POP 30; POP 29; POP 28; POP 27; POP 26; POP 25; POP 24; POP 23; POP 22; POP 21; POP 20;
   POP 19; POP 18; POP 17; POP 16; POP 15; POP 14; POP 13; POP 12; POP 11; POP 10; POP 9; POP 8; POP 7; POP 6; POP 5;
   POP 4; POP 3; POP 2; POP 1; POP 0; RET].

(** ** Contexts *)

(** [Stack] is [NULL], 0, in the context of the first thread. *)
Record MACHINE_CONTEXT := mkContext { Stack : Z; High : Z; Low : Z }.

Record HAL := mkHal { cpu : CPU; contexts : gmap Z MACHINE_CONTEXT; ActiveStack : option Z; NextStack : option Z }.

Definition deref (h : HAL) (p : option Z) : res (Z * MACHINE_CONTEXT) :=
  match p with
  | None => Err FNull
  | Some a => match contexts h !! a with Some c => Ok (a, c) | None => Err FMemory end
  end.

Definition HAL_SAVE_SP (c : CPU) (dest : MACHINE_CONTEXT) : MACHINE_CONTEXT := mkContext (SP c) (High dest) (Low dest).
Definition HAL_SET_SP (value : Z) (c : CPU) : CPU := mkCpu (R c) (SREG c) value (PC c) (mem c).

Definition ASSENDING (a b c : Z) : bool := (a <=? b) && (b <=? c).

(** The C statements between the two pieces of assembly leave [used] in the registers and in
    the status register. *)
Definition HalContextSwitch (used : list Z * Z) (h : HAL) : res HAL :=
  c ← exec HAL_SAVE_STATE (cpu h);
  '(a, active) ← deref h (ActiveStack h);
  let active := HAL_SAVE_SP c active in
  let h := mkHal c (<[a := active]> (contexts h)) (ActiveStack h) (NextStack h) in
  _ ← assertr (ASSENDING (Low active) (Stack active) (High active));
  let h := mkHal (cpu h) (contexts h) (NextStack h) None in
  '(_, next) ← deref h (ActiveStack h);
  let c := HAL_SET_SP (Stack next) (mkCpu used.1 used.2 (SP c) (PC c) (mem c)) in
  c ← exec HAL_RESTORE_STATE c;
  Ok (mkHal c (contexts h) (ActiveStack h) (NextStack h)).

(** [for( reg = 0; reg < 33; reg++ ) { sp -= 1; *sp = reg; }], [n] turns left. *)
Fixpoint FrameLoop (n : nat) (reg sp : Z) (m : Z -> Z) : Z * (Z -> Z) :=
  match n with
  | O => (sp, m)
  | S n => let sp := w16 (sp - 1) in FrameLoop n (reg + 1) sp (store sp reg m)
  end.

Definition HalCreateStackFrame (stack stackSize foo : Z) (m : Z -> Z) : MACHINE_CONTEXT * (Z -> Z) :=
  let sp := w16 (stack + stackSize) in
  let sp := w16 (sp - 2) in
  let m := store (w16 (sp + 1)) (foo mod 256) m in
  let m := store sp (foo / 256 mod 256) m in
  let '(sp, m) := FrameLoop 33 0 sp m in
  let m := store sp 0 m in
  let sp := w16 (sp - 1) in
  (mkContext sp (w16 (stack + stackSize)) stack, m).

Definition HalGetInitialStackFrame : MACHINE_CONTEXT := mkContext 0 (2 ^ 16 - 1) 0.

(** ** Interrupts *)

(** The global interrupt flag of the status register. *)
Definition SREG_I : Z := 7.

Definition with_SREG (s : Z) (c : CPU) : CPU := mkCpu (R c) s (SP c) (PC c) (mem c).
Definition HalIsAtomic (c : CPU) : bool := Z.land (SREG c) (Z.shiftl 1 SREG_I) =? 0.
Definition HalDisableInterrupts (c : CPU) : CPU := with_SREG (Z.clearbit (SREG c) SREG_I) c.
Definition HalEnableInterrupts (c : CPU) : CPU := with_SREG (Z.setbit (SREG c) SREG_I) c.

(** ** Devices *)

Record DEVICES := mkDevices {
  DDRC : Z; DDRA : Z; PORTA : Z;                 (* ports *)
  TCNT0 : Z; TIMSK : Z; TCCR0 : Z;               (* timer 0 *)
  UBRR : Z; UCSRC : Z; UCSRB : Z;                (* serial line 0 *)
  WDT : option Z                                 (* period of the watchdog, in milliseconds *)
}.

Definition BAUD_19200 : Z := 51.
Definition UCSZ_8BIT : Z := Z.shiftl 3 1.
Definition TMR_PRESCALE_1024 : Z := 7.
Definition TMR_MS : Z := 16.

Definition HalStartup (d : DEVICES) : DEVICES :=
  mkDevices 0xff 0x00 0xff (TCNT0 d) (TIMSK d) (TCCR0 d) (UBRR d) (UCSRC d) (UCSRB d) (WDT d).

Definition with_timer (tcnt timsk tccr : Z) (d : DEVICES) : DEVICES :=
  mkDevices (DDRC d) (DDRA d) (PORTA d) tcnt timsk tccr (UBRR d) (UCSRC d) (UCSRB d) (WDT d).

Definition HalResetClock (d : DEVICES) : DEVICES := with_timer (0xff - 1 * 16) (TIMSK d) (TCCR0 d) d.

Section devices.
(* bit numbers of avr/io.h *)
Context (TOIE0 TXCIE RXCIE RXEN TXEN : Z).

Definition BV (bit : Z) : Z := Z.shiftl 1 bit.

Definition HalInitClock (d : DEVICES) : DEVICES :=
  with_timer (0xff - 1 * TMR_MS) (Z.lor (TIMSK d) (BV TOIE0)) (Z.lor (TCCR0 d) TMR_PRESCALE_1024) d.

Definition HalSerialStartup (d : DEVICES) : DEVICES :=
  mkDevices (DDRC d) (DDRA d) (PORTA d) (TCNT0 d) (TIMSK d) (TCCR0 d) BAUD_19200 UCSZ_8BIT
    (Z.lor (Z.lor (Z.lor (BV TXCIE) (BV RXCIE)) (BV RXEN)) (BV TXEN)) (WDT d).
End devices.

(** The period the watchdog is set to, in milliseconds: WDTO_15MS to WDTO_2S. *)
Definition WatchdogPeriod (timeout : Z) : Z :=
  if timeout <=? 15 then 15
  else if timeout <=? 30 then 30
  else if timeout <=? 60 then 60
  else if timeout <=? 120 then 120
  else if timeout <=? 250 then 250
  else if timeout <=? 500 then 500
  else if timeout <=? 1000 then 1000
  else 2000.

Definition HalEnableWatchdog (timeout : Z) (d : DEVICES) : DEVICES :=
  mkDevices (DDRC d) (DDRA d) (PORTA d) (TCNT0 d) (TIMSK d) (TCCR0 d) (UBRR d) (UCSRC d) (UCSRB d) (Some (WatchdogPeriod timeout)).

(** ** Frames *)

(** Above the stack pointer [s]: the status register, r31 down to r0, a return address. *)
Definition frame (m : Z -> Z) (s : Z) (rs : list Z) (sreg ret : Z) : Prop :=
  m (s + 1) = sreg /\ (forall i v, rs !! i = Some v -> m (s + 33 - Z.of_nat i) = v) /\
  m (s + 34) = ret / 256 /\ m (s + 35) = ret mod 256.

Lemma w16_small z : 0 <= z < 2 ^ 16 -> w16 z = z.
Proof. apply wrap_small. Qed.

Lemma store_eq a v m : store a v m a = v.
Proof. unfold store. by rewrite Z.eqb_refl. Qed.
Lemma store_ne a v m b : b <> a -> store a v m b = m b.
Proof. unfold store. intros. by rewrite (proj2 (Z.eqb_neq _ _)). Qed.

Lemma exec_app code1 code2 c : exec (code1 ++ code2) c = (c ← exec code1 c; exec code2 c).
Proof. revert c. induction code1 as [|i code1 IH]; intros c; [done|]. simpl. destruct (step_instr i c); [apply IH|done]. Qed.

(** Pushes of registers, lowest first. *)
Lemma exec_pushes n k c : (n + k <= length (R c))%nat -> Z.of_nat k <= SP c < 2 ^ 16 ->
  exists m, exec (PUSH <$> seq n k) c = Ok (mkCpu (R c) (SREG c) (SP c - Z.of_nat k) (PC c) m) /\
    (forall i v, (i < k)%nat -> R c !! (n + i)%nat = Some v -> m (SP c - Z.of_nat i) = v) /\
    (forall a, a <= SP c - Z.of_nat k \/ SP c < a -> m a = mem c a).
Proof.
  revert n c. induction k as [|k IH]; intros n c Hn Hsp.
  - exists (mem c). split; [destruct c; simpl; by rewrite Z.sub_0_r|]. split; [lia|done].
  - destruct (lookup_lt_is_Some_2 (R c) n) as [v Hv]; [lia|].
    assert (arr_get (R c) (Z.of_nat n) = Ok v) as Hg by (apply arr_get_ok; [lia|by rewrite Nat2Z.id]).
    cbn [seq fmap list_fmap exec step_instr]. rewrite Hg. cbn [mbind res_bind]. rewrite w16_small by lia.
    destruct (IH (S n) (mkCpu (R c) (SREG c) (SP c - 1) (PC c) (store (SP c) v (mem c)))) as (m & Hrun & Hin & Hout);
      cbn [R SP SREG PC mem] in *; [lia..|]. exists m. split; [rewrite Hrun; do 2 f_equal; lia|]. split.
    + intros [|i] u Hi Hu.
      * rewrite Nat.add_0_r in Hu. rewrite Hv in Hu. injection Hu as <-. rewrite Hout by lia. rewrite Z.sub_0_r. apply store_eq.
      * replace (SP c - Z.of_nat (S i)) with (SP c - 1 - Z.of_nat i) by lia. apply Hin; [lia|]. by rewrite <- Nat.add_succ_comm in Hu.
    + intros a Ha. rewrite Hout by lia. apply store_ne. lia.
Qed.

(** Pops of registers, highest first. *)
Lemma exec_pops k c : (k <= length (R c))%nat -> 0 <= SP c -> SP c + Z.of_nat k < 2 ^ 16 ->
  exists rs, exec (POP <$> reverse (seq 0 k)) c = Ok (mkCpu rs (SREG c) (SP c + Z.of_nat k) (PC c) (mem c)) /\
    length rs = length (R c) /\
    forall i, rs !! i = if decide (i < k)%nat then Some (mem c (SP c + Z.of_nat (k - i))) else R c !! i.
Proof.
  revert c. induction k as [|k IH]; intros c Hk H0 Hsp.
  - exists (R c). split; [destruct c; simpl; by rewrite Z.add_0_r|]. split; [done|]. intros i. by rewrite decide_False by lia.
  - rewrite seq_S, reverse_app. cbn [reverse]. rewrite reverse_singleton. cbn [app fmap list_fmap exec step_instr].
    rewrite w16_small by lia. rewrite arr_set_ok by (unfold zlen; lia). cbn [mbind res_bind].
    destruct (IH (mkCpu (<[Z.to_nat (Z.of_nat (0 + k)) := mem c (SP c + 1)]> (R c)) (SREG c) (SP c + 1) (PC c) (mem c))) as (rs & Hrun & Hlen & Hrs);
      cbn [R SP SREG PC mem] in *; [rewrite length_insert; lia|lia..|]. exists rs. split; [rewrite Hrun; do 2 f_equal; lia|].
    split; [by rewrite Hlen, length_insert|]. intros i. rewrite Hrs. rewrite Nat2Z.id. simpl. destruct (decide (i < k)%nat).
    + rewrite decide_True by lia. do 2 f_equal. lia.
    + destruct (decide (i < S k)%nat).
      * assert (i = k) as -> by lia. rewrite list_lookup_insert_eq by lia. do 2 f_equal. lia.
      * apply list_lookup_insert_ne. lia.
Qed.

Lemma save_state c ret : length (R c) = 32%nat -> 33 <= SP c -> SP c + 2 < 2 ^ 16 ->
  mem c (SP c + 1) = ret / 256 -> mem c (SP c + 2) = ret mod 256 ->
  exists c', exec HAL_SAVE_STATE c = Ok c' /\ length (R c') = 32%nat /\ SP c' = SP c - 33 /\
    frame (mem c') (SP c - 33) (R c) (SREG c) ret /\
    forall a, a <= SP c - 33 \/ SP c < a -> mem c' a = mem c a.
Proof.
  intros Hlen Hlo Hhi Hret1 Hret2. change HAL_SAVE_STATE with ((PUSH <$> seq 0 32) ++ [IN 0 SREG_IO; PUSH 0]).
  rewrite exec_app. destruct (exec_pushes 0 32 c) as (m & Hrun & Hin & Hout); [lia..|]. rewrite Hrun. cbn [mbind res_bind exec step_instr R].
  rewrite Z.eqb_refl. rewrite arr_set_ok by (unfold zlen; lia). cbn [mbind res_bind R SREG SP PC mem].
  rewrite (arr_get_ok _ _ (SREG c)) by (lia || (apply list_lookup_insert_eq; lia)). cbn [mbind res_bind].
  eexists. split; [reflexivity|]. cbn [R SP mem]. split; [by rewrite length_insert|]. rewrite w16_small by lia. split; [lia|]. split.
  - split; [|split; [|split]].
    + replace (SP c - 33 + 1) with (SP c - Z.of_nat 32) by lia. apply store_eq.
    + intros i v Hv. pose proof (lookup_lt_Some _ _ _ Hv). rewrite store_ne by lia.
      replace (SP c - 33 + 33 - Z.of_nat i) with (SP c - Z.of_nat i) by lia. apply Hin; [lia|done].
    + rewrite store_ne, Hout by lia. replace (SP c - 33 + 34) with (SP c + 1) by lia. done.
    + rewrite store_ne, Hout by lia. replace (SP c - 33 + 35) with (SP c + 2) by lia. done.
  - intros a Ha. rewrite store_ne by lia. apply Hout. lia.
Qed.

Lemma restore_state c rs sreg ret : length (R c) = 32%nat -> length rs = 32%nat -> 0 <= SP c -> SP c + 35 < 2 ^ 16 ->
  frame (mem c) (SP c) rs sreg ret -> exec HAL_RESTORE_STATE c = Ok (mkCpu rs sreg (SP c + 35) ret (mem c)).
Proof.
  intros Hlen Hrs Hlo Hhi (Hs & Hr & Hret1 & Hret2).
  change HAL_RESTORE_STATE with ([POP 0; OUT SREG_IO 0] ++ (POP <$> reverse (seq 0 32)) ++ [RET]).
  rewrite exec_app. cbn [exec step_instr]. rewrite w16_small by lia. rewrite arr_set_ok by (unfold zlen; lia). cbn [mbind res_bind R].
  rewrite Z.eqb_refl. rewrite (arr_get_ok _ _ (mem c (SP c + 1))) by (lia || (apply list_lookup_insert_eq; lia)). cbn [mbind res_bind].
  rewrite exec_app. set (c1 := mkCpu _ _ _ _ _).
  destruct (exec_pops 32 c1) as (rs' & Hrun & Hlen' & Hrs'); unfold c1 in *; cbn [R SP] in *; [rewrite length_insert; lia|lia..|].
  rewrite Hrun. cbn [mbind res_bind exec step_instr R SREG SP PC mem]. rewrite !w16_small by lia. do 2 f_equal; try lia.
  - apply list_eq. intros i. rewrite Hrs'. cbn [mem]. destruct (decide (i < 32)%nat).
    + destruct (lookup_lt_is_Some_2 rs i) as [v Hv]; [lia|]. rewrite Hv. f_equal. rewrite <- (Hr i v Hv). f_equal. lia.
    + rewrite !lookup_ge_None_2; [done|lia|rewrite length_insert; lia].
  - replace (SP c + 1 + Z.of_nat 32 + 1) with (SP c + 34) by lia. replace (SP c + 1 + Z.of_nat 32 + 2) with (SP c + 35) by lia.
    rewrite Hret1, Hret2. pose proof (Z.div_mod ret 256). lia.
Qed.

(** ** Context switches *)

(** Context [a] runs, has room to save its registers, and was called from [ret]. *)
Record running (h : HAL) (a ret : Z) : Prop := {
  rn_active : ActiveStack h = Some a;
  rn_context : exists c, contexts h !! a = Some c /\ Low c <= SP (cpu h) - 33 <= High c;
  rn_regs : length (R (cpu h)) = 32%nat;
  rn_low : 33 <= SP (cpu h);
  rn_high : SP (cpu h) + 2 < 2 ^ 16;
  rn_ret : mem (cpu h) (SP (cpu h) + 1) = ret / 256 /\ mem (cpu h) (SP (cpu h) + 2) = ret mod 256
}.

(** Context [b] was switched away from at the stack pointer [s], or is new. *)
Record suspended (h : HAL) (b s : Z) (rs : list Z) (sreg ret : Z) : Prop := {
  sp_context : exists c, contexts h !! b = Some c /\ Stack c = s;
  sp_regs : length rs = 32%nat;
  sp_low : 0 <= s;
  sp_high : s + 35 < 2 ^ 16;
  sp_frame : frame (mem (cpu h)) s rs sreg ret
}.

(** The frame at [s] is not where the running context saves its registers. *)
Definition apart (h : HAL) (s : Z) : Prop := s + 35 <= SP (cpu h) - 33 \/ SP (cpu h) <= s.

Lemma frame_same m m' s rs sreg ret : length rs = 32%nat -> (forall a, s < a <= s + 35 -> m' a = m a) ->
  frame m s rs sreg ret -> frame m' s rs sreg ret.
Proof.
  intros Hlen Hm (Hs & Hr & H1 & H2). split; [by rewrite Hm by lia|]. split; [|by rewrite !Hm by lia].
  intros i v Hv. pose proof (lookup_lt_Some _ _ _ Hv). rewrite Hm by lia. by apply Hr.
Qed.

Lemma deref_ok h a c : contexts h !! a = Some c -> deref h (Some a) = Ok (a, c).
Proof. intros H. unfold deref. by rewrite H. Qed.

(** One switch: the new context goes on, the old one is suspended, every other stays so. *)
Lemma switch_ok h a b ret s rs sreg retb used : running h a ret -> NextStack h = Some b -> a <> b ->
  suspended h b s rs sreg retb -> apart h s -> length used.1 = 32%nat ->
  exists h', HalContextSwitch used h = Ok h' /\ ActiveStack h' = Some b /\ NextStack h' = None /\
    R (cpu h') = rs /\ SREG (cpu h') = sreg /\ PC (cpu h') = retb /\ SP (cpu h') = s + 35 /\
    suspended h' a (SP (cpu h) - 33) (R (cpu h)) (SREG (cpu h)) ret /\
    forall p sp rp sregp retp, p <> a -> suspended h p sp rp sregp retp -> apart h sp -> suspended h' p sp rp sregp retp.
Proof.
  intros [Ha (ca & Hca & Hroom) Hregs Hlo Hhi [Hr1 Hr2]] Hb Hne [(cb & Hcb & Es) Hrs Hslo Hshi Hfr] Hapart Hused.
  destruct (save_state (cpu h) ret Hregs Hlo Hhi Hr1 Hr2) as (c & Hsave & Hlen & Hsp & Hframe & Hmem).
  assert (forall x, s < x <= s + 35 -> mem c x = mem (cpu h) x) as Hkeep by (intros x Hx; apply Hmem; unfold apart in Hapart; lia).
  pose proof (frame_same _ _ _ _ _ _ Hrs Hkeep Hfr) as Hfr'.
  assert (exec HAL_RESTORE_STATE (HAL_SET_SP s (mkCpu used.1 used.2 (SP c) (PC c) (mem c))) = Ok (mkCpu rs sreg (s + 35) retb (mem c))) as Hrest
    by (by apply (restore_state (HAL_SET_SP s (mkCpu used.1 used.2 (SP c) (PC c) (mem c))))).
  exists (mkHal (mkCpu rs sreg (s + 35) retb (mem c)) (<[a := HAL_SAVE_SP c ca]> (contexts h)) (Some b) None). split.
  - unfold HalContextSwitch. rewrite Hsave. cbn [mbind res_bind]. rewrite Ha, (deref_ok h a ca Hca). cbn [mbind res_bind].
    unfold ASSENDING. cbn [HAL_SAVE_SP Low Stack High contexts NextStack ActiveStack cpu].
    rewrite Hsp, (proj2 (Z.leb_le _ _)), (proj2 (Z.leb_le _ _)) by lia. cbn [andb assertr mbind res_bind].
    rewrite Hb, (deref_ok _ b cb) by (simpl; by rewrite lookup_insert_ne). cbn [mbind res_bind].
    rewrite Hsp in Hrest. rewrite Es, Hrest. done.
  - do 6 (split; [done|]). split.
    + constructor; cbn [contexts cpu mem]; try done; [|lia..]. exists (HAL_SAVE_SP c ca). split; [apply lookup_insert_eq|done].
    + intros p sp rp sregp retp Hp [(cp & Hcp & Ep) Hlp Hlow Hhigh Hfp] Hap. constructor; cbn [contexts cpu mem]; try done.
      * exists cp. by rewrite lookup_insert_ne.
      * apply (frame_same (mem (cpu h))); [done| |done]. intros x Hx. apply Hmem. unfold apart in Hap. lia.
Qed.

(** ** New contexts *)

Lemma FrameLoop_ok n reg sp m : Z.of_nat n <= sp < 2 ^ 16 -> exists m', FrameLoop n reg sp m = (sp - Z.of_nat n, m') /\
  (forall i, (i < n)%nat -> m' (sp - 1 - Z.of_nat i) = reg + Z.of_nat i) /\
  forall a, a < sp - Z.of_nat n \/ sp <= a -> m' a = m a.
Proof.
  revert reg sp m. induction n as [|n IH]; intros reg sp m Hsp.
  - exists m. split; [simpl; f_equal; lia|]. split; [lia|done].
  - cbn [FrameLoop]. rewrite w16_small by lia. destruct (IH (reg + 1) (sp - 1) (store (sp - 1) reg m)) as (m' & -> & Hin & Hout); [lia|].
    exists m'. split; [f_equal; lia|]. split.
    + intros [|i] Hi; [rewrite Hout by lia; rewrite Z.sub_0_r, store_eq; lia|].
      replace (sp - 1 - Z.of_nat (S i)) with (sp - 1 - 1 - Z.of_nat i) by lia. rewrite Hin by lia. lia.
    + intros a Ha. rewrite Hout by lia. apply store_ne. lia.
Qed.

(** The registers of a new context. *)
Definition new_regs : list Z := Z.of_nat <$> seq 0 32.

Lemma new_frame stack stackSize foo m : 0 <= stack -> 36 <= stackSize -> stack + stackSize < 2 ^ 16 -> 0 <= foo < 2 ^ 16 ->
  exists m', HalCreateStackFrame stack stackSize foo m =
      (mkContext (stack + stackSize - 36) (stack + stackSize) stack, m') /\
    frame m' (stack + stackSize - 36) new_regs 0 foo /\
    forall a, a <= stack + stackSize - 36 \/ stack + stackSize <= a -> m' a = m a.
Proof.
  intros Hs Hz Hb Hf. unfold HalCreateStackFrame. set (t := stack + stackSize) in *. rewrite (w16_small t), !w16_small by lia.
  destruct (FrameLoop_ok 33 0 (t - 2) (store (t - 2) (foo / 256 mod 256) (store (t - 2 + 1) (foo mod 256) m))) as (m' & -> & Hin & Hout); [lia|].
  cbv beta iota zeta. rewrite w16_small by lia. eexists. split; [do 2 f_equal; lia|]. split; [split; [|split; [|split]]|].
  - replace (t - 36 + 1) with (t - 2 - Z.of_nat 33) by lia. apply store_eq.
  - intros i v Hv. unfold new_regs in Hv. apply list_lookup_fmap_Some in Hv as (j & -> & Hj). apply lookup_seq in Hj as [-> Hi].
    rewrite store_ne by lia. replace (t - 36 + 33 - Z.of_nat i) with (t - 2 - 1 - Z.of_nat i) by lia. rewrite Hin by lia. lia.
  - rewrite store_ne, Hout by lia. replace (t - 36 + 34) with (t - 2) by lia. rewrite store_eq. apply Z.mod_small.
    split; [apply Z.div_pos; lia|apply Z.div_lt_upper_bound; lia].
  - rewrite store_ne, Hout, store_ne by lia. replace (t - 36 + 35) with (t - 2 + 1) by lia. apply store_eq.
  - intros a Ha. rewrite store_ne, Hout by lia. rewrite !store_ne by lia. done.
Qed.

(** ** Properties *)

(** C9: A context switch is invisible to the context that is switched away from.  When it is
    switched to again, by a context that in between ran on its own stack and changed anything but the
    saved frame, its registers, its status register and its stack pointer are what they
    were and it goes on behind its call; the other context goes on from where it was suspended. *)
Theorem switch_back h a b ret s rs sreg retb used : running h a ret -> NextStack h = Some b -> a <> b ->
  suspended h b s rs sreg retb -> apart h s -> length used.1 = 32%nat ->
  exists h1, HalContextSwitch used h = Ok h1 /\ ActiveStack h1 = Some b /\
    R (cpu h1) = rs /\ SREG (cpu h1) = sreg /\ PC (cpu h1) = retb /\ SP (cpu h1) = s + 35 /\
    forall h2 ret2 used2, running h2 b ret2 -> NextStack h2 = Some a -> contexts h2 = contexts h1 -> length used2.1 = 32%nat ->
      (forall x, SP (cpu h) - 33 < x <= SP (cpu h) + 2 -> mem (cpu h2) x = mem (cpu h1) x) -> apart h2 (SP (cpu h) - 33) ->
      exists h3, HalContextSwitch used2 h2 = Ok h3 /\ ActiveStack h3 = Some a /\
        R (cpu h3) = R (cpu h) /\ SREG (cpu h3) = SREG (cpu h) /\ PC (cpu h3) = ret /\ SP (cpu h3) = SP (cpu h) + 2.
Proof.
  intros Hr Hb Hne Hs Hap Hu. destruct (switch_ok h a b ret s rs sreg retb used Hr Hb Hne Hs Hap Hu)
    as (h1 & Hrun & Ha1 & _ & HR & HS & HP & HSP & [Hc Hl Hlo Hhi Hf] & _).
  exists h1. do 6 (split; [done|]). intros h2 ret2 used2 Hr2 Ha2 Hctx Hu2 Hmem Hap2.
  destruct (switch_ok h2 b a ret2 (SP (cpu h) - 33) (R (cpu h)) (SREG (cpu h)) ret used2 Hr2 Ha2 ltac:(done)) as (h3 & Hrun3 & Ha3 & _ & HR3 & HS3 & HP3 & HSP3 & _).
  - constructor; try done; [by rewrite Hctx|]. apply (frame_same (mem (cpu h1))); [done| |done]. intros x Hx. apply Hmem. lia.
  - done.
  - done.
  - exists h3. do 5 (split; [done|]). lia.
Qed.

(** The first switch to a new context starts its function on the empty stack, with
    interrupts disabled. *)
Theorem new_context_starts h a b ret stack stackSize foo used m' c :
  0 <= stack -> 36 <= stackSize -> stack + stackSize < 2 ^ 16 -> 0 <= foo < 2 ^ 16 ->
  running h a ret -> NextStack h = Some b -> a <> b ->
  HalCreateStackFrame stack stackSize foo (mem (cpu h)) = (c, m') ->
  (SP (cpu h) + 2 < stack \/ stack + stackSize <= SP (cpu h) - 33) -> length used.1 = 32%nat ->
  exists h1, HalContextSwitch used (mkHal (mkCpu (R (cpu h)) (SREG (cpu h)) (SP (cpu h)) (PC (cpu h)) m') (<[b := c]> (contexts h))
      (ActiveStack h) (NextStack h)) = Ok h1 /\
    PC (cpu h1) = foo /\ SP (cpu h1) = stack + stackSize - 1 /\ HalIsAtomic (cpu h1) = true.
Proof.
  intros Hst Hsz Hb Hf [Ha (ca & Hca & Hroom) Hregs Hlo Hhi [Hr1 Hr2]] Hn Hne Hnew Hap Hu.
  destruct (new_frame stack stackSize foo (mem (cpu h)) Hst Hsz Hb Hf) as (m1 & Hrun & Hfr & Hout).
  rewrite Hrun in Hnew. injection Hnew as <- <-. set (h0 := mkHal _ _ _ _).
  destruct (switch_ok h0 a b ret (stack + stackSize - 36) new_regs 0 foo used) as (h1 & Hsw & _ & _ & HR & HS & HP & HSP & _); try done.
  - constructor; unfold h0; cbn [ActiveStack contexts cpu R SP mem]; try done.
    + exists ca. by rewrite lookup_insert_ne.
    + split; rewrite Hout by lia; done.
  - constructor; unfold h0; cbn [contexts cpu mem]; try done; [|lia..]. eexists. split; [apply lookup_insert_eq|done].
  - unfold apart, h0. simpl. lia.
  - exists h1. split; [done|]. split; [done|]. split; [lia|]. unfold HalIsAtomic. by rewrite HS.
Qed.

(** The watchdog never bites earlier than asked for, up to its longest period. *)
Theorem watchdog_period timeout d : timeout <= 2000 -> exists period, WDT (HalEnableWatchdog timeout d) = Some period /\ timeout <= period.
Proof.
  intros Ht. exists (WatchdogPeriod timeout). split; [done|]. unfold WatchdogPeriod.
  repeat match goal with |- context [if ?a <=? ?b then _ else _] => destruct (Z.leb_spec a b); [lia|] end. lia.
Qed.

(** A context that runs on a stack from 2000 to 3000 and a new one on a stack of 300 bytes from 1000,
    whose function is at 17185. *)
Definition demo_mem : Z -> Z := store 2901 18 (store 2902 52 (fun _ => 0)).
Definition demo_new : MACHINE_CONTEXT * (Z -> Z) := HalCreateStackFrame 1000 300 17185 demo_mem.
Definition demo : HAL :=
  mkHal (mkCpu (replicate 32 7) 128 2900 0 demo_new.2) (<[1 := mkContext 0 3000 2000]> (<[2 := demo_new.1]> ∅)) (Some 1) (Some 2).

Lemma demo_running : running demo 1 4660.
Proof.
  constructor; simpl; try reflexivity; try lia; [|by vm_compute].
  exists (mkContext 0 3000 2000). split; [reflexivity|]. simpl. lia.
Defined.

Lemma demo_suspended : suspended demo 2 1264 new_regs 0 17185.
Proof.
  constructor; try reflexivity; try lia; [exists demo_new.1; by vm_compute|].
  destruct (new_frame 1000 300 17185 demo_mem) as (m' & Hrun & Hf & _); [lia..|].
  unfold demo, demo_new. cbn [cpu mem]. rewrite Hrun. exact Hf.
Defined.

Lemma switch_back_witness :
  exists h1, HalContextSwitch (replicate 32 0, 0) demo = Ok h1 /\ ActiveStack h1 = Some 2 /\
    R (cpu h1) = new_regs /\ SREG (cpu h1) = 0 /\ PC (cpu h1) = 17185 /\ SP (cpu h1) = 1264 + 35 /\
    forall h2 ret2 used2, running h2 2 ret2 -> NextStack h2 = Some 1 -> contexts h2 = contexts h1 -> length used2.1 = 32%nat ->
      (forall x, SP (cpu demo) - 33 < x <= SP (cpu demo) + 2 -> mem (cpu h2) x = mem (cpu h1) x) -> apart h2 (SP (cpu demo) - 33) ->
      exists h3, HalContextSwitch used2 h2 = Ok h3 /\ ActiveStack h3 = Some 1 /\
        R (cpu h3) = R (cpu demo) /\ SREG (cpu h3) = SREG (cpu demo) /\ PC (cpu h3) = 4660 /\ SP (cpu h3) = SP (cpu demo) + 2.
Proof.
  apply (switch_back demo 1 2 4660 1264 new_regs 0 17185 (replicate 32 0, 0) demo_running eq_refl ltac:(lia) demo_suspended); [|reflexivity].
  left. simpl. lia.
Defined.
