(* ===== verification/LockClass.v ===== *)
(** * The contract between the locking unit and the locks

    [LockingOps] holds the calls of kernel/locking.h that the semaphore, barrier,
    signal, generation and resource units use; [LockingLaws] says what they promise.
    The locks are verified against this interface; [Kernel] and its clients provide the
    instance. *)

From S2P Require Import Prelude LinkedList.

(** ** Locking contexts *)

(** The object a [struct LOCKING_CONTEXT] is embedded in: a thread, a work item, or
    nothing ([LockingWakeNonBlocking] contexts). *)
Inductive ctx := CThread (t : positive) | CWorker (w : positive) | CPlain (n : positive).

#[export] Instance ctx_eq_dec : EqDecision ctx.
Proof. solve_decision. Defined.

#[export] Instance ctx_countable : Countable ctx.
Proof.
  apply (inj_countable' (fun c => match c with
    | CThread t => inl t | CWorker w => inr (inl w) | CPlain n => inr (inr n) end)
    (fun s => match s with
    | inl t => CThread t | inr (inl w) => CWorker w | inr (inr n) => CPlain n end)).
  by intros [].
Defined.

Inductive LOCKING_STATE := LOCKING_STATE_READY | LOCKING_STATE_BLOCKING | LOCKING_STATE_ACQUIRED.

#[export] Instance LOCKING_STATE_eq_dec : EqDecision LOCKING_STATE.
Proof. solve_decision. Defined.

(** [union BLOCKING_CONTEXT] has this enumeration as its only member. *)
Inductive RESOURCE_STATE := RESOURCE_SHARED | RESOURCE_EXCLUSIVE.

#[export] Instance RESOURCE_STATE_eq_dec : EqDecision RESOURCE_STATE.
Proof. solve_decision. Defined.

(** ** Queues of linked objects

    The kernel keeps the pure queues that [LinkedList.queues_refine] justifies.  A link
    that is inserted into the list it is on already would break the ring
    ([LinkedList.relink_loses]); the model stops with [FRelink] instead. *)

Definition LinkedListEnqueue {S A} `{EqDecision A} (a : A) (l : list A) : St S (list A) :=
  if bool_decide (a ∈ l) then fail FRelink else mret (lq_enqueue a l).

(** ** The interface *)

Class LockingOps (S : Type) := {
  LockingStart : St S unit;
  LockingEnd : St S unit;
  LockingAcquire : option ctx -> St S unit;
  (** Returns the context whose link the lock stores. *)
  LockingBlock : option RESOURCE_STATE -> option ctx -> St S ctx;
  (** [context->BlockingContext.ResourceWaitState]. *)
  ResourceWaitState : ctx -> St S RESOURCE_STATE
}.

(** [while( ! LinkedListIsEmpty( list ) ) { context = LinkedListPop( list );
     LockingAcquire( context ); }] *)
Fixpoint WakeAll {S} `{LockingOps S} (l : list ctx) : St S (list ctx) :=
  match l with
  | [] => mret []
  | c :: l => LockingAcquire (Some c);; WakeAll l
  end.

(** The state a context has once it holds the lock: threads need no notification. *)
Definition granted (c : ctx) : LOCKING_STATE :=
  match c with CThread _ => LOCKING_STATE_READY | _ => LOCKING_STATE_ACQUIRED end.

Class LockingLaws (S : Type) `{LockingOps S} := {
  (** The state of every context, the mode it waits for, and the running thread's context. *)
  status : S -> gmap ctx LOCKING_STATE;
  wait_mode : S -> gmap ctx RESOURCE_STATE;
  active : S -> ctx;
  (** Inside and outside a critical section, with the invariant of the locking unit. *)
  inside : S -> Prop;
  outside : S -> Prop;
  (** The contexts the laws speak about. *)
  lawful : S -> ctx -> Prop;
  active_is_thread s : exists t, active s = CThread t;
  start_ok s : outside s -> exists s', LockingStart s = Ok (tt, s') /\ inside s' /\
    status s' = status s /\ wait_mode s' = wait_mode s /\ active s' = active s /\
    forall c, lawful s c -> lawful s' c;
  end_ok s : inside s -> exists s', LockingEnd s = Ok (tt, s') /\ outside s' /\
    status s' = status s /\ wait_mode s' = wait_mode s /\ active s' = active s /\
    forall c, lawful s c -> lawful s' c;
  acquire_ok s oc : inside s ->
    let c := default (active s) oc in
    lawful s c ->
    status s !! c = Some LOCKING_STATE_READY \/
    (status s !! c = Some LOCKING_STATE_BLOCKING /\ status s !! active s = Some LOCKING_STATE_READY) ->
    exists s', LockingAcquire oc s = Ok (tt, s') /\ inside s' /\
      status s' = <[c := granted c]> (status s) /\ wait_mode s' = wait_mode s /\
      active s' = active s /\ forall c, lawful s c -> lawful s' c;
  block_ok s mode oc : inside s ->
    let c := default (active s) oc in
    lawful s c -> status s !! c = Some LOCKING_STATE_READY ->
    (match c with CThread _ => c = active s | _ => True end) ->
    exists s', LockingBlock mode oc s = Ok (c, s') /\ inside s' /\
      status s' = <[c := LOCKING_STATE_BLOCKING]> (status s) /\
      wait_mode s' = (match mode with Some r => <[c := r]> (wait_mode s) | None => wait_mode s end) /\
      active s' = active s /\ forall c, lawful s c -> lawful s' c;
  mode_ok s c r : inside s -> wait_mode s !! c = Some r -> ResourceWaitState c s = Ok (r, s)
}.

(** The running thread is not blocked itself: it has not just called a lock that made it
    wait.  Waking a context needs this: the wake-up of a thread that is blocked but not
    yet switched away puts it on the run queue while it is still running. *)
Definition running {S} `{LockingLaws S} (s : S) : Prop :=
  status s !! active s = Some LOCKING_STATE_READY.

(** What the wait list of a lock holds: distinct contexts, all of them blocked. *)
Definition waiters {S} `{LockingLaws S} (s : S) (l : list ctx) : Prop :=
  NoDup l /\ Forall (fun c => status s !! c = Some LOCKING_STATE_BLOCKING /\ lawful s c) l.

(** What a caller may pass as [context]: its own context, or one that is in no lock. *)
Definition caller {S} `{LockingLaws S} (s : S) (oc : option ctx) : Prop :=
  let c := default (active s) oc in
  running s /\ lawful s c /\ status s !! c = Some LOCKING_STATE_READY /\
  match c with CThread _ => c = active s | _ => True end.

(** What a call of a lock operation does to the contexts: the states of [woken] become
    granted, those of [blocked] blocking. *)
Definition changed {S} `{LockingLaws S} (s s' : S) (woken blocked : list ctx) : Prop :=
  active s' = active s /\ (forall c, lawful s c -> lawful s' c) /\
  (forall c, status s' !! c =
    if bool_decide (c ∈ blocked) then Some LOCKING_STATE_BLOCKING
    else if bool_decide (c ∈ woken) then Some (granted c) else status s !! c) /\
  (forall c, c ∉ blocked -> wait_mode s' !! c = wait_mode s !! c).

(** [LockingStart();] a body that yields a value [LockingEnd();] *)
Definition critical {S A} `{LockingOps S} (body : St S A) : St S A :=
  LockingStart;;
  a ← body;
  LockingEnd;;
  mret a.

Section lemmas.
Context {S : Type} {ops : LockingOps S} {laws : LockingLaws S}.
Implicit Types s : S.

Lemma changed_refl s : changed s s [] [].
Proof. by split_and!. Qed.

Lemma changed_nil_r s s' woken : changed s s' woken [] -> 
  forall c, status s' !! c = if bool_decide (c ∈ woken) then Some (granted c) else status s !! c.
Proof. intros (_ & _ & Hs & _) c. rewrite Hs. by rewrite bool_decide_false by set_solver. Qed.

Lemma changed_trans s s1 s2 w1 w2 b :
  changed s s1 w1 [] -> changed s1 s2 w2 b -> changed s s2 (w1 ++ w2) b.
Proof.
  intros H1 (A2 & L2 & S2 & M2). pose proof (changed_nil_r _ _ _ H1) as S1. destruct H1 as (A1 & L1 & _ & M1).
  split; [congruence|]. split; [auto|]. split.
  - intros c. rewrite S2, S1. destruct (bool_decide (c ∈ b)); [done|].
    destruct (decide (c ∈ w2)) as [H2|H2]; [by rewrite !bool_decide_true by set_solver|].
    rewrite (bool_decide_false (c ∈ w2)) by done.
    destruct (decide (c ∈ w1)) as [H1|H1]; [by rewrite !bool_decide_true by set_solver|].
    by rewrite !bool_decide_false by set_solver.
  - intros c Hc. rewrite M2 by done. apply M1. set_solver.
Qed.

Lemma start_changed s : outside s -> exists s', LockingStart s = Ok (tt, s') /\ inside s' /\ changed s s' [] [].
Proof.
  intros Hout. destruct (start_ok s Hout) as (s' & Hr & Hin & Hs & Hm & Ha & Hl).
  exists s'. split; [done|]. split; [done|]. split; [done|]. split; [done|]. split.
  - intros c. by rewrite Hs.
  - intros c _. by rewrite Hm.
Qed.

Lemma end_changed s : inside s -> exists s', LockingEnd s = Ok (tt, s') /\ outside s' /\ changed s s' [] [].
Proof.
  intros Hin. destruct (end_ok s Hin) as (s' & Hr & Hout & Hs & Hm & Ha & Hl).
  exists s'. split; [done|]. split; [done|]. split; [done|]. split; [done|]. split.
  - intros c. by rewrite Hs.
  - intros c _. by rewrite Hm.
Qed.

Lemma changed_end s s' s'' woken blocked :
  changed s s' woken blocked -> changed s' s'' [] [] -> changed s s'' woken blocked.
Proof.
  intros (A1 & L1 & S1 & M1) H2. pose proof (changed_nil_r _ _ _ H2) as S2. destruct H2 as (A2 & L2 & _ & M2).
  split; [congruence|]. split; [auto|]. split.
  - intros c. rewrite S2, bool_decide_false by set_solver. apply S1.
  - intros c Hc. rewrite M2 by set_solver. by apply M1.
Qed.

Lemma running_changed s s' woken : running s -> changed s s' woken [] -> running s'.
Proof.
  unfold running. intros Hr Hch. pose proof (changed_nil_r _ _ _ Hch) as Hs. destruct Hch as (Ha & _).
  rewrite Ha, Hs, Hr. destruct (active_is_thread s) as [t ->]. by case_bool_decide.
Qed.

(** A critical section whose body succeeds from every state with the views of [s]. *)
Lemma critical_ok {A} (body : St S A) s (v : A) woken blocked (Q : S -> Prop) :
  outside s ->
  (forall s1, inside s1 -> changed s s1 [] [] ->
    exists s2, body s1 = Ok (v, s2) /\ inside s2 /\ changed s s2 woken blocked /\ Q s2) ->
  exists s2 s3, critical body s = Ok (v, s3) /\ outside s3 /\ changed s s3 woken blocked /\
    Q s2 /\ changed s2 s3 [] [].
Proof.
  intros Hout Hbody. destruct (start_changed s Hout) as (s1 & Hr1 & Hin1 & Hc1).
  destruct (Hbody s1 Hin1 Hc1) as (s2 & Hr2 & Hin2 & Hc2 & HQ).
  destruct (end_changed s2 Hin2) as (s3 & Hr3 & Hout3 & Hc3).
  exists s2, s3. split; [|split_and!; [done|by eapply changed_end|done|apply Hc3..]].
  unfold critical. rewrite (st_bind_ok _ _ _ _ _ Hr1), (st_bind_ok _ _ _ _ _ Hr2).
  by rewrite (st_bind_ok _ _ _ _ _ Hr3).
Qed.

(** A context that waits for nothing can be granted the lock or queued on it. *)
Lemma caller_changed s s' oc : caller s oc -> changed s s' [] [] -> caller s' oc /\ default (active s') oc = default (active s) oc.
Proof.
  intros (Hrun & Hl & Hs & Ha) Hch. pose proof (running_changed _ _ _ Hrun Hch) as Hrun'.
  pose proof (changed_nil_r _ _ _ Hch) as Hst. destruct Hch as (Hact & Hlaw & _ & _).
  unfold caller. rewrite Hact. split; [|done]. split; [done|]. split; [auto|]. split; [|done].
  rewrite Hst, bool_decide_false by set_solver. done.
Qed.

Lemma acquire_caller s oc : inside s -> caller s oc ->
  exists s', LockingAcquire oc s = Ok (tt, s') /\ inside s' /\ changed s s' [default (active s) oc] [].
Proof.
  intros Hin (_ & Hl & Hs & _).
  destruct (acquire_ok s oc Hin Hl (or_introl Hs)) as (s' & Hr & Hin' & Hs' & Hm & Ha & Hl').
  exists s'. split; [done|]. split; [done|]. split; [done|]. split; [done|]. split.
  - intros c. rewrite Hs', lookup_insert, bool_decide_false by set_solver.
    destruct (decide (default (active s) oc = c)) as [<-|Hne].
    + by rewrite bool_decide_true by set_solver.
    + by rewrite bool_decide_false by set_solver.
  - intros c _. by rewrite Hm.
Qed.

Lemma block_caller s mode oc : inside s -> caller s oc ->
  let c := default (active s) oc in
  exists s', LockingBlock mode oc s = Ok (c, s') /\ inside s' /\ changed s s' [] [c] /\
    (forall r, mode = Some r -> wait_mode s' !! c = Some r).
Proof.
  intros Hin (_ & Hl & Hs & Ha) c.
  destruct (block_ok s mode oc Hin Hl Hs Ha) as (s' & Hr & Hin' & Hs' & Hm & Ha' & Hl').
  fold c in Hr, Hs', Hm.
  exists s'. split; [done|]. split; [done|]. split.
  - split; [done|]. split; [done|]. split.
    + intros d. rewrite Hs', lookup_insert. destruct (decide (c = d)) as [<-|Hne].
      * by rewrite bool_decide_true by set_solver.
      * by rewrite !bool_decide_false by set_solver.
    + intros d Hd. rewrite Hm. destruct mode; [|done]. apply lookup_insert_ne. set_solver.
  - intros r ->. rewrite Hm. apply lookup_insert_eq.
Qed.

(** A waiting context is granted the lock. *)
Lemma acquire_waiter s c l : inside s -> running s -> waiters s (c :: l) ->
  exists s', LockingAcquire (Some c) s = Ok (tt, s') /\ inside s' /\ changed s s' [c] [] /\ waiters s' l.
Proof.
  intros Hin Hrun [Hnd Hl]. apply NoDup_cons in Hnd as [Hc Hnd]. apply Forall_cons in Hl as [[Hst Hlaw] Hl].
  destruct (acquire_ok s (Some c) Hin Hlaw (or_intror (conj Hst Hrun))) as (s' & Hr & Hin' & Hs' & Hm & Ha & Hl').
  simpl in *. exists s'. split; [done|]. split; [done|]. split.
  - split; [done|]. split; [done|]. split.
    + intros d. rewrite Hs', lookup_insert, bool_decide_false by set_solver.
      destruct (decide (c = d)) as [<-|Hne].
      * by rewrite bool_decide_true by set_solver.
      * by rewrite bool_decide_false by set_solver.
    + intros d _. by rewrite Hm.
  - split; [done|]. rewrite Forall_forall in *. intros d Hd. destruct (Hl d Hd) as [Hb Hlw].
    split; [|by apply Hl']. rewrite Hs', lookup_insert_ne; [done|]. by intros ->.
Qed.

(** Waking a whole wait list. *)
Lemma WakeAll_ok s l :
  inside s -> running s -> waiters s l -> exists s', WakeAll l s = Ok ([], s') /\ inside s' /\ changed s s' l [].
Proof.
  revert s. induction l as [|c l IH]; intros s Hin Hrun Hw.
  { exists s. split; [done|]. split; [done|]. apply changed_refl. }
  destruct (acquire_waiter s c l Hin Hrun Hw) as (s1 & Hr & Hin1 & Hch1 & Hw1). cbn [WakeAll].
  rewrite (st_bind_ok _ _ _ _ _ Hr). destruct (IH s1 Hin1 (running_changed _ _ _ Hrun Hch1) Hw1) as (s2 & -> & Hin2 & Hch2).
  exists s2. split; [done|]. split; [done|]. by apply (changed_trans s s1 s2 [c] l).
Qed.

(** A context that can make a call waits nowhere. *)
Lemma caller_not_waiting s oc l : caller s oc -> waiters s l -> default (active s) oc ∉ l.
Proof.
  intros (_ & _ & Hr & _) [_ Hl] Hin. rewrite Forall_forall in Hl.
  destruct (Hl _ Hin) as [Hb _]. congruence.
Qed.

(** What was waiting and is not woken still waits. *)
Lemma waiters_changed s s' woken blocked l :
  waiters s l -> changed s s' woken blocked -> (forall c, c ∈ l -> c ∈ woken -> c ∈ blocked) -> waiters s' l.
Proof.
  intros [Hnd Hl] (_ & Hlaw & Hst & _) Hd. split; [done|].
  rewrite Forall_forall in *. intros c Hc. destruct (Hl c Hc) as [H1 H2]. split; [|by apply Hlaw].
  rewrite Hst. case_bool_decide; [done|]. rewrite bool_decide_false by auto. done.
Qed.

(** The queue of a lock on which the caller has just blocked. *)
Lemma waiters_enqueue s s' oc l :
  caller s oc -> waiters s l -> changed s s' [] [default (active s) oc] ->
  waiters s' (lq_enqueue (default (active s) oc) l).
Proof.
  intros Hcall Hw Hch. pose proof (caller_not_waiting s oc l Hcall Hw) as Hn.
  destruct (waiters_changed _ _ _ _ _ Hw Hch ltac:(set_solver)) as [Hnd Hl].
  destruct Hch as (_ & Hlaw & Hst & _). split.
  - apply NoDup_app. split_and!; [done|set_solver|apply NoDup_singleton].
  - apply Forall_app. split; [done|]. apply Forall_singleton. split.
    + rewrite Hst. by rewrite bool_decide_true by set_solver.
    + apply Hlaw, Hcall.
Qed.

Lemma lock_enqueue_ok {A} `{EqDecision A} (a : A) l s :
  a ∉ l -> LinkedListEnqueue a l s = Ok (lq_enqueue a l, s).
Proof. intros Ha. unfold LinkedListEnqueue. by rewrite bool_decide_false. Qed.

(** [link = LockingBlock( ... ); LinkedListEnqueue( link, list );] *)
Lemma block_enqueue s mode oc l :
  inside s -> caller s oc -> waiters s l ->
  let c := default (active s) oc in
  exists s', (link ← LockingBlock mode oc; LinkedListEnqueue link l) s = Ok (lq_enqueue c l, s') /\
    inside s' /\ changed s s' [] [c] /\ waiters s' (lq_enqueue c l) /\
    (forall r, mode = Some r -> wait_mode s' !! c = Some r).
Proof.
  intros Hin Hcall Hw c. destruct (block_caller s mode oc Hin Hcall) as (s' & Hr & Hin' & Hch & Hm).
  exists s'. rewrite (st_bind_ok _ _ _ _ _ Hr), lock_enqueue_ok by (by apply caller_not_waiting).
  split_and!; try done; [apply Hch..|by apply waiters_enqueue].
Qed.
End lemmas.
