(* ===== verification/Semaphore.v ===== *)
(** * Semaphores (kernel/semaphore.c), against the locking interface *)

From S2P Require Import Prelude LinkedList LockClass.

Record SEMAPHORE := mkSem { Count : Z; WaitingThreads : list ctx }.

Definition SemaphoreInit (count : Z) : SEMAPHORE := mkSem count [].

Section semaphore.
Context {S : Type} `{LockingOps S}.

Definition SemaphoreDown (context : option ctx) (lock : SEMAPHORE) : St S SEMAPHORE :=
  critical (
    if Count lock =? 0 then
      q ← (link ← LockingBlock None context; LinkedListEnqueue link (WaitingThreads lock));
      mret (mkSem (Count lock) q)
    else
      let lock := mkSem (w64 (Count lock - 1)) (WaitingThreads lock) in
      LockingAcquire context;;
      mret lock).

Definition SemaphoreUp (lock : SEMAPHORE) : St S SEMAPHORE :=
  critical (
    if negb (lq_is_empty (WaitingThreads lock)) then
      let '(context, q) := lq_pop (WaitingThreads lock) in
      LockingAcquire context;;
      mret (mkSem (Count lock) q)
    else mret (mkSem (w64 (Count lock + 1)) (WaitingThreads lock))).
End semaphore.

(** ** Correctness *)

Section proofs.
Context {S : Type} {ops : LockingOps S} {laws : LockingLaws S}.
Implicit Types s : S.

(** Nobody waits while a unit is available. *)
Definition sem_inv s (l : SEMAPHORE) : Prop :=
  waiters s (WaitingThreads l) /\ u64 (Count l) /\ (WaitingThreads l <> [] -> Count l = 0).

(** The abstract semaphore: the new value, and who is granted or made to wait. *)
Definition down_spec (c : ctx) (l : SEMAPHORE) : SEMAPHORE * list ctx * list ctx :=
  if Count l =? 0 then (mkSem 0 (WaitingThreads l ++ [c]), [], [c])
  else (mkSem (Count l - 1) (WaitingThreads l), [c], []).

Definition up_spec (l : SEMAPHORE) : SEMAPHORE * list ctx :=
  match WaitingThreads l with
  | [] => (mkSem (Count l + 1) [], [])
  | c :: q => (mkSem (Count l) q, [c])
  end.

Lemma SemaphoreDown_ok s l oc :
  outside s -> caller s oc -> sem_inv s l ->
  exists s', let '(l', woken, blocked) := down_spec (default (active s) oc) l in
    SemaphoreDown oc l s = Ok (l', s') /\ outside s' /\ sem_inv s' l' /\ changed s s' woken blocked.
Proof.
  intros Hout Hcall (Hw & Hu & Hz). set (c := default (active s) oc). unfold SemaphoreDown, down_spec.
  destruct (Z.eqb_spec (Count l) 0) as [E|E].
  - destruct (critical_ok (
        q ← (link ← LockingBlock None oc; LinkedListEnqueue link (WaitingThreads l)); mret (mkSem (Count l) q))
      s (mkSem 0 (WaitingThreads l ++ [c])) [] [c] (fun s2 => waiters s2 (WaitingThreads l ++ [c])) Hout)
      as (s2 & s3 & Hr & Hout3 & Hch & Hw2 & Hch3).
    { intros s1 Hin1 Hch1. destruct (caller_changed s s1 oc Hcall Hch1) as [Hcall1 Hc1].
      destruct (block_enqueue s1 None oc (WaitingThreads l) Hin1 Hcall1) as (s2 & Hr2 & Hin2 & Hch2 & Hw2 & _).
      { eapply waiters_changed; [exact Hw|exact Hch1|set_solver]. }
      rewrite Hc1 in Hr2, Hch2, Hw2. fold c in Hr2, Hch2, Hw2.
      exists s2. rewrite (st_bind_ok _ _ _ _ _ Hr2), E. split; [done|]. split; [done|]. split; [|done].
      by apply (changed_trans s s1 s2 [] []). }
    exists s3. split; [done|]. split; [done|]. split; [|done].
    split; [eapply waiters_changed; [exact Hw2|exact Hch3|set_solver]|]. split; [unfold u64; simpl; lia|done].
  - destruct (critical_ok (
        LockingAcquire oc;; mret (mkSem (w64 (Count l - 1)) (WaitingThreads l)))
      s (mkSem (Count l - 1) (WaitingThreads l)) [c] [] (fun _ => True) Hout)
      as (s2 & s3 & Hr & Hout3 & Hch & _ & _).
    { intros s1 Hin1 Hch1. destruct (caller_changed s s1 oc Hcall Hch1) as [Hcall1 Hc1].
      destruct (acquire_caller s1 oc Hin1 Hcall1) as (s2 & Hr2 & Hin2 & Hch2).
      rewrite Hc1 in Hch2. fold c in Hch2.
      exists s2. rewrite (st_bind_ok _ _ _ _ _ Hr2), w64_small by (unfold u64 in *; lia).
      split; [done|]. split; [done|]. split; [|done]. by apply (changed_trans s s1 s2 [] [c]). }
    exists s3. split; [done|]. split; [done|]. split; [|done].
    assert (WaitingThreads l = []) as Hnil by (destruct (WaitingThreads l); [done|]; by rewrite Hz in E).
    rewrite Hnil. split; [by split; [apply NoDup_nil_2|apply Forall_nil]|].
    split; [unfold u64 in *; simpl; lia|done].
Qed.

Lemma SemaphoreUp_ok s l :
  outside s -> running s -> sem_inv s l -> Count l < max64 ->
  exists s', let '(l', woken) := up_spec l in
    SemaphoreUp l s = Ok (l', s') /\ outside s' /\ sem_inv s' l' /\ changed s s' woken [].
Proof.
  intros Hout Hrun (Hw & Hu & Hz) Hmax. unfold SemaphoreUp, up_spec. unfold max64 in Hmax.
  destruct (WaitingThreads l) as [|c q] eqn:E; cbn [lq_is_empty negb lq_pop head tail].
  - destruct (critical_ok (mret (mkSem (w64 (Count l + 1)) [])) s (mkSem (Count l + 1) []) [] []
      (fun _ => True) Hout) as (s2 & s3 & Hr & Hout3 & Hch & _ & _).
    { intros s1 Hin1 Hch1. exists s1. rewrite w64_small by (unfold u64 in *; lia). by split_and!. }
    exists s3. split; [done|]. split; [done|]. split; [|done].
    split; [by split; [apply NoDup_nil_2|apply Forall_nil]|]. split; [unfold u64 in *; simpl; lia|done].
  - destruct (critical_ok (LockingAcquire (Some c);; mret (mkSem (Count l) q)) s (mkSem (Count l) q) [c] []
      (fun s2 => waiters s2 q) Hout) as (s2 & s3 & Hr & Hout3 & Hch & Hw2 & Hch3).
    { intros s1 Hin1 Hch1. destruct (acquire_waiter s1 c q Hin1 (running_changed _ _ _ Hrun Hch1)) as (s2 & Hr2 & Hin2 & Hch2 & Hw2).
      { eapply waiters_changed; [exact Hw|exact Hch1|set_solver]. }
      exists s2. rewrite (st_bind_ok _ _ _ _ _ Hr2). split; [done|]. split; [done|]. split; [|done].
      by apply (changed_trans s s1 s2 [] [c]). }
    exists s3. split; [done|]. split; [done|]. split; [|done].
    split; [eapply waiters_changed; [exact Hw2|exact Hch3|set_solver]|].
    split; [done|]. intros _. by apply Hz.
Qed.

(** ** Histories *)

(** The states a semaphore that starts with [n] units goes through: [ups] calls of
    [SemaphoreUp] were made, the contexts [reqs] called [SemaphoreDown], in this order,
    and [grants] hold or held a unit, in the order in which they got it.  Between two
    calls anything may happen that leaves the waiting contexts waiting. *)
Inductive sem_hist (n : Z) : S -> SEMAPHORE -> Z -> list ctx -> list ctx -> Prop :=
| hist_init s : outside s -> sem_hist n s (SemaphoreInit n) 0 [] []
| hist_down s l ups reqs grants oc l' s' :
    sem_hist n s l ups reqs grants -> caller s oc -> SemaphoreDown oc l s = Ok (l', s') ->
    sem_hist n s' l' ups (reqs ++ [default (active s) oc])
      (if Count l =? 0 then grants else grants ++ [default (active s) oc])
| hist_up s l ups reqs grants l' s' :
    sem_hist n s l ups reqs grants -> running s -> SemaphoreUp l s = Ok (l', s') ->
    sem_hist n s' l' (ups + 1) reqs (grants ++ option_list (head (WaitingThreads l)))
| hist_other s l ups reqs grants s' :
    sem_hist n s l ups reqs grants -> outside s' ->
    (waiters s (WaitingThreads l) -> waiters s' (WaitingThreads l)) ->
    sem_hist n s' l ups reqs grants.

Lemma hist_ups n s l ups reqs grants : sem_hist n s l ups reqs grants -> 0 <= ups.
Proof. induction 1; lia. Qed.

Lemma hist_ok n s l ups reqs grants :
  0 <= n -> n + ups <= max64 -> sem_hist n s l ups reqs grants ->
  outside s /\ sem_inv s l /\ reqs = grants ++ WaitingThreads l /\ Count l + zlen grants = n + ups.
Proof.
  intros Hn Hmax Hh. induction Hh as [s Hout|s l ups reqs grants oc l' s' Hh IH Hcall Hrun
    |s l ups reqs grants l' s' Hh IH Hact Hrun|s l ups reqs grants s' Hh IH Hout Hw].
  - unfold max64 in Hmax. split; [done|]. split; [|by split].
    split; [by split; [apply NoDup_nil_2|apply Forall_nil]|]. split; [unfold u64; simpl; lia|done].
  - destruct (IH Hmax) as (Hout & Hinv & -> & Hsum).
    destruct (SemaphoreDown_ok s l oc Hout Hcall Hinv) as (s1 & Hd). pose proof Hinv as (_ & Hu & Hz).
    unfold down_spec in Hd. destruct (Z.eqb_spec (Count l) 0) as [E|E].
    + destruct Hd as (Hr & Hout' & Hinv' & _). rewrite Hr in Hrun. injection Hrun as <- <-.
      split; [done|]. split; [done|]. simpl. rewrite app_assoc. split; [done|lia].
    + destruct Hd as (Hr & Hout' & Hinv' & _). rewrite Hr in Hrun. injection Hrun as <- <-.
      assert (WaitingThreads l = []) as Hnil by (destruct (WaitingThreads l); [done|]; by rewrite Hz in E).
      split; [done|]. split; [done|]. simpl. rewrite Hnil, !app_nil_r. split; [done|].
      unfold zlen in *. rewrite length_app. simpl. lia.
  - destruct IH as (Hout & Hinv & -> & Hsum); [lia|]. pose proof (hist_ups _ _ _ _ _ _ Hh).
    destruct (SemaphoreUp_ok s l Hout Hact Hinv) as (s1 & Hd).
    { unfold zlen in *. lia. }
    unfold up_spec in Hd. destruct (WaitingThreads l) as [|c q] eqn:E.
    + destruct Hd as (Hr & Hout' & Hinv' & _). rewrite Hr in Hrun. injection Hrun as <- <-.
      simpl. rewrite !app_nil_r. split; [done|]. split; [done|]. split; [done|lia].
    + destruct Hd as (Hr & Hout' & Hinv' & _). rewrite Hr in Hrun. injection Hrun as <- <-.
      simpl. rewrite <- app_assoc. split; [done|]. split; [done|]. split; [done|].
      unfold zlen in *. rewrite length_app. simpl. lia.
  - destruct (IH Hmax) as (_ & (Hws & Hu & Hz) & -> & Hsum). split; [done|]. split; [|done].
    by split; [apply Hw|].
Qed.

(** ** Properties *)

(** C5: both operations always complete and implement the counting semaphore: a down
    takes a unit or queues the caller, an up hands its unit to the first waiter or adds
    it to the count; nobody else's state changes and the invariant is kept. *)
Theorem semaphore_refines s l oc :
  outside s -> caller s oc -> sem_inv s l -> Count l < max64 ->
  (exists s', let '(l', woken, blocked) := down_spec (default (active s) oc) l in
    SemaphoreDown oc l s = Ok (l', s') /\ outside s' /\ sem_inv s' l' /\ changed s s' woken blocked) /\
  (exists s', let '(l', woken) := up_spec l in
    SemaphoreUp l s = Ok (l', s') /\ outside s' /\ sem_inv s' l' /\ changed s s' woken []).
Proof.
  intros Hout Hcall Hinv Hmax. split; [by apply SemaphoreDown_ok|].
  by apply SemaphoreUp_ok; [|apply Hcall|..].
Qed.

(** C26: in every history of a semaphore the units are granted in the order of the
    requests, the requests that are not granted are exactly the waiting ones, no unit is
    lost or invented, and nobody waits while a unit is free. *)
Theorem semaphore_fifo n s l ups reqs grants :
  0 <= n -> n + ups <= max64 -> sem_hist n s l ups reqs grants ->
  reqs = grants ++ WaitingThreads l /\ Count l + zlen grants = n + ups /\
  (WaitingThreads l <> [] -> Count l = 0).
Proof.
  intros Hn Hmax Hh. destruct (hist_ok n s l ups reqs grants Hn Hmax Hh) as (_ & (_ & _ & Hz) & Hr & Hc). done.
Qed.
End proofs.
