(* ===== verification/Pipe.v ===== *)
(** * Pipes and sockets (kernel/pipe.c, kernel/socket.c), against the locking interface

    A call of a pipe operation can block in each [SemaphoreDown].  The operations are
    therefore given as programs of threads, one step for each call on a semaphore and one
    for the work on the ring under the mutex; threads run interleaved. *)

From S2P Require Import Prelude RingBuffer LinkedList LockClass Semaphore.

Record PIPE := mkPipe {
  Ring : RING_BUFFER;
  Mutex : SEMAPHORE;
  EmptyLock : SEMAPHORE;
  FullLock : SEMAPHORE;
  ReadLock : SEMAPHORE;
  WriteLock : SEMAPHORE
}.

Definition with_Ring r p := mkPipe r (Mutex p) (EmptyLock p) (FullLock p) (ReadLock p) (WriteLock p).
Definition with_Mutex l p := mkPipe (Ring p) l (EmptyLock p) (FullLock p) (ReadLock p) (WriteLock p).
Definition with_EmptyLock l p := mkPipe (Ring p) (Mutex p) l (FullLock p) (ReadLock p) (WriteLock p).
Definition with_FullLock l p := mkPipe (Ring p) (Mutex p) (EmptyLock p) l (ReadLock p) (WriteLock p).
Definition with_ReadLock l p := mkPipe (Ring p) (Mutex p) (EmptyLock p) (FullLock p) l (WriteLock p).
Definition with_WriteLock l p := mkPipe (Ring p) (Mutex p) (EmptyLock p) (FullLock p) (ReadLock p) l.

Definition PipeInit (buff : list Z) (size : Z) : PIPE :=
  mkPipe (RingBufferInit buff size) (SemaphoreInit 1) (SemaphoreInit 0) (SemaphoreInit 1) (SemaphoreInit 1) (SemaphoreInit 1).

(** ** The code under the mutex *)

(** The bytes read, [wasFull] and [dataLeft]. *)
Definition ReadSection (size : Z) (pipe : PIPE) : res (list Z * bool * bool * PIPE) :=
  let wasFull := RingBufferIsFull (Ring pipe) in
  assertr (if wasFull then Count (FullLock pipe) =? 0 else true);;
  '(buff, ring) ← RingBufferRead size (Ring pipe);
  assertr (zlen buff >? 0);;
  let dataLeft := negb (RingBufferIsEmpty ring) in
  Ok (buff, wasFull, dataLeft, with_Ring ring pipe).

(** The number of bytes written, [wasEmpty] and [spaceLeft]. *)
Definition WriteSection (buff : list Z) (size : Z) (pipe : PIPE) : res (Z * bool * bool * PIPE) :=
  let wasEmpty := RingBufferIsEmpty (Ring pipe) in
  assertr (if wasEmpty then Count (EmptyLock pipe) =? 0 else true);;
  '(write, ring) ← RingBufferWrite buff size (Ring pipe);
  assertr (write >? 0);;
  let spaceLeft := negb (RingBufferIsFull ring) in
  Ok (write, wasEmpty, spaceLeft, with_Ring ring pipe).

(** ** Threads in a call *)

Inductive side := Reader | Writer.

#[export] Instance side_eq_dec : EqDecision side.
Proof. solve_decision. Defined.

(** What the thread does next.  [was] is [wasFull && read > 0] ([wasEmpty && write > 0]),
    [more] is [dataLeft] ([spaceLeft]). *)
Inductive phase :=
| PLock                            (* SemaphoreDown of ReadLock (WriteLock) *)
| PCheck                           (* the call of the inner function, or the condition of the loop *)
| PGate                            (* SemaphoreDown of EmptyLock (FullLock) *)
| PMutex                           (* SemaphoreDown of Mutex *)
| PWork
| PUpMutex (was more : bool)
| PUpOther (more : bool)           (* SemaphoreUp of FullLock (EmptyLock) *)
| PUpGate                          (* SemaphoreUp of EmptyLock (FullLock) *)
| PUpLock                          (* SemaphoreUp of ReadLock (WriteLock) *)
| PDone.

(** [whole] tells PipeReadStruct from PipeRead and PipeWriteStruct from PipeWrite; [buff]
    is what a writer writes; [moved] the bytes read or written so far. *)
Record thread := mkThread { tside : side; whole : bool; buff : list Z; size : Z; moved : list Z; next : phase }.

Definition goto (ph : phase) (t : thread) : thread := mkThread (tside t) (whole t) (buff t) (size t) (moved t) ph.
Definition move (chunk : list Z) (t : thread) : thread :=
  mkThread (tside t) (whole t) (buff t) (size t) (moved t ++ chunk) (next t).

Definition PipeRead (size : Z) : thread := mkThread Reader false [] size [] PLock.
Definition PipeReadStruct (size : Z) : thread := mkThread Reader true [] size [] PLock.
Definition PipeWrite (buff : list Z) : thread := mkThread Writer false buff (zlen buff) [] PLock.
Definition PipeWriteStruct (buff : list Z) : thread := mkThread Writer true buff (zlen buff) [] PLock.

(** Behind the return of the inner function. *)
Definition returned (t : thread) : phase := if whole t then PCheck else PUpLock.
(** The call of the inner function, or [while (read < size)]. *)
Definition checked (t : thread) : phase := if whole t && negb (zlen (moved t) <? size t) then PUpLock else PGate.

Section operations.
Context {S : Type} `{LockingOps S}.

(** PipeReadInner in PipeRead and PipeReadStruct. *)
Definition reader_step (t : thread) (pipe : PIPE) : St S (thread * PIPE) :=
  match next t with
  | PLock => l ← SemaphoreDown None (ReadLock pipe); mret (goto PCheck t, with_ReadLock l pipe)
  | PCheck => mret (goto (checked t) t, pipe)
  | PGate => l ← SemaphoreDown None (EmptyLock pipe); mret (goto PMutex t, with_EmptyLock l pipe)
  | PMutex => l ← SemaphoreDown None (Mutex pipe); mret (goto PWork t, with_Mutex l pipe)
  | PWork =>
      '(chunk, wasFull, dataLeft, pipe) ← liftr (ReadSection (size t - zlen (moved t)) pipe);
      mret (move chunk (goto (PUpMutex (wasFull && (zlen chunk >? 0)) dataLeft) t), pipe)
  | PUpMutex was more =>
      l ← SemaphoreUp (Mutex pipe);
      mret (goto (if was then PUpOther more else if more then PUpGate else returned t) t, with_Mutex l pipe)
  | PUpOther more =>
      l ← SemaphoreUp (FullLock pipe);
      mret (goto (if more then PUpGate else returned t) t, with_FullLock l pipe)
  | PUpGate => l ← SemaphoreUp (EmptyLock pipe); mret (goto (returned t) t, with_EmptyLock l pipe)
  | PUpLock =>
      l ← SemaphoreUp (ReadLock pipe);
      assert (if whole t then zlen (moved t) =? size t else true);;
      mret (goto PDone t, with_ReadLock l pipe)
  | PDone => mret (t, pipe)
  end.

(** PipeWriteInner in PipeWrite and PipeWriteStruct. *)
Definition writer_step (t : thread) (pipe : PIPE) : St S (thread * PIPE) :=
  match next t with
  | PLock => l ← SemaphoreDown None (WriteLock pipe); mret (goto PCheck t, with_WriteLock l pipe)
  | PCheck => mret (goto (checked t) t, pipe)
  | PGate => l ← SemaphoreDown None (FullLock pipe); mret (goto PMutex t, with_FullLock l pipe)
  | PMutex => l ← SemaphoreDown None (Mutex pipe); mret (goto PWork t, with_Mutex l pipe)
  | PWork =>
      let rest := drop (length (moved t)) (buff t) in
      '(write, wasEmpty, spaceLeft, pipe) ← liftr (WriteSection rest (size t - zlen (moved t)) pipe);
      mret (move (take (Z.to_nat write) rest) (goto (PUpMutex (wasEmpty && (write >? 0)) spaceLeft) t), pipe)
  | PUpMutex was more =>
      l ← SemaphoreUp (Mutex pipe);
      mret (goto (if was then PUpOther more else if more then PUpGate else returned t) t, with_Mutex l pipe)
  | PUpOther more =>
      l ← SemaphoreUp (EmptyLock pipe);
      mret (goto (if more then PUpGate else returned t) t, with_EmptyLock l pipe)
  | PUpGate => l ← SemaphoreUp (FullLock pipe); mret (goto (returned t) t, with_FullLock l pipe)
  | PUpLock =>
      l ← SemaphoreUp (WriteLock pipe);
      assert (if whole t then zlen (moved t) =? size t else true);;
      mret (goto PDone t, with_WriteLock l pipe)
  | PDone => mret (t, pipe)
  end.

Definition thread_step (t : thread) : PIPE -> St S (thread * PIPE) :=
  match tside t with Reader => reader_step t | Writer => writer_step t end.
End operations.

(** ** Sockets *)

(** Two pipes; a handle says which it reads and which it writes. *)
Record SOCKET := mkSocket { Pipe1 : PIPE; Pipe2 : PIPE }.
Inductive which := OfPipe1 | OfPipe2.
Record SOCKET_HANDLE := mkHandle { HRead : which; HWrite : which }.

Definition SocketInit (buff1 : list Z) (size1 : Z) (buff2 : list Z) (size2 : Z) : SOCKET * SOCKET_HANDLE * SOCKET_HANDLE :=
  (mkSocket (PipeInit buff1 size1) (PipeInit buff2 size2), mkHandle OfPipe1 OfPipe2, mkHandle OfPipe2 OfPipe1).

Definition pipe_of (w : which) (s : SOCKET) : PIPE := match w with OfPipe1 => Pipe1 s | OfPipe2 => Pipe2 s end.
Definition with_pipe (w : which) (p : PIPE) (s : SOCKET) : SOCKET :=
  match w with OfPipe1 => mkSocket p (Pipe2 s) | OfPipe2 => mkSocket (Pipe1 s) p end.

(** A call on a handle is a call on one of its pipes. *)
Definition SocketReadChars (size : Z) (h : SOCKET_HANDLE) : which * thread := (HRead h, PipeRead size).
Definition SocketReadStruct (size : Z) (h : SOCKET_HANDLE) : which * thread := (HRead h, PipeReadStruct size).
Definition SocketWriteChars (b : list Z) (h : SOCKET_HANDLE) : which * thread := (HWrite h, PipeWrite b).
Definition SocketWriteStruct (b : list Z) (h : SOCKET_HANDLE) : which * thread := (HWrite h, PipeWriteStruct b).

Definition socket_step {S} `{LockingOps S} (w : which) (t : thread) (s : SOCKET) : St S (thread * SOCKET) :=
  '(t, p) ← thread_step t (pipe_of w s);
  mret (t, with_pipe w p s).
