(* ===== verification/PipeSafety.v ===== *)
(** * Interleaved readers and writers of a pipe

    Any number of threads in calls of the pipe operations, switched between arbitrarily,
    over any implementation of the locking contract.  The invariant counts, for every
    semaphore, the units that are in the semaphore or held by a thread. *)

From S2P Require Import Prelude RingBuffer LinkedList LockClass Semaphore Pipe.

(** ** Sums over the threads *)

Definition msum (f : ctx -> thread -> Z) (m : gmap ctx thread) : Z := map_fold (fun c t acc => f c t + acc) 0 m.

Lemma msum_insert f m c t : m !! c = None -> msum f (<[c := t]> m) = f c t + msum f m.
Proof. intros H. unfold msum. rewrite map_fold_insert_L; [done| |done]. intros. lia. Qed.

Lemma msum_ext f g m : (forall c t, m !! c = Some t -> f c t = g c t) -> msum f m = msum g m.
Proof.
  induction m as [|c t m Hc IH] using map_ind; intros H; [done|]. rewrite !msum_insert by done.
  rewrite (H c t) by apply lookup_insert_eq. rewrite IH; [done|]. intros c' t' H'. apply H. apply lookup_insert_Some. right.
  split; [|done]. intros ->. by rewrite Hc in H'.
Qed.

Lemma msum_delete f m c t : m !! c = Some t -> msum f m = f c t + msum f (delete c m).
Proof. intros H. rewrite <- (insert_delete_id m c t H) at 1. apply msum_insert, lookup_delete_eq. Qed.

Lemma msum_update f g m c t t' :
  m !! c = Some t -> (forall c' x, c' <> c -> m !! c' = Some x -> g c' x = f c' x) ->
  msum g (<[c := t']> m) = msum f m - f c t + g c t'.
Proof.
  intros H Hne. rewrite <- insert_delete_eq, msum_insert by apply lookup_delete_eq. rewrite (msum_delete f m c t H).
  rewrite (msum_ext g f (delete c m)); [lia|]. intros c' x Hx. apply lookup_delete_Some in Hx as [? ?]. by apply Hne.
Qed.

Lemma msum_nonneg f m : (forall c t, m !! c = Some t -> 0 <= f c t) -> 0 <= msum f m.
Proof.
  induction m as [|c t m Hc IH] using map_ind; intros H; [done|]. rewrite msum_insert by done.
  specialize (H c t) as H0. rewrite lookup_insert_eq in H0. specialize (H0 eq_refl).
  assert (0 <= msum f m); [|lia]. apply IH. intros c' t' H'. apply H. apply lookup_insert_Some. right.
  split; [|done]. intros ->. by rewrite Hc in H'.
Qed.

Lemma msum_le f m c t : (forall c t, m !! c = Some t -> 0 <= f c t) -> m !! c = Some t -> f c t <= msum f m.
Proof.
  intros H Hc. rewrite (msum_delete f m c t Hc). assert (0 <= msum f (delete c m)); [|lia].
  apply msum_nonneg. intros c' t' H'. apply lookup_delete_Some in H' as [_ H']. by apply H.
Qed.

Lemma msum_le2 f m c t c' t' : (forall c t, m !! c = Some t -> 0 <= f c t) ->
  m !! c = Some t -> m !! c' = Some t' -> c <> c' -> f c t + f c' t' <= msum f m.
Proof.
  intros H Hc Hc' Hne. rewrite (msum_delete f m c t Hc).
  assert (f c' t' <= msum f (delete c m)); [|lia]. apply msum_le; [|by rewrite lookup_delete_ne].
  intros d x Hx. apply lookup_delete_Some in Hx as [_ Hx]. by apply H.
Qed.

Lemma msum_pos f m : 0 < msum f m -> exists c t, m !! c = Some t /\ 0 < f c t.
Proof.
  induction m as [|c t m Hc IH] using map_ind; intros H; [done|]. rewrite msum_insert in H by done.
  destruct (Z.lt_ge_cases 0 (f c t)) as [Hp|Hp]; [exists c, t; by rewrite lookup_insert_eq|].
  destruct IH as (c' & t' & H1 & H2); [lia|]. exists c', t'. split; [|done]. apply lookup_insert_Some. right.
  split; [|done]. intros ->. by rewrite Hc in H1.
Qed.

(** ** The semaphores and who holds their units *)

Inductive lockid := LMutex | LGate (sd : side) | LOuter (sd : side).

#[export] Instance lockid_eq_dec : EqDecision lockid.
Proof. solve_decision. Defined.

Definition lock_of (id : lockid) (p : PIPE) : SEMAPHORE :=
  match id with
  | LMutex => Mutex p
  | LGate Reader => EmptyLock p
  | LGate Writer => FullLock p
  | LOuter Reader => ReadLock p
  | LOuter Writer => WriteLock p
  end.

Definition set_lock (id : lockid) (l : SEMAPHORE) (p : PIPE) : PIPE :=
  match id with
  | LMutex => with_Mutex l p
  | LGate Reader => with_EmptyLock l p
  | LGate Writer => with_FullLock l p
  | LOuter Reader => with_ReadLock l p
  | LOuter Writer => with_WriteLock l p
  end.

Lemma lock_of_set id id' l p : lock_of id' (set_lock id l p) = if decide (id' = id) then l else lock_of id' p.
Proof. by destruct id as [|[]|[]], id' as [|[]|[]]. Qed.

Lemma ring_set id l p : Ring (set_lock id l p) = Ring p.
Proof. by destruct id as [|[]|[]]. Qed.

Definition other (sd : side) : side := match sd with Reader => Writer | Writer => Reader end.

(** The steps that take a unit and the ones that give one back, with what comes next. *)
Definition takes (t : thread) : option (lockid * phase) :=
  match next t with
  | PLock => Some (LOuter (tside t), PCheck)
  | PGate => Some (LGate (tside t), PMutex)
  | PMutex => Some (LMutex, PWork)
  | _ => None
  end.

Definition gives (t : thread) : option (lockid * phase) :=
  match next t with
  | PUpMutex was more => Some (LMutex, if was then PUpOther more else if more then PUpGate else returned t)
  | PUpOther more => Some (LGate (other (tside t)), if more then PUpGate else returned t)
  | PUpGate => Some (LGate (tside t), returned t)
  | PUpLock => Some (LOuter (tside t), PDone)
  | _ => None
  end.

(** The semaphore a blocked thread waits for. *)
Definition waits (t : thread) : option lockid :=
  match next t with
  | PCheck => Some (LOuter (tside t))
  | PMutex => Some (LGate (tside t))
  | PWork => Some LMutex
  | _ => None
  end.

(** The units of the semaphore that the thread holds or will give back; [b]: it is blocked. *)
Definition tok (id : lockid) (t : thread) (b : bool) : Z :=
  match id with
  | LMutex => match next t with PWork => if b then 0 else 1 | PUpMutex _ _ => 1 | _ => 0 end
  | LOuter sd =>
      if decide (tside t = sd) then match next t with PLock | PDone => 0 | PCheck => if b then 0 else 1 | _ => 1 end
      else 0
  | LGate sd =>
      if decide (tside t = sd) then
        match next t with
        | PMutex => if b then 0 else 1
        | PWork | PUpGate => 1
        | PUpMutex _ more | PUpOther more => Z.b2z more
        | _ => 0
        end
      else match next t with PUpMutex was _ => Z.b2z was | PUpOther _ => 1 | _ => 0 end
  end.

(** Case analysis on threads, locks and sides. *)
Ltac tok_cases :=
  repeat match goal with
  | t : thread |- _ => let sd := fresh in let wh := fresh in let ph := fresh in
      destruct t as [sd wh ? ? ? ph]; destruct sd, wh, ph
  | sd : side |- _ => destruct sd
  | id : lockid |- _ => destruct id
  | b : bool |- _ => destruct b
  end.

Lemma tok_range id t b : 0 <= tok id t b <= 1.
Proof. tok_cases; simpl; lia. Qed.

Lemma tok_takes id t ph : takes t = Some (id, ph) ->
  waits (goto ph t) = Some id /\ tok id t false = 0 /\
  forall id' b', id' <> id -> tok id' (goto ph t) b' = tok id' t false.
Proof.
  tok_cases; cbn; intros H; simplify_eq; (split; [done|split; [done|]]); intros id' b' ?; tok_cases; congruence || done.
Qed.

Lemma tok_gives id t ph : gives t = Some (id, ph) ->
  tok id t false = 1 /\ tok id (goto ph t) false = 0 /\
  (forall id', id' <> id -> tok id' (goto ph t) false = tok id' t false) /\ waits t = None.
Proof.
  tok_cases; cbn; intros H; simplify_eq; (split; [done|split; [done|split; [|done]]]); intros id' ?; tok_cases; congruence || done.
Qed.

Lemma tok_waits id t : waits t = Some id ->
  tok id t true = 0 /\ tok id t false = 1 /\ forall id', id' <> id -> tok id' t true = tok id' t false.
Proof. tok_cases; cbn; intros H; simplify_eq; (split; [done|split; [done|]]); intros id' ?; tok_cases; congruence || done. Qed.

Lemma tok_free id t b b' : waits t = None -> tok id t b = tok id t b'.
Proof. intros H. tok_cases; done. Qed.

(** ** What a step does, by the kind of the step *)

(** [wasFull] ([wasEmpty]) and the gate counts speak about the ring. *)
Definition cap (id : lockid) (r : RING_BUFFER) : Z :=
  match id with
  | LGate Reader => Z.b2z (negb (RingBufferIsEmpty r))
  | LGate Writer => Z.b2z (negb (RingBufferIsFull r))
  | _ => 1
  end.

Lemma cap_range id r : 0 <= cap id r <= 1.
Proof. destruct id as [|[]|[]]; simpl; unfold Z.b2z; repeat case_match; lia. Qed.

(** The sizes of the calls, and how far a call has come. *)
Definition thread_ok (t : thread) : Prop :=
  0 < size t < 2 ^ 63 /\ zlen (moved t) <= size t /\
  (tside t = Writer -> zlen (buff t) = size t /\ moved t = take (length (moved t)) (buff t)) /\
  match next t with
  | PLock => moved t = []
  | PCheck => whole t = false -> moved t = []
  | PGate | PMutex | PWork => zlen (moved t) < size t
  | PUpMutex _ _ | PUpOther _ | PUpGate => 0 < zlen (moved t)
  | PUpLock | PDone => 0 < zlen (moved t) /\ (whole t = true -> zlen (moved t) = size t)
  end.

Lemma thread_ok_goto t ph id : thread_ok t -> takes t = Some (id, ph) \/ gives t = Some (id, ph) -> thread_ok (goto ph t).
Proof.
  destruct t as [sd wh b sz mv nx]. unfold thread_ok, takes, gives, returned. cbn.
  intros (H1 & H2 & H3 & H4) [H|H]; (split; [done|split; [done|split; [done|]]]);
  destruct nx as [| | | | |[] []|[]| | |], wh; simplify_eq; try done; cbn; lia || (intros; lia) || (split; [lia|intros; lia]).
Qed.

Lemma takes_check t id ph : thread_ok t -> takes t = Some (id, ph) -> ph = PCheck -> moved t = [].
Proof. unfold thread_ok, takes. intros (_ & _ & _ & H) Ht ->. by destruct (next t); simplify_eq. Qed.

Lemma thread_ok_check t : thread_ok t -> next t = PCheck -> thread_ok (goto (checked t) t).
Proof.
  destruct t as [sd wh b sz mv nx]. unfold thread_ok, checked. cbn. intros (H1 & H2 & H3 & H4) ->.
  split; [done|split; [done|split; [done|]]]. destruct wh; cbn; [|rewrite H4 by done; unfold zlen; simpl; lia].
  destruct (Z.ltb_spec (zlen mv) sz); cbn; [done|]. split; [lia|intros; lia].
Qed.

Lemma ReadSection_ok n p :
  ring_wf (Ring p) -> 0 < n < 2 ^ 63 -> RingBufferIsEmpty (Ring p) = false ->
  (RingBufferIsFull (Ring p) = true -> Count (FullLock p) = 0) ->
  exists chunk r, ReadSection n p = Ok (chunk, RingBufferIsFull (Ring p), negb (RingBufferIsEmpty r), with_Ring r p) /\
    ring_wf r /\ 0 < zlen chunk <= n /\ contents (Ring p) = chunk ++ contents r /\ RingBufferIsFull r = false.
Proof.
  intros Hwf Hn He Hf. destruct (RingBufferRead_ok n (Ring p) Hwf ltac:(lia)) as (r & Hr & Hwf' & Hsz & Hc).
  set (chunk := take (Z.to_nat n) (contents (Ring p))) in *. assert (0 < zlen chunk <= n) as Hl.
  { assert (contents (Ring p) <> []) as Hne by (rewrite <- empty_contents by done; by rewrite He).
    unfold chunk, zlen. rewrite length_take. destruct (contents (Ring p)); [done|]. simpl. lia. }
  exists chunk, r. assert (contents (Ring p) = chunk ++ contents r) as Heq by (by rewrite Hc; unfold chunk; rewrite take_drop).
  split; [|split; [done|split; [done|split; [done|]]]].
  - unfold ReadSection. rewrite Hr.
    assert ((if RingBufferIsFull (Ring p) then Count (FullLock p) =? 0 else true) = true) as ->
      by (destruct (RingBufferIsFull (Ring p)); [rewrite Hf by done|]; done).
    cbn. rewrite (proj2 (Z.gtb_lt _ _)) by lia. done.
  - destruct (RingBufferIsFull r) eqn:E; [|done]. apply full_contents in E; [|done].
    pose proof (free_nonneg (Ring p) Hwf) as Hfr. unfold free in Hfr. rewrite Heq in Hfr. unfold zlen in *.
    rewrite length_app in Hfr. lia.
Qed.

Lemma WriteSection_ok b p :
  ring_wf (Ring p) -> 0 < zlen b < 2 ^ 63 -> RingBufferIsFull (Ring p) = false ->
  (RingBufferIsEmpty (Ring p) = true -> Count (EmptyLock p) = 0) ->
  exists n r, WriteSection b (zlen b) p = Ok (n, RingBufferIsEmpty (Ring p), negb (RingBufferIsFull r), with_Ring r p) /\
    ring_wf r /\ 0 < n <= zlen b /\ contents r = contents (Ring p) ++ take (Z.to_nat n) b /\ RingBufferIsEmpty r = false.
Proof.
  intros Hwf Hn Hf He. destruct (RingBufferWrite_ok b (Ring p) Hwf ltac:(lia)) as (r & Hr & Hwf' & Hsz & Hc).
  destruct (write_passes_free (Ring p) Hwf Hf) as [_ Hfree]. set (n := Z.min (zlen b) (free (Ring p))) in *.
  assert (0 < n <= zlen b) as Hl by lia.
  exists n, r. split; [|split; [done|split; [done|split; [done|]]]].
  - unfold WriteSection. rewrite Hr.
    assert ((if RingBufferIsEmpty (Ring p) then Count (EmptyLock p) =? 0 else true) = true) as ->
      by (destruct (RingBufferIsEmpty (Ring p)); [rewrite He by done|]; done).
    cbn. rewrite (proj2 (Z.gtb_lt _ _)) by lia. done.
  - destruct (RingBufferIsEmpty r) eqn:E; [|done]. apply empty_contents in E; [|done]. rewrite E in Hc.
    symmetry in Hc. apply app_eq_nil in Hc as [_ Hc]. apply (f_equal length) in Hc. rewrite length_take in Hc.
    unfold zlen in *. simpl in Hc. lia.
Qed.

(** ** The system of threads *)

Section system.
Context {S : Type} {ops : LockingOps S} {laws : LockingLaws S}.

(** [wlog] and [rlog] are all the bytes written to and read from the ring, in order. *)
Record sys := mkSys { mem : S; pipe : PIPE; threads : gmap ctx thread; wlog : list Z; rlog : list Z }.

Definition log (sd : side) (y : sys) : list Z := match sd with Reader => rlog y | Writer => wlog y end.

(** The bytes that a step of a thread on side [sd] has moved. *)
Definition fresh (sd : side) (t t' : thread) : list Z :=
  if decide (tside t = sd) then drop (length (moved t)) (moved t') else [].

(** What a thread does when it starts a call. *)
Definition called (t : thread) : Prop :=
  0 < size t < 2 ^ 63 /\
  (t = PipeRead (size t) \/ t = PipeReadStruct (size t) \/ t = PipeWrite (buff t) \/ t = PipeWriteStruct (buff t)).

(** The active thread takes a step; or the kernel does something else, such as a switch,
    that leaves the threads of the system as they are; or a thread starts a call. *)
Inductive sys_step (y : sys) : sys -> Prop :=
| step_thread t t' p' s' :
    threads y !! active (mem y) = Some t -> running (mem y) ->
    thread_step t (pipe y) (mem y) = Ok ((t', p'), s') ->
    sys_step y (mkSys s' p' (<[active (mem y) := t']> (threads y)) (wlog y ++ fresh Writer t t') (rlog y ++ fresh Reader t t'))
| step_kernel s' :
    outside s' ->
    (forall c, is_Some (threads y !! c) -> status s' !! c = status (mem y) !! c /\ (lawful (mem y) c -> lawful s' c)) ->
    sys_step y (mkSys s' (pipe y) (threads y) (wlog y) (rlog y))
| step_call n t :
    (forall t0, threads y !! CThread n = Some t0 -> next t0 = PDone) ->
    lawful (mem y) (CThread n) -> status (mem y) !! CThread n = Some LOCKING_STATE_READY -> called t ->
    sys_step y (mkSys (mem y) (pipe y) (<[CThread n := t]> (threads y)) (wlog y) (rlog y)).

Inductive reachable (b : list Z) : sys -> Prop :=
| reach_init s : outside s -> 0 < zlen b < 2 ^ 63 -> reachable b (mkSys s (PipeInit b (zlen b)) ∅ [] [])
| reach_step y y' : reachable b y -> sys_step y y' -> reachable b y'.

(** ** The invariant *)

Definition blocked (s : S) (c : ctx) : bool := bool_decide (status s !! c = Some LOCKING_STATE_BLOCKING).

(** All the units of a semaphore that are held by a thread. *)
Definition held (id : lockid) (s : S) (m : gmap ctx thread) : Z := msum (fun c t => tok id t (blocked s c)) m.

Definition placed (s : S) (p : PIPE) (c : ctx) (t : thread) : Prop :=
  thread_ok t /\ lawful s c /\ (exists n, c = CThread n) /\
  (status s !! c = Some LOCKING_STATE_READY \/
   status s !! c = Some LOCKING_STATE_BLOCKING /\ (next t = PCheck -> moved t = []) /\
     exists id, waits t = Some id /\ c ∈ WaitingThreads (lock_of id p)).

Record locks_ok (s : S) (p : PIPE) (m : gmap ctx thread) : Prop := {
  lo_out : outside s;
  lo_ring : ring_wf (Ring p);
  lo_sem id : sem_inv s (lock_of id p);
  lo_threads c t : m !! c = Some t -> placed s p c t;
  lo_queue id c : c ∈ WaitingThreads (lock_of id p) -> exists t, m !! c = Some t /\ waits t = Some id;
  lo_count id : Count (lock_of id p) + held id s m = cap id (Ring p)
}.

(** What a thread has moved is the end of the log as long as it holds the lock of its side. *)
Definition logs_ok (y : sys) : Prop :=
  wlog y = rlog y ++ contents (Ring (pipe y)) /\
  forall c t, threads y !! c = Some t -> tok (LOuter (tside t)) t (blocked (mem y) c) = 1 ->
    exists pre, log (tside t) y = pre ++ moved t.

Definition sys_ok (y : sys) : Prop := locks_ok (mem y) (pipe y) (threads y) /\ logs_ok y.

Lemma held_nonneg id s m : 0 <= held id s m.
Proof. apply msum_nonneg. intros. apply tok_range. Qed.

Lemma held_le s p m id c t : locks_ok s p m -> m !! c = Some t ->
  tok id t (blocked s c) + Count (lock_of id p) <= cap id (Ring p) /\ 0 <= Count (lock_of id p).
Proof.
  intros H Hc. pose proof (lo_count _ _ _ H id) as Hs. destruct (lo_sem _ _ _ H id) as (_ & [Hu _] & _).
  pose proof (msum_le (fun c t => tok id t (blocked s c)) m c t ltac:(intros; apply tok_range) Hc) as Hle. unfold held in Hs. cbv beta in Hle. lia.
Qed.

(** A unit that cannot be had twice. *)
Lemma held_unique s p m id c t c' t' : locks_ok s p m -> m !! c = Some t -> m !! c' = Some t' ->
  tok id t (blocked s c) = 1 -> tok id t' (blocked s c') = 1 -> c = c'.
Proof.
  intros H Hc Hc' Ht Ht'. destruct (decide (c = c')) as [|Hne]; [done|exfalso].
  pose proof (lo_count _ _ _ H id) as Hs. destruct (lo_sem _ _ _ H id) as (_ & [Hu _] & _). pose proof (cap_range id (Ring p)).
  pose proof (msum_le2 (fun c t => tok id t (blocked s c)) m c t c' t' ltac:(intros; apply tok_range) Hc Hc' Hne) as Hle.
  unfold held in Hs. cbv beta in Hle. lia.
Qed.

Lemma held_update id s s' m c t t' :
  m !! c = Some t -> (forall c' x, c' <> c -> m !! c' = Some x -> blocked s' c' = blocked s c') ->
  held id s' (<[c := t']> m) = held id s m - tok id t (blocked s c) + tok id t' (blocked s' c).
Proof. intros Hc Hne.
  apply (msum_update (fun c t => tok id t (blocked s c)) (fun c t => tok id t (blocked s' c))); [done|]. intros c' x Hx Hm. by rewrite (Hne c' x). Qed.

(** The same when one waiting thread is woken. *)
Lemma held_wake id s s' m c t t' c1 t1 :
  m !! c = Some t -> m !! c1 = Some t1 -> c1 <> c ->
  (forall c' x, c' <> c -> c' <> c1 -> m !! c' = Some x -> blocked s' c' = blocked s c') ->
  held id s' (<[c := t']> m) =
    held id s m - tok id t (blocked s c) + tok id t' (blocked s' c) - tok id t1 (blocked s c1) + tok id t1 (blocked s' c1).
Proof.
  intros Hc Hc1 Hne Hb.
  set (f := fun c' x => tok id x (if decide (c' = c1) then blocked s' c' else blocked s c')).
  assert (msum f m = held id s m - tok id t1 (blocked s c1) + tok id t1 (blocked s' c1)) as Hf.
  { rewrite <- (insert_id m c1 t1 Hc1) at 1. unfold held.
    rewrite (msum_update (fun c t => tok id t (blocked s c)) f m c1 t1 t1 Hc1); unfold f.
    - by rewrite decide_True by done.
    - intros c' x Hx _. by rewrite decide_False by done. }
  unfold held at 1. rewrite (msum_update f (fun c t => tok id t (blocked s' c)) m c t t' Hc).
  - rewrite Hf. unfold f. rewrite decide_False by done. lia.
  - intros c' x Hx Hm. unfold f. case_decide as E; [done|]. by rewrite (Hb c' x).
Qed.

Lemma placed_mono s s' p p' c t :
  placed s p c t -> status s' !! c = status s !! c -> (lawful s c -> lawful s' c) ->
  (forall id, c ∈ WaitingThreads (lock_of id p) -> c ∈ WaitingThreads (lock_of id p')) -> placed s' p' c t.
Proof.
  intros (H1 & H2 & H3 & H4) Hs Hl Hq. split; [done|split; [auto|split; [done|]]]. rewrite Hs.
  destruct H4 as [|(Hb & Hm & id & Hw & Hin)]; [by left|right]. split; [done|split; [done|]]. exists id. auto.
Qed.

Lemma sem_inv_frame s s' l woken bl :
  sem_inv s l -> changed s s' woken bl -> (forall c, c ∈ WaitingThreads l -> c ∈ woken -> c ∈ bl) -> sem_inv s' l.
Proof. intros (H1 & H2) Hch Hd. split; [|done]. by eapply waiters_changed. Qed.

Lemma running_blocked s : running s -> blocked s (active s) = false.
Proof. unfold running, blocked. intros ->. done. Qed.

Lemma caller_active s p m t : locks_ok s p m -> m !! active s = Some t -> running s -> caller s None.
Proof.
  intros Hok Ht Hrun. destruct (lo_threads _ _ _ Hok _ _ Ht) as (_ & Hl & (n & Hn) & _). split; [done|split; [done|split; [done|]]].
  simpl. by rewrite Hn.
Qed.

(** Who waits where, with the semaphore [id] changed. *)
Lemma not_queued s p m c id : locks_ok s p m -> status s !! c = Some LOCKING_STATE_READY -> c ∉ WaitingThreads (lock_of id p).
Proof.
  intros Hok Hs Hin. destruct (lo_sem _ _ _ Hok id) as ((_ & Hw) & _). rewrite Forall_forall in Hw.
  destruct (Hw c Hin) as [Hb _]. congruence.
Qed.

Lemma changed_other s s' woken bl c : changed s s' woken bl -> c ∉ woken -> c ∉ bl ->
  status s' !! c = status s !! c.
Proof. intros (_ & _ & Hs & _) H1 H2. by rewrite Hs, !bool_decide_false. Qed.

Lemma blocked_other s s' woken bl c : changed s s' woken bl -> c ∉ woken -> c ∉ bl -> blocked s' c = blocked s c.
Proof. intros Hch H1 H2. unfold blocked. by erewrite changed_other. Qed.

(** A call on the semaphore [id] by the active thread: it only enqueues the caller, only
    wakes its own waiting threads, and the counts still add up. *)
Lemma locks_frame s s' p id l m t t' woken bl :
  locks_ok s p m -> m !! active s = Some t -> running s ->
  outside s' -> sem_inv s' l -> changed s s' woken bl ->
  (forall c, c ∈ bl -> c = active s) ->
  (forall c, c ∈ woken -> c = active s \/ c ∈ WaitingThreads (lock_of id p)) ->
  (forall c, c ∈ WaitingThreads l -> c ∈ WaitingThreads (lock_of id p) \/ c = active s /\ waits t' = Some id) ->
  (forall c, c ∈ WaitingThreads (lock_of id p) -> c ∈ WaitingThreads l \/ c ∈ woken) ->
  placed s' (set_lock id l p) (active s) t' ->
  (forall id', Count (lock_of id' (set_lock id l p)) + held id' s' (<[active s := t']> m) = cap id' (Ring p)) ->
  locks_ok s' (set_lock id l p) (<[active s := t']> m).
Proof.
  intros Hok Ht Hrun Hout Hinv Hch Hbl Hwk Hnew Hold Hpl Hcnt.
  assert (forall id' c, c ∈ WaitingThreads (lock_of id' p) -> c <> active s) as Hact.
  { intros id' c Hc ->. by apply (not_queued s p m (active s) id'). }
  split; [done|rewrite ring_set; apply Hok| | | |intros; rewrite ring_set; apply Hcnt].
  - intros id'. rewrite lock_of_set. case_decide as Hid; [done|]. eapply sem_inv_frame; [apply Hok|exact Hch|].
    intros c Hc Hw. exfalso. destruct (Hwk c Hw) as [->|Hc']; [by apply (Hact id' (active s) Hc)|].
    destruct (lo_queue _ _ _ Hok id' c Hc) as (x & Hx & H1), (lo_queue _ _ _ Hok id c Hc') as (x' & Hx' & H2). congruence.
  - intros c x Hx. apply lookup_insert_Some in Hx as [[<- <-]|[Hc Hx]]; [done|].
    pose proof (lo_threads _ _ _ Hok _ _ Hx) as Hp. destruct (decide (c ∈ woken)) as [Hw|Hw].
    + destruct Hp as (H1 & H2 & (n & ->) & _). split; [done|split; [by apply Hch|split; [by exists n|left]]].
      destruct Hch as (_ & _ & Hs & _). rewrite Hs, bool_decide_false, bool_decide_true by naive_solver. done.
    + eapply placed_mono; [done|eapply changed_other; [done..|naive_solver]|apply Hch|].
      intros id' Hin. rewrite lock_of_set. case_decide; [subst; naive_solver|done].
  - intros id' c. rewrite lock_of_set. case_decide as Hid.
    + subst id'. intros Hc. destruct (Hnew c Hc) as [Hc'|[-> Hw]]; [|exists t'; by rewrite lookup_insert_eq].
      destruct (lo_queue _ _ _ Hok id c Hc') as (x & Hx). exists x. rewrite lookup_insert_ne; [done|]. naive_solver.
    + intros Hc. destruct (lo_queue _ _ _ Hok id' c Hc) as (x & Hx). exists x. rewrite lookup_insert_ne; [done|]. naive_solver.
Qed.

(** ** Taking a unit, or waiting for it *)

Lemma locks_down s p m id t ph :
  locks_ok s p m -> m !! active s = Some t -> running s -> takes t = Some (id, ph) ->
  exists l s', SemaphoreDown None (lock_of id p) s = Ok (l, s') /\
    locks_ok s' (set_lock id l p) (<[active s := goto ph t]> m) /\
    forall c, c <> active s -> blocked s' c = blocked s c.
Proof.
  intros Hok Ht Hrun Htk. pose proof (lo_threads _ _ _ Hok _ _ Ht) as (Htok & Hlaw & (n & Hn) & _).
  destruct (SemaphoreDown_ok s (lock_of id p) None (lo_out _ _ _ Hok) (caller_active _ _ _ _ Hok Ht Hrun) (lo_sem _ _ _ Hok id))
    as (s' & Hd). cbn [default] in Hd. unfold down_spec in Hd.
  destruct (tok_takes id t ph Htk) as (Hw & Hz & Hother). destruct (tok_waits id _ Hw) as (Hz0 & Hz1 & _).
  pose proof (running_blocked s Hrun) as Hnb.
  assert (thread_ok (goto ph t)) as Htok' by (eapply thread_ok_goto; [done|by left]).
  destruct (Z.eqb_spec (Count (lock_of id p)) 0) as [E|E]; destruct Hd as (Hr & Hout & Hinv & Hch);
    eexists _, s'; (split; [exact Hr|]);
    assert (forall c, c <> active s -> blocked s' c = blocked s c) as Hbl
      by (intros c Hc; eapply blocked_other; [exact Hch|set_solver..]); (split; [|done]).
  - assert (status s' !! active s = Some LOCKING_STATE_BLOCKING) as Hs'
      by (destruct Hch as (_ & _ & -> & _); by rewrite bool_decide_true by set_solver).
    apply (locks_frame s s' p id _ m t _ [] [active s]); try done; try set_solver.
    + split; [done|split; [by apply Hch|split; [by exists n|right]]].
      split; [done|split; [by apply (takes_check t id ph)|]]. exists id. split; [done|].
      rewrite lock_of_set, decide_True by done. simpl. set_solver.
    + intros id'. pose proof (lo_count _ _ _ Hok id') as Hs. rewrite (held_update id' s s' m _ t) by (done || (intros; auto)).
      rewrite Hnb. unfold blocked at 1. rewrite Hs', bool_decide_true by done. rewrite lock_of_set.
      case_decide; [subst id'; simpl; lia|]. rewrite Hother by done. lia.
  - assert (status s' !! active s = Some LOCKING_STATE_READY) as Hs'
      by (destruct Hch as (_ & _ & -> & _); rewrite bool_decide_false, bool_decide_true by set_solver; by rewrite Hn).
    apply (locks_frame s s' p id _ m t _ [active s] []); try done; try set_solver.
    + split; [done|split; [by apply Hch|split; [by exists n|by left]]].
    + intros id'. pose proof (lo_count _ _ _ Hok id') as Hs. rewrite (held_update id' s s' m _ t) by (done || (intros; auto)).
      rewrite Hnb. unfold blocked at 1. rewrite Hs', bool_decide_false by done. rewrite lock_of_set.
      case_decide; [subst id'; simpl; lia|]. rewrite Hother by done. lia.
Qed.

(** ** Giving a unit back *)

Lemma locks_up s p m id t ph :
  locks_ok s p m -> m !! active s = Some t -> running s -> gives t = Some (id, ph) ->
  exists l s', SemaphoreUp (lock_of id p) s = Ok (l, s') /\
    locks_ok s' (set_lock id l p) (<[active s := goto ph t]> m) /\ blocked s' (active s) = false /\
    forall c, c <> active s -> blocked s' c = blocked s c \/ blocked s c = true.
Proof.
  intros Hok Ht Hrun Hgv. pose proof (lo_threads _ _ _ Hok _ _ Ht) as (Htok & Hlaw & (n & Hn) & _).
  assert (Count (lock_of id p) < max64) as Hmax.
  { destruct (held_le _ _ _ id _ _ Hok Ht). pose proof (cap_range id (Ring p)). pose proof (tok_range id t (blocked s (active s))).
    unfold max64. lia. }
  destruct (SemaphoreUp_ok s (lock_of id p) (lo_out _ _ _ Hok) Hrun (lo_sem _ _ _ Hok id) Hmax) as (s' & Hd).
  destruct (tok_gives id t ph Hgv) as (H1 & H0 & Hother & _). pose proof (running_blocked s Hrun) as Hnb.
  assert (thread_ok (goto ph t)) as Htok' by (eapply thread_ok_goto; [done|by right]).
  unfold up_spec in Hd. destruct (WaitingThreads (lock_of id p)) as [|c1 q] eqn:E; destruct Hd as (Hr & Hout & Hinv & Hch);
    eexists _, s'; (split; [exact Hr|]).
  - assert (status s' !! active s = Some LOCKING_STATE_READY) as Hs' by (by rewrite (changed_nil_r _ _ _ Hch)).
    assert (blocked s' (active s) = false) as Hnb' by (unfold blocked; by rewrite Hs').
    assert (forall c, blocked s' c = blocked s c) as Hbl by (intros c; eapply blocked_other; [exact Hch|set_solver..]).
    split; [|split; [done|by left]].
    apply (locks_frame s s' p id _ m t _ [] []); try done; try (rewrite ?E; set_solver).
    + split; [done|split; [by apply Hch|split; [by exists n|by left]]].
    + intros id'. pose proof (lo_count _ _ _ Hok id') as Hs. rewrite (held_update id' s s' m _ t) by (done || (intros; auto)).
      rewrite Hnb, Hnb', lock_of_set. case_decide; [subst id'; simpl; lia|]. rewrite Hother by done. lia.
  - destruct (lo_queue _ _ _ Hok id c1) as (t1 & Ht1 & Hw1); [rewrite E; set_solver|].
    assert (c1 <> active s) as Hne by (intros ->; eapply (not_queued s p m (active s) id); [done..|rewrite E; set_solver]).
    pose proof (lo_threads _ _ _ Hok _ _ Ht1) as (_ & _ & (n1 & Hn1) & _).
    assert (blocked s c1 = true) as Hb1.
    { destruct (lo_sem _ _ _ Hok id) as ((_ & Hw) & _). rewrite E in Hw. apply Forall_cons in Hw as [[Hb _] _].
      unfold blocked. by rewrite Hb. }
    assert (status s' !! active s = Some LOCKING_STATE_READY) as Hs'
      by (rewrite (changed_nil_r _ _ _ Hch), bool_decide_false by set_solver; done).
    assert (blocked s' (active s) = false) as Hnb' by (unfold blocked; by rewrite Hs').
    assert (blocked s' c1 = false) as Hb1'
      by (unfold blocked; rewrite (changed_nil_r _ _ _ Hch), (bool_decide_true (c1 ∈ _)) by set_solver; by rewrite Hn1).
    assert (forall c, c <> c1 -> blocked s' c = blocked s c) as Hbl by (intros c Hc; eapply blocked_other; [exact Hch|set_solver..]).
    split; [|split; [done|]].
    + apply (locks_frame s s' p id _ m t _ [c1] []); try done; try (rewrite ?E; set_solver).
      * split; [done|split; [by apply Hch|split; [by exists n|by left]]].
      * intros id'. pose proof (lo_count _ _ _ Hok id') as Hs.
        rewrite (held_wake id' s s' m _ t _ c1 t1) by (done || (intros; auto)). rewrite Hnb, Hnb', Hb1, Hb1', lock_of_set.
        destruct (tok_waits id t1 Hw1) as (Z0 & Z1 & Zo).
        case_decide; [subst id'; simpl; lia|]. rewrite Hother, Zo by done. lia.
    + intros c Hc. destruct (decide (c = c1)) as [->|]; [by right|left; by apply Hbl].
Qed.

(** ** The steps of a thread *)

Lemma step_takes t p id ph : takes t = Some (id, ph) ->
  thread_step t p = (l ← SemaphoreDown None (lock_of id p); mret (goto ph t, set_lock id l p)).
Proof. destruct t as [[] [] b sz mv []]; intros H; unfold takes in H; simpl in H; simplify_eq; done. Qed.

Lemma step_gives t p id ph l s s' : thread_ok t -> gives t = Some (id, ph) ->
  SemaphoreUp (lock_of id p) s = Ok (l, s') -> thread_step t p s = Ok ((goto ph t, set_lock id l p), s').
Proof.
  intros (_ & _ & _ & Hok) H Hr. destruct t as [[] wh b sz mv []]; unfold gives in H; simpl in H; simplify_eq/=;
    unfold thread_step, reader_step, writer_step; cbn [tside next]; rewrite (st_bind_ok _ _ _ _ _ Hr); try done.
  all: destruct wh; cbn in *; [rewrite (proj2 (Z.eqb_eq _ _)) by (by apply Hok)|]; done.
Qed.

Lemma fresh_goto sd t ph : fresh sd t (goto ph t) = [].
Proof. unfold fresh. case_decide; [|done]. apply drop_ge. simpl. lia. Qed.

Lemma fresh_self sd t : fresh sd t t = [].
Proof. unfold fresh. case_decide; [|done]. by apply drop_ge. Qed.

Lemma fresh_move sd t ph chunk : fresh sd t (move chunk (goto ph t)) = if decide (tside t = sd) then chunk else [].
Proof. unfold fresh. case_decide; [|done]. simpl. apply drop_app_length. Qed.

(** The logs under a step that moves no bytes. *)
Lemma logs_frame y s' p' t ph :
  logs_ok y -> threads y !! active (mem y) = Some t -> Ring p' = Ring (pipe y) ->
  (forall c x, c <> active (mem y) -> threads y !! c = Some x -> tok (LOuter (tside x)) x (blocked s' c) = 1 ->
     tok (LOuter (tside x)) x (blocked (mem y) c) = 1 \/ moved x = []) ->
  (forall b, tok (LOuter (tside t)) (goto ph t) b = 1 -> tok (LOuter (tside t)) t (blocked (mem y) (active (mem y))) = 1 \/ moved t = []) ->
  logs_ok (mkSys s' p' (<[active (mem y) := goto ph t]> (threads y)) (wlog y ++ fresh Writer t (goto ph t)) (rlog y ++ fresh Reader t (goto ph t))).
Proof.
  intros [Hd Hm] Ht Hr Ho Hself. rewrite !fresh_goto, !app_nil_r. split; [simpl; by rewrite Hr|]. simpl.
  assert (forall c x, threads y !! c = Some x -> tok (LOuter (tside x)) x (blocked (mem y) c) = 1 \/ moved x = [] ->
    exists pre, log (tside x) y = pre ++ moved x) as Hlog.
  { intros c x Hx [Hb|Hb]; [by apply (Hm c)|]. exists (log (tside x) y). by rewrite Hb, app_nil_r. }
  intros c x Hx Htok. apply lookup_insert_Some in Hx as [[<- <-]|[Hc Hx]].
  - apply (Hlog _ t Ht). by apply (Hself (blocked s' (active (mem y)))).
  - apply (Hlog c x Hx). apply Ho; [by intros ->|done..].
Qed.

Lemma tok_gives_outer t id ph b : gives t = Some (id, ph) ->
  tok (LOuter (tside t)) (goto ph t) b = 1 -> tok (LOuter (tside t)) t false = 1.
Proof. tok_cases; cbn; intros H; simplify_eq; done. Qed.

Lemma tok_takes_outer t id ph b : thread_ok t -> takes t = Some (id, ph) ->
  tok (LOuter (tside t)) (goto ph t) b = 1 -> tok (LOuter (tside t)) t false = 1 \/ moved t = [].
Proof.
  intros (_ & _ & _ & Hok) H. destruct t as [[] wh bf sz mv []]; cbn in H; simplify_eq; cbn; try (by left); by right.
Qed.

Lemma sys_down y t id ph :
  sys_ok y -> threads y !! active (mem y) = Some t -> running (mem y) -> takes t = Some (id, ph) ->
  exists t' p' s', thread_step t (pipe y) (mem y) = Ok ((t', p'), s') /\
    sys_ok (mkSys s' p' (<[active (mem y) := t']> (threads y)) (wlog y ++ fresh Writer t t') (rlog y ++ fresh Reader t t')).
Proof.
  intros [Hl Hlog] Ht Hrun Htk. destruct (locks_down _ _ _ _ _ _ Hl Ht Hrun Htk) as (l & s' & Hr & Hok & Hb).
  exists (goto ph t), (set_lock id l (pipe y)), s'. rewrite (step_takes _ _ _ _ Htk), (st_bind_ok _ _ _ _ _ Hr).
  split; [done|split; [done|]]. destruct (lo_threads _ _ _ Hl _ _ Ht) as (Htok & _).
  apply logs_frame; [done|done|apply ring_set|..].
  - intros c x Hc Hx. rewrite Hb by done. by left.
  - intros b. rewrite (running_blocked _ Hrun). by apply (tok_takes_outer t id).
Qed.

Lemma sys_up y t id ph :
  sys_ok y -> threads y !! active (mem y) = Some t -> running (mem y) -> gives t = Some (id, ph) ->
  exists t' p' s', thread_step t (pipe y) (mem y) = Ok ((t', p'), s') /\
    sys_ok (mkSys s' p' (<[active (mem y) := t']> (threads y)) (wlog y ++ fresh Writer t t') (rlog y ++ fresh Reader t t')).
Proof.
  intros [Hl Hlog] Ht Hrun Hg. destruct (locks_up _ _ _ _ _ _ Hl Ht Hrun Hg) as (l & s' & Hr & Hok & _ & Hb).
  destruct (lo_threads _ _ _ Hl _ _ Ht) as (Htok & _).
  exists (goto ph t), (set_lock id l (pipe y)), s'. split; [by apply (step_gives _ _ id)|split; [done|]].
  apply logs_frame; [done|done|apply ring_set|..].
  - intros c x Hc Hx Hx1. destruct (Hb c Hc) as [E|E]; [left; by rewrite <- E|].
    destruct (lo_threads _ _ _ Hl _ _ Hx) as (_ & _ & _ & [Hs|(_ & Hm & _)]); [unfold blocked in E; by rewrite Hs in E|].
    unfold tok in *. destruct (next x); try (by left); right; by apply Hm.
  - intros b. rewrite (running_blocked _ Hrun). intros H. left. by apply (tok_gives_outer t id ph b).
Qed.

(** ** The work on the ring *)

Lemma locks_work s p m t t' r :
  locks_ok s p m -> m !! active s = Some t -> running s -> waits t' = None -> thread_ok t' -> ring_wf r ->
  (forall id, tok id t' false - tok id t false = cap id r - cap id (Ring p)) ->
  locks_ok s (with_Ring r p) (<[active s := t']> m).
Proof.
  intros Hok Ht Hrun Hw Htok Hwf Hcap. destruct (lo_threads _ _ _ Hok _ _ Ht) as (_ & Hlaw & Hn & _).
  assert (forall id, lock_of id (with_Ring r p) = lock_of id p) as Hlk by (by intros [|[]|[]]).
  split; [apply Hok|done|intros id; rewrite Hlk; apply Hok| | |].
  - intros c x Hx. apply lookup_insert_Some in Hx as [[<- <-]|[Hc Hx]]; [split; [done|split; [done|split; [done|by left]]]|].
    eapply placed_mono; [by apply (lo_threads _ _ _ Hok)|done|done|]. intros id. by rewrite Hlk.
  - intros id c. rewrite Hlk. intros Hin. destruct (lo_queue _ _ _ Hok id c Hin) as (x & Hx). exists x.
    rewrite lookup_insert_ne; [done|]. intros <-. by apply (not_queued s p m (active s) id).
  - intros id. rewrite Hlk, (held_update id s s m _ t) by done. rewrite (running_blocked s Hrun).
    pose proof (lo_count _ _ _ Hok id). specialize (Hcap id). simpl. lia.
Qed.

(** The logs under the work of [t] on the side whose lock it holds. *)
Lemma logs_work y t ph chunk r :
  sys_ok y -> threads y !! active (mem y) = Some t -> running (mem y) -> next t = PWork ->
  (match tside t with
   | Reader => contents (Ring (pipe y)) = chunk ++ contents r
   | Writer => contents r = contents (Ring (pipe y)) ++ chunk end) ->
  let t' := move chunk (goto ph t) in
  logs_ok (mkSys (mem y) (with_Ring r (pipe y)) (<[active (mem y) := t']> (threads y))
    (wlog y ++ fresh Writer t t') (rlog y ++ fresh Reader t t')).
Proof.
  intros [Hl [Hd Hm]] Ht Hrun Hn Hc t'. unfold t'. rewrite !fresh_move. pose proof (running_blocked _ Hrun) as Hnb.
  assert (tok (LOuter (tside t)) t false = 1) as Hself by (unfold tok; by rewrite decide_True, Hn by done).
  split.
  - simpl. rewrite Hd. destruct (tside t); simpl; rewrite Hc, ?app_nil_r, <- ?app_assoc; done.
  - simpl. intros c x Hx Htok. apply lookup_insert_Some in Hx as [[<- <-]|[Hne Hx]].
    + destruct (Hm _ _ Ht) as (pre & Hpre); [by rewrite Hnb|]. exists pre. simpl.
      destruct (tside t); simpl in *; rewrite Hpre; by rewrite app_assoc.
    + assert (tside x <> tside t) as Hs.
      { intros Hs. apply Hne. eapply held_unique; [exact Hl|exact Ht|exact Hx|rewrite Hnb; exact Hself|]. by rewrite <- Hs. }
      destruct (Hm _ _ Hx Htok) as (pre & Hpre). exists pre.
      destruct (tside t), (tside x); simpl in *; rewrite ?app_nil_r; done.
Qed.

Lemma sys_read y t :
  sys_ok y -> threads y !! active (mem y) = Some t -> running (mem y) -> next t = PWork -> tside t = Reader ->
  exists t' p' s', thread_step t (pipe y) (mem y) = Ok ((t', p'), s') /\
    sys_ok (mkSys s' p' (<[active (mem y) := t']> (threads y)) (wlog y ++ fresh Writer t t') (rlog y ++ fresh Reader t t')).
Proof.
  intros Hok Ht Hrun Hn Hs. pose proof Hok as [Hl _]. pose proof (running_blocked _ Hrun) as Hnb.
  destruct (lo_threads _ _ _ Hl _ _ Ht) as (Htok & _). pose proof Htok as (H1 & H2 & _ & H4). rewrite Hn in H4.
  pose proof (held_le _ _ _ (LGate Reader) _ _ Hl Ht) as Hg. pose proof (held_le _ _ _ (LGate Writer) _ _ Hl Ht) as Hf.
  rewrite Hnb in Hg, Hf. unfold tok in Hg, Hf. rewrite Hs, Hn in Hg, Hf. simpl in Hg, Hf.
  assert (RingBufferIsEmpty (Ring (pipe y)) = false) as He by (destruct (RingBufferIsEmpty (Ring (pipe y))); simpl in Hg; lia || done).
  destruct (ReadSection_ok (size t - zlen (moved t)) (pipe y)) as (chunk & r & Hr & Hwf & Hch & Hc & Hnf);
    [apply Hl|unfold zlen in *; lia|done|intros E; rewrite E in Hf; simpl in Hf; lia|].
  eexists _, _, _. split.
  { unfold thread_step, reader_step. rewrite Hs, Hn, (st_bind_ok _ _ _ _ _ (liftr_ok _ _ _ Hr)). done. }
  split; [|apply logs_work; try done; by rewrite Hs]. simpl. apply (locks_work _ _ _ t); try done.
  - unfold thread_ok. simpl. rewrite Hs. unfold zlen in *. rewrite length_app. split; [done|split; [lia|split; [done|lia]]].
  - intros id. unfold tok. simpl. rewrite Hs, Hn, (proj2 (Z.gtb_lt _ _)), andb_true_r by lia.
    destruct id as [|[]|[]]; simpl; rewrite ?He, ?Hnf; simpl; try lia.
    destruct (RingBufferIsFull (Ring (pipe y))); simpl; lia.
Qed.

Lemma sys_write y t :
  sys_ok y -> threads y !! active (mem y) = Some t -> running (mem y) -> next t = PWork -> tside t = Writer ->
  exists t' p' s', thread_step t (pipe y) (mem y) = Ok ((t', p'), s') /\
    sys_ok (mkSys s' p' (<[active (mem y) := t']> (threads y)) (wlog y ++ fresh Writer t t') (rlog y ++ fresh Reader t t')).
Proof.
  intros Hok Ht Hrun Hn Hs. pose proof Hok as [Hl _]. pose proof (running_blocked _ Hrun) as Hnb.
  destruct (lo_threads _ _ _ Hl _ _ Ht) as (Htok & _). pose proof Htok as (H1 & H2 & H3 & H4). rewrite Hn in H4.
  destruct (H3 Hs) as [Hbl Hpre].
  pose proof (held_le _ _ _ (LGate Writer) _ _ Hl Ht) as Hg. pose proof (held_le _ _ _ (LGate Reader) _ _ Hl Ht) as Hf.
  rewrite Hnb in Hg, Hf. unfold tok in Hg, Hf. rewrite Hs, Hn in Hg, Hf. simpl in Hg, Hf.
  assert (RingBufferIsFull (Ring (pipe y)) = false) as He by (destruct (RingBufferIsFull (Ring (pipe y))); simpl in Hg; lia || done).
  set (rest := drop (length (moved t)) (buff t)).
  assert (zlen rest = size t - zlen (moved t)) as Hrest by (unfold rest, zlen in *; rewrite length_drop; lia).
  destruct (WriteSection_ok rest (pipe y)) as (n & r & Hr & Hwf & Hch & Hc & Hne);
    [apply Hl|unfold zlen in *; lia|done|intros E; rewrite E in Hf; simpl in Hf; lia|].
  rewrite Hrest in Hr. eexists _, _, _. split.
  { unfold thread_step, writer_step. rewrite Hs, Hn. cbv zeta. fold rest.
    rewrite (st_bind_ok _ _ _ _ _ (liftr_ok _ _ _ Hr)). done. }
  assert (length (take (Z.to_nat n) rest) = Z.to_nat n) as Hlen by (rewrite length_take; unfold zlen in *; lia).
  split; [|apply logs_work; try done; by rewrite Hs]. simpl. apply (locks_work _ _ _ t); try done.
  - unfold thread_ok. simpl. rewrite Hs. unfold zlen in *. rewrite length_app, Hlen.
    split; [done|split; [lia|split; [|lia]]]. intros _. split; [done|]. rewrite Hpre at 1. unfold rest. by rewrite take_take_drop.
  - intros id. unfold tok. simpl. rewrite Hs, Hn, (proj2 (Z.gtb_lt _ _)), andb_true_r by lia.
    destruct id as [|[]|[]]; simpl; rewrite ?He, ?Hne; simpl; try lia.
    destruct (RingBufferIsEmpty (Ring (pipe y))); simpl; lia.
Qed.

(** ** Every step keeps the invariant *)

Lemma sys_thread y t :
  sys_ok y -> threads y !! active (mem y) = Some t -> running (mem y) ->
  exists t' p' s', thread_step t (pipe y) (mem y) = Ok ((t', p'), s') /\
    sys_ok (mkSys s' p' (<[active (mem y) := t']> (threads y)) (wlog y ++ fresh Writer t t') (rlog y ++ fresh Reader t t')).
Proof.
  intros Hok Ht Hrun. destruct (takes t) as [[id ph]|] eqn:Htk; [by eapply sys_down|].
  destruct (gives t) as [[id ph]|] eqn:Hg; [by eapply sys_up|].
  destruct (next t) eqn:Hn; unfold takes, gives in *; rewrite Hn in *; try done.
  - pose proof Hok as [Hl Hlog]. exists (goto (checked t) t), (pipe y), (mem y).
    split; [unfold thread_step, reader_step, writer_step; rewrite Hn; by destruct (tside t)|].
    assert (Ring (pipe y) = Ring (with_Ring (Ring (pipe y)) (pipe y))) as Hr by done.
    destruct (lo_threads _ _ _ Hl _ _ Ht) as (Htok & _). split; simpl.
    + replace (pipe y) with (with_Ring (Ring (pipe y)) (pipe y)) by (by destruct (pipe y)).
      apply (locks_work _ _ _ t); try done; [unfold waits, checked; by destruct (_ && _)|by apply thread_ok_check|apply Hl|].
      intros id. unfold tok, checked. simpl. rewrite Hn. by destruct id as [|[]|[]], (tside t), (_ && _); simpl; lia.
    + apply logs_frame; [done..|by left|]. intros b _. left. rewrite (running_blocked _ Hrun). unfold tok. by rewrite decide_True, Hn by done.
  - destruct (tside t) eqn:Hs; [by apply sys_read|by apply sys_write].
  - exists t, (pipe y), (mem y). split; [unfold thread_step, reader_step, writer_step; rewrite Hn; by destruct (tside t)|].
    rewrite !fresh_self, !app_nil_r, insert_id by done. by destruct y.
Qed.

Lemma sys_kernel y s' :
  sys_ok y -> outside s' ->
  (forall c, is_Some (threads y !! c) -> status s' !! c = status (mem y) !! c /\ (lawful (mem y) c -> lawful s' c)) ->
  sys_ok (mkSys s' (pipe y) (threads y) (wlog y) (rlog y)).
Proof.
  intros [Hl [Hd Hm]] Hout Hst.
  assert (forall c x, threads y !! c = Some x -> blocked s' c = blocked (mem y) c) as Hb.
  { intros c x Hx. unfold blocked. by rewrite (proj1 (Hst c (mk_is_Some _ _ Hx))). }
  split; [|split; [done|]; intros c x Hx; simpl in *; rewrite (Hb c x Hx); by apply Hm].
  split; simpl; [done|apply Hl|..|apply Hl|].
  - intros id. destruct (lo_sem _ _ _ Hl id) as ((Hnd & Hw) & Hc). split; [|done]. split; [done|].
    rewrite Forall_forall in *. intros c Hin. destruct (Hw c Hin) as [H1 H2]. destruct (lo_queue _ _ _ Hl id c Hin) as (x & Hx & _).
    destruct (Hst c (mk_is_Some _ _ Hx)) as [-> Hlaw]. auto.
  - intros c x Hx. destruct (Hst c (mk_is_Some _ _ Hx)) as [Hs Hlaw].
    by eapply placed_mono; [apply (lo_threads _ _ _ Hl)|..].
  - intros id. rewrite <- (lo_count _ _ _ Hl id). f_equal. apply msum_ext. intros c x Hx. by rewrite (Hb c x).
Qed.

Lemma called_ok t : called t -> thread_ok t /\ next t = PLock.
Proof.
  destruct t as [sd wh b sz mv nx]. unfold called, PipeRead, PipeReadStruct, PipeWrite, PipeWriteStruct, thread_ok. simpl.
  intros (Hs & [H|[H|[H|H]]]); simplify_eq/=; split_and!; unfold zlen in *; simpl in *; try done; try lia.
Qed.

Lemma sys_call y n t :
  sys_ok y -> (forall t0, threads y !! CThread n = Some t0 -> next t0 = PDone) ->
  lawful (mem y) (CThread n) -> status (mem y) !! CThread n = Some LOCKING_STATE_READY -> called t ->
  sys_ok (mkSys (mem y) (pipe y) (<[CThread n := t]> (threads y)) (wlog y) (rlog y)).
Proof.
  intros [Hl [Hd Hm]] Hn Hlaw Hs Hc. destruct (called_ok t Hc) as [Htok Hp].
  assert (forall id b, tok id t b = 0) as Hz.
  { intros id b. unfold tok. rewrite Hp. destruct id; try done; case_decide; done. }
  split; [|split; [done|]].
  - split; simpl; [apply Hl|apply Hl|apply Hl|..].
    + intros c x Hx. apply lookup_insert_Some in Hx as [[<- <-]|[_ Hx]]; [|by apply Hl].
      split; [done|split; [done|split; [by exists n|by left]]].
    + intros id c Hin. destruct (lo_queue _ _ _ Hl id c Hin) as (x & Hx & Hw). exists x.
      rewrite lookup_insert_ne; [done|]. intros <-. by apply (not_queued (mem y) (pipe y) (threads y) (CThread n) id).
    + intros id. rewrite <- (lo_count _ _ _ Hl id). f_equal. destruct (threads y !! CThread n) as [t0|] eqn:E.
      * rewrite (held_update id (mem y) (mem y) _ _ t0) by done. rewrite Hz.
        assert (tok id t0 (blocked (mem y) (CThread n)) = 0) as ->; [|lia].
        unfold tok. rewrite (Hn t0 eq_refl). destruct id; try done; case_decide; done.
      * unfold held. rewrite msum_insert by done. by rewrite Hz.
  - intros c x Hx Hx1. cbn [threads mem] in Hx, Hx1. apply lookup_insert_Some in Hx as [[<- <-]|[_ Hx]]; [by rewrite Hz in Hx1|by apply (Hm c)].
Qed.

Lemma reachable_ok b y : reachable b y -> sys_ok y.
Proof.
  induction 1 as [s Hout Hb|y y' _ IH Hst].
  - assert (ring_wf (RingBufferInit b (zlen b))) as Hwf by (unfold ring_wf, RingBufferInit; simpl; lia).
    split; [|split; [done|]; intros c t Ht; simpl in Ht; by rewrite lookup_empty in Ht].
    split; simpl; [done|done|..].
    + intros id. assert (WaitingThreads (lock_of id (PipeInit b (zlen b))) = [] /\ u64 (Count (lock_of id (PipeInit b (zlen b))))) as [Hq Hu]
        by (destruct id as [|[]|[]]; (split; [done|unfold u64; simpl; lia])).
      unfold sem_inv, waiters. rewrite Hq. split; [|done]. split; [apply NoDup_nil_2|apply Forall_nil_2].
    + intros c t Ht. by rewrite lookup_empty in Ht.
    + intros [|[]|[]] c Hin; simpl in Hin; by apply elem_of_nil in Hin.
    + by intros [|[]|[]].
  - destruct Hst as [t t' p' s' Ht Hrun Hr|s' Hout Hs|n t Hn Hlaw Hs Hc]; [|by apply sys_kernel|by apply sys_call].
    destruct (sys_thread y t IH Ht Hrun) as (t1 & p1 & s1 & Hr1 & Hok). rewrite Hr1 in Hr. by injection Hr as <- <- <-.
Qed.

(** ** Properties *)

(** C1: whatever the interleaving of calls, every step of a thread that can run completes:
    no assertion fails and no lock operation is refused; only one thread works on the ring
    at a time; and the bytes read so far are exactly the first of the bytes written, in
    order, the others being in the ring. *)
Theorem pipe_safe b y :
  reachable b y ->
  (forall t, threads y !! active (mem y) = Some t -> running (mem y) ->
     exists t' p' s', thread_step t (pipe y) (mem y) = Ok ((t', p'), s')) /\
  wlog y = rlog y ++ contents (Ring (pipe y)) /\
  (forall c c' t t', threads y !! c = Some t -> threads y !! c' = Some t' -> next t = PWork -> next t' = PWork ->
     status (mem y) !! c = Some LOCKING_STATE_READY -> status (mem y) !! c' = Some LOCKING_STATE_READY -> c = c').
Proof.
  intros H. apply reachable_ok in H as Hok. pose proof Hok as [Hl [Hd _]]. split; [|split; [done|]].
  - intros t Ht Hrun. destruct (sys_thread y t Hok Ht Hrun) as (t' & p' & s' & Hr & _). by exists t', p', s'.
  - intros c c' t t' Ht Ht' Hn Hn' Hs Hs'. apply (held_unique _ _ _ LMutex c t c' t' Hl Ht Ht'); unfold tok, blocked.
    + by rewrite Hn, Hs.
    + by rewrite Hn', Hs'.
Qed.

(** C16: a call that gives its outer lock back has moved at least a byte, and the whole of
    its argument when it is a call for a structure; what it has moved is contiguous: it is
    the end of the bytes read (written) so far, and a prefix of the bytes it was to write. *)
Theorem pipe_contiguous b y c t :
  reachable b y -> threads y !! c = Some t -> next t = PUpLock ->
  0 < zlen (moved t) <= size t /\ (whole t = true -> zlen (moved t) = size t) /\
  (exists pre, log (tside t) y = pre ++ moved t) /\
  (tside t = Writer -> moved t = take (length (moved t)) (buff t)).
Proof.
  intros H Ht Hn. apply reachable_ok in H as [Hl [_ Hm]].
  destruct (lo_threads _ _ _ Hl _ _ Ht) as ((_ & H2 & H3 & H4) & _). rewrite Hn in H4. destruct H4 as [H4 H5].
  split; [lia|split; [done|split; [|intros Hw; by apply H3]]].
  apply (Hm c t Ht). unfold tok. by rewrite decide_True, Hn by done.
Qed.

(** Some unfinished thread waits for the semaphore. *)
Definition waited (m : gmap ctx thread) (id : lockid) : Prop :=
  exists c t, m !! c = Some t /\ next t <> PDone /\ waits t = Some id.

Lemma tok_stuck id id' t : 0 < tok id t true -> waits t = Some id' ->
  id <> LMutex /\ (id' = LMutex \/ exists sd, id = LOuter sd /\ id' = LGate sd).
Proof. tok_cases; cbn; intros H1 H2; simplify_eq; repeat case_decide; try lia; try congruence; (split; [done|]); by eauto. Qed.

(** When no thread can run and the semaphore is waited for although it has a unit, the
    unit is with a thread that waits for another one. *)
Lemma stuck_queue s p m id : locks_ok s p m ->
  (forall c t, m !! c = Some t -> next t = PDone \/ status s !! c <> Some LOCKING_STATE_READY) ->
  waited m id -> 0 < cap id (Ring p) ->
  id <> LMutex /\ exists id', waited m id' /\ (id' = LMutex \/ exists sd, id = LOuter sd /\ id' = LGate sd).
Proof.
  intros Hok Hst (c & t & Ht & Hnd & Hw) Hcap.
  assert (forall c t, m !! c = Some t -> next t <> PDone -> status s !! c = Some LOCKING_STATE_BLOCKING /\
    exists id, waits t = Some id /\ c ∈ WaitingThreads (lock_of id p)) as Hb.
  { intros d x Hx Hd. destruct (Hst d x Hx) as [|Hr]; [done|].
    destruct (lo_threads _ _ _ Hok _ _ Hx) as (_ & _ & _ & [|(? & _ & ?)]); done. }
  destruct (Hb c t Ht Hnd) as (_ & id1 & Hw1 & Hin). assert (id1 = id) as -> by congruence.
  destruct (lo_sem _ _ _ Hok id) as (_ & _ & H0). pose proof (lo_count _ _ _ Hok id) as Hs.
  rewrite H0 in Hs by (intros E; rewrite E in Hin; by apply elem_of_nil in Hin).
  destruct (msum_pos (fun c t => tok id t (blocked s c)) m) as (d & x & Hx & Hp); [unfold held in Hs; lia|].
  assert (next x <> PDone) as Hdx.
  { intros E. unfold tok in Hp. rewrite E in Hp. destruct id; try case_decide; lia. }
  destruct (Hb d x Hx Hdx) as (Hsx & id' & Hwx & _). unfold blocked in Hp. rewrite Hsx, bool_decide_true in Hp by done.
  destruct (tok_stuck id id' x Hp Hwx) as [Hm Hc]. split; [done|]. exists id'. split; [by exists d, x|done].
Qed.

(** C2: the pipe does not deadlock: when no thread can run, an unfinished read means that
    the ring is empty and an unfinished write that it is full (so never both, and then
    nobody is on the other side to go on). *)
Theorem pipe_no_deadlock b y c t :
  reachable b y ->
  (forall c t, threads y !! c = Some t -> next t = PDone \/ status (mem y) !! c <> Some LOCKING_STATE_READY) ->
  threads y !! c = Some t -> next t <> PDone ->
  match tside t with
  | Reader => contents (Ring (pipe y)) = []
  | Writer => RingBufferIsFull (Ring (pipe y)) = true
  end.
Proof.
  intros H Hst Ht Hnd. apply reachable_ok in H as [Hl _].
  pose proof (fun id => stuck_queue _ _ _ id Hl Hst) as Hq.
  assert (~ waited (threads y) LMutex) as Hmx.
  { intros Hw. by destruct (Hq LMutex Hw). }
  assert (waited (threads y) (LGate (tside t)) -> ~ 0 < cap (LGate (tside t)) (Ring (pipe y))) as Hg.
  { intros Hw Hc. destruct (Hq _ Hw Hc) as (_ & id' & Hw' & [-> |(sd & ? & _)]); done. }
  assert (waited (threads y) (LGate (tside t))) as Hw.
  { destruct (Hst c t Ht) as [|Hr]; [done|].
    destruct (lo_threads _ _ _ Hl _ _ Ht) as (_ & _ & _ & [|(_ & _ & id & Hw & _)]); [done|].
    assert (waited (threads y) id) as Hwd by (by exists c, t).
    assert (id = LMutex \/ id = LGate (tside t) \/ id = LOuter (tside t)) as [->|[->| ->]]
      by (unfold waits in Hw; destruct (next t); simplify_eq; eauto); [done..|].
    destruct (Hq _ Hwd) as (_ & id' & Hw' & [->|(sd & [= <-] & ->)]); done. }
  pose proof (cap_range (LGate (tside t)) (Ring (pipe y))) as Hc. specialize (Hg Hw). destruct (tside t); simpl in *.
  - apply empty_contents; [apply Hl|]. destruct (RingBufferIsEmpty _); simpl in *; [done|lia].
  - destruct (RingBufferIsFull _); simpl in *; [done|lia].
Qed.
End system.
