(* ===== verification/Barrier.v ===== *)
(** * Barriers, signals and generations (kernel/barrier.c, signal.c, generation.c),
    against the locking interface

    The three locks wake their whole wait list at once. *)

From S2P Require Import Prelude LinkedList LockClass.

Record BARRIER := mkBarrier { Needed : Z; Present : Z; List : list ctx }.
Record SIGNAL := mkSignal { State : bool; SignalWaiting : list ctx }.
Record GENERATION := mkGen { Generation : Z; GenWaiting : list ctx }.

Definition BarrierInit (count : Z) : BARRIER := mkBarrier count 0 [].
Definition SignalInit (state : bool) : SIGNAL := mkSignal state [].
Definition GenerationInit (init : Z) : GENERATION := mkGen init [].

Section operations.
Context {S : Type} `{LockingOps S}.

Definition BarrierSync (context : option ctx) (barrier : BARRIER) : St S BARRIER :=
  critical (
    let present := w64 (Present barrier + 1) in
    if Needed barrier =? present then
      LockingAcquire context;;
      l ← WakeAll (List barrier);
      mret (mkBarrier (Needed barrier) 0 l)
    else
      l ← (link ← LockingBlock None context; LinkedListEnqueue link (List barrier));
      mret (mkBarrier (Needed barrier) present l)).

Definition SignalSet (signal : SIGNAL) : St S SIGNAL :=
  critical (
    if State signal then
      assert (lq_is_empty (SignalWaiting signal));;
      mret signal
    else
      l ← WakeAll (SignalWaiting signal);
      mret (mkSignal true l)).

Definition SignalUnset (signal : SIGNAL) : St S SIGNAL :=
  critical (mret (mkSignal false (SignalWaiting signal))).

Definition SignalWaitForSignal (context : option ctx) (signal : SIGNAL) : St S SIGNAL :=
  critical (
    if State signal then
      LockingAcquire context;;
      mret signal
    else
      l ← (link ← LockingBlock None context; LinkedListEnqueue link (SignalWaiting signal));
      mret (mkSignal (State signal) l)).

Definition GenerationWait (value : Z) (context : option ctx) (gen : GENERATION) : St S GENERATION :=
  critical (
    if Generation gen =? value then
      l ← (link ← LockingBlock None context; LinkedListEnqueue link (GenWaiting gen));
      mret (mkGen (Generation gen) l)
    else
      LockingAcquire context;;
      mret gen).

Definition GenerationUpdate (value : Z) (gen : GENERATION) : St S GENERATION :=
  critical (
    l ← WakeAll (GenWaiting gen);
    mret (mkGen value l)).
End operations.

Section proofs.
Context {S : Type} {ops : LockingOps S} {laws : LockingLaws S}.
Implicit Types s : S.

(** ** The two bodies the operations share *)

(** The caller passes and everybody who waits is woken. *)
Lemma pass_and_wake {A} s oc l (f : list ctx -> A) :
  outside s -> caller s oc -> waiters s l ->
  exists s', critical (LockingAcquire oc;; l' ← WakeAll l; mret (f l')) s = Ok (f [], s') /\ outside s' /\
    changed s s' (default (active s) oc :: l) [].
Proof.
  intros Hout Hcall Hw.
  destruct (critical_ok (LockingAcquire oc;; l' ← WakeAll l; mret (f l')) s (f [])
    (default (active s) oc :: l) [] (fun _ => True) Hout) as (_ & s3 & Hr & Hout3 & Hch & _); [|by exists s3].
  intros s1 Hin1 Hch1. destruct (caller_changed s s1 oc Hcall Hch1) as [Hcall1 Hc1].
  destruct (acquire_caller s1 oc Hin1 Hcall1) as (s2 & Hr2 & Hin2 & Hch2). rewrite Hc1 in Hch2.
  pose proof (running_changed _ _ _ (proj1 Hcall1) Hch2) as Hrun2.
  assert (waiters s1 l) as Hw1 by (eapply waiters_changed; [exact Hw|exact Hch1|set_solver]).
  pose proof (caller_not_waiting s oc l Hcall Hw) as Hn.
  destruct (WakeAll_ok s2 l Hin2 Hrun2) as (s3 & Hr3 & Hin3 & Hch3).
  { eapply waiters_changed; [exact Hw1|exact Hch2|set_solver]. }
  exists s3. rewrite (st_bind_ok _ _ _ _ _ Hr2), (st_bind_ok _ _ _ _ _ Hr3).
  split; [done|]. split; [done|]. split; [|done].
  apply (changed_trans s s2 s3 [_] l); [|done]. by apply (changed_trans s s1 s2 [] [_]).
Qed.

Lemma only_wake {A} s l (f : list ctx -> A) :
  outside s -> running s -> waiters s l ->
  exists s', critical (l' ← WakeAll l; mret (f l')) s = Ok (f [], s') /\ outside s' /\ changed s s' l [].
Proof.
  intros Hout Hrun Hw.
  destruct (critical_ok (l' ← WakeAll l; mret (f l')) s (f []) l [] (fun _ => True) Hout)
    as (_ & s3 & Hr & Hout3 & Hch & _); [|by exists s3].
  intros s1 Hin1 Hch1. destruct (WakeAll_ok s1 l Hin1 (running_changed _ _ _ Hrun Hch1)) as (s2 & Hr2 & Hin2 & Hch2).
  { eapply waiters_changed; [exact Hw|exact Hch1|set_solver]. }
  exists s2. rewrite (st_bind_ok _ _ _ _ _ Hr2). split; [done|]. split; [done|]. split; [|done].
  by apply (changed_trans s s1 s2 [] l).
Qed.

(** The caller joins the queue. *)
Lemma only_block {A} s oc l (f : list ctx -> A) :
  outside s -> caller s oc -> waiters s l ->
  let c := default (active s) oc in
  exists s', critical (l' ← (link ← LockingBlock None oc; LinkedListEnqueue link l); mret (f l')) s =
      Ok (f (l ++ [c]), s') /\ outside s' /\ waiters s' (l ++ [c]) /\ changed s s' [] [c].
Proof.
  intros Hout Hcall Hw c.
  destruct (critical_ok (l' ← (link ← LockingBlock None oc; LinkedListEnqueue link l); mret (f l'))
    s (f (l ++ [c])) [] [c] (fun s2 => waiters s2 (l ++ [c])) Hout)
    as (s2 & s3 & Hr & Hout3 & Hch & Hw2 & Hch3).
  { intros s1 Hin1 Hch1. destruct (caller_changed s s1 oc Hcall Hch1) as [Hcall1 Hc1].
    destruct (block_enqueue s1 None oc l Hin1 Hcall1) as (s2 & Hr2 & Hin2 & Hch2 & Hw2 & _).
    { eapply waiters_changed; [exact Hw|exact Hch1|set_solver]. }
    rewrite Hc1 in Hr2, Hch2, Hw2. fold c in Hr2, Hch2, Hw2.
    exists s2. rewrite (st_bind_ok _ _ _ _ _ Hr2). split; [done|]. split; [done|]. split; [|done].
    by apply (changed_trans s s1 s2 [] []). }
  exists s3. split; [done|]. split; [done|]. split; [|done].
  eapply waiters_changed; [exact Hw2|exact Hch3|set_solver].
Qed.

(** The caller passes. *)
Lemma only_pass {A} s oc (v : A) :
  outside s -> caller s oc ->
  exists s', critical (LockingAcquire oc;; mret v) s = Ok (v, s') /\ outside s' /\
    changed s s' [default (active s) oc] [].
Proof.
  intros Hout Hcall.
  destruct (critical_ok (LockingAcquire oc;; mret v) s v [default (active s) oc] [] (fun _ => True) Hout)
    as (_ & s3 & Hr & Hout3 & Hch & _); [|by exists s3].
  intros s1 Hin1 Hch1. destruct (caller_changed s s1 oc Hcall Hch1) as [Hcall1 Hc1].
  destruct (acquire_caller s1 oc Hin1 Hcall1) as (s2 & Hr2 & Hin2 & Hch2). rewrite Hc1 in Hch2.
  exists s2. rewrite (st_bind_ok _ _ _ _ _ Hr2). split; [done|]. split; [done|]. split; [|done].
  by apply (changed_trans s s1 s2 [] [_]).
Qed.

(** ** Barriers *)

(** Fewer contexts are present than needed, and they are the ones that wait. *)
Definition barrier_inv s (b : BARRIER) : Prop :=
  waiters s (List b) /\ Present b = zlen (List b) /\ Present b < Needed b < 2 ^ 64.

Lemma BarrierSync_ok s b oc :
  outside s -> caller s oc -> barrier_inv s b ->
  let c := default (active s) oc in
  exists s' b', BarrierSync oc b s = Ok (b', s') /\ outside s' /\ barrier_inv s' b' /\ Needed b' = Needed b /\
    if zlen (List b) + 1 =? Needed b
    then List b' = [] /\ changed s s' (c :: List b) []
    else List b' = List b ++ [c] /\ changed s s' [] [c].
Proof.
  intros Hout Hcall (Hw & Hp & Hn) c. unfold BarrierSync.
  rewrite w64_small, Hp, Z.eqb_sym by (unfold u64, zlen in *; lia).
  destruct (Z.eqb_spec (zlen (List b) + 1) (Needed b)) as [E|E].
  - destruct (pass_and_wake s oc (List b) (mkBarrier (Needed b) 0) Hout Hcall Hw) as (s' & Hr & Hout' & Hch).
    exists s', (mkBarrier (Needed b) 0 []). split; [done|]. split; [done|]. split; [|done].
    split; [by split; [apply NoDup_nil_2|apply Forall_nil]|]. unfold zlen in *. simpl. lia.
  - destruct (only_block s oc (List b) (mkBarrier (Needed b) (zlen (List b) + 1)) Hout Hcall Hw)
      as (s' & Hr & Hout' & Hw' & Hch).
    eexists s', _. split; [exact Hr|]. split; [done|]. split; [|done].
    split; [done|]. unfold zlen in *. simpl. rewrite length_app. simpl. lia.
Qed.

(** ** Signals *)

(** Nobody waits for a signal that is set. *)
Definition signal_inv s (g : SIGNAL) : Prop :=
  waiters s (SignalWaiting g) /\ (State g = true -> SignalWaiting g = []).

Lemma waiters_nil s : waiters s [].
Proof. by split; [apply NoDup_nil_2|apply Forall_nil]. Qed.

Lemma SignalSet_ok s g :
  outside s -> running s -> signal_inv s g ->
  exists s', SignalSet g s = Ok (mkSignal true [], s') /\ outside s' /\ changed s s' (SignalWaiting g) [].
Proof.
  intros Hout Hrun [Hw Hs]. unfold SignalSet. destruct (State g) eqn:E.
  - rewrite Hs by done. destruct (critical_ok (assert (lq_is_empty (@nil ctx));; mret g) s g [] [] (fun _ => True) Hout)
      as (_ & s3 & Hr & Hout3 & Hch & _).
    { intros s1 Hin1 Hch1. by exists s1. }
    exists s3. rewrite Hr. split; [|done]. destruct g; simpl in *. by rewrite E, Hs.
  - by apply (only_wake s (SignalWaiting g) (mkSignal true)).
Qed.

Lemma SignalWaitForSignal_ok s g oc :
  outside s -> caller s oc -> signal_inv s g ->
  let c := default (active s) oc in
  exists s' g', SignalWaitForSignal oc g s = Ok (g', s') /\ outside s' /\ signal_inv s' g' /\ State g' = State g /\
    if State g then g' = g /\ changed s s' [c] []
    else SignalWaiting g' = SignalWaiting g ++ [c] /\ changed s s' [] [c].
Proof.
  intros Hout Hcall [Hw Hs] c. unfold SignalWaitForSignal. destruct (State g) eqn:E.
  - destruct (only_pass s oc g Hout Hcall) as (s' & Hr & Hout' & Hch).
    exists s', g. split; [done|]. split; [done|]. split; [|done].
    split; [rewrite Hs by done; apply waiters_nil|by intros; apply Hs].
  - destruct (only_block s oc (SignalWaiting g) (mkSignal false) Hout Hcall Hw) as (s' & Hr & Hout' & Hw' & Hch).
    eexists s', _. split; [exact Hr|]. split; [done|]. split; [by split|done].
Qed.

(** ** Generations *)

Lemma GenerationUpdate_ok s g value :
  outside s -> running s -> waiters s (GenWaiting g) ->
  exists s', GenerationUpdate value g s = Ok (mkGen value [], s') /\ outside s' /\ changed s s' (GenWaiting g) [].
Proof. intros Hout Hrun Hw. by apply (only_wake s (GenWaiting g) (mkGen value)). Qed.

Lemma GenerationWait_ok s g value oc :
  outside s -> caller s oc -> waiters s (GenWaiting g) ->
  let c := default (active s) oc in
  exists s' g', GenerationWait value oc g s = Ok (g', s') /\ outside s' /\ waiters s' (GenWaiting g') /\
    Generation g' = Generation g /\
    if Generation g =? value then GenWaiting g' = GenWaiting g ++ [c] /\ changed s s' [] [c]
    else g' = g /\ changed s s' [c] [].
Proof.
  intros Hout Hcall Hw c. unfold GenerationWait. destruct (Generation g =? value).
  - destruct (only_block s oc (GenWaiting g) (mkGen (Generation g)) Hout Hcall Hw) as (s' & Hr & Hout' & Hw' & Hch).
    eexists s', _. split; [exact Hr|]. by split_and!; try done; apply Hch.
  - destruct (only_pass s oc g Hout Hcall) as (s' & Hr & Hout' & Hch).
    exists s', g. split; [done|]. split; [done|]. split; [|done].
    eapply waiters_changed; [exact Hw|exact Hch|].
    pose proof (caller_not_waiting s oc _ Hcall Hw). fold c in H. set_solver.
Qed.

(** ** Properties *)

(** C28: a barrier for [n] contexts queues the first [n - 1] callers and releases all of
    them together with the last one, after which it is empty and ready again. *)
Theorem barrier_correct s b oc :
  outside s -> caller s oc -> barrier_inv s b ->
  let c := default (active s) oc in
  exists s' b', BarrierSync oc b s = Ok (b', s') /\ outside s' /\ barrier_inv s' b' /\ Needed b' = Needed b /\
    if zlen (List b) + 1 =? Needed b
    then List b' = [] /\ changed s s' (c :: List b) []
    else List b' = List b ++ [c] /\ changed s s' [] [c].
Proof. apply BarrierSync_ok. Qed.

(** a signal that is set lets every caller pass and one that is not queues it; setting
    it wakes all waiters and leaves it set, so no wake-up is lost whatever the order. *)
Theorem signal_correct s g oc :
  outside s -> caller s oc -> signal_inv s g ->
  let c := default (active s) oc in
  (exists s', SignalSet g s = Ok (mkSignal true [], s') /\ outside s' /\ changed s s' (SignalWaiting g) []) /\
  exists s' g', SignalWaitForSignal oc g s = Ok (g', s') /\ outside s' /\ signal_inv s' g' /\ State g' = State g /\
    if State g then g' = g /\ changed s s' [c] []
    else SignalWaiting g' = SignalWaiting g ++ [c] /\ changed s s' [] [c].
Proof.
  intros Hout Hcall Hinv c. split; [by apply SignalSet_ok; [|apply Hcall|]|by apply SignalWaitForSignal_ok].
Qed.

(** A context waits for a generation only while the generation still has the value it
    has seen, and an update wakes everybody who waits. *)
Theorem generation_correct s g value oc :
  outside s -> caller s oc -> waiters s (GenWaiting g) ->
  let c := default (active s) oc in
  (exists s', GenerationUpdate value g s = Ok (mkGen value [], s') /\ outside s' /\ changed s s' (GenWaiting g) []) /\
  exists s' g', GenerationWait value oc g s = Ok (g', s') /\ outside s' /\ waiters s' (GenWaiting g') /\
    Generation g' = Generation g /\
    if Generation g =? value then GenWaiting g' = GenWaiting g ++ [c] /\ changed s s' [] [c]
    else g' = g /\ changed s s' [c] [].
Proof.
  intros Hout Hcall Hw c. split; [by apply GenerationUpdate_ok; [|apply Hcall|]|by apply GenerationWait_ok].
Qed.
End proofs.
