(* ===== verification/BarrierTest.v ===== *)
(** * The test of the barrier (test/test7.c)

    Seven threads pass a barrier again and again.  Each clears its flag in one of two arrays
    before the barrier, the two arrays taking turns, and one of the threads looks behind the barrier whether all
    flags are clear.  The threads are programs that are interleaved step by step, over any
    implementation of the locking contract. *)

From stdpp Require Import functions.
From S2P Require Import Prelude LinkedList LockClass Barrier.

Definition NUM_THREADS : nat := 7.

(** The kinds of threads; [WaitMain] and [SpinMain] differ only in what they do while they wait. *)
Inductive MAIN := BlockingMain | WaitMain | SpinMain | ValidateMain.

Definition main_of (i : nat) : MAIN :=
  match i with 0 | 1 => BlockingMain | 2 | 3 => WaitMain | 4 | 5 => SpinMain | _ => ValidateMain end%nat.

(** [TransitionArray1] ([false]) or [TransitionArray2] ([true]). *)
Abbreviation which := bool.

(** Where a thread is: at the top of its loop, before the barrier, in it, or at an index of
    the loops of [ValidateState]; [array] is what [DoTransition] returned. *)
Inductive PC := Top | Sync (array : which) | Waiting (array : which) | Checking (array : which) (index : nat)
  | Resetting (array : which) (index : nat) | Panicked.

Section test7.
Context {S : Type} {ops : LockingOps S} {laws : LockingLaws S}.

(** The thread objects, and the contexts on the stacks of the threads that do not block. *)
Context (thread_of context_of : nat -> positive).

(** [&context] or [NULL]. *)
Definition argument (i : nat) : option ctx :=
  match main_of i with BlockingMain | ValidateMain => None | _ => Some (CPlain (context_of i)) end.

Definition ctx_of (i : nat) : ctx := default (CThread (thread_of i)) (argument i).

Record TEST7 := mkT7 { kernel : S; Barrier : BARRIER; Arrays : which -> nat -> bool; ThreadLocal : nat -> which; pcs : nat -> PC }.

Definition DoTransition (index : nat) (t : TEST7) : which * TEST7 :=
  let transitionArray := ThreadLocal t index in
  (transitionArray,
   mkT7 (kernel t) (Barrier t) (<[transitionArray := <[index := false]> (Arrays t transitionArray)]> (Arrays t))
     (<[index := negb transitionArray]> (ThreadLocal t)) (pcs t)).

Definition goto (i : nat) (pc : PC) (t : TEST7) : TEST7 := mkT7 (kernel t) (Barrier t) (Arrays t) (ThreadLocal t) (<[i := pc]> (pcs t)).

(** One step of the loop over the flags that checks, and of the one that sets. *)
Definition ValidateStep (i : nat) (t : TEST7) : TEST7 :=
  match pcs t i with
  | Checking array index =>
      if (index <? NUM_THREADS)%nat then
        if Arrays t array index then goto i Panicked t else goto i (Checking array (index + 1)) t
      else goto i (Resetting array 0) t
  | Resetting array index =>
      if (index <? NUM_THREADS)%nat then
        goto i (Resetting array (index + 1)) (mkT7 (kernel t) (Barrier t) (<[array := <[index := true]> (Arrays t array)]> (Arrays t)) (ThreadLocal t) (pcs t))
      else goto i Top t
  | _ => t
  end.

(** main: every flag of the first array is set, every thread starts with that array. *)
Definition Startup (s : S) : TEST7 :=
  mkT7 s (BarrierInit (Z.of_nat NUM_THREADS)) (fun a _ => negb a) (fun _ => false) (fun _ => Top).

(** A step of one thread, or of the rest of the system, which leaves those who wait alone.  A
    thread that calls is the running one, or passes a context that is in no lock. *)
Inductive step : TEST7 -> TEST7 -> Prop :=
| step_transition i t array t' : (i < NUM_THREADS)%nat -> pcs t i = Top -> DoTransition i t = (array, t') ->
    step t (goto i (Sync array) t')
| step_sync i t array b s : (i < NUM_THREADS)%nat -> pcs t i = Sync array -> caller (kernel t) (argument i) ->
    default (active (kernel t)) (argument i) = ctx_of i -> BarrierSync (argument i) (Barrier t) (kernel t) = Ok (b, s) ->
    step t (goto i (Waiting array) (mkT7 s b (Arrays t) (ThreadLocal t) (pcs t)))
| step_pass i t array : (i < NUM_THREADS)%nat -> pcs t i = Waiting array -> status (kernel t) !! ctx_of i <> Some LOCKING_STATE_BLOCKING ->
    step t (goto i (match main_of i with ValidateMain => Checking array 0 | _ => Top end) t)
| step_validate i t : (i < NUM_THREADS)%nat -> (match pcs t i with Checking _ _ | Resetting _ _ => True | _ => False end) ->
    step t (ValidateStep i t)
| step_other t s : outside s -> (waiters (kernel t) (List (Barrier t)) -> waiters s (List (Barrier t))) ->
    step t (mkT7 s (Barrier t) (Arrays t) (ThreadLocal t) (pcs t)).

Inductive reached : TEST7 -> Prop :=
| reached_start s : outside s -> reached (Startup s)
| reached_step t t' : reached t -> step t t' -> reached t'.

(** ** The invariant *)

Context (ctx_inj : forall i j, (i < NUM_THREADS)%nat -> (j < NUM_THREADS)%nat -> ctx_of i = ctx_of j -> i = j).

Definition clear (t : TEST7) (array : which) : Prop := forall j, (j < NUM_THREADS)%nat -> Arrays t array j = false.

(** The threads whose array is [p] are behind; the others have made their transition and wait for
    them.  Until the one that validates starts to set the other array again, it is clear. *)
Definition behind (p : which) (t : TEST7) (i : nat) : Prop :=
  ctx_of i ∉ List (Barrier t) /\
  match pcs t i with
  | Top => True
  | Waiting array => array = negb p /\ (main_of i = ValidateMain -> clear t array)
  | Checking array _ => main_of i = ValidateMain /\ array = negb p /\ clear t array
  | Resetting array _ => main_of i = ValidateMain /\ array = negb p
  | Sync _ | Panicked => False
  end.

Definition ahead (p : which) (t : TEST7) (i : nat) : Prop :=
  Arrays t p i = false /\
  match pcs t i with
  | Sync array => array = p /\ ctx_of i ∉ List (Barrier t)
  | Waiting array => array = p /\ ctx_of i ∈ List (Barrier t)
  | _ => False
  end.

Definition place_ok (p : which) (t : TEST7) (i : nat) : Prop := if decide (ThreadLocal t i = p) then behind p t i else ahead p t i.

Record test_inv (p : which) (t : TEST7) : Prop := {
  inv_outside : outside (kernel t);
  inv_barrier : barrier_inv (kernel t) (Barrier t);
  inv_needed : Needed (Barrier t) = Z.of_nat NUM_THREADS;
  inv_listed : forall c, c ∈ List (Barrier t) -> exists i, (i < NUM_THREADS)%nat /\ c = ctx_of i;
  inv_place : forall i, (i < NUM_THREADS)%nat -> place_ok p t i
}.

Lemma Startup_inv s : outside s -> test_inv false (Startup s).
Proof.
  intros Hs. constructor; simpl; [done| |done|set_solver|].
  - split; [apply waiters_nil|done].
  - intros i Hi. unfold place_ok. rewrite decide_True by done. split; [set_solver|done].
Qed.

(** A thread that comes upon the barrier made its transition before. *)
Lemma at_barrier p t i array : test_inv p t -> (i < NUM_THREADS)%nat -> pcs t i = Sync array ->
  ThreadLocal t i <> p /\ array = p /\ ctx_of i ∉ List (Barrier t) /\ Arrays t p i = false.
Proof.
  intros Hinv Hi Hpc. pose proof (inv_place p t Hinv i Hi) as Hp. unfold place_ok, behind, ahead in Hp. rewrite Hpc in Hp.
  destruct (decide (ThreadLocal t i = p)); [by destruct Hp as [_ []]|]. destruct Hp as (H1 & H2 & H3). done.
Qed.

Lemma waits_ahead p t i : test_inv p t -> (i < NUM_THREADS)%nat -> ctx_of i ∈ List (Barrier t) ->
  ThreadLocal t i <> p /\ Arrays t p i = false /\ pcs t i = Waiting p.
Proof.
  intros Hinv Hi Hin. pose proof (inv_place p t Hinv i Hi) as Hp. unfold place_ok, behind, ahead in Hp.
  destruct (decide (ThreadLocal t i = p)); [by destruct Hp as [? _]|]. destruct Hp as [H1 H2].
  destruct (pcs t i); try done; destruct H2 as [-> H2]; done.
Qed.

(** The last one finds everybody else in the queue. *)
Lemma everybody_there p t i : test_inv p t -> (i < NUM_THREADS)%nat -> ctx_of i ∉ List (Barrier t) ->
  zlen (List (Barrier t)) + 1 = Needed (Barrier t) -> forall j, (j < NUM_THREADS)%nat -> j <> i -> ctx_of j ∈ List (Barrier t).
Proof.
  intros Hinv Hi Hn Hz j Hj Hne. destruct (inv_barrier p t Hinv) as ([Hnd _] & _). rewrite (inv_needed p t Hinv) in Hz.
  assert (NoDup (ctx_of i :: List (Barrier t))) as Hnd' by (by apply NoDup_cons).
  assert (incl (ctx_of <$> seq 0 NUM_THREADS) (ctx_of i :: List (Barrier t))) as Hincl.
  { apply NoDup_length_incl; [by apply NoDup_ListNoDup|rewrite length_fmap, length_seq; unfold zlen in Hz; simpl; lia|].
    intros c Hc. apply list_elem_of_In in Hc. apply list_elem_of_In, list_elem_of_fmap.
    apply elem_of_cons in Hc as [->|Hc]; [exists i; split; [done|apply elem_of_seq; lia]|].
    destruct (inv_listed p t Hinv c Hc) as (k & Hk & ->). exists k. split; [done|apply elem_of_seq; lia]. }
  assert (ctx_of j ∈ ctx_of i :: List (Barrier t)) as [E|H]%elem_of_cons; [|by apply ctx_inj in E|done].
  apply list_elem_of_In, Hincl, list_elem_of_In, list_elem_of_fmap. exists j. split; [done|apply elem_of_seq; lia].
Qed.

Lemma place_frame p t t' j :
  ThreadLocal t' j = ThreadLocal t j -> pcs t' j = pcs t j -> (ctx_of j ∈ List (Barrier t') <-> ctx_of j ∈ List (Barrier t)) ->
  Arrays t' p j = Arrays t p j -> (main_of j = ValidateMain -> clear t (negb p) -> clear t' (negb p)) ->
  place_ok p t j -> place_ok p t' j.
Proof.
  unfold place_ok, behind, ahead. intros E1 E2 E E3 Hc. rewrite E1, E2, E3. case_decide; intros [H1 H2].
  - split; [by rewrite E|]. destruct (pcs t j); try done.
    + destruct H2 as [-> H2]. auto.
    + destruct H2 as (H2 & -> & H3). auto.
  - split; [done|]. by destruct (pcs t j); try done; destruct H2 as [-> H2]; rewrite E.
Qed.

Lemma step_frame p t t' i :
  test_inv p t -> outside (kernel t') -> barrier_inv (kernel t') (Barrier t') -> Needed (Barrier t') = Needed (Barrier t) ->
  (forall c, c ∈ List (Barrier t') -> c = ctx_of i \/ c ∈ List (Barrier t)) -> (i < NUM_THREADS)%nat ->
  (forall j, j <> i -> ThreadLocal t' j = ThreadLocal t j /\ pcs t' j = pcs t j /\ Arrays t' p j = Arrays t p j) ->
  (forall c, c <> ctx_of i -> c ∈ List (Barrier t') <-> c ∈ List (Barrier t)) ->
  (main_of i <> ValidateMain -> clear t (negb p) -> clear t' (negb p)) -> place_ok p t' i -> test_inv p t'.
Proof.
  intros Hinv Hout Hb Hn Hl Hi Hsame Hlist Hclear Hplace. constructor; [done|done|rewrite Hn; apply (inv_needed p t Hinv)| |].
  - intros c [->|Hc]%Hl; [by exists i|]. by apply (inv_listed p t Hinv).
  - intros j Hj. destruct (decide (j = i)) as [->|Hne]; [done|]. destruct (Hsame j Hne) as (H1 & H2 & H3).
    apply place_frame with t; try done; [|intros Hv; apply Hclear|by apply (inv_place p t Hinv)].
    + apply Hlist. intros E. by apply ctx_inj in E.
    + intros Hv'. apply Hne. assert (forall k, (k < NUM_THREADS)%nat -> main_of k = ValidateMain -> k = 6%nat) as H6.
      { intros k Hk. do 7 (destruct k as [|k]; [done|]). unfold NUM_THREADS in Hk. lia. }
      transitivity 6%nat; [by apply H6|symmetry; by apply H6].
Qed.

Lemma transition_inv p t i array t' : test_inv p t -> (i < NUM_THREADS)%nat -> pcs t i = Top -> DoTransition i t = (array, t') ->
  test_inv p (goto i (Sync array) t').
Proof.
  intros Hinv Hi Hpc [= <- <-]. pose proof (inv_place p t Hinv i Hi) as Hp. unfold place_ok, behind, ahead in Hp. rewrite Hpc in Hp.
  destruct (decide (ThreadLocal t i = p)) as [E|]; [|by destruct Hp]. destruct Hp as [Hnl _]. rewrite E.
  apply step_frame with t i; simpl; try done; [apply (inv_outside p t Hinv)|apply (inv_barrier p t Hinv)|auto| | |].
  - intros j Hj. rewrite fn_lookup_insert, !fn_lookup_insert_ne by done. done.
  - intros _ Hc j Hj. simpl. rewrite fn_lookup_insert_ne by (by destruct p). by apply Hc.
  - unfold place_ok, ahead. simpl. rewrite fn_lookup_insert, decide_False by (by destruct p). rewrite !fn_lookup_insert. done.
Qed.

Lemma pass_inv p t i array : test_inv p t -> (i < NUM_THREADS)%nat -> pcs t i = Waiting array ->
  status (kernel t) !! ctx_of i <> Some LOCKING_STATE_BLOCKING ->
  test_inv p (goto i (match main_of i with ValidateMain => Checking array 0 | _ => Top end) t).
Proof.
  intros Hinv Hi Hpc Hst. pose proof (inv_place p t Hinv i Hi) as Hp. unfold place_ok, behind, ahead in Hp. rewrite Hpc in Hp.
  destruct (decide (ThreadLocal t i = p)) as [E|].
  2: { destruct Hp as (_ & _ & Hin). destruct (inv_barrier p t Hinv) as ([_ Hw] & _). rewrite Forall_forall in Hw.
       by destruct (Hw _ Hin). }
  destruct Hp as (Hnl & -> & Hc).
  apply step_frame with t i; simpl; try done; [apply (inv_outside p t Hinv)|apply (inv_barrier p t Hinv)|auto| |].
  - intros j Hj. by rewrite !fn_lookup_insert_ne.
  - unfold place_ok, behind. simpl. rewrite E, decide_True, fn_lookup_insert by done. split; [done|]. destruct (main_of i); try done. auto.
Qed.

Lemma validate_inv p t i : test_inv p t -> (i < NUM_THREADS)%nat -> test_inv p (ValidateStep i t).
Proof.
  intros Hinv Hi. pose proof (inv_place p t Hinv i Hi) as Hp. unfold place_ok, behind, ahead in Hp. unfold ValidateStep.
  destruct (pcs t i) as [|array|array|array k|array k|] eqn:Hpc; try done;
    (destruct (decide (ThreadLocal t i = p)) as [E|]; [|by destruct Hp]).
  - destruct Hp as (Hnl & Hv & -> & Hc). destruct (Nat.ltb_spec k NUM_THREADS) as [Hk|Hk]; [rewrite (Hc k Hk)|];
      (apply step_frame with t i; simpl; try done; [apply (inv_outside p t Hinv)|apply (inv_barrier p t Hinv)|auto
        |intros j Hj; by rewrite !fn_lookup_insert_ne
        |unfold place_ok, behind; simpl; by rewrite E, decide_True, fn_lookup_insert]).
  - destruct Hp as (Hnl & Hv & ->). destruct (Nat.ltb_spec k NUM_THREADS) as [Hk|Hk].
    + apply step_frame with t i; simpl; try done; [apply (inv_outside p t Hinv)|apply (inv_barrier p t Hinv)|auto| |].
      * intros j Hj. rewrite !fn_lookup_insert_ne; [done|by destruct p|done].
      * unfold place_ok, behind. simpl. by rewrite E, decide_True, fn_lookup_insert.
    + apply step_frame with t i; simpl; try done; [apply (inv_outside p t Hinv)|apply (inv_barrier p t Hinv)|auto| |].
      * intros j Hj. by rewrite !fn_lookup_insert_ne.
      * unfold place_ok, behind. simpl. by rewrite E, decide_True, fn_lookup_insert.
Qed.

Lemma other_inv p t s : test_inv p t -> outside s -> (waiters (kernel t) (List (Barrier t)) -> waiters s (List (Barrier t))) ->
  test_inv p (mkT7 s (Barrier t) (Arrays t) (ThreadLocal t) (pcs t)).
Proof.
  intros Hinv Hout Hw. destruct (inv_barrier p t Hinv) as (H1 & H2 & H3).
  constructor; simpl; [done|by split; [apply Hw|]|apply (inv_needed p t Hinv)|apply (inv_listed p t Hinv)|apply (inv_place p t Hinv)].
Qed.

(** Before the last one comes its predecessors queue; then they all change sides. *)
Lemma sync_inv p t i array : test_inv p t -> (i < NUM_THREADS)%nat -> pcs t i = Sync array -> caller (kernel t) (argument i) ->
  default (active (kernel t)) (argument i) = ctx_of i ->
  exists b s p', BarrierSync (argument i) (Barrier t) (kernel t) = Ok (b, s) /\
    test_inv p' (goto i (Waiting array) (mkT7 s b (Arrays t) (ThreadLocal t) (pcs t))).
Proof.
  intros Hinv Hi Hpc Hcall Hctx. destruct (at_barrier p t i array Hinv Hi Hpc) as (Hl & -> & Hnl & Ha).
  destruct (BarrierSync_ok (kernel t) (Barrier t) (argument i) (inv_outside p t Hinv) Hcall (inv_barrier p t Hinv))
    as (s & b & Hrun & Hout & Hb & Hn & Hcase). rewrite Hctx in Hcase.
  destruct (Z.eqb_spec (zlen (List (Barrier t)) + 1) (Needed (Barrier t))) as [Hz|Hz]; destruct Hcase as [Eb Hch].
  - exists b, s, (negb p). split; [done|].
    assert (forall j, (j < NUM_THREADS)%nat -> j <> i -> ThreadLocal t j <> p /\ Arrays t p j = false /\ pcs t j = Waiting p) as Hall.
    { intros j Hj Hne. by apply (waits_ahead p t j Hinv), (everybody_there p t i). }
    assert (clear t p) as Hclear by (intros j Hj; destruct (decide (j = i)) as [->|Hne]; [done|by apply Hall]).
    constructor; simpl; [done|done|rewrite Hn; apply (inv_needed p t Hinv)|rewrite Eb; set_solver|].
    intros j Hj. assert (ThreadLocal t j = negb p /\ <[i := Waiting p]> (pcs t) j = Waiting p) as [E1 E2].
    { destruct (decide (j = i)) as [->|Hne]; [rewrite fn_lookup_insert; by destruct (ThreadLocal t i), p|].
      rewrite fn_lookup_insert_ne by done. destruct (Hall j Hj Hne) as (H1 & _ & H2). by destruct (ThreadLocal t j), p. }
    unfold place_ok, behind. simpl. rewrite E1, E2, decide_True, Eb by done. split; [set_solver|]. by rewrite negb_involutive.
  - exists b, s, p. split; [done|]. apply step_frame with t i; simpl; try done; rewrite ?Eb.
    + intros c. set_solver.
    + intros j Hj. by rewrite fn_lookup_insert_ne.
    + intros c. set_solver.
    + unfold place_ok, ahead. simpl. rewrite decide_False, fn_lookup_insert, Eb by done. split; [done|]. split; [done|set_solver].
Qed.

Lemma reached_inv t : reached t -> exists p, test_inv p t.
Proof.
  induction 1 as [s Hs|t t' _ [p Hinv] Hstep]; [exists false; by apply Startup_inv|].
  destruct Hstep as [i t array t' Hi Hpc Ht|i t array b s Hi Hpc Hcall Hctx Hrun|i t array Hi Hpc Hst|i t Hi Hpc|t s Hout Hw].
  - exists p. by apply transition_inv with t.
  - destruct (sync_inv p t i array Hinv Hi Hpc Hcall Hctx) as (b' & s' & p' & Hrun' & Hinv').
    rewrite Hrun in Hrun'. injection Hrun' as <- <-. by exists p'.
  - exists p. by apply pass_inv.
  - exists p. by apply validate_inv.
  - exists p. by apply other_inv.
Qed.

(** C29: the test of the barrier succeeds in every interleaving of its seven threads: the thread
    that validates never panics, no call of the barrier faults, and there is always a thread that does not wait. *)
Theorem barrier_test_passes t : reached t ->
  (forall i, (i < NUM_THREADS)%nat -> pcs t i <> Panicked) /\
  (forall i array, (i < NUM_THREADS)%nat -> pcs t i = Sync array -> caller (kernel t) (argument i) ->
    default (active (kernel t)) (argument i) = ctx_of i -> exists b s, BarrierSync (argument i) (Barrier t) (kernel t) = Ok (b, s)) /\
  exists i, (i < NUM_THREADS)%nat /\ ctx_of i ∉ List (Barrier t).
Proof.
  intros [p Hinv]%reached_inv. split_and!.
  - intros i Hi Hpc. pose proof (inv_place p t Hinv i Hi) as Hp. unfold place_ok, behind, ahead in Hp. rewrite Hpc in Hp.
    by case_decide; destruct Hp.
  - intros i array Hi Hpc Hcall Hctx. destruct (sync_inv p t i array Hinv Hi Hpc Hcall Hctx) as (b & s & p' & Hrun & _). by exists b, s.
  - destruct (inv_barrier p t Hinv) as ([Hnd _] & Hp & Hlt). rewrite (inv_needed p t Hinv) in Hlt.
    destruct (decide (Exists (fun i => ctx_of i ∉ List (Barrier t)) (seq 0 NUM_THREADS))) as [H|H].
    + apply Exists_exists in H as (i & Hi & Hn). exists i. split; [apply elem_of_seq in Hi; lia|done].
    + exfalso. rewrite <- Forall_Exists_neg in H. assert (incl (ctx_of <$> seq 0 NUM_THREADS) (List (Barrier t))) as Hincl.
      { intros c Hc. apply list_elem_of_In, list_elem_of_fmap in Hc as (i & -> & Hi). apply list_elem_of_In.
        rewrite Forall_forall in H. apply dec_stable. by apply H. }
      assert (NoDup (ctx_of <$> seq 0 NUM_THREADS)) as Hnd'.
      { apply NoDup_fmap_2_strong; [|apply NoDup_seq]. intros i j Hi%elem_of_seq Hj%elem_of_seq. apply ctx_inj; lia. }
      apply NoDup_ListNoDup in Hnd'. pose proof (NoDup_incl_length Hnd' Hincl) as Hlen.
      rewrite length_fmap, length_seq in Hlen. unfold zlen in *. unfold NUM_THREADS in *. lia.
Qed.
End test7.
