(* ===== verification/Resource.v ===== *)
(** * Resource locks (kernel/resource.c), against the locking interface *)

From S2P Require Import Prelude LinkedList LockClass.

Record RESOURCE := mkRes { State : RESOURCE_STATE; WaitingThreads : list ctx; NumShared : Z }.

Definition ResourceInit (state : RESOURCE_STATE) : RESOURCE := mkRes state [] 0.

Section operations.
Context {S : Type} `{LockingOps S}.

(** The [do ... while] loop of [ResourceWakeThreads]. *)
Fixpoint WakeLoop (q : list ctx) (state : RESOURCE_STATE) (num : Z) : St S RESOURCE :=
  match q with
  | [] => mret (mkRes state [] num)
  | cur :: q' =>
      m ← ResourceWaitState cur;
      match m with
      | RESOURCE_SHARED =>
          LockingAcquire (Some cur);;
          WakeLoop q' RESOURCE_SHARED (w64 (num + 1))
      | RESOURCE_EXCLUSIVE =>
          if num =? 0 then
            LockingAcquire (Some cur);;
            mret (mkRes RESOURCE_EXCLUSIVE q' num)
          else mret (mkRes state q num)
      end
  end.

Definition ResourceWakeThreads (lock : RESOURCE) : St S RESOURCE :=
  assert (NumShared lock =? 0);;
  assert (negb (lq_is_empty (WaitingThreads lock)));;
  WakeLoop (WaitingThreads lock) (State lock) (NumShared lock).

(** [block.ResourceWaitState = mode; link = LockingBlock( &block, context );
     LinkedListEnqueue( link, & lock->WaitingThreads );] *)
Definition ResourceBlock (mode : RESOURCE_STATE) (context : option ctx) (lock : RESOURCE) : St S RESOURCE :=
  q ← (link ← LockingBlock (Some mode) context; LinkedListEnqueue link (WaitingThreads lock));
  mret (mkRes (State lock) q (NumShared lock)).

Definition ResourceLockShared (context : option ctx) (lock : RESOURCE) : St S RESOURCE :=
  critical (
    if negb (lq_is_empty (WaitingThreads lock)) then ResourceBlock RESOURCE_SHARED context lock
    else match State lock with
    | RESOURCE_SHARED =>
        let lock := mkRes (State lock) (WaitingThreads lock) (w64 (NumShared lock + 1)) in
        LockingAcquire context;;
        mret lock
    | RESOURCE_EXCLUSIVE => ResourceBlock RESOURCE_SHARED context lock
    end).

Definition ResourceLockExclusive (context : option ctx) (lock : RESOURCE) : St S RESOURCE :=
  critical (
    if negb (lq_is_empty (WaitingThreads lock)) then ResourceBlock RESOURCE_EXCLUSIVE context lock
    else match State lock with
    | RESOURCE_SHARED =>
        if NumShared lock =? 0 then
          let lock := mkRes RESOURCE_EXCLUSIVE (WaitingThreads lock) (NumShared lock) in
          LockingAcquire context;;
          mret lock
        else ResourceBlock RESOURCE_EXCLUSIVE context lock
    | RESOURCE_EXCLUSIVE => ResourceBlock RESOURCE_EXCLUSIVE context lock
    end).

Definition ResourceUnlockShared (lock : RESOURCE) : St S RESOURCE :=
  critical (
    match State lock with
    | RESOURCE_SHARED =>
        let lock := mkRes (State lock) (WaitingThreads lock) (w64 (NumShared lock - 1)) in
        if (NumShared lock =? 0) && negb (lq_is_empty (WaitingThreads lock))
        then ResourceWakeThreads lock
        else mret lock
    | RESOURCE_EXCLUSIVE => panic
    end).

Definition ResourceUnlockExclusive (lock : RESOURCE) : St S RESOURCE :=
  critical (
    assert (NumShared lock =? 0);;
    match State lock with
    | RESOURCE_EXCLUSIVE =>
        if lq_is_empty (WaitingThreads lock)
        then mret (mkRes RESOURCE_SHARED (WaitingThreads lock) (NumShared lock))
        else ResourceWakeThreads lock
    | RESOURCE_SHARED => panic
    end).
End operations.

(** ** The abstract lock *)

(** Who is woken from a queue of requests when the lock is free: the first request, and
    when it is shared all shared requests up to the next exclusive one. *)
Fixpoint wake_spec (mode : ctx -> option RESOURCE_STATE) (q : list ctx) (state : RESOURCE_STATE)
    (num : Z) : RESOURCE * list ctx :=
  match q with
  | [] => (mkRes state [] num, [])
  | c :: q' =>
      match mode c with
      | Some RESOURCE_SHARED =>
          let '(l, woken) := wake_spec mode q' RESOURCE_SHARED (num + 1) in (l, c :: woken)
      | _ => if num =? 0 then (mkRes RESOURCE_EXCLUSIVE q' num, [c]) else (mkRes state q num, [])
      end
  end.

Section proofs.
Context {S : Type} {ops : LockingOps S} {laws : LockingLaws S}.
Implicit Types s : S.

Definition modes_known s (q : list ctx) : Prop := Forall (fun c => is_Some (wait_mode s !! c)) q.

(** Exclusive excludes shared; requests wait only for a reason. *)
Definition res_inv s (l : RESOURCE) : Prop :=
  waiters s (WaitingThreads l) /\ modes_known s (WaitingThreads l) /\
  0 <= NumShared l <= max64 /\
  match State l with
  | RESOURCE_EXCLUSIVE => NumShared l = 0
  | RESOURCE_SHARED =>
      match WaitingThreads l with
      | [] => True
      | c :: _ => 0 < NumShared l /\ wait_mode s !! c = Some RESOURCE_EXCLUSIVE
      end
  end.

Lemma modes_changed s s' woken blocked q :
  changed s s' woken blocked -> (forall c, c ∈ q -> c ∉ blocked) ->
  Forall (fun c => wait_mode s' !! c = wait_mode s !! c) q.
Proof. intros (_ & _ & _ & Hm) Hb. rewrite Forall_forall. intros c Hc. apply Hm. by apply Hb. Qed.

Lemma modes_known_changed s s' woken q :
  changed s s' woken [] -> modes_known s q -> modes_known s' q.
Proof.
  intros Hch Hk. pose proof (modes_changed s s' woken [] q Hch ltac:(set_solver)) as Hm.
  unfold modes_known in *. rewrite Forall_forall in *. intros c Hc. rewrite Hm by done. by apply Hk.
Qed.

Lemma wake_spec_ext m m' q state num :
  Forall (fun c => m' c = m c) q -> wake_spec m' q state num = wake_spec m q state num.
Proof.
  revert state num. induction q as [|c q IH]; intros state num Hq; [done|].
  apply Forall_cons in Hq as [Hc Hq]. cbn [wake_spec]. rewrite Hc, IH by done. done.
Qed.

Lemma WakeLoop_ok s q state num :
  inside s -> running s -> waiters s q -> modes_known s q -> 0 <= num -> num + zlen q <= max64 ->
  exists s', let '(l, woken) := wake_spec (wait_mode s !!.) q state num in
    WakeLoop q state num s = Ok (l, s') /\ inside s' /\ changed s s' woken [] /\
    waiters s' (WaitingThreads l).
Proof.
  revert s state num. induction q as [|c q IH]; intros s state num Hin Hrn Hw Hk Hn Hmax.
  { exists s. split; [done|]. split; [done|]. split; [apply changed_refl|done]. }
  unfold modes_known in Hk. apply Forall_cons in Hk as [[r Hr] Hk]. cbn [wake_spec WakeLoop].
  pose proof (mode_ok s c r Hin Hr) as Hmode. rewrite Hr.
  assert (zlen (c :: q) = 1 + zlen q) as Hz by (unfold zlen; simpl; lia).
  pose proof (Zle_0_nat (length q)). unfold max64 in *.
  destruct (acquire_waiter s c q Hin Hrn Hw) as (s1 & Hacq & Hin1 & Hch1 & Hw1).
  destruct r.
  - pose proof (modes_changed s s1 [c] [] q Hch1 ltac:(set_solver)) as Hm1.
    destruct (IH s1 RESOURCE_SHARED (num + 1) Hin1 (running_changed _ _ _ Hrn Hch1) Hw1) as (s2 & Hrec);
      [by eapply modes_known_changed|lia|lia|].
    rewrite (wake_spec_ext (wait_mode s !!.) (wait_mode s1 !!.) q) in Hrec by done.
    exists s2. destruct (wake_spec _ q RESOURCE_SHARED (num + 1)) as [l woken].
    destruct Hrec as (Hrun & Hin2 & Hch2 & Hw2).
    rewrite (st_bind_ok _ _ _ _ _ Hmode), (st_bind_ok _ _ _ _ _ Hacq).
    rewrite w64_small by (unfold u64, zlen in *; lia).
    split; [done|]. split; [done|]. split; [by apply (changed_trans s s1 s2 [c] woken)|done].
  - destruct (Z.eqb_spec num 0) as [E|E].
    + exists s1. rewrite (st_bind_ok _ _ _ _ _ Hmode), E. rewrite (st_bind_ok _ _ _ _ _ Hacq). done.
    + exists s. rewrite (st_bind_ok _ _ _ _ _ Hmode). destruct (Z.eqb_spec num 0); [done|].
      split; [done|]. split; [done|]. split; [apply changed_refl|done].
Qed.


(** A wake-up of a non-empty queue on a free lock: either one exclusive request gets it
    or a non-empty batch of shared ones. *)
Lemma wake_spec_shared m q num :
  0 < num ->
  let '(l, woken) := wake_spec m q RESOURCE_SHARED num in
  q = woken ++ WaitingThreads l /\ State l = RESOURCE_SHARED /\ NumShared l = num + zlen woken /\
  Forall (fun c => m c = Some RESOURCE_SHARED) woken /\
  match WaitingThreads l with [] => True | c :: _ => m c <> Some RESOURCE_SHARED end.
Proof.
  revert num. induction q as [|c q IH]; intros num Hn; cbn [wake_spec].
  { split_and!; try done. unfold zlen. simpl. lia. }
  destruct (m c) as [[]|] eqn:Hc.
  2, 3: destruct (Z.eqb_spec num 0); [lia|]; split_and!; try done;
    [unfold zlen; simpl; lia|simpl; by rewrite Hc].
  specialize (IH (num + 1) ltac:(lia)).
  destruct (wake_spec m q RESOURCE_SHARED (num + 1)) as [l woken].
  destruct IH as (-> & -> & -> & Hf & Hhd). split_and!; try done.
  - unfold zlen. simpl. lia.
  - by apply Forall_cons.
Qed.

Lemma wake_spec_free m q state :
  q <> [] -> Forall (fun c => is_Some (m c)) q ->
  let '(l, woken) := wake_spec m q state 0 in
  q = woken ++ WaitingThreads l /\
  ((State l = RESOURCE_EXCLUSIVE /\ NumShared l = 0 /\ exists c, woken = [c] /\ m c = Some RESOURCE_EXCLUSIVE) \/
   (State l = RESOURCE_SHARED /\ 0 < NumShared l /\ NumShared l = zlen woken /\
    Forall (fun c => m c = Some RESOURCE_SHARED) woken /\
    match WaitingThreads l with [] => True | c :: _ => m c <> Some RESOURCE_SHARED end)).
Proof.
  destruct q as [|c q]; [done|]. intros _ Hk. apply Forall_cons in Hk as [[[] Hr] Hk]; cbn [wake_spec]; rewrite Hr.
  - pose proof (wake_spec_shared m q 1 ltac:(lia)) as Hw. change (0 + 1) with 1.
    destruct (wake_spec m q RESOURCE_SHARED 1) as [l woken]. destruct Hw as (-> & Hs & Hn & Hf & Hhd).
    split; [done|]. right. split; [done|].
    assert (zlen (c :: woken) = 1 + zlen woken) as -> by (unfold zlen; simpl; lia).
    split; [unfold zlen in *; lia|]. split; [lia|]. split; [by apply Forall_cons|done].
  - split; [done|]. left. split; [done|]. split; [done|]. by exists c.
Qed.

(** *** What the operations do *)

(** The lock is free for nobody else: the queue is served. *)
Lemma ResourceWakeThreads_ok s l :
  inside s -> running s -> waiters s (WaitingThreads l) -> modes_known s (WaitingThreads l) ->
  WaitingThreads l <> [] -> NumShared l = 0 -> zlen (WaitingThreads l) <= max64 ->
  exists s', let '(l', woken) := wake_spec (wait_mode s !!.) (WaitingThreads l) (State l) 0 in
    ResourceWakeThreads l s = Ok (l', s') /\ inside s' /\ changed s s' woken [] /\
    waiters s' (WaitingThreads l') /\ res_inv s' l'.
Proof.
  intros Hin Hrn Hw Hk Hne Hn Hmax. unfold ResourceWakeThreads. rewrite Hn.
  destruct (WakeLoop_ok s (WaitingThreads l) (State l) 0 Hin Hrn Hw Hk ltac:(lia) ltac:(lia)) as (s' & Hrun).
  pose proof (wake_spec_free (wait_mode s !!.) (WaitingThreads l) (State l) Hne Hk) as Hsp.
  exists s'. destruct (wake_spec _ _ _ _) as [l' woken].
  destruct Hrun as (Hr & Hin' & Hch & Hw'). destruct Hsp as [Hq Hcase].
  st_step assert_true. st_step assert_true by (destruct (WaitingThreads l); done).
  split; [done|]. split; [done|]. split; [done|]. split; [done|].
  assert (modes_known s (WaitingThreads l')) as Hk'.
  { unfold modes_known in *. rewrite Hq in Hk. by apply Forall_app in Hk as [_ Hk]. }
  split; [done|]. split; [by eapply modes_known_changed|].
  assert (zlen woken <= zlen (WaitingThreads l)) by (rewrite Hq; unfold zlen; rewrite length_app; lia).
  unfold max64 in *. destruct Hcase as [(Hs & Hns & _)|(Hs & Hpos & Hns & _ & Hhd)]; rewrite Hs.
  - split; [lia|done].
  - split; [unfold zlen in *; lia|]. destruct (WaitingThreads l') as [|c q] eqn:E; [done|]. split; [done|].
    pose proof (modes_changed s s' woken [] (c :: q) Hch ltac:(set_solver)) as Hm. apply Forall_cons in Hm as [-> _].
    unfold modes_known in Hk'. apply Forall_cons in Hk' as [[[] Hr'] _]; [by rewrite Hr' in Hhd|done].
Qed.

Lemma ResourceBlock_ok s l mode oc :
  outside s -> caller s oc -> res_inv s l ->
  (WaitingThreads l = [] -> State l = RESOURCE_SHARED -> 0 < NumShared l /\ mode = RESOURCE_EXCLUSIVE) ->
  let c := default (active s) oc in
  let l' := mkRes (State l) (WaitingThreads l ++ [c]) (NumShared l) in
  exists s', critical (ResourceBlock mode oc l) s = Ok (l', s') /\ outside s' /\ res_inv s' l' /\
    changed s s' [] [c] /\ wait_mode s' !! c = Some mode.
Proof.
  intros Hout Hcall (Hw & Hk & Hn & Hs) Hreason c l'.
  destruct (critical_ok (ResourceBlock mode oc l) s l' [] [c]
    (fun s2 => waiters s2 (WaitingThreads l ++ [c]) /\ wait_mode s2 !! c = Some mode) Hout)
    as (s2 & s3 & Hr & Hout3 & Hch & [Hw2 Hm2] & Hch3).
  { intros s1 Hin1 Hch1. destruct (caller_changed s s1 oc Hcall Hch1) as [Hcall1 Hc1].
    destruct (block_enqueue s1 (Some mode) oc (WaitingThreads l) Hin1 Hcall1) as (s2 & Hr2 & Hin2 & Hch2 & Hw2 & Hm2).
    { eapply waiters_changed; [exact Hw|exact Hch1|set_solver]. }
    rewrite Hc1 in Hr2, Hch2, Hw2, Hm2. fold c in Hr2, Hch2, Hw2, Hm2.
    exists s2. unfold ResourceBlock. rewrite (st_bind_ok _ _ _ _ _ Hr2). split; [done|]. split; [done|].
    split; [by apply (changed_trans s s1 s2 [] [])|]. split; [done|by apply Hm2]. }
  assert (wait_mode s3 !! c = Some mode) as Hm3 by (destruct Hch3 as (_ & _ & _ & ->); [done|set_solver]).
  pose proof (caller_not_waiting s oc _ Hcall Hw) as Hnw. fold c in Hnw.
  pose proof (modes_changed s s3 [] [c] (WaitingThreads l) Hch ltac:(set_solver)) as Hold.
  exists s3. split; [done|]. split; [done|]. split; [|done].
  split; [eapply waiters_changed; [exact Hw2|exact Hch3|set_solver]|]. split; [|split; [done|]].
  - apply Forall_app. split; [|by apply Forall_singleton].
    unfold modes_known in Hk. rewrite Forall_forall in *. intros d Hd. rewrite Hold by done. by apply Hk.
  - simpl. destruct (State l) eqn:E; [|done]. destruct (WaitingThreads l) as [|d q] eqn:E2; simpl.
    + destruct (Hreason eq_refl eq_refl) as [Hpos ->]. done.
    + apply Forall_cons in Hold as [-> _]. done.
Qed.

Lemma res_inv_changed s s' woken l : changed s s' woken [] -> (forall c, c ∈ WaitingThreads l -> c ∉ woken) ->
  res_inv s l -> res_inv s' l.
Proof.
  intros Hch Hd (Hw & Hk & Hn & Hs). split; [eapply waiters_changed; [exact Hw|exact Hch|]|].
  { intros c H1 H2. by apply Hd in H1. }
  split; [by eapply modes_known_changed|]. split; [done|]. destruct (State l); [|done].
  destruct (WaitingThreads l) as [|c q]; [done|]. destruct Hch as (_ & _ & _ & ->); [done|set_solver].
Qed.

(** A critical section that passes the caller and leaves the lock in [l']. *)
Lemma ResourcePass_ok s l' oc :
  outside s -> caller s oc -> WaitingThreads l' = [] -> 0 <= NumShared l' <= max64 ->
  (State l' = RESOURCE_EXCLUSIVE -> NumShared l' = 0) ->
  exists s', critical (LockingAcquire oc;; mret l') s = Ok (l', s') /\ outside s' /\ res_inv s' l' /\
    changed s s' [default (active s) oc] [].
Proof.
  intros Hout Hcall Hnil Hn He.
  destruct (critical_ok (LockingAcquire oc;; mret l') s l' [default (active s) oc] [] (fun _ => True) Hout)
    as (_ & s3 & Hr & Hout3 & Hch & _).
  { intros s1 Hin1 Hch1. destruct (caller_changed s s1 oc Hcall Hch1) as [Hcall1 Hc1].
    destruct (acquire_caller s1 oc Hin1 Hcall1) as (s2 & Hr2 & Hin2 & Hch2). rewrite Hc1 in Hch2.
    exists s2. rewrite (st_bind_ok _ _ _ _ _ Hr2). split; [done|]. split; [done|]. split; [|done].
    by apply (changed_trans s s1 s2 [] [_]). }
  exists s3. split; [done|]. split; [done|]. split; [|done]. unfold res_inv. rewrite Hnil.
  split; [by split; [apply NoDup_nil_2|apply Forall_nil]|]. split; [by apply Forall_nil|]. split; [done|].
  destruct (State l'); [done|by apply He].
Qed.

(** [ResourceLockShared] passes exactly when nobody waits and the lock is shared. *)
Lemma ResourceLockShared_ok s l oc :
  outside s -> caller s oc -> res_inv s l -> NumShared l < max64 ->
  let c := default (active s) oc in
  exists s' l', ResourceLockShared oc l s = Ok (l', s') /\ outside s' /\ res_inv s' l' /\
    if bool_decide (WaitingThreads l = [] /\ State l = RESOURCE_SHARED)
    then l' = mkRes RESOURCE_SHARED [] (NumShared l + 1) /\ changed s s' [c] []
    else l' = mkRes (State l) (WaitingThreads l ++ [c]) (NumShared l) /\ changed s s' [] [c] /\
      wait_mode s' !! c = Some RESOURCE_SHARED.
Proof.
  intros Hout Hcall Hinv Hmax c. pose proof Hinv as (Hw & Hk & Hn & Hs). unfold ResourceLockShared.
  unfold max64 in Hmax.
  destruct (WaitingThreads l) as [|d q] eqn:E; cbn [lq_is_empty negb].
  - destruct (State l) eqn:E2.
    + rewrite bool_decide_true by done. rewrite w64_small by (unfold u64; lia).
      destruct (ResourcePass_ok s (mkRes RESOURCE_SHARED [] (NumShared l + 1)) oc Hout Hcall)
        as (s' & Hr & Hout' & Hinv' & Hch); [done|unfold max64; simpl; lia|done|].
      eexists s', _. split; [exact Hr|]. by split_and!; try done; apply Hch || apply Hinv'.
    + rewrite bool_decide_false by naive_solver.
      destruct (ResourceBlock_ok s l RESOURCE_SHARED oc Hout Hcall Hinv) as (s' & Hr & Hout' & Hinv' & Hch & Hm);
        [by rewrite E2|]. rewrite E, E2 in *.
      eexists s', _. split; [exact Hr|]. split; [done|]. split; [done|]. done.
  - rewrite bool_decide_false by naive_solver.
    destruct (ResourceBlock_ok s l RESOURCE_SHARED oc Hout Hcall Hinv) as (s' & Hr & Hout' & Hinv' & Hch & Hm);
      [by rewrite E|]. rewrite E in *.
    eexists s', _. split; [exact Hr|]. split; [done|]. split; [done|]. done.
Qed.

(** [ResourceLockExclusive] passes exactly when the lock is free. *)
Lemma ResourceLockExclusive_ok s l oc :
  outside s -> caller s oc -> res_inv s l ->
  let c := default (active s) oc in
  exists s' l', ResourceLockExclusive oc l s = Ok (l', s') /\ outside s' /\ res_inv s' l' /\
    if bool_decide (WaitingThreads l = [] /\ State l = RESOURCE_SHARED /\ NumShared l = 0)
    then l' = mkRes RESOURCE_EXCLUSIVE [] 0 /\ changed s s' [c] []
    else l' = mkRes (State l) (WaitingThreads l ++ [c]) (NumShared l) /\ changed s s' [] [c] /\
      wait_mode s' !! c = Some RESOURCE_EXCLUSIVE.
Proof.
  intros Hout Hcall Hinv c. pose proof Hinv as (Hw & Hk & Hn & Hs). unfold ResourceLockExclusive.
  destruct (bool_decide_reflect (WaitingThreads l = [] /\ State l = RESOURCE_SHARED /\ NumShared l = 0)) as [(E & E2 & E3)|Hno].
  - rewrite E, E2, E3. cbn [lq_is_empty negb].
    destruct (ResourcePass_ok s (mkRes RESOURCE_EXCLUSIVE [] 0) oc Hout Hcall)
      as (s' & Hr & Hout' & Hinv' & Hch); [done|unfold max64; simpl; lia|done|].
    eexists s', _. split; [exact Hr|]. split; [done|]. split; [done|]. done.
  - destruct (ResourceBlock_ok s l RESOURCE_EXCLUSIVE oc Hout Hcall Hinv) as (s' & Hr & Hout' & Hinv' & Hch & Hm).
    { intros E E2. split; [|done]. assert (NumShared l <> 0) by naive_solver. lia. }
    exists s', (mkRes (State l) (WaitingThreads l ++ [c]) (NumShared l)).
    split; [|split; [done|]; split; [done|]; done].
    destruct (WaitingThreads l) as [|d q] eqn:E; cbn [lq_is_empty negb]; [|done].
    destruct (State l) eqn:E2; [|done]. destruct (Z.eqb_spec (NumShared l) 0); [naive_solver|done].
Qed.

(** What an unlock leaves: the queue is served when the lock becomes free. *)
Definition released s (l : RESOURCE) (num : Z) : RESOURCE * list ctx :=
  if bool_decide (num = 0) && negb (lq_is_empty (WaitingThreads l))
  then wake_spec (wait_mode s !!.) (WaitingThreads l) (State l) 0
  else (mkRes RESOURCE_SHARED (WaitingThreads l) num, []).

Lemma wake_critical s l num (body : St S RESOURCE) :
  outside s -> running s -> res_inv s l -> zlen (WaitingThreads l) <= max64 -> 0 <= num <= max64 ->
  (num <> 0 -> num < NumShared l /\ State l = RESOURCE_SHARED) ->
  (forall s1, body s1 = if bool_decide (num = 0) && negb (lq_is_empty (WaitingThreads l))
    then ResourceWakeThreads (mkRes (State l) (WaitingThreads l) 0) s1
    else Ok (mkRes RESOURCE_SHARED (WaitingThreads l) num, s1)) ->
  exists s', let '(l', woken) := released s l num in
    critical body s = Ok (l', s') /\ outside s' /\ res_inv s' l' /\ changed s s' woken [].
Proof.
  intros Hout Hrn (Hw & Hk & Hn & Hs) Hmax Hnum Hpos Hbody. unfold released.
  destruct (bool_decide (num = 0) && negb (lq_is_empty (WaitingThreads l))) eqn:Hb.
  - apply andb_true_iff in Hb as [_ Hb]. assert (WaitingThreads l <> []) as Hne by (by destruct (WaitingThreads l)).
    destruct (wake_spec (wait_mode s !!.) (WaitingThreads l) (State l) 0) as [l' woken] eqn:Hsp.
    destruct (critical_ok body s l' woken [] (fun s2 => res_inv s2 l') Hout)
      as (s2 & s3 & Hr & Hout3 & Hch & Hinv2 & Hch3); [|].
    + intros s1 Hin1 Hch1. pose proof (modes_changed s s1 [] [] (WaitingThreads l) Hch1 ltac:(set_solver)) as Hm1.
      destruct (ResourceWakeThreads_ok s1 (mkRes (State l) (WaitingThreads l) 0) Hin1 (running_changed _ _ _ Hrn Hch1)) as (s2 & Hrun); simpl;
        [eapply waiters_changed; [exact Hw|exact Hch1|set_solver]|by eapply modes_known_changed|done|done|done|].
      simpl in Hrun. rewrite (wake_spec_ext (wait_mode s !!.) (wait_mode s1 !!.)), Hsp in Hrun by done.
      destruct Hrun as (Hr & Hin2 & Hch2 & Hw2 & Hinv2). exists s2. rewrite Hbody.
      split; [done|]. split; [done|]. split; [by apply (changed_trans s s1 s2 [] woken)|done].
    + exists s3. split; [done|]. split; [done|]. split; [|done]. eapply res_inv_changed; [exact Hch3|set_solver|done].
  - destruct (critical_ok body s (mkRes RESOURCE_SHARED (WaitingThreads l) num) [] [] (fun _ => True) Hout)
      as (s2 & s3 & Hr & Hout3 & Hch & _ & _).
    { intros s1 Hin1 Hch1. exists s1. by rewrite Hbody. }
    exists s3. split; [done|]. split; [done|]. split; [|done].
    eapply res_inv_changed; [exact Hch|set_solver|]. split; [done|]. split; [done|]. split; [done|]. simpl.
    apply andb_false_iff in Hb as [Hb|Hb].
    + apply bool_decide_eq_false in Hb. destruct (Hpos Hb) as [Hlt E]. rewrite E in Hs.
      destruct (WaitingThreads l); [done|]. split; [lia|apply Hs].
    + by destruct (WaitingThreads l).
Qed.

(** [ResourceUnlockShared] by a holder. *)
Lemma ResourceUnlockShared_ok s l :
  outside s -> running s -> res_inv s l -> State l = RESOURCE_SHARED -> 0 < NumShared l -> zlen (WaitingThreads l) <= max64 ->
  exists s', let '(l', woken) := released s l (NumShared l - 1) in
    ResourceUnlockShared l s = Ok (l', s') /\ outside s' /\ res_inv s' l' /\ changed s s' woken [].
Proof.
  intros Hout Hrn Hinv E Hpos Hmax. pose proof Hinv as (Hw & Hk & Hn & Hs). unfold ResourceUnlockShared.
  apply wake_critical; try done; [lia|intros _; split; [lia|done]|].
  intros s1. rewrite E, w64_small by (unfold u64, max64 in *; lia).
  destruct (Z.eqb_spec (NumShared l - 1) 0) as [E2|E2].
  - rewrite bool_decide_true by done. rewrite E2. simpl. by destruct (negb _).
  - rewrite bool_decide_false by done. simpl. by destruct (Z.eqb_spec (NumShared l - 1) 0).
Qed.

(** [ResourceUnlockExclusive] by the holder. *)
Lemma ResourceUnlockExclusive_ok s l :
  outside s -> running s -> res_inv s l -> State l = RESOURCE_EXCLUSIVE -> zlen (WaitingThreads l) <= max64 ->
  exists s', let '(l', woken) := released s l 0 in
    ResourceUnlockExclusive l s = Ok (l', s') /\ outside s' /\ res_inv s' l' /\ changed s s' woken [].
Proof.
  intros Hout Hrn Hinv E Hmax. pose proof Hinv as (Hw & Hk & Hn & Hs). rewrite E in Hs. unfold ResourceUnlockExclusive.
  apply wake_critical; try done.
  intros s1. rewrite (bool_decide_true (0 = 0)), Hs by done. cbn [andb]. st_step assert_true. rewrite E.
  destruct l as [st [|d q] num]; simpl in *; by subst.
Qed.

(** ** Histories *)

(** The requests that an unlock takes from the queue. *)
Definition popped (l l' : RESOURCE) : list ctx :=
  take (length (WaitingThreads l) - length (WaitingThreads l')) (WaitingThreads l).

Definition of_mode s (r : RESOURCE_STATE) (cs : list ctx) : list ctx :=
  filter (fun c => wait_mode s !! c = Some r) cs.

(** The states a resource goes through in [n] lock calls, with the contexts that hold it [shared] and
    [excl]usive: a caller that is not queued and a request that leaves the queue become
    holders, and only holders unlock.  Between two calls anything may happen that keeps
    the queued contexts queued. *)
Inductive res_hist : Z -> S -> RESOURCE -> list ctx -> list ctx -> Prop :=
| res_init_shared s : outside s -> res_hist 0 s (ResourceInit RESOURCE_SHARED) [] []
| res_init_exclusive s c : outside s -> res_hist 0 s (ResourceInit RESOURCE_EXCLUSIVE) [] [c]
| res_lock_shared n s l shared excl oc l' s' :
    res_hist n s l shared excl -> caller s oc -> ResourceLockShared oc l s = Ok (l', s') ->
    res_hist (n + 1) s' l' (if bool_decide (default (active s) oc ∈ WaitingThreads l') then shared
      else default (active s) oc :: shared) excl
| res_lock_exclusive n s l shared excl oc l' s' :
    res_hist n s l shared excl -> caller s oc -> ResourceLockExclusive oc l s = Ok (l', s') ->
    res_hist (n + 1) s' l' shared (if bool_decide (default (active s) oc ∈ WaitingThreads l') then excl
      else default (active s) oc :: excl)
| res_unlock_shared n s l c shared shared' excl l' s' :
    res_hist n s l shared excl -> shared ≡ₚ c :: shared' -> running s -> ResourceUnlockShared l s = Ok (l', s') ->
    res_hist n s' l' (of_mode s RESOURCE_SHARED (popped l l') ++ shared')
      (of_mode s RESOURCE_EXCLUSIVE (popped l l') ++ excl)
| res_unlock_exclusive n s l c shared excl excl' l' s' :
    res_hist n s l shared excl -> excl ≡ₚ c :: excl' -> running s -> ResourceUnlockExclusive l s = Ok (l', s') ->
    res_hist n s' l' (of_mode s RESOURCE_SHARED (popped l l') ++ shared)
      (of_mode s RESOURCE_EXCLUSIVE (popped l l') ++ excl')
| res_other n s l shared excl s' :
    res_hist n s l shared excl -> outside s' -> (waiters s (WaitingThreads l) -> waiters s' (WaitingThreads l)) ->
    Forall (fun c => wait_mode s' !! c = wait_mode s !! c) (WaitingThreads l) ->
    res_hist n s' l shared excl.

(** Many shared holders or one exclusive holder. *)
Definition holders_ok (l : RESOURCE) (shared excl : list ctx) : Prop :=
  match State l with
  | RESOURCE_SHARED => excl = [] /\ NumShared l = zlen shared
  | RESOURCE_EXCLUSIVE => shared = [] /\ exists c, excl = [c]
  end.

Lemma popped_app l l' woken : WaitingThreads l = woken ++ WaitingThreads l' -> popped l l' = woken.
Proof.
  intros E. unfold popped. rewrite E, length_app, Nat.add_sub. apply take_app_length.
Qed.

Lemma of_mode_all s r r' cs : Forall (fun c => wait_mode s !! c = Some r) cs ->
  of_mode s r' cs = if bool_decide (r' = r) then cs else [].
Proof.
  induction 1 as [|c cs Hc _ IH]; [by case_bool_decide|]. unfold of_mode in *. rewrite filter_cons, IH. case_bool_decide as Hr.
  - subst. by rewrite decide_True.
  - rewrite decide_False; [done|]. congruence.
Qed.

(** An unlock that leaves [num] shared holders hands the lock on. *)
Lemma released_holders s l num l' woken shared :
  res_inv s l -> released s l num = (l', woken) -> zlen shared = num -> num = 0 \/ State l = RESOURCE_SHARED ->
  holders_ok l' (of_mode s RESOURCE_SHARED (popped l l') ++ shared) (of_mode s RESOURCE_EXCLUSIVE (popped l l')).
Proof.
  intros (Hw & Hk & Hn & Hs) Hrel Hz Hcase. unfold released in Hrel.
  destruct (bool_decide (num = 0) && negb (lq_is_empty (WaitingThreads l))) eqn:Hb.
  - apply andb_true_iff in Hb as [Hb0 Hb]. apply bool_decide_eq_true in Hb0.
    assert (shared = []) as -> by (destruct shared; [done|unfold zlen in *; simpl in *; lia]).
    assert (WaitingThreads l <> []) as Hne by (by destruct (WaitingThreads l)).
    pose proof (wake_spec_free (wait_mode s !!.) (WaitingThreads l) (State l) Hne Hk) as Hsp.
    rewrite Hrel in Hsp. destruct Hsp as [Hq Hsp]. rewrite (popped_app _ _ _ Hq), app_nil_r.
    destruct Hsp as [(E & _ & c & -> & Hc)|(E & _ & Hns & Hf & _)]; unfold holders_ok; rewrite E.
    + rewrite !(of_mode_all s RESOURCE_EXCLUSIVE) by (by apply Forall_singleton). simpl. eauto.
    + rewrite !(of_mode_all s RESOURCE_SHARED) by done. simpl. done.
  - injection Hrel as <- <-. rewrite (popped_app _ _ []) by done. unfold of_mode. simpl. by rewrite <- Hz.
Qed.

Lemma released_size s l num l' woken :
  res_inv s l -> released s l num = (l', woken) -> 0 <= num <= NumShared l ->
  zlen (WaitingThreads l') + NumShared l' <= zlen (WaitingThreads l) + NumShared l.
Proof.
  intros (Hw & Hk & Hn & Hs) Hrel Hnum. unfold released in Hrel.
  destruct (bool_decide (num = 0) && negb (lq_is_empty (WaitingThreads l))) eqn:Hb; [|by injection Hrel as <- <-; simpl; lia].
  apply andb_true_iff in Hb as [_ Hb]. assert (WaitingThreads l <> []) as Hne by (by destruct (WaitingThreads l)).
  pose proof (wake_spec_free (wait_mode s !!.) (WaitingThreads l) (State l) Hne Hk) as Hsp.
  rewrite Hrel in Hsp. destruct Hsp as [Hq Hsp]. rewrite Hq. unfold zlen in *. rewrite length_app.
  destruct Hsp as [(_ & -> & _)|(_ & _ & -> & _)]; lia.
Qed.

Lemma res_hist_nonneg n s l shared excl : res_hist n s l shared excl -> 0 <= n.
Proof. induction 1; lia. Qed.

Definition hist_inv (n : Z) (s : S) (l : RESOURCE) (shared excl : list ctx) : Prop :=
  outside s /\ res_inv s l /\ holders_ok l shared excl /\ zlen (WaitingThreads l) + NumShared l <= n.

Lemma lock_shared_hist n s l shared excl oc l' s' :
  hist_inv n s l shared excl -> n < max64 -> caller s oc -> ResourceLockShared oc l s = Ok (l', s') ->
  hist_inv (n + 1) s' l' (if bool_decide (default (active s) oc ∈ WaitingThreads l') then shared
    else default (active s) oc :: shared) excl.
Proof.
  intros (Hout & Hinv & Hho & Hsz) Hmax Hcall Hrun. pose proof (Zle_0_nat (length (WaitingThreads l))).
  destruct (ResourceLockShared_ok s l oc Hout Hcall Hinv) as (s1 & l1 & Hr & Hout' & Hinv' & Hcase); [unfold zlen in *; lia|].
  rewrite Hr in Hrun. injection Hrun as -> ->. split; [done|]. split; [done|]. unfold holders_ok in *.
  destruct (bool_decide_reflect (WaitingThreads l = [] /\ State l = RESOURCE_SHARED)) as [[E1 E2]|_]; destruct Hcase as [-> _]; simpl.
  - rewrite E2 in Hho. destruct Hho as [-> Hns]. split; [|unfold zlen in *; simpl; lia]. split; [done|].
    unfold zlen in *. simpl. lia.
  - rewrite bool_decide_true by (apply elem_of_app; right; by apply list_elem_of_singleton).
    split; [done|]. unfold zlen in *. rewrite length_app. simpl. lia.
Qed.

Lemma lock_exclusive_hist n s l shared excl oc l' s' :
  hist_inv n s l shared excl -> caller s oc -> ResourceLockExclusive oc l s = Ok (l', s') ->
  hist_inv (n + 1) s' l' shared (if bool_decide (default (active s) oc ∈ WaitingThreads l') then excl
    else default (active s) oc :: excl).
Proof.
  intros (Hout & Hinv & Hho & Hsz) Hcall Hrun. pose proof Hinv as (_ & _ & Hn & _). pose proof (Zle_0_nat (length (WaitingThreads l))).
  destruct (ResourceLockExclusive_ok s l oc Hout Hcall Hinv) as (s1 & l1 & Hr & Hout' & Hinv' & Hcase).
  rewrite Hr in Hrun. injection Hrun as -> ->. split; [done|]. split; [done|]. unfold holders_ok in *.
  destruct (bool_decide_reflect (WaitingThreads l = [] /\ State l = RESOURCE_SHARED /\ NumShared l = 0)) as [(E1 & E2 & E3)|_];
    destruct Hcase as [-> _]; simpl.
  - rewrite E2 in Hho. destruct Hho as [-> Hns]. split; [|unfold zlen in *; simpl; lia]. split; [|by eexists].
    destruct shared; [done|unfold zlen in *; simpl in *; lia].
  - rewrite bool_decide_true by (apply elem_of_app; right; by apply list_elem_of_singleton).
    split; [done|]. unfold zlen in *. rewrite length_app. simpl. lia.
Qed.

Lemma unlock_shared_hist n s l c shared shared' excl l' s' :
  hist_inv n s l shared excl -> n < max64 -> shared ≡ₚ c :: shared' -> running s -> ResourceUnlockShared l s = Ok (l', s') ->
  hist_inv n s' l' (of_mode s RESOURCE_SHARED (popped l l') ++ shared') (of_mode s RESOURCE_EXCLUSIVE (popped l l') ++ excl).
Proof.
  intros (Hout & Hinv & Hho & Hsz) Hmax Hp Hrn Hrun. unfold holders_ok in Hho.
  destruct (State l) eqn:E; [|destruct Hho as [-> _]; by apply Permutation_nil_cons in Hp].
  destruct Hho as [-> Hns]. assert (zlen shared = 1 + zlen shared') as Hz by (unfold zlen; rewrite Hp; simpl; lia).
  pose proof (Zle_0_nat (length shared')). pose proof (Zle_0_nat (length (WaitingThreads l))).
  destruct (ResourceUnlockShared_ok s l Hout Hrn Hinv E) as (s1 & Hrel); [unfold zlen in *; lia..|].
  destruct (released s l (NumShared l - 1)) as [l1 woken] eqn:Er. destruct Hrel as (Hr & Hout' & Hinv' & _).
  rewrite Hr in Hrun. injection Hrun as -> ->. split; [done|]. split; [done|]. rewrite app_nil_r. split.
  - apply (released_holders s l (NumShared l - 1) l' woken shared'); [done|done|lia|by right].
  - pose proof (released_size s l _ _ _ Hinv Er). unfold zlen in *. lia.
Qed.

Lemma unlock_exclusive_hist n s l c shared excl excl' l' s' :
  hist_inv n s l shared excl -> n < max64 -> excl ≡ₚ c :: excl' -> running s -> ResourceUnlockExclusive l s = Ok (l', s') ->
  hist_inv n s' l' (of_mode s RESOURCE_SHARED (popped l l') ++ shared) (of_mode s RESOURCE_EXCLUSIVE (popped l l') ++ excl').
Proof.
  intros (Hout & Hinv & Hho & Hsz) Hmax Hp Hrn Hrun. pose proof Hinv as (_ & _ & Hn & _). unfold holders_ok in Hho.
  destruct (State l) eqn:E; [destruct Hho as [-> _]; by apply Permutation_nil_cons in Hp|].
  destruct Hho as [-> [d ->]]. assert (excl' = []) as -> by (pose proof (Permutation_length Hp); by destruct excl').
  destruct (ResourceUnlockExclusive_ok s l Hout Hrn Hinv E) as (s1 & Hrel); [unfold zlen in *; lia|].
  destruct (released s l 0) as [l1 woken] eqn:Er. destruct Hrel as (Hr & Hout' & Hinv' & _).
  rewrite Hr in Hrun. injection Hrun as -> ->. split; [done|]. split; [done|]. split.
  - rewrite (app_nil_r (of_mode s RESOURCE_EXCLUSIVE _)).
    apply (released_holders s l 0 l' woken []); [done|done|done|by left].
  - pose proof (released_size s l _ _ _ Hinv Er). unfold zlen in *. lia.
Qed.

Lemma res_hist_ok n s l shared excl : res_hist n s l shared excl -> n < max64 -> hist_inv n s l shared excl.
Proof.
  induction 1 as [s Hout|s c Hout|n s l shared excl oc l' s' Hh IH Hcall Hrun
    |n s l shared excl oc l' s' Hh IH Hcall Hrun|n s l c shared shared' excl l' s' Hh IH Hp Hrn Hrun
    |n s l c shared excl excl' l' s' Hh IH Hp Hrn Hrun|n s l shared excl s' Hh IH Hout Hw Hm]; intros Hmax.
  - split; [done|]. split; [|done]. unfold res_inv, max64. simpl. split; [by split; [apply NoDup_nil_2|apply Forall_nil]|].
    split; [by apply Forall_nil|]. split; [lia|done].
  - split; [done|]. split; [|split; [|done]; split; [done|by exists c]]. unfold res_inv, max64. simpl.
    split; [by split; [apply NoDup_nil_2|apply Forall_nil]|]. split; [by apply Forall_nil|]. split; [lia|done].
  - apply lock_shared_hist with l; [apply IH; lia|lia|done|done].
  - apply lock_exclusive_hist with l; [apply IH; lia|done|done].
  - apply unlock_shared_hist with c shared; auto.
  - apply unlock_exclusive_hist with c excl; auto.
  - destruct (IH Hmax) as (_ & (Hws & Hk & Hn & Hs) & Hho & Hsz). split; [done|]. split; [|done].
    split; [by apply Hw|]. split; [|split; [done|]].
    + unfold modes_known in *. rewrite Forall_forall in *. intros c Hc. rewrite Hm by done. by apply Hk.
    + destruct (State l); [|done]. destruct (WaitingThreads l); [done|]. apply Forall_cons in Hm as [-> _]. done.
Qed.

(** ** Properties *)

(** C6: in every history of a resource lock it is held by shared holders only, whose
    number is [NumShared], or by exactly one exclusive holder, and a request waits only
    while somebody holds the lock. *)
Theorem resource_exclusion n s l shared excl :
  res_hist n s l shared excl -> n < max64 ->
  (State l = RESOURCE_SHARED -> excl = [] /\ NumShared l = zlen shared) /\
  (State l = RESOURCE_EXCLUSIVE -> shared = [] /\ exists c, excl = [c]) /\
  (WaitingThreads l <> [] -> shared <> [] \/ excl <> []).
Proof.
  intros Hh Hn. destruct (res_hist_ok n s l shared excl Hh Hn) as (_ & (_ & _ & _ & Hs) & Hho & _).
  unfold holders_ok in Hho. split; [by intros E; rewrite E in Hho|]. split; [by intros E; rewrite E in Hho|].
  intros Hw. destruct (State l).
  - left. intros ->. destruct (WaitingThreads l); [done|]. destruct Hho as [_ E], Hs as [Hpos _]. rewrite E in Hpos. done.
  - right. destruct Hho as (_ & c & ->). done.
Qed.

(** C27: no call in a history of a resource lock panics or gets stuck: a caller can ask
    for either mode, and a holder can release the mode it holds. *)
Theorem resource_progress n s l shared excl oc :
  res_hist n s l shared excl -> n < max64 -> caller s oc ->
  (exists l' s', ResourceLockShared oc l s = Ok (l', s')) /\
  (exists l' s', ResourceLockExclusive oc l s = Ok (l', s')) /\
  (shared <> [] -> exists l' s', ResourceUnlockShared l s = Ok (l', s')) /\
  (excl <> [] -> exists l' s', ResourceUnlockExclusive l s = Ok (l', s')).
Proof.
  intros Hh Hn Hcall. destruct (res_hist_ok n s l shared excl Hh Hn) as (Hout & Hinv & Hho & Hsz).
  pose proof Hinv as (_ & _ & Hnum & _). pose proof (Zle_0_nat (length (WaitingThreads l))).
  pose proof (proj1 Hcall) as Hrun. unfold holders_ok in Hho.
  split; [|split; [|split]].
  - destruct (ResourceLockShared_ok s l oc Hout Hcall Hinv) as (s' & l' & Hr & _); [unfold zlen in *; lia|]. by exists l', s'.
  - destruct (ResourceLockExclusive_ok s l oc Hout Hcall Hinv) as (s' & l' & Hr & _). by exists l', s'.
  - intros Hne. destruct (State l) eqn:E; [|by destruct Hho].
    destruct (ResourceUnlockShared_ok s l Hout Hrun Hinv E) as (s' & Hrel);
      [destruct Hho as [_ ->]; unfold zlen; destruct shared; [done|simpl; lia]|unfold zlen in *; lia|].
    destruct (released s l (NumShared l - 1)) as [l' w]. exists l', s'. apply Hrel.
  - intros Hne. destruct (State l) eqn:E; [by destruct Hho|].
    destruct (ResourceUnlockExclusive_ok s l Hout Hrun Hinv E) as (s' & Hrel); [unfold zlen in *; lia|].
    destruct (released s l 0) as [l' w]. exists l', s'. apply Hrel.
Qed.
End proofs.
