(* ===== verification/Kernel.v ===== *)
(** * The state of the kernel

    The objects and globals of the kernel units in one record, with the setters and
    accessors the units use.  Handlers, threads, work items and locks live in maps
    indexed by their addresses; function pointers are the constructors of the
    enumerations of the functions that the kernel installs. *)

From S2P Require Import Prelude RingBuffer LinkedList LockClass Semaphore Barrier Resource WeightedLink HeapTree Isr.

Abbreviation hid := positive.
Abbreviation tid := positive.

(** ** Handlers (kernel/handler.h) *)

Inductive HANDLER_STATE := HANDLER_READY | HANDLER_QUEUED | HANDLER_RUNNING.

#[export] Instance HANDLER_STATE_eq_dec : EqDecision HANDLER_STATE.
Proof. solve_decision. Defined.

(** The [HANDLER_FUNCTION]s of the kernel. *)
Inductive HANDLER_FUNCTION :=
| SchedulerTimerHandler_ | SchedulerCritHandler_ | SleepTimerHandler_ | SleepCritHandler_
| GenerationUpdateHandler_.

(** The [HANDLER_COMPLETE_FUNCTION]s of the kernel. *)
Inductive HANDLER_COMPLETE_FUNCTION := PostCritHandler_.

#[export] Instance HANDLER_FUNCTION_eq_dec : EqDecision HANDLER_FUNCTION.
Proof. solve_decision. Defined.

(** The objects a handler's [Context] points to. *)
Inductive HANDLER_CONTEXT := NullContext | SignalContext (s : positive) | GenerationContext (g : positive).

Record HANDLER_OBJECT := mkHandler {
  Function : option HANDLER_FUNCTION;
  Context : HANDLER_CONTEXT;
  CompleteFunction : option HANDLER_COMPLETE_FUNCTION;
  HState : HANDLER_STATE
}.

(** ** Locking contexts (kernel/locking.h) *)

Inductive BLOCK_FUNCTION := SchedulerBlockOnLock_ | WorkerBlockOnLock_ | LockingBlockNonBlocking_.
Inductive WAKE_FUNCTION := SchedulerWakeOnLock_ | WorkerWakeOnLock_ | LockingWakeNonBlocking_.

Record LOCKING_CONTEXT := mkContext {
  LState : LOCKING_STATE;
  BlockingContext : RESOURCE_STATE;
  BlockFunction : BLOCK_FUNCTION;
  WakeFunction : WAKE_FUNCTION
}.

(** ** Threads (kernel/thread.h, kernel/context.h) *)

Inductive THREAD_STATE := THREAD_STATE_RUNNING | THREAD_STATE_BLOCKED | THREAD_STATE_DONE.

#[export] Instance THREAD_STATE_eq_dec : EqDecision THREAD_STATE.
Proof. solve_decision. Defined.

(** Where a thread continues when it is switched to: at [ContextBootstrap] on its fresh
    stack, or inside the [ContextSwitch] that left it. *)
Inductive MACHINE_CONTEXT := Bootstrap | Suspended.

#[export] Instance MACHINE_CONTEXT_eq_dec : EqDecision MACHINE_CONTEXT.
Proof. solve_decision. Defined.

Record CONTEXT := mkStack {
  MachineState : MACHINE_CONTEXT;
  TimesRun : Z;
  TimesSwitched : Z;
  LastRanTime : Z;
  LastSelectedTime : Z
}.

Record THREAD := mkThread {
  Priority : Z;
  TState : THREAD_STATE;
  ResultLock : RESOURCE;
  Stack : CONTEXT;
  Main : Z;
  Argument : Z;
  Local : Z;
  Result : Z
}.

(** ** Work items (kernel/worker.h) *)

Record WORKER_QUEUE := mkQueue {
  QThread : tid;
  QList : list positive;
  QLock : SEMAPHORE
}.

Record WORKER_ITEM := mkItem {
  Queue : positive;
  Foo : Z;
  IContext : Z;
  Finished : bool
}.

(** ** Generations updated from interrupts (kernel/generation.h) *)

Record GENERATION_CONTEXT := mkGenCtx { GGeneration : positive; NewValue : Z }.

(** ** The serial port (kernel/serial.c) *)

(** What a call of [read] on the terminal gives. *)
Inductive tty_read := Got (c : Z) | Nothing_ | Failed_.

(** The rings and the counter of serial.c, and the terminal: the results of the coming
    reads, and the bytes that were written to it. *)
Record SERIAL := mkSerial {
  SerialInputRing : RING_BUFFER;
  SerialOutputRing : RING_BUFFER;
  ReadGenerationCount : Z;
  TtyIn : list tty_read;
  TtyOut : list Z
}.

(** ** The kernel *)

Record KERNEL := mkKernel {
  Cpu : CPU;
  Clock : Z;                                  (* what HalGetTime returns *)
  ITimer : option (Z * Z);                    (* ITIMER_REAL: seconds, microseconds *)
  Handlers : gmap hid HANDLER_OBJECT;
  Links : wstore;                             (* their links, as timers *)
  CritInterruptHandlerList : list hid;
  SoftInterruptHandlerList : list hid;
  TimerLastTime : Z;
  TimerHeap1 : HEAP;
  TimerHeap2 : HEAP;
  TimersIs1 : bool;                           (* Timers == &TimerHeap1 *)
  Threads : gmap tid THREAD;
  Contexts : gmap ctx LOCKING_CONTEXT;
  ActiveThread : option tid;
  NextThread : option tid;
  RunQueue : list tid;
  SchedulerMutex : Z;                         (* Locked *)
  QuantumStartTime : Z;
  RunningThreads : Z;
  Shutdown : bool;
  Halted : bool;                              (* HalShutdownNow was called *)
  Signals : gmap positive SIGNAL;
  Generations : gmap positive GENERATION;
  GenContexts : gmap positive GENERATION_CONTEXT;
  WorkerQueues : gmap positive WORKER_QUEUE;
  WorkerItems : gmap positive WORKER_ITEM;
  SerialPort : SERIAL
}.

(** The statically allocated objects. *)
Definition SchedulerTimer : hid := 1%positive.
Definition SchedulerCritObject : hid := 2%positive.
Definition IdleThread : tid := 1%positive.
Definition ReadGenerationCritObject : hid := 3%positive.
Definition ReadGeneration : positive := 1%positive.
Definition ReadGenerationContext : positive := 1%positive.

Definition set_Cpu v k := mkKernel v (Clock k) (ITimer k) (Handlers k) (Links k)
  (CritInterruptHandlerList k) (SoftInterruptHandlerList k) (TimerLastTime k) (TimerHeap1 k)
  (TimerHeap2 k) (TimersIs1 k) (Threads k) (Contexts k) (ActiveThread k) (NextThread k)
  (RunQueue k) (SchedulerMutex k) (QuantumStartTime k) (RunningThreads k) (Shutdown k) (Halted k)
  (Signals k) (Generations k) (GenContexts k) (WorkerQueues k) (WorkerItems k) (SerialPort k).
Definition set_Clock v k := mkKernel (Cpu k) v (ITimer k) (Handlers k) (Links k)
  (CritInterruptHandlerList k) (SoftInterruptHandlerList k) (TimerLastTime k) (TimerHeap1 k)
  (TimerHeap2 k) (TimersIs1 k) (Threads k) (Contexts k) (ActiveThread k) (NextThread k)
  (RunQueue k) (SchedulerMutex k) (QuantumStartTime k) (RunningThreads k) (Shutdown k) (Halted k)
  (Signals k) (Generations k) (GenContexts k) (WorkerQueues k) (WorkerItems k) (SerialPort k).
Definition set_ITimer v k := mkKernel (Cpu k) (Clock k) v (Handlers k) (Links k)
  (CritInterruptHandlerList k) (SoftInterruptHandlerList k) (TimerLastTime k) (TimerHeap1 k)
  (TimerHeap2 k) (TimersIs1 k) (Threads k) (Contexts k) (ActiveThread k) (NextThread k)
  (RunQueue k) (SchedulerMutex k) (QuantumStartTime k) (RunningThreads k) (Shutdown k) (Halted k)
  (Signals k) (Generations k) (GenContexts k) (WorkerQueues k) (WorkerItems k) (SerialPort k).
Definition set_Handlers v k := mkKernel (Cpu k) (Clock k) (ITimer k) v (Links k)
  (CritInterruptHandlerList k) (SoftInterruptHandlerList k) (TimerLastTime k) (TimerHeap1 k)
  (TimerHeap2 k) (TimersIs1 k) (Threads k) (Contexts k) (ActiveThread k) (NextThread k)
  (RunQueue k) (SchedulerMutex k) (QuantumStartTime k) (RunningThreads k) (Shutdown k) (Halted k)
  (Signals k) (Generations k) (GenContexts k) (WorkerQueues k) (WorkerItems k) (SerialPort k).
Definition set_Links v k := mkKernel (Cpu k) (Clock k) (ITimer k) (Handlers k) v
  (CritInterruptHandlerList k) (SoftInterruptHandlerList k) (TimerLastTime k) (TimerHeap1 k)
  (TimerHeap2 k) (TimersIs1 k) (Threads k) (Contexts k) (ActiveThread k) (NextThread k)
  (RunQueue k) (SchedulerMutex k) (QuantumStartTime k) (RunningThreads k) (Shutdown k) (Halted k)
  (Signals k) (Generations k) (GenContexts k) (WorkerQueues k) (WorkerItems k) (SerialPort k).
Definition set_CritInterruptHandlerList v k := mkKernel (Cpu k) (Clock k) (ITimer k) (Handlers k)
  (Links k) v (SoftInterruptHandlerList k) (TimerLastTime k) (TimerHeap1 k) (TimerHeap2 k)
  (TimersIs1 k) (Threads k) (Contexts k) (ActiveThread k) (NextThread k) (RunQueue k)
  (SchedulerMutex k) (QuantumStartTime k) (RunningThreads k) (Shutdown k) (Halted k) (Signals k)
  (Generations k) (GenContexts k) (WorkerQueues k) (WorkerItems k) (SerialPort k).
Definition set_SoftInterruptHandlerList v k := mkKernel (Cpu k) (Clock k) (ITimer k) (Handlers k)
  (Links k) (CritInterruptHandlerList k) v (TimerLastTime k) (TimerHeap1 k) (TimerHeap2 k)
  (TimersIs1 k) (Threads k) (Contexts k) (ActiveThread k) (NextThread k) (RunQueue k)
  (SchedulerMutex k) (QuantumStartTime k) (RunningThreads k) (Shutdown k) (Halted k) (Signals k)
  (Generations k) (GenContexts k) (WorkerQueues k) (WorkerItems k) (SerialPort k).
Definition set_TimerLastTime v k := mkKernel (Cpu k) (Clock k) (ITimer k) (Handlers k) (Links k)
  (CritInterruptHandlerList k) (SoftInterruptHandlerList k) v (TimerHeap1 k) (TimerHeap2 k)
  (TimersIs1 k) (Threads k) (Contexts k) (ActiveThread k) (NextThread k) (RunQueue k)
  (SchedulerMutex k) (QuantumStartTime k) (RunningThreads k) (Shutdown k) (Halted k) (Signals k)
  (Generations k) (GenContexts k) (WorkerQueues k) (WorkerItems k) (SerialPort k).
Definition set_TimerHeap1 v k := mkKernel (Cpu k) (Clock k) (ITimer k) (Handlers k) (Links k)
  (CritInterruptHandlerList k) (SoftInterruptHandlerList k) (TimerLastTime k) v (TimerHeap2 k)
  (TimersIs1 k) (Threads k) (Contexts k) (ActiveThread k) (NextThread k) (RunQueue k)
  (SchedulerMutex k) (QuantumStartTime k) (RunningThreads k) (Shutdown k) (Halted k) (Signals k)
  (Generations k) (GenContexts k) (WorkerQueues k) (WorkerItems k) (SerialPort k).
Definition set_TimerHeap2 v k := mkKernel (Cpu k) (Clock k) (ITimer k) (Handlers k) (Links k)
  (CritInterruptHandlerList k) (SoftInterruptHandlerList k) (TimerLastTime k) (TimerHeap1 k) v
  (TimersIs1 k) (Threads k) (Contexts k) (ActiveThread k) (NextThread k) (RunQueue k)
  (SchedulerMutex k) (QuantumStartTime k) (RunningThreads k) (Shutdown k) (Halted k) (Signals k)
  (Generations k) (GenContexts k) (WorkerQueues k) (WorkerItems k) (SerialPort k).
Definition set_TimersIs1 v k := mkKernel (Cpu k) (Clock k) (ITimer k) (Handlers k) (Links k)
  (CritInterruptHandlerList k) (SoftInterruptHandlerList k) (TimerLastTime k) (TimerHeap1 k)
  (TimerHeap2 k) v (Threads k) (Contexts k) (ActiveThread k) (NextThread k) (RunQueue k)
  (SchedulerMutex k) (QuantumStartTime k) (RunningThreads k) (Shutdown k) (Halted k) (Signals k)
  (Generations k) (GenContexts k) (WorkerQueues k) (WorkerItems k) (SerialPort k).
Definition set_Threads v k := mkKernel (Cpu k) (Clock k) (ITimer k) (Handlers k) (Links k)
  (CritInterruptHandlerList k) (SoftInterruptHandlerList k) (TimerLastTime k) (TimerHeap1 k)
  (TimerHeap2 k) (TimersIs1 k) v (Contexts k) (ActiveThread k) (NextThread k) (RunQueue k)
  (SchedulerMutex k) (QuantumStartTime k) (RunningThreads k) (Shutdown k) (Halted k) (Signals k)
  (Generations k) (GenContexts k) (WorkerQueues k) (WorkerItems k) (SerialPort k).
Definition set_Contexts v k := mkKernel (Cpu k) (Clock k) (ITimer k) (Handlers k) (Links k)
  (CritInterruptHandlerList k) (SoftInterruptHandlerList k) (TimerLastTime k) (TimerHeap1 k)
  (TimerHeap2 k) (TimersIs1 k) (Threads k) v (ActiveThread k) (NextThread k) (RunQueue k)
  (SchedulerMutex k) (QuantumStartTime k) (RunningThreads k) (Shutdown k) (Halted k) (Signals k)
  (Generations k) (GenContexts k) (WorkerQueues k) (WorkerItems k) (SerialPort k).
Definition set_ActiveThread v k := mkKernel (Cpu k) (Clock k) (ITimer k) (Handlers k) (Links k)
  (CritInterruptHandlerList k) (SoftInterruptHandlerList k) (TimerLastTime k) (TimerHeap1 k)
  (TimerHeap2 k) (TimersIs1 k) (Threads k) (Contexts k) v (NextThread k) (RunQueue k)
  (SchedulerMutex k) (QuantumStartTime k) (RunningThreads k) (Shutdown k) (Halted k) (Signals k)
  (Generations k) (GenContexts k) (WorkerQueues k) (WorkerItems k) (SerialPort k).
Definition set_NextThread v k := mkKernel (Cpu k) (Clock k) (ITimer k) (Handlers k) (Links k)
  (CritInterruptHandlerList k) (SoftInterruptHandlerList k) (TimerLastTime k) (TimerHeap1 k)
  (TimerHeap2 k) (TimersIs1 k) (Threads k) (Contexts k) (ActiveThread k) v (RunQueue k)
  (SchedulerMutex k) (QuantumStartTime k) (RunningThreads k) (Shutdown k) (Halted k) (Signals k)
  (Generations k) (GenContexts k) (WorkerQueues k) (WorkerItems k) (SerialPort k).
Definition set_RunQueue v k := mkKernel (Cpu k) (Clock k) (ITimer k) (Handlers k) (Links k)
  (CritInterruptHandlerList k) (SoftInterruptHandlerList k) (TimerLastTime k) (TimerHeap1 k)
  (TimerHeap2 k) (TimersIs1 k) (Threads k) (Contexts k) (ActiveThread k) (NextThread k) v
  (SchedulerMutex k) (QuantumStartTime k) (RunningThreads k) (Shutdown k) (Halted k) (Signals k)
  (Generations k) (GenContexts k) (WorkerQueues k) (WorkerItems k) (SerialPort k).
Definition set_SchedulerMutex v k := mkKernel (Cpu k) (Clock k) (ITimer k) (Handlers k) (Links k)
  (CritInterruptHandlerList k) (SoftInterruptHandlerList k) (TimerLastTime k) (TimerHeap1 k)
  (TimerHeap2 k) (TimersIs1 k) (Threads k) (Contexts k) (ActiveThread k) (NextThread k)
  (RunQueue k) v (QuantumStartTime k) (RunningThreads k) (Shutdown k) (Halted k) (Signals k)
  (Generations k) (GenContexts k) (WorkerQueues k) (WorkerItems k) (SerialPort k).
Definition set_QuantumStartTime v k := mkKernel (Cpu k) (Clock k) (ITimer k) (Handlers k)
  (Links k) (CritInterruptHandlerList k) (SoftInterruptHandlerList k) (TimerLastTime k)
  (TimerHeap1 k) (TimerHeap2 k) (TimersIs1 k) (Threads k) (Contexts k) (ActiveThread k)
  (NextThread k) (RunQueue k) (SchedulerMutex k) v (RunningThreads k) (Shutdown k) (Halted k)
  (Signals k) (Generations k) (GenContexts k) (WorkerQueues k) (WorkerItems k) (SerialPort k).
Definition set_RunningThreads v k := mkKernel (Cpu k) (Clock k) (ITimer k) (Handlers k) (Links k)
  (CritInterruptHandlerList k) (SoftInterruptHandlerList k) (TimerLastTime k) (TimerHeap1 k)
  (TimerHeap2 k) (TimersIs1 k) (Threads k) (Contexts k) (ActiveThread k) (NextThread k)
  (RunQueue k) (SchedulerMutex k) (QuantumStartTime k) v (Shutdown k) (Halted k) (Signals k)
  (Generations k) (GenContexts k) (WorkerQueues k) (WorkerItems k) (SerialPort k).
Definition set_Shutdown v k := mkKernel (Cpu k) (Clock k) (ITimer k) (Handlers k) (Links k)
  (CritInterruptHandlerList k) (SoftInterruptHandlerList k) (TimerLastTime k) (TimerHeap1 k)
  (TimerHeap2 k) (TimersIs1 k) (Threads k) (Contexts k) (ActiveThread k) (NextThread k)
  (RunQueue k) (SchedulerMutex k) (QuantumStartTime k) (RunningThreads k) v (Halted k) (Signals k)
  (Generations k) (GenContexts k) (WorkerQueues k) (WorkerItems k) (SerialPort k).
Definition set_Halted v k := mkKernel (Cpu k) (Clock k) (ITimer k) (Handlers k) (Links k)
  (CritInterruptHandlerList k) (SoftInterruptHandlerList k) (TimerLastTime k) (TimerHeap1 k)
  (TimerHeap2 k) (TimersIs1 k) (Threads k) (Contexts k) (ActiveThread k) (NextThread k)
  (RunQueue k) (SchedulerMutex k) (QuantumStartTime k) (RunningThreads k) (Shutdown k) v
  (Signals k) (Generations k) (GenContexts k) (WorkerQueues k) (WorkerItems k) (SerialPort k).
Definition set_Signals v k := mkKernel (Cpu k) (Clock k) (ITimer k) (Handlers k) (Links k)
  (CritInterruptHandlerList k) (SoftInterruptHandlerList k) (TimerLastTime k) (TimerHeap1 k)
  (TimerHeap2 k) (TimersIs1 k) (Threads k) (Contexts k) (ActiveThread k) (NextThread k)
  (RunQueue k) (SchedulerMutex k) (QuantumStartTime k) (RunningThreads k) (Shutdown k) (Halted k)
  v (Generations k) (GenContexts k) (WorkerQueues k) (WorkerItems k) (SerialPort k).
Definition set_Generations v k := mkKernel (Cpu k) (Clock k) (ITimer k) (Handlers k) (Links k)
  (CritInterruptHandlerList k) (SoftInterruptHandlerList k) (TimerLastTime k) (TimerHeap1 k)
  (TimerHeap2 k) (TimersIs1 k) (Threads k) (Contexts k) (ActiveThread k) (NextThread k)
  (RunQueue k) (SchedulerMutex k) (QuantumStartTime k) (RunningThreads k) (Shutdown k) (Halted k)
  (Signals k) v (GenContexts k) (WorkerQueues k) (WorkerItems k) (SerialPort k).
Definition set_GenContexts v k := mkKernel (Cpu k) (Clock k) (ITimer k) (Handlers k) (Links k)
  (CritInterruptHandlerList k) (SoftInterruptHandlerList k) (TimerLastTime k) (TimerHeap1 k)
  (TimerHeap2 k) (TimersIs1 k) (Threads k) (Contexts k) (ActiveThread k) (NextThread k)
  (RunQueue k) (SchedulerMutex k) (QuantumStartTime k) (RunningThreads k) (Shutdown k) (Halted k)
  (Signals k) (Generations k) v (WorkerQueues k) (WorkerItems k) (SerialPort k).
Definition set_WorkerQueues v k := mkKernel (Cpu k) (Clock k) (ITimer k) (Handlers k) (Links k)
  (CritInterruptHandlerList k) (SoftInterruptHandlerList k) (TimerLastTime k) (TimerHeap1 k)
  (TimerHeap2 k) (TimersIs1 k) (Threads k) (Contexts k) (ActiveThread k) (NextThread k)
  (RunQueue k) (SchedulerMutex k) (QuantumStartTime k) (RunningThreads k) (Shutdown k) (Halted k)
  (Signals k) (Generations k) (GenContexts k) v (WorkerItems k) (SerialPort k).
Definition set_WorkerItems v k := mkKernel (Cpu k) (Clock k) (ITimer k) (Handlers k) (Links k)
  (CritInterruptHandlerList k) (SoftInterruptHandlerList k) (TimerLastTime k) (TimerHeap1 k)
  (TimerHeap2 k) (TimersIs1 k) (Threads k) (Contexts k) (ActiveThread k) (NextThread k)
  (RunQueue k) (SchedulerMutex k) (QuantumStartTime k) (RunningThreads k) (Shutdown k) (Halted k)
  (Signals k) (Generations k) (GenContexts k) (WorkerQueues k) v (SerialPort k).
Definition set_SerialPort v k := mkKernel (Cpu k) (Clock k) (ITimer k) (Handlers k) (Links k)
  (CritInterruptHandlerList k) (SoftInterruptHandlerList k) (TimerLastTime k) (TimerHeap1 k)
  (TimerHeap2 k) (TimersIs1 k) (Threads k) (Contexts k) (ActiveThread k) (NextThread k)
  (RunQueue k) (SchedulerMutex k) (QuantumStartTime k) (RunningThreads k) (Shutdown k) (Halted k)
  (Signals k) (Generations k) (GenContexts k) (WorkerQueues k) (WorkerItems k) v.

(** A computation on the interrupt controller. *)
Definition on_cpu {A} (m : St CPU A) : St KERNEL A := fun k =>
  match m (Cpu k) with Ok (a, c) => Ok (a, set_Cpu c k) | Err e => Err e end.

(** A computation on the serial port. *)
Definition on_serial {A} (m : St SERIAL A) : St KERNEL A := fun k =>
  match m (SerialPort k) with Ok (a, s) => Ok (a, set_SerialPort s k) | Err e => Err e end.

(** A computation on the links of the handlers. *)
Definition on_links {A} (m : St wstore A) : St KERNEL A := fun k =>
  match m (Links k) with Ok (a, l) => Ok (a, set_Links l k) | Err e => Err e end.

(** [p->...] for an object of a store. *)
Definition fetch {A} (f : KERNEL -> gmap positive A) (p : positive) : St KERNEL A := fun k =>
  match f k !! p with Some a => Ok (a, k) | None => Err FNull end.

Definition handler (h : hid) : St KERNEL HANDLER_OBJECT := fetch Handlers h.
Definition put_handler (h : hid) (o : HANDLER_OBJECT) : St KERNEL unit :=
  modify (fun k => set_Handlers (<[h := o]> (Handlers k)) k).
Definition thread (t : tid) : St KERNEL THREAD := fetch Threads t.
Definition put_thread (t : tid) (o : THREAD) : St KERNEL unit :=
  modify (fun k => set_Threads (<[t := o]> (Threads k)) k).
Definition context (c : ctx) : St KERNEL LOCKING_CONTEXT := fun k =>
  match Contexts k !! c with Some a => Ok (a, k) | None => Err FNull end.
Definition put_context (c : ctx) (o : LOCKING_CONTEXT) : St KERNEL unit :=
  modify (fun k => set_Contexts (<[c := o]> (Contexts k)) k).

(** [ActiveThread->...]. *)
Definition active_thread : St KERNEL tid :=
  t ← gets ActiveThread;
  match t with Some t => mret t | None => fail FNull end.

Definition with_TState (s : THREAD_STATE) (t : THREAD) : THREAD :=
  mkThread (Priority t) s (ResultLock t) (Stack t) (Main t) (Argument t) (Local t) (Result t).
Definition with_ResultLock (r : RESOURCE) (t : THREAD) : THREAD :=
  mkThread (Priority t) (TState t) r (Stack t) (Main t) (Argument t) (Local t) (Result t).
Definition with_Stack (c : CONTEXT) (t : THREAD) : THREAD :=
  mkThread (Priority t) (TState t) (ResultLock t) c (Main t) (Argument t) (Local t) (Result t).
Definition with_Local (v : Z) (t : THREAD) : THREAD :=
  mkThread (Priority t) (TState t) (ResultLock t) (Stack t) (Main t) (Argument t) v (Result t).
Definition with_Result (v : Z) (t : THREAD) : THREAD :=
  mkThread (Priority t) (TState t) (ResultLock t) (Stack t) (Main t) (Argument t) (Local t) v.
Definition with_LState (s : LOCKING_STATE) (c : LOCKING_CONTEXT) : LOCKING_CONTEXT :=
  mkContext s (BlockingContext c) (BlockFunction c) (WakeFunction c).
Definition with_HState (s : HANDLER_STATE) (h : HANDLER_OBJECT) : HANDLER_OBJECT :=
  mkHandler (Function h) (Context h) (CompleteFunction h) s.
