(* ===== verification/Handler.v ===== *)
(** * Handlers, mutexes and the queueing of interrupt handlers
    (kernel/handler.c, mutex.c, critinterrupt.c, softinterrupt.c) *)

From S2P Require Import Prelude LinkedList LockClass WeightedLink Isr Kernel.

(** ** Atomic words and mutexes (utils/types.c, kernel/mutex.c) *)

(** The old value and the new one. *)
Definition AtomicGetAndOr (var val : Z) : Z * Z := (var, Z.lor var val).
Definition AtomicGetAndAnd (var val : Z) : Z * Z := (var, Z.land var val).
Definition AtomicGetAndSet (var : Z) : Z * Z := AtomicGetAndOr var 1.
Definition AtomicGetAndClear (var : Z) : Z * Z := AtomicGetAndAnd var 0.

Definition MutexInit (initialState : bool) : Z := if initialState then 1 else 0.

Definition MutexLock (lock : Z) : bool * Z :=
  let '(old, lock) := AtomicGetAndSet lock in (old =? 0, lock).

Definition MutexUnlock (lock : Z) : res Z :=
  let '(old, lock) := AtomicGetAndClear lock in
  assertr (negb (old =? 0));; Ok lock.

Definition MutexIsLocked (lock : Z) : bool := negb (lock =? 0).

(** ** kernel/handler.c *)

Definition HandlerInit (h : hid) : St KERNEL unit :=
  put_handler h (mkHandler None NullContext None HANDLER_READY).

Definition HandlerCompetion (h : hid) (foo : HANDLER_COMPLETE_FUNCTION) : St KERNEL unit :=
  o ← handler h;
  assert (bool_decide (HState o = HANDLER_READY));;
  assert (bool_decide (CompleteFunction o = None));;
  put_handler h (mkHandler (Function o) (Context o) (Some foo) (HState o)).

Definition HandlerRegister (h : hid) : St KERNEL unit :=
  o ← handler h;
  assert (bool_decide (HState o = HANDLER_READY) || bool_decide (HState o = HANDLER_RUNNING));;
  put_handler h (with_HState HANDLER_QUEUED o).

Definition HandlerRun (h : hid) : St KERNEL unit :=
  o ← handler h;
  assert (bool_decide (HState o = HANDLER_QUEUED));;
  put_handler h (with_HState HANDLER_RUNNING o).

(** kernel/scheduler.c: the completion function of the scheduler's handler. *)
Definition PostCritHandler (h : hid) : St KERNEL unit :=
  assert (bool_decide (h = SchedulerCritObject));;
  m ← gets SchedulerMutex;
  assert (MutexIsLocked m);;
  m ← liftr (MutexUnlock m);
  modify (set_SchedulerMutex m).

Definition call_complete (f : HANDLER_COMPLETE_FUNCTION) (h : hid) : St KERNEL unit :=
  match f with PostCritHandler_ => PostCritHandler h end.

Definition HandlerFinish (h : hid) : St KERNEL unit :=
  o ← handler h;
  let foo := CompleteFunction o in
  assert (bool_decide (HState o = HANDLER_RUNNING));;
  put_handler h (with_HState HANDLER_READY o);;
  match foo with Some f => call_complete f h | None => mret tt end.

Definition HandlerIsFinished (h : hid) : St KERNEL bool :=
  o ← handler h;
  mret (bool_decide (HState o = HANDLER_READY)).

(** ** Queueing *)

(** [AtomicListPush]; see AtomicList for its interleavings. *)
Definition atomic_push (h : hid) (l : list hid) : St KERNEL (list hid) :=
  if bool_decide (h ∈ l) then fail FRelink else mret (lq_push h l).

Definition CritInterruptRegisterHandler (h : hid) (foo : HANDLER_FUNCTION) (c : HANDLER_CONTEXT)
  : St KERNEL unit :=
  o ← handler h;
  put_handler h (mkHandler (Some foo) c (CompleteFunction o) (HState o));;
  HandlerRegister h;;
  l ← gets CritInterruptHandlerList;
  l ← atomic_push h l;
  modify (set_CritInterruptHandlerList l);;
  on_cpu (HalRaiseInterrupt IRQ_LEVEL_CRIT).

Definition SoftInterruptRegisterHandler (h : hid) (foo : HANDLER_FUNCTION) (c : HANDLER_CONTEXT)
  : St KERNEL unit :=
  o ← handler h;
  put_handler h (mkHandler (Some foo) c (CompleteFunction o) (HState o));;
  HandlerRegister h;;
  l ← gets SoftInterruptHandlerList;
  l ← atomic_push h l;
  modify (set_SoftInterruptHandlerList l);;
  on_cpu (HalRaiseInterrupt IRQ_LEVEL_SOFT).

Definition CritInterruptDisable : St KERNEL unit := on_cpu (IsrDisable IRQ_LEVEL_CRIT).
Definition CritInterruptEnable : St KERNEL unit := on_cpu (IsrEnable IRQ_LEVEL_CRIT).
Definition CritInterruptIsAtomic : St KERNEL bool := on_cpu (IsrIsAtomic IRQ_LEVEL_CRIT).
Definition SoftInterruptDisable : St KERNEL unit := on_cpu (IsrDisable IRQ_LEVEL_SOFT).
Definition SoftInterruptEnable : St KERNEL unit := on_cpu (IsrEnable IRQ_LEVEL_SOFT).
Definition SoftInterruptIsAtomic : St KERNEL bool := on_cpu (IsrIsAtomic IRQ_LEVEL_SOFT).
Definition TimerIsAtomic : St KERNEL bool := on_cpu (IsrIsAtomic IRQ_LEVEL_TIMER).

Definition CritInterruptStartup : St KERNEL unit :=
  modify (set_CritInterruptHandlerList []);;
  on_cpu (IsrRegisterHandler CritInterrupt_ HAL_ISR_CRIT IRQ_LEVEL_CRIT).

Definition SoftInterruptStartup : St KERNEL unit :=
  modify (set_SoftInterruptHandlerList []);;
  on_cpu (IsrRegisterHandler SoftInterrupt_ HAL_ISR_SOFT IRQ_LEVEL_SOFT).
