(* ===== verification/Timer.v ===== *)
(** * Timers (kernel/timer.c, time.c and the clock of hal/unix_hal.c) *)

From S2P Require Import Prelude LinkedList LockClass WeightedLink HeapTree Heap Isr Kernel Handler.

(** ** The clock *)

Definition HalGetTime : St KERNEL Z := gets Clock.
Definition TimeGet : St KERNEL Z := HalGetTime.

Record timeval := mkTimeval { tv_sec : Z; tv_usec : Z }.

(** The difference in milliseconds; [TIME] is 64 bits wide and unsigned, the microsecond
    difference a signed [long] that may be negative. *)
Definition HalTimeDelta (time1 time2 : timeval) : Z :=
  if tv_sec time2 <? tv_sec time1 then 0
  else if (tv_sec time2 =? tv_sec time1) && (tv_usec time2 <? tv_usec time1) then 0
  else w64 (w64 ((tv_sec time2 - tv_sec time1) * 1000)
            + Z.quot (tv_usec time2 - tv_usec time1) 1000).

(** [ITIMER_REAL] is armed for [delta] milliseconds, at least one and at most 10^8
    seconds. *)
Definition HalSetTimer (delta : Z) : St KERNEL unit :=
  let seconds := delta / 1000 in
  let mills := delta mod 1000 in
  let micros := mills * 1000 in
  let seconds := if seconds >? 100000000 then 100000000 else seconds in
  let micros := if (seconds =? 0) && (micros =? 0) then 1000 else micros in
  modify (set_ITimer (Some (seconds, micros))).

(** ** kernel/timer.c *)

(** [*Timers] and [*TimersOverflow]. *)
Definition Timers (k : KERNEL) : HEAP := if TimersIs1 k then TimerHeap1 k else TimerHeap2 k.
Definition TimersOverflow (k : KERNEL) : HEAP := if TimersIs1 k then TimerHeap2 k else TimerHeap1 k.
Definition set_Timers (h : HEAP) (k : KERNEL) : KERNEL :=
  if TimersIs1 k then set_TimerHeap1 h k else set_TimerHeap2 h k.
Definition set_TimersOverflow (h : HEAP) (k : KERNEL) : KERNEL :=
  if TimersIs1 k then set_TimerHeap2 h k else set_TimerHeap1 h k.

(** [QueueTimers( time, Timers )]: every call of the unit passes [Timers]. *)
Fixpoint QueueTimers (fuel : nat) (time : Z) : St KERNEL unit :=
  heap ← gets Timers;
  if HeapSize heap >? 0 then
    w ← on_links (HeapHeadWeight heap);
    if w <=? time then
      match fuel with
      | O => fail FFuel
      | S fuel =>
          '(t, heap) ← on_links (HeapPop heap);
          modify (set_Timers heap);;
          match t with
          | None => fail FNull
          | Some timer =>
              HandlerRun timer;;
              o ← handler timer;
              match Function o with
              | None => fail FNull
              | Some f => SoftInterruptRegisterHandler timer f (Context o)
              end;;
              QueueTimers fuel time
          end
      end
    else mret tt
  else mret tt.

Definition TimerSetNextTimer (time : Z) : St KERNEL unit :=
  heap ← gets Timers;
  if HeapSize heap >? 0 then
    nextTimer ← on_links (HeapHeadWeight heap);
    let delta := w64 (nextTimer - time) in
    HalSetTimer delta
  else
    let rollover := w64 (w64 (-1) - time) in
    HalSetTimer (w64 (rollover + 1)).

(** The number of timers bounds the loop. *)
Definition queue_timers (time : Z) : St KERNEL unit :=
  heap ← gets Timers;
  QueueTimers (Z.to_nat (HeapSize heap)) time.

Definition TimerInner (time : Z) : St KERNEL unit :=
  last ← gets TimerLastTime;
  (if time <? last then
    queue_timers (w64 (-1));;
    heap ← gets Timers;
    assert (HeapSize heap =? 0);;
    modify (fun k => set_TimersIs1 (negb (TimersIs1 k)) k)
  else mret tt);;
  queue_timers time;;
  TimerSetNextTimer time;;
  modify (set_TimerLastTime time).

Definition TimerRegister (newTimer : hid) (wait : Z) (f : HANDLER_FUNCTION) (c : HANDLER_CONTEXT)
  : St KERNEL unit :=
  time ← TimeGet;
  let timerTime := w64 (time + wait) in
  on_cpu (IsrDisable IRQ_LEVEL_MAX);;
  HandlerRegister newTimer;;
  o ← handler newTimer;
  put_handler newTimer (mkHandler (Some f) c (CompleteFunction o) (HState o));;
  (if timerTime >=? time then
    heap ← gets Timers;
    heap ← on_links (HeapAdd timerTime (Some newTimer) heap);
    modify (set_Timers heap)
  else
    heap ← gets TimersOverflow;
    heap ← on_links (HeapAdd timerTime (Some newTimer) heap);
    modify (set_TimersOverflow heap));;
  on_cpu (IsrEnable IRQ_LEVEL_MAX);;
  TimerSetNextTimer time.

Definition TimerInterrupt : St KERNEL unit :=
  time ← TimeGet;
  TimerInner time.

(** [HalStartupTime] becomes the present. *)
Definition HalInitClock : St KERNEL unit := modify (set_Clock 0).

Definition TimerStartup : St KERNEL unit :=
  HalInitClock;;
  time ← TimeGet;
  modify (set_TimerLastTime time);;
  modify (set_TimerHeap1 HeapInit);;
  modify (set_TimerHeap2 HeapInit);;
  modify (set_TimersIs1 true);;
  on_cpu (IsrRegisterHandler TimerInterrupt_ HAL_ISR_TIMER IRQ_LEVEL_TIMER);;
  last ← gets TimerLastTime;
  TimerSetNextTimer last.
