(* ===== verification/Scheduler.v ===== *)
(** * The scheduler, the locking unit and the workers
    (kernel/scheduler.c, locking.c, worker.c, context.c, sleep.c, generation.c)

    The units call each other through the function pointers of the locking contexts, so
    they are defined together.  The control flow of a context switch is that of the new
    thread: [ContextSwitch] and its callers return as the thread that was switched to. *)

From S2P Require Import Prelude LinkedList LockClass Semaphore Barrier Resource.
From S2P Require Import WeightedLink HeapTree Isr Kernel Handler Timer.

(** ** Requests for a switch (kernel/scheduler.c) *)

Definition SchedulerNeedsSwitch : St KERNEL unit :=
  m ← gets SchedulerMutex;
  let '(locked, m) := MutexLock m in
  modify (set_SchedulerMutex m);;
  if (locked : bool) then
    HandlerInit SchedulerCritObject;;
    HandlerCompetion SchedulerCritObject PostCritHandler_;;
    CritInterruptRegisterHandler SchedulerCritObject SchedulerCritHandler_ NullContext
  else mret tt.

Definition SchedulerStartCritical : St KERNEL unit := CritInterruptDisable.
Definition SchedulerEndCritical : St KERNEL unit := CritInterruptEnable.
Definition SchedulerIsCritical : St KERNEL bool := CritInterruptIsAtomic.

Definition SchedulerForceSwitch : St KERNEL unit :=
  a ← CritInterruptIsAtomic;
  assert a;;
  SchedulerNeedsSwitch;;
  SchedulerEndCritical;;
  a ← CritInterruptIsAtomic;
  assert (negb a).

Definition SchedulerResumeThread (t : tid) : St KERNEL unit :=
  a ← CritInterruptIsAtomic;
  assert a;;
  o ← thread t;
  assert (bool_decide (TState o = THREAD_STATE_BLOCKED));;
  put_thread t (with_TState THREAD_STATE_RUNNING o);;
  q ← gets RunQueue;
  q ← LinkedListEnqueue t q;
  modify (set_RunQueue q).

Definition SchedulerIsThreadDead (t : tid) : St KERNEL bool :=
  a ← CritInterruptIsAtomic;
  assert a;;
  o ← thread t;
  mret (bool_decide (TState o = THREAD_STATE_DONE)).

Definition SchedulerIsThreadBlocked (t : tid) : St KERNEL bool :=
  a ← CritInterruptIsAtomic;
  assert a;;
  o ← thread t;
  mret (bool_decide (TState o = THREAD_STATE_BLOCKED)).

Definition SchedulerBlockThread : St KERNEL unit :=
  a ← CritInterruptIsAtomic;
  assert a;;
  t ← active_thread;
  o ← thread t;
  put_thread t (with_TState THREAD_STATE_BLOCKED o);;
  SchedulerNeedsSwitch.

(** ** Block and wake functions *)

(** [container_of( context, struct THREAD, LockingContext )] must be the active thread. *)
Definition SchedulerBlockOnLock (c : ctx) : St KERNEL unit :=
  a ← gets ActiveThread;
  assert (bool_decide (Some c = CThread <$> a));;
  SchedulerBlockThread.

Definition SchedulerWakeOnLock (c : ctx) : St KERNEL unit :=
  match c with
  | CThread t =>
      o ← context c;
      match LState o with
      | LOCKING_STATE_READY => put_context c (with_LState LOCKING_STATE_READY o)
      | LOCKING_STATE_BLOCKING =>
          put_context c (with_LState LOCKING_STATE_READY o);;
          SchedulerResumeThread t
      | LOCKING_STATE_ACQUIRED => panic
      end
  | _ => fail FNull
  end.

(** kernel/locking.c. *)
Definition LockingBlockNonBlocking (c : ctx) : St KERNEL unit := mret tt.

Definition LockingWakeNonBlocking (c : ctx) : St KERNEL unit :=
  o ← context c;
  match LState o with
  | LOCKING_STATE_READY | LOCKING_STATE_BLOCKING => put_context c (with_LState LOCKING_STATE_ACQUIRED o)
  | LOCKING_STATE_ACQUIRED => panic
  end.

(** kernel/worker.c. *)
Definition WorkerBlockOnLock (c : ctx) : St KERNEL unit := mret tt.

Definition WorkerAddItem (ops : LockingOps KERNEL) (queue item : positive) : St KERNEL unit :=
  a ← SoftInterruptIsAtomic;
  assert (negb a);;
  q ← fetch WorkerQueues queue;
  lock ← SemaphoreUp (QLock q);
  q ← fetch WorkerQueues queue;
  modify (fun k => set_WorkerQueues (<[queue := mkQueue (QThread q) (QList q) lock]> (WorkerQueues k)) k);;
  i ← fetch WorkerItems item;
  modify (fun k => set_WorkerItems (<[item := mkItem queue (Foo i) (IContext i) (Finished i)]> (WorkerItems k)) k);;
  CritInterruptDisable;;
  i ← fetch WorkerItems item;
  modify (fun k => set_WorkerItems (<[item := mkItem (Queue i) (Foo i) (IContext i) false]> (WorkerItems k)) k);;
  q ← fetch WorkerQueues queue;
  l ← LinkedListEnqueue item (QList q);
  modify (fun k => set_WorkerQueues (<[queue := mkQueue (QThread q) l (QLock q)]> (WorkerQueues k)) k);;
  CritInterruptEnable.

Definition WorkerWakeOnLock (ops : LockingOps KERNEL) (c : ctx) : St KERNEL unit :=
  match c with
  | CWorker worker =>
      i ← fetch WorkerItems worker;
      let queue := Queue i in
      o ← context c;
      match LState o with
      | LOCKING_STATE_READY => put_context c (with_LState LOCKING_STATE_ACQUIRED o)
      | LOCKING_STATE_BLOCKING =>
          WorkerAddItem ops queue worker;;
          o ← context c;
          put_context c (with_LState LOCKING_STATE_ACQUIRED o)
      | LOCKING_STATE_ACQUIRED => panic
      end
  | _ => fail FNull
  end.

(** ** kernel/locking.c *)

Definition SchedulerGetActiveThread : St KERNEL (option tid) := gets ActiveThread.

Definition SchedulerGetLockingContext : St KERNEL ctx :=
  a ← on_cpu (HalIsIrqAtomic IRQ_LEVEL_CRIT);
  assert a;;
  t ← SchedulerGetActiveThread;
  modify (set_ActiveThread t);;
  t ← active_thread;
  mret (CThread t).

Definition LockingGetContext (oc : option ctx) : St KERNEL ctx :=
  match oc with Some c => mret c | None => SchedulerGetLockingContext end.

Definition LockingInit (c : ctx) (block : BLOCK_FUNCTION) (wake : WAKE_FUNCTION) : St KERNEL unit :=
  modify (fun k => set_Contexts (<[c := mkContext LOCKING_STATE_READY
    (match Contexts k !! c with Some o => BlockingContext o | None => RESOURCE_SHARED end) block wake]>
    (Contexts k)) k).

Definition call_block (f : BLOCK_FUNCTION) (c : ctx) : St KERNEL unit :=
  match f with
  | SchedulerBlockOnLock_ => SchedulerBlockOnLock c
  | WorkerBlockOnLock_ => WorkerBlockOnLock c
  | LockingBlockNonBlocking_ => LockingBlockNonBlocking c
  end.

Definition call_wake (ops : LockingOps KERNEL) (f : WAKE_FUNCTION) (c : ctx) : St KERNEL unit :=
  match f with
  | SchedulerWakeOnLock_ => SchedulerWakeOnLock c
  | WorkerWakeOnLock_ => WorkerWakeOnLock ops c
  | LockingWakeNonBlocking_ => LockingWakeNonBlocking c
  end.

Definition KLockingBlock (mode : option RESOURCE_STATE) (oc : option ctx) : St KERNEL ctx :=
  a ← SchedulerIsCritical;
  assert a;;
  c ← LockingGetContext oc;
  o ← context c;
  assert (bool_decide (LState o = LOCKING_STATE_READY));;
  (match mode with
   | Some m => put_context c (mkContext (LState o) m (BlockFunction o) (WakeFunction o))
   | None => mret tt
   end);;
  call_block (BlockFunction o) c;;
  o ← context c;
  put_context c (with_LState LOCKING_STATE_BLOCKING o);;
  mret c.

Definition ops_with (acquire : option ctx -> St KERNEL unit) : LockingOps KERNEL := {|
  LockingStart := SchedulerStartCritical;
  LockingEnd := SchedulerEndCritical;
  LockingAcquire := acquire;
  LockingBlock := KLockingBlock;
  ResourceWaitState := fun c => o ← context c; mret (BlockingContext o)
|}.

(** The wake function of a work item ups the semaphore of its queue, whose waiters are
    worker threads: the calls nest at most twice. *)
Fixpoint KLockingAcquire (fuel : nat) (oc : option ctx) : St KERNEL unit :=
  a ← SchedulerIsCritical;
  assert a;;
  c ← LockingGetContext oc;
  o ← context c;
  assert (bool_decide (LState o = LOCKING_STATE_READY) || bool_decide (LState o = LOCKING_STATE_BLOCKING));;
  call_wake (ops_with (match fuel with O => fun _ => fail FFuel | S fuel => KLockingAcquire fuel end))
    (WakeFunction o) c.

#[export] Instance kernel_ops : LockingOps KERNEL := ops_with (KLockingAcquire 2).

Definition LockingIsAcquired (c : ctx) : St KERNEL bool :=
  SchedulerStartCritical;;
  o ← context c;
  r ← (match LState o with
    | LOCKING_STATE_ACQUIRED => put_context c (with_LState LOCKING_STATE_READY o);; mret true
    | LOCKING_STATE_BLOCKING => mret false
    | LOCKING_STATE_READY => panic
    end);
  SchedulerEndCritical;;
  mret r.

Definition LockingIsFree (c : ctx) : St KERNEL bool :=
  o ← context c;
  mret (bool_decide (LState o = LOCKING_STATE_READY)).
