(* ===== verification/Serial.v ===== *)
(** * The serial port (kernel/serial.c, the terminal of hal/unix_hal.c)

    Two rings between the threads and the interrupt handlers.  A reader of an empty ring
    waits for the next value of a generation, which the input interrupt updates through a
    critical handler. *)

From S2P Require Import Prelude RingBuffer LinkedList LockClass Semaphore Barrier Resource.
From S2P Require Import WeightedLink HeapTree Isr Kernel Handler Timer Scheduler.

Definition BUFFER_SIZE : Z := 32.

Definition with_InputRing r s := mkSerial r (SerialOutputRing s) (ReadGenerationCount s) (TtyIn s) (TtyOut s).
Definition with_OutputRing r s := mkSerial (SerialInputRing s) r (ReadGenerationCount s) (TtyIn s) (TtyOut s).
Definition with_Count n s := mkSerial (SerialInputRing s) (SerialOutputRing s) n (TtyIn s) (TtyOut s).
Definition with_TtyIn l s := mkSerial (SerialInputRing s) (SerialOutputRing s) (ReadGenerationCount s) l (TtyOut s).
Definition with_TtyOut l s := mkSerial (SerialInputRing s) (SerialOutputRing s) (ReadGenerationCount s) (TtyIn s) l.

(** ** The terminal *)

(** A read without a byte, an interrupted one and one that would block are the same. *)
Definition HalSerialGetChar : St SERIAL (option Z) :=
  l ← gets TtyIn;
  match l with
  | [] => mret None
  | Got c :: l => modify (with_TtyIn l);; mret (Some c)
  | Nothing_ :: l => modify (with_TtyIn l);; mret None
  | Failed_ :: _ => panic
  end.

(** A write that fails stops the machine; here writes succeed. *)
Definition HalSerialWriteChar (data : Z) : St SERIAL unit :=
  modify (fun s => with_TtyOut (TtyOut s ++ [data]) s).

(** ** The work of the interrupt handlers *)

(** [while (!RingBufferIsEmpty(&SerialOutputRing))]. *)
Fixpoint SendLoop (fuel : nat) : St SERIAL unit :=
  r ← gets SerialOutputRing;
  if RingBufferIsEmpty r then mret tt else
  match fuel with
  | O => fail FFuel
  | S fuel =>
      '(data, r) ← liftr (RingBufferRead 1 r);
      modify (with_OutputRing r);;
      match data with
      | [data] => HalSerialWriteChar data;; SendLoop fuel
      | _ => panic
      end
  end.

(** [while (!RingBufferIsFull(&SerialInputRing))]. *)
Fixpoint GetLoop (fuel : nat) : St SERIAL unit :=
  r ← gets SerialInputRing;
  if RingBufferIsFull r then mret tt else
  match fuel with
  | O => fail FFuel
  | S fuel =>
      c ← HalSerialGetChar;
      match c with
      | Some data =>
          '(n, r) ← liftr (RingBufferWrite [data] 1 r);
          modify (with_InputRing r);;
          assert (n =? 1);;
          GetLoop fuel
      | None => mret tt
      end
  end.

(** The rings hold [BUFFER_SIZE] bytes. *)
Definition serial_fuel : nat := Z.to_nat BUFFER_SIZE.

Definition SendBytesInterrupt : St KERNEL unit :=
  a ← on_cpu (IsrIsAtomic IRQ_LEVEL_SERIAL_WRITE);
  assert a;;
  on_serial (SendLoop serial_fuel).

(** kernel/generation.c *)
Definition GenerationUpdateSafe (gen : positive) (value : Z) (c : positive) (h : hid) : St KERNEL unit :=
  modify (fun k => set_GenContexts (<[c := mkGenCtx gen value]> (GenContexts k)) k);;
  CritInterruptRegisterHandler h GenerationUpdateHandler_ (GenerationContext c).

Definition GetBytesInterrupt : St KERNEL unit :=
  on_serial (GetLoop serial_fuel);;
  f ← HandlerIsFinished ReadGenerationCritObject;
  if (f : bool) then
    on_serial (modify (fun s => with_Count (w64 (ReadGenerationCount s + 1)) s));;
    n ← gets (fun k => ReadGenerationCount (SerialPort k));
    GenerationUpdateSafe ReadGeneration n ReadGenerationContext ReadGenerationCritObject
  else mret tt.

(** ** Calls from threads *)

Definition on_generation (g : positive) (op : GENERATION -> St KERNEL GENERATION) : St KERNEL unit :=
  x ← fetch Generations g;
  x ← op x;
  modify (fun k => set_Generations (<[g := x]> (Generations k)) k).

(** [HalStartSerial] opens the terminal. *)
Definition SerialStartup : St KERNEL unit :=
  on_serial (modify (with_InputRing (RingBufferInit (replicate serial_fuel 0) BUFFER_SIZE)));;
  on_serial (modify (with_OutputRing (RingBufferInit (replicate serial_fuel 0) BUFFER_SIZE)));;
  on_serial (modify (with_Count 0));;
  n ← gets (fun k => ReadGenerationCount (SerialPort k));
  modify (fun k => set_Generations (<[ReadGeneration := GenerationInit n]> (Generations k)) k);;
  HandlerInit ReadGenerationCritObject;;
  on_cpu (IsrRegisterHandler SendBytesInterrupt_ HAL_ISR_SERIAL_WRITE IRQ_LEVEL_SERIAL_WRITE);;
  on_cpu (IsrRegisterHandler GetBytesInterrupt_ HAL_ISR_SERIAL_READ IRQ_LEVEL_SERIAL_READ).

(** The section of [SerialWrite] with the interrupt disabled. *)
Definition WriteLocked (buf : list Z) (len : Z) : St SERIAL Z :=
  r ← gets SerialOutputRing;
  '(write, r) ← liftr (RingBufferWrite buf len r);
  modify (with_OutputRing r);;
  mret write.

Definition SerialWrite (buf : list Z) (len : Z) : St KERNEL Z :=
  on_cpu (IsrDisable IRQ_LEVEL_SERIAL_WRITE);;
  write ← on_serial (WriteLocked buf len);
  on_cpu (IsrEnable IRQ_LEVEL_SERIAL_WRITE);;
  on_cpu (HalRaiseInterrupt IRQ_LEVEL_SERIAL_WRITE);;
  mret write.

(** The section of [SerialRead] with the interrupt disabled: whether the ring was full,
    the bytes and the generation. *)
Definition ReadLocked (len : Z) : St SERIAL (bool * list Z * Z) :=
  r ← gets SerialInputRing;
  let full := RingBufferIsFull r in
  '(buf, r) ← liftr (RingBufferRead len r);
  modify (with_InputRing r);;
  n ← gets ReadGenerationCount;
  mret (full, buf, n).

(** One round of the loop of [SerialRead], and what follows the loop when the round has
    read bytes.  A round without bytes calls [GenerationWait], in which the thread may be
    switched away from, and returns [None]: the next round starts with the returned flag
    when the thread runs again. *)
Definition SerialRead (len : Z) (wasFull : bool) : St KERNEL (option (list Z) * bool) :=
  on_cpu (IsrDisable IRQ_LEVEL_SERIAL_READ);;
  '(full, buf, readGeneration) ← on_serial (ReadLocked len);
  let wasFull := wasFull || full in
  on_cpu (IsrEnable IRQ_LEVEL_SERIAL_READ);;
  if zlen buf =? 0 then
    on_generation ReadGeneration (GenerationWait readGeneration None);;
    mret (None, wasFull)
  else
    (if (wasFull : bool) then on_cpu (HalRaiseInterrupt IRQ_LEVEL_SERIAL_READ) else mret tt);;
    mret (Some buf, wasFull).

Definition SerialPeak : St KERNEL (option Z) :=
  on_cpu (IsrDisable IRQ_LEVEL_SERIAL_READ);;
  result ← on_serial (r ← gets SerialInputRing; liftr (RingBufferPeak r));
  on_cpu (IsrEnable IRQ_LEVEL_SERIAL_READ);;
  mret result.

(** ** The streams *)

(** The bytes that the terminal still has to deliver. *)
Fixpoint incoming (l : list tty_read) : list Z :=
  match l with [] => [] | Got c :: l => c :: incoming l | _ :: l => incoming l end.

Definition serial_wf (s : SERIAL) : Prop :=
  ring_wf (SerialInputRing s) /\ RingBuffer.Size (SerialInputRing s) = BUFFER_SIZE /\
  ring_wf (SerialOutputRing s) /\ RingBuffer.Size (SerialOutputRing s) = BUFFER_SIZE /\ Failed_ ∉ TtyIn s.

Definition input (s : SERIAL) : list Z := contents (SerialInputRing s) ++ incoming (TtyIn s).
Definition output (s : SERIAL) : list Z := TtyOut s ++ contents (SerialOutputRing s).

Lemma ring_fill_ok r : ring_wf r -> RingBuffer.Size r = BUFFER_SIZE -> 0 <= free r <= Z.of_nat serial_fuel.
Proof.
  intros Hwf Hs. pose proof (free_nonneg r Hwf). split; [done|]. unfold free. rewrite Hs. unfold serial_fuel, zlen, BUFFER_SIZE. lia.
Qed.

Lemma HalSerialGetChar_got s c l : TtyIn s = Got c :: l -> HalSerialGetChar s = Ok (Some c, with_TtyIn l s).
Proof. intros H. unfold HalSerialGetChar, mbind, st_bind, gets, modify. by rewrite H. Qed.

Lemma HalSerialGetChar_none s : Failed_ ∉ TtyIn s -> (forall c l, TtyIn s <> Got c :: l) ->
  exists l, HalSerialGetChar s = Ok (None, with_TtyIn l s) /\ incoming l = incoming (TtyIn s) /\ Failed_ ∉ l.
Proof.
  intros Hf Hg. unfold HalSerialGetChar, mbind, st_bind, gets, modify. destruct (TtyIn s) as [|[c| |] l] eqn:E.
  - exists []. split; [|done]. destruct s. simpl in E. by subst.
  - by destruct (Hg c l).
  - exists l. split; [done|]. split; [done|]. set_solver.
  - set_solver.
Qed.

(** The input interrupt moves bytes to the ring, in order, until the ring is full or the
    terminal has none. *)
Lemma GetLoop_ok fuel s :
  serial_wf s -> free (SerialInputRing s) <= Z.of_nat fuel ->
  exists s', GetLoop fuel s = Ok (tt, s') /\ serial_wf s' /\ input s' = input s /\
    SerialOutputRing s' = SerialOutputRing s /\ TtyOut s' = TtyOut s /\ ReadGenerationCount s' = ReadGenerationCount s /\
    (exists l, contents (SerialInputRing s') = contents (SerialInputRing s) ++ l /\
      forall c rest, TtyIn s = Got c :: rest -> RingBufferIsFull (SerialInputRing s) = false -> l <> []).
Proof.
  revert s. induction fuel as [|fuel IH]; intros s (Hi & His & Ho & Hos & Hf) Hfree;
    destruct (RingBufferIsFull (SerialInputRing s)) eqn:E.
  1, 3: exists s; cbn [GetLoop]; unfold mbind, st_bind, gets; rewrite E; split_and!; try done;
    exists []; by rewrite app_nil_r.
  { destruct (write_passes_free _ Hi E) as [_ ?]. lia. }
  destruct (write_passes_free _ Hi E) as [_ Hpos]. cbn [GetLoop]. unfold mbind at 1, st_bind at 1, gets at 1. rewrite E.
  assert ((exists c l, TtyIn s = Got c :: l) \/ (forall c l, TtyIn s <> Got c :: l)) as [(c & l & El)|Hn]
    by (destruct (TtyIn s) as [|[c| |] l]; [by right|left; by exists c, l|by right..]).
  - rewrite (st_bind_ok _ _ _ _ _ (HalSerialGetChar_got s c l El)).
    destruct (RingBufferWrite_ok [c] (SerialInputRing s) Hi) as (r & Hr & Hwf & Hsz & Hc); [done|].
    assert (Z.min (zlen [c]) (free (SerialInputRing s)) = 1) as E1 by (unfold zlen; simpl; lia). rewrite E1 in *.
    change (zlen [c]) with 1 in Hr. rewrite (st_bind_ok _ _ _ _ _ (liftr_ok _ _ _ Hr)).
    change (take (Z.to_nat 1) [c]) with [c] in Hc. set (s1 := with_InputRing r (with_TtyIn l s)).
    destruct (IH s1) as (s' & Hrun & Hwf' & Hin & Hor & Hto & Hcnt & l' & Hl' & _).
    { rewrite El in Hf. apply not_elem_of_cons in Hf as [_ Hf]. split_and!; try done. simpl. congruence. }
    { assert (free r = free (SerialInputRing s) - 1); [|simpl; lia]. unfold free. rewrite Hsz, Hc. unfold zlen.
      rewrite length_app. simpl. lia. }
    exists s'. assert (input s1 = input s) as Hi1 by (unfold input; simpl; rewrite Hc, El; simpl; by rewrite <- app_assoc).
    split; [exact Hrun|]. split; [done|]. split; [congruence|]. split; [done|]. split; [done|]. split; [done|].
    exists (c :: l'). split; [|done]. rewrite Hl'. simpl. by rewrite Hc, <- app_assoc.
  - destruct (HalSerialGetChar_none s Hf) as (l & Hr & Hin & Hfl); [done|].
    rewrite (st_bind_ok _ _ _ _ _ Hr). exists (with_TtyIn l s). split; [done|]. split; [done|].
    split; [unfold input; simpl; by rewrite Hin|]. do 3 (split; [done|]). exists []. rewrite app_nil_r. split; [done|]. naive_solver.
Qed.

(** The output interrupt empties the ring. *)
Lemma SendLoop_ok fuel s :
  serial_wf s -> zlen (contents (SerialOutputRing s)) <= Z.of_nat fuel ->
  exists s', SendLoop fuel s = Ok (tt, s') /\ serial_wf s' /\ output s' = output s /\
    contents (SerialOutputRing s') = [] /\ SerialInputRing s' = SerialInputRing s /\ TtyIn s' = TtyIn s /\
    ReadGenerationCount s' = ReadGenerationCount s.
Proof.
  revert s. induction fuel as [|fuel IH]; intros s (Hi & His & Ho & Hos & Hf) Hlen;
    pose proof (empty_contents (SerialOutputRing s) Ho) as Hemp;
    destruct (RingBufferIsEmpty (SerialOutputRing s)) eqn:E.
  1, 3: exists s; cbn [SendLoop]; unfold mbind, st_bind, gets; rewrite E; split_and!; try done; by apply Hemp.
  { destruct (contents (SerialOutputRing s)); [by discriminate (proj2 Hemp eq_refl)|]. unfold zlen in Hlen. simpl in Hlen. lia. }
  cbn [SendLoop]. unfold mbind at 1, st_bind at 1, gets at 1. rewrite E.
  destruct (RingBufferRead_ok 1 (SerialOutputRing s) Ho) as (r & Hr & Hwf & Hsz & Hc); [lia|].
  destruct (contents (SerialOutputRing s)) as [|c l] eqn:El; [by discriminate (proj2 Hemp eq_refl)|].
  change (take (Z.to_nat 1) (c :: l)) with [c] in Hr. change (drop (Z.to_nat 1) (c :: l)) with l in Hc.
  rewrite (st_bind_ok _ _ _ _ _ (liftr_ok _ _ _ Hr)).
  set (s1 := with_TtyOut (TtyOut s ++ [c]) (with_OutputRing r s)).
  destruct (IH s1) as (s' & Hrun & Hwf' & Hout & He & Hir & Hti & Hcnt).
  { split_and!; try done. simpl. congruence. }
  { simpl. rewrite Hc. unfold zlen in *. simpl in Hlen. lia. }
  exists s'. split; [exact Hrun|]. split; [done|]. split; [|done].
  rewrite Hout. unfold output. simpl. by rewrite Hc, El, <- app_assoc.
Qed.
