(* ===== verification/KernelLocks.v ===== *)
(** * The locking unit keeps its contract

    The invariant of the scheduler and the locking unit, and the instance of
    [LockingLaws] for the kernel: every lock theorem holds on the kernel state. *)

From S2P Require Import Prelude LinkedList LockClass Semaphore Barrier Resource.
From S2P Require Import WeightedLink HeapTree Isr Kernel Handler Timer Scheduler.

(** ** The invariant *)

(** A context has the functions of the object it is embedded in; that of a blocked
    thread belongs to a thread that is off the run queue. *)
Definition ctx_ok (k : KERNEL) (c : ctx) (o : LOCKING_CONTEXT) : Prop :=
  match c with
  | CThread t =>
      BlockFunction o = SchedulerBlockOnLock_ /\ WakeFunction o = SchedulerWakeOnLock_ /\
      LState o <> LOCKING_STATE_ACQUIRED /\
      exists th, Threads k !! t = Some th /\
        (LState o = LOCKING_STATE_BLOCKING -> TState th = THREAD_STATE_BLOCKED /\ t ∉ RunQueue k /\ t <> IdleThread)
  | CPlain _ => BlockFunction o = LockingBlockNonBlocking_ /\ WakeFunction o = LockingWakeNonBlocking_
  | CWorker _ => True
  end.

Record sched_inv (k : KERNEL) : Prop := {
  inv_cpu : cpu_ok (Cpu k);
  inv_signals : length (HalIrqToSignal (Cpu k)) = 8%nat;
  inv_active : exists a, ActiveThread k = Some a /\ a ∉ RunQueue k /\ is_Some (Contexts k !! CThread a);
  inv_ctx c o : Contexts k !! c = Some o -> ctx_ok k c o;
  inv_nodup : NoDup (RunQueue k);
  inv_run t : t ∈ RunQueue k -> t <> IdleThread /\ is_Some (Contexts k !! CThread t) /\
    exists th, Threads k !! t = Some th /\ TState th = THREAD_STATE_RUNNING;
  inv_mutex : SchedulerMutex k = 0 -> SchedulerCritObject ∉ CritInterruptHandlerList k
}.

Definition crit_count (k : KERNEL) : Z := cnt (IsrDisabledCount (Cpu k)) IRQ_LEVEL_CRIT.

(** What a switch request leaves alone. *)
Definition same_objects (k k' : KERNEL) : Prop :=
  Threads k' = Threads k /\ Contexts k' = Contexts k /\ RunQueue k' = RunQueue k /\
  ActiveThread k' = ActiveThread k /\ IsrDisabledCount (Cpu k') = IsrDisabledCount (Cpu k).

(** ** Access *)

Lemma on_cpu_ok {A} (m : St CPU A) k a c : m (Cpu k) = Ok (a, c) -> on_cpu m k = Ok (a, set_Cpu c k).
Proof. intros H. unfold on_cpu. by rewrite H. Qed.

Lemma on_cpu_read {A} (m : St CPU A) k a : m (Cpu k) = Ok (a, Cpu k) -> on_cpu m k = Ok (a, k).
Proof. intros H. rewrite (on_cpu_ok m k a (Cpu k) H). by destruct k. Qed.

Lemma fetch_ok {A} (f : KERNEL -> gmap positive A) p k a : f k !! p = Some a -> fetch f p k = Ok (a, k).
Proof. intros H. unfold fetch. by rewrite H. Qed.

Lemma context_ok c k o : Contexts k !! c = Some o -> context c k = Ok (o, k).
Proof. intros H. unfold context. by rewrite H. Qed.

Lemma active_thread_ok k a : ActiveThread k = Some a -> active_thread k = Ok (a, k).
Proof. intros Ha. unfold active_thread, mbind, st_bind, gets. by rewrite Ha. Qed.

Lemma crit_atomic k : sched_inv k -> 1 <= crit_count k -> CritInterruptIsAtomic k = Ok (true, k).
Proof.
  intros Hi Hc. apply on_cpu_read. rewrite IsrIsAtomic_ok by (apply Hi || (unfold IRQ_LEVEL_CRIT; lia)).
  do 2 f_equal. apply Z.leb_le. apply top_ge; [unfold IRQ_LEVEL_CRIT; lia|unfold crit_count in *; lia].
Qed.

(** ** Switch requests *)

Lemma HalRaiseInterrupt_ok level c :
  length (HalIrqToSignal c) = 8%nat -> 0 <= level < 8 ->
  exists sig, HalIrqToSignal c !! Z.to_nat level = Some sig /\
    HalRaiseInterrupt level c = Ok (tt, set_Pending ({[sig]} ∪ Pending c) c).
Proof.
  intros Hl H. destruct (lookup_lt_is_Some_2 (HalIrqToSignal c) (Z.to_nat level)) as [sig Hs]; [lia|].
  exists sig. split; [done|]. unfold HalRaiseInterrupt. by st_step rd_ok by (lia || exact Hs).
Qed.

(** The kernel after a handler is queued on the critical list. *)
Definition crit_queued (h : hid) (o : HANDLER_OBJECT) (sig : Z) (k : KERNEL) : KERNEL :=
  set_Cpu (set_Pending ({[sig]} ∪ Pending (Cpu k)) (Cpu k))
    (set_CritInterruptHandlerList (h :: CritInterruptHandlerList k)
      (set_Handlers (<[h := o]> (Handlers k)) k)).

Lemma HandlerRegister_ok k h o :
  Handlers k !! h = Some o -> HState o = HANDLER_READY \/ HState o = HANDLER_RUNNING ->
  HandlerRegister h k = Ok (tt, set_Handlers (<[h := with_HState HANDLER_QUEUED o]> (Handlers k)) k).
Proof.
  intros Ho Hs. unfold HandlerRegister. st_step fetch_ok by exact Ho.
  st_step assert_true by (apply orb_true_iff; rewrite !bool_decide_eq_true; done). done.
Qed.

Lemma CritInterruptRegisterHandler_ok k h f c o :
  Handlers k !! h = Some o -> HState o = HANDLER_READY \/ HState o = HANDLER_RUNNING ->
  h ∉ CritInterruptHandlerList k -> length (HalIrqToSignal (Cpu k)) = 8%nat ->
  exists sig, HalIrqToSignal (Cpu k) !! 1%nat = Some sig /\
    CritInterruptRegisterHandler h f c k =
      Ok (tt, crit_queued h (mkHandler (Some f) c (CompleteFunction o) HANDLER_QUEUED) sig k).
Proof.
  intros Ho Hs Hl Hsig.
  destruct (HalRaiseInterrupt_ok IRQ_LEVEL_CRIT (Cpu k) Hsig) as (sig & Hk & Hr); [by unfold IRQ_LEVEL_CRIT|].
  exists sig. split; [done|]. unfold CritInterruptRegisterHandler, put_handler.
  st_step fetch_ok by exact Ho. unfold mbind at 1, st_bind at 1, modify at 1.
  set (k1 := set_Handlers _ k).
  rewrite (st_bind_ok _ _ _ _ _ (HandlerRegister_ok k1 h _ (lookup_insert_eq _ _ _) Hs)).
  unfold mbind, st_bind, modify, gets, atomic_push, on_cpu, with_HState. simpl.
  rewrite bool_decide_false by done. simpl. rewrite Hr. unfold crit_queued. simpl.
  by rewrite insert_insert_eq.
Qed.

Lemma NeedsSwitch_ok k :
  sched_inv k -> exists k', SchedulerNeedsSwitch k = Ok (tt, k') /\ sched_inv k' /\ same_objects k k' /\
    SchedulerMutex k' <> 0 /\ (SchedulerMutex k = 0 ->
      CritInterruptHandlerList k' = SchedulerCritObject :: CritInterruptHandlerList k /\
      Handlers k' !! SchedulerCritObject =
        Some (mkHandler (Some SchedulerCritHandler_) NullContext (Some PostCritHandler_) HANDLER_QUEUED) /\
      exists sig, HalIrqToSignal (Cpu k) !! 1%nat = Some sig /\
        Cpu k' = set_Pending ({[sig]} ∪ Pending (Cpu k)) (Cpu k)).
Proof.
  intros Hi. pose proof Hi as [Hcpu Hsig Hact Hctx Hnd Hrun Hmx]. unfold SchedulerNeedsSwitch.
  unfold mbind at 1, st_bind at 1, gets at 1. cbn [MutexLock AtomicGetAndSet AtomicGetAndOr].
  assert (Z.lor (SchedulerMutex k) 1 <> 0) as Hne by (intros H; apply Z.lor_eq_0_iff in H; lia).
  destruct (Z.eqb_spec (SchedulerMutex k) 0) as [E|E].
  - set (k1 := set_SchedulerMutex (Z.lor (SchedulerMutex k) 1) k).
    set (k2 := set_Handlers (<[SchedulerCritObject := mkHandler None NullContext (Some PostCritHandler_) HANDLER_READY]>
      (Handlers k)) k1).
    destruct (CritInterruptRegisterHandler_ok k2 SchedulerCritObject SchedulerCritHandler_ NullContext
      (mkHandler None NullContext (Some PostCritHandler_) HANDLER_READY)) as (sig & Hsg & Hr).
    { apply lookup_insert_eq. }
    { by left. }
    { by apply Hmx. }
    { done. }
    assert ((HandlerInit SchedulerCritObject;; HandlerCompetion SchedulerCritObject PostCritHandler_;;
      CritInterruptRegisterHandler SchedulerCritObject SchedulerCritHandler_ NullContext) k1 =
      CritInterruptRegisterHandler SchedulerCritObject SchedulerCritHandler_ NullContext k2) as Heq.
    { unfold HandlerInit, HandlerCompetion, put_handler, handler. unfold mbind, st_bind, modify, fetch. simpl.
      rewrite lookup_insert_eq. simpl. by rewrite insert_insert_eq. }
    unfold modify at 1, mbind at 1, st_bind at 1. fold k1. rewrite Heq, Hr. eexists. split; [done|].
    split; [constructor; simpl; done|]. split; [by repeat split|]. split; [done|]. intros _. split; [done|].
    split; [apply lookup_insert_eq|]. by exists sig.
  - eexists. split; [reflexivity|].
    split; [|split; [by repeat split|]; done]. constructor; simpl; done.
Qed.

(** ** Preservation of the invariant *)

Lemma inv_relevel k counts :
  sched_inv k -> counts_ok counts -> sched_inv (set_Cpu (relevel (Cpu k) counts) k).
Proof. intros [] Hc. constructor; try done. by apply relevel_ok. Qed.

Lemma inv_put_context k c o o' :
  sched_inv k -> Contexts k !! c = Some o -> ctx_ok k c o' ->
  sched_inv (set_Contexts (<[c := o']> (Contexts k)) k).
Proof.
  intros [Hcpu Hsig Hact Hctx Hnd Hrun Hmx] Ho Hok. constructor; try done; simpl.
  - destruct Hact as (a & Ha & Hq & Hc). exists a. split; [done|]. split; [done|].
    rewrite lookup_insert_is_Some'. by right.
  - intros d od Hd. apply lookup_insert_Some in Hd as [[<- <-]|[_ Hd]]; [done|by apply Hctx].
  - intros t Ht. destruct (Hrun t Ht) as (H1 & H2 & H3). split; [done|]. split; [|done].
    rewrite lookup_insert_is_Some'. by right.
Qed.

Lemma crit_count_set_Contexts m k : crit_count (set_Contexts m k) = crit_count k.
Proof. done. Qed.

(** [SchedulerResumeThread] of a thread whose context is no longer blocked. *)
Lemma SchedulerResumeThread_ok k t th o :
  sched_inv k -> 1 <= crit_count k -> Contexts k !! CThread t = Some o -> LState o = LOCKING_STATE_READY ->
  Threads k !! t = Some th -> TState th = THREAD_STATE_BLOCKED -> t ∉ RunQueue k ->
  t <> IdleThread -> ActiveThread k <> Some t ->
  exists k', SchedulerResumeThread t k = Ok (tt, k') /\ sched_inv k' /\
    k' = set_RunQueue (RunQueue k ++ [t])
      (set_Threads (<[t := with_TState THREAD_STATE_RUNNING th]> (Threads k)) k).
Proof.
  intros Hi Hc Ho Hr Hth Hb Hq Hidle Hna. pose proof Hi as [Hcpu Hsig Hact Hctx Hnd Hrun Hmx].
  eexists. split.
  - unfold SchedulerResumeThread, thread. st_step crit_atomic by done. st_step assert_true.
    st_step fetch_ok by exact Hth. st_step assert_true by (by apply bool_decide_eq_true).
    unfold put_thread, mbind, st_bind, modify, gets. simpl. unfold LinkedListEnqueue. by rewrite bool_decide_false.
  - split; [|done]. constructor; try done; simpl.
    + destruct Hact as (a & Ha & Hqa & Hca). exists a. split; [done|]. split; [|done].
      intros [?|Hin]%elem_of_app; [done|]. apply list_elem_of_singleton in Hin as ->. done.
    + intros c oc Hoc. pose proof (Hctx c oc Hoc) as Hok. destruct c as [t'| |]; [|done|done].
      destruct Hok as (H1 & H2 & H3 & th' & Hth' & H4). split; [done|]. split; [done|]. split; [done|].
      simpl. destruct (decide (t' = t)) as [->|Hne].
      * rewrite lookup_insert_eq. eexists. split; [done|]. intros H. congruence.
      * rewrite lookup_insert_ne by done. exists th'. split; [done|]. intros H. destruct (H4 H) as (? & ? & ?).
        split; [done|]. split; [|done]. intros [?|Hin]%elem_of_app; [done|].
        apply list_elem_of_singleton in Hin. done.
    + apply NoDup_app. split; [done|]. split; [set_solver|apply NoDup_singleton].
    + intros t' Ht'. apply elem_of_app in Ht' as [Ht'|Ht'%list_elem_of_singleton].
      * destruct (Hrun t' Ht') as (H1 & H2 & th' & H3 & H4). split; [done|]. split; [done|].
        rewrite lookup_insert_ne by (intros <-; done). by exists th'.
      * subst t'. split; [done|]. split; [by eexists|]. rewrite lookup_insert_eq. by eexists.
Qed.

(** ** The interface *)

Definition kstatus (k : KERNEL) : gmap ctx LOCKING_STATE := LState <$> Contexts k.
Definition kmode (k : KERNEL) : gmap ctx RESOURCE_STATE := BlockingContext <$> Contexts k.
Definition kactive (k : KERNEL) : ctx := CThread (default IdleThread (ActiveThread k)).
Definition kinside (k : KERNEL) : Prop := sched_inv k /\ 1 <= crit_count k.
Definition koutside (k : KERNEL) : Prop := sched_inv k /\ crit_count k < max64.

(** The idle thread must not block, and the contexts of work items are not covered. *)
Definition klawful (k : KERNEL) (c : ctx) : Prop :=
  is_Some (Contexts k !! c) /\ c <> CThread IdleThread /\
  match c with CWorker _ => False | _ => True end.

Lemma kstatus_Some k c s : kstatus k !! c = Some s -> exists o, Contexts k !! c = Some o /\ LState o = s.
Proof. unfold kstatus. rewrite lookup_fmap, fmap_Some. naive_solver. Qed.

Lemma kstatus_insert k c o o' :
  kstatus (set_Contexts (<[c := o']> (Contexts k)) o) = <[c := LState o']> (kstatus k).
Proof. unfold kstatus. simpl. apply fmap_insert. Qed.

Lemma kmode_insert k c o o' r :
  Contexts k !! c = Some r -> BlockingContext o' = BlockingContext r ->
  kmode (set_Contexts (<[c := o']> (Contexts k)) o) = kmode k.
Proof.
  intros Hr Hb. unfold kmode. simpl. rewrite fmap_insert, Hb. apply insert_id.
  by rewrite lookup_fmap, Hr.
Qed.

Lemma klawful_insert k k' c o' :
  Contexts k' = <[c := o']> (Contexts k) -> forall d, klawful k d -> klawful k' d.
Proof.
  intros Hc d (H1 & H2 & H3). split; [|done]. rewrite Hc, lookup_insert_is_Some'. by right.
Qed.

Lemma LockingGetContext_ok k oc :
  kinside k -> LockingGetContext oc k = Ok (default (kactive k) oc, k).
Proof.
  intros [Hi Hc]. destruct oc as [c|]; [done|]. simpl. unfold SchedulerGetLockingContext, active_thread.
  pose proof Hi as [Hcpu _ (a & Ha & _) _ _ _ _].
  assert (on_cpu (HalIsIrqAtomic IRQ_LEVEL_CRIT) k = Ok (true, k)) as Hatom.
  { apply on_cpu_read. rewrite HalIsIrqAtomic_ok by (done || (unfold IRQ_LEVEL_CRIT; lia)).
    do 2 f_equal. apply Z.leb_le. apply top_ge; [unfold IRQ_LEVEL_CRIT; lia|unfold crit_count in *; lia]. }
  rewrite (st_bind_ok _ _ _ _ _ Hatom). st_step assert_true.
  unfold SchedulerGetActiveThread, mbind, st_bind, modify, gets, kactive. simpl. rewrite Ha. simpl.
  do 2 f_equal. destruct k; simpl in *. by rewrite Ha.
Qed.

Lemma kernel_start k : koutside k -> exists k', SchedulerStartCritical k = Ok (tt, k') /\ kinside k' /\
  kstatus k' = kstatus k /\ kmode k' = kmode k /\ kactive k' = kactive k /\
  forall c, klawful k c -> klawful k' c.
Proof.
  intros [Hi Hc]. pose proof (inv_cpu k Hi) as Hcpu. unfold crit_count in Hc.
  pose proof Hcpu as (_ & Hcnt & _). pose proof (counts_u64 _ IRQ_LEVEL_CRIT Hcnt) as Hu.
  eexists. split; [apply on_cpu_ok, IsrDisable_ok; [done|by unfold IRQ_LEVEL_CRIT|done]|].
  assert (counts_ok (<[1%nat := cnt (IsrDisabledCount (Cpu k)) 1 + 1]> (IsrDisabledCount (Cpu k)))) as Hok
    by (apply counts_ok_insert; [done|unfold u64, max64, IRQ_LEVEL_CRIT in *; lia]).
  split; [|done]. split; [by apply inv_relevel|]. unfold crit_count, IRQ_LEVEL_CRIT in *. simpl.
  change 1%nat with (Z.to_nat 1). rewrite cnt_insert by (done || lia). rewrite decide_True by done. unfold u64 in Hu. lia.
Qed.

Lemma kernel_end k : kinside k -> exists k', SchedulerEndCritical k = Ok (tt, k') /\ koutside k' /\
  kstatus k' = kstatus k /\ kmode k' = kmode k /\ kactive k' = kactive k /\
  forall c, klawful k c -> klawful k' c.
Proof.
  intros [Hi Hc]. pose proof (inv_cpu k Hi) as Hcpu. unfold crit_count in Hc.
  pose proof Hcpu as (_ & Hcnt & _). pose proof (counts_u64 _ IRQ_LEVEL_CRIT Hcnt) as Hu.
  eexists. split; [apply on_cpu_ok, IsrEnable_ok; [done|by unfold IRQ_LEVEL_CRIT|lia]|].
  assert (counts_ok (<[1%nat := cnt (IsrDisabledCount (Cpu k)) 1 - 1]> (IsrDisabledCount (Cpu k)))) as Hok
    by (apply counts_ok_insert; [done|unfold u64, max64, IRQ_LEVEL_CRIT in *; lia]).
  split; [|done]. split; [by apply inv_relevel|]. unfold crit_count, IRQ_LEVEL_CRIT, max64, u64 in *. simpl.
  change 1%nat with (Z.to_nat 1). rewrite cnt_insert by (done || lia). rewrite decide_True by done. lia.
Qed.

(** What the laws say of a call that sets the state of [c]. *)
Definition sets_status (k k' : KERNEL) (c : ctx) (s : LOCKING_STATE) : Prop :=
  kinside k' /\ kstatus k' = <[c := s]> (kstatus k) /\ kmode k' = kmode k /\ kactive k' = kactive k /\
  forall d, klawful k d -> klawful k' d.

(** Setting only the state of a context. *)
Lemma put_state k c o s :
  kinside k -> Contexts k !! c = Some o -> ctx_ok k c (with_LState s o) ->
  sets_status k (set_Contexts (<[c := with_LState s o]> (Contexts k)) k) c s.
Proof.
  intros [Hi Hc] Ho Hok. split; [split; [by eapply inv_put_context|done]|].
  split; [by rewrite kstatus_insert|]. split; [by eapply kmode_insert|]. split; [done|].
  by eapply klawful_insert.
Qed.

Lemma kernel_acquire k oc fuel :
  kinside k ->
  let c := default (kactive k) oc in
  klawful k c ->
  kstatus k !! c = Some LOCKING_STATE_READY \/
  (kstatus k !! c = Some LOCKING_STATE_BLOCKING /\ kstatus k !! kactive k = Some LOCKING_STATE_READY) ->
  exists k', KLockingAcquire fuel oc k = Ok (tt, k') /\ sets_status k k' c (granted c).
Proof.
  intros Hin c (Hs & Hidle & Hnw) Hst. pose proof Hin as [Hi Hcnt]. fold c in Hst.
  assert (exists o, Contexts k !! c = Some o /\ (LState o = LOCKING_STATE_READY \/
    (LState o = LOCKING_STATE_BLOCKING /\ c <> kactive k))) as (o & Ho & Hlo).
  { destruct Hst as [H|[H Hact]]; apply kstatus_Some in H as (o & Ho & Hlo); exists o; split; [done|by left|done|].
    right. split; [done|]. intros He. rewrite <- He in Hact. apply kstatus_Some in Hact as (o' & Ho' & Hlo').
    congruence. }
  pose proof (inv_ctx k Hi c o Ho) as Hok.
  assert (KLockingAcquire fuel oc k =
      call_wake (ops_with (match fuel with O => fun _ => fail FFuel | S fuel => KLockingAcquire fuel end))
        (WakeFunction o) c k) as ->.
  { destruct fuel; cbn [KLockingAcquire]; unfold SchedulerIsCritical;
      (st_step crit_atomic by done); st_step assert_true;
      rewrite (st_bind_ok _ _ _ _ _ (LockingGetContext_ok k oc Hin)); fold c;
      (st_step context_ok by exact Ho);
      (st_step assert_true by (apply orb_true_iff; rewrite !bool_decide_eq_true; naive_solver)); done. }
  destruct c as [t|w|n]; [| done |].
  - destruct Hok as (Hb & Hw & Hna & th & Hth & Hbl). rewrite Hw. cbn [call_wake granted].
    unfold SchedulerWakeOnLock. st_step context_ok by exact Ho. destruct Hlo as [Hlo|[Hlo Hne]]; rewrite Hlo.
    + eexists. split; [reflexivity|]. apply put_state; [done|done|].
      split; [done|]. split; [done|]. split; [done|]. exists th. done.
    + unfold put_context. unfold mbind at 1, st_bind at 1, modify at 1.
      destruct (Hbl Hlo) as (Hts & Hq & Hni).
      pose proof (put_state k (CThread t) o LOCKING_STATE_READY Hin Ho) as Hset.
      set (k1 := set_Contexts (<[CThread t := with_LState LOCKING_STATE_READY o]> (Contexts k)) k) in *.
      assert (Hput : sets_status k k1 (CThread t) LOCKING_STATE_READY).
      { apply Hset. split; [done|]. split; [done|]. split; [done|]. exists th. done. }
      destruct Hput as ([Hi1 Hc1] & Hst1 & Hm1 & Ha1 & Hl1).
      destruct (SchedulerResumeThread_ok k1 t th (with_LState LOCKING_STATE_READY o) Hi1 Hc1)
        as (k2 & Hr2 & Hi2 & ->); try done.
      { apply lookup_insert_eq. }
      { intros He. apply Hne. unfold kactive. change (ActiveThread k1) with (ActiveThread k) in He. by rewrite He. }
      eexists. split; [exact Hr2|]. split; [done|]. done.
  - destruct Hok as [Hb Hw]. rewrite Hw. cbn [call_wake granted]. unfold LockingWakeNonBlocking.
    st_step context_ok by exact Ho.
    eexists. split; [|apply (put_state k (CPlain n) o LOCKING_STATE_ACQUIRED); done].
    destruct Hlo as [Hlo|[Hlo _]]; by rewrite Hlo.
Qed.

Lemma kactive_Some k a : ActiveThread k = Some a -> kactive k = CThread a.
Proof. unfold kactive. by intros ->. Qed.

(** The state and thread after [SchedulerBlockThread]. *)
Lemma SchedulerBlockThread_ok k a th o :
  kinside k -> ActiveThread k = Some a -> Threads k !! a = Some th -> Contexts k !! CThread a = Some o ->
  LState o = LOCKING_STATE_READY ->
  exists k', SchedulerBlockThread k = Ok (tt, k') /\ kinside k' /\ SchedulerMutex k' <> 0 /\
    Contexts k' = Contexts k /\ ActiveThread k' = ActiveThread k /\ RunQueue k' = RunQueue k /\
    Threads k' = <[a := with_TState THREAD_STATE_BLOCKED th]> (Threads k).
Proof.
  intros [Hi Hc] Ha Hth Ho Hr. pose proof Hi as [Hcpu Hsig Hact Hctx Hnd Hrun Hmx].
  destruct Hact as (a' & Ha' & Hq & _). assert (a' = a) as -> by congruence.
  set (k1 := set_Threads (<[a := with_TState THREAD_STATE_BLOCKED th]> (Threads k)) k).
  assert (sched_inv k1) as Hi1.
  { constructor; try done; simpl.
    - exists a. split; [done|]. split; [done|by eexists].
    - intros c oc Hoc. pose proof (Hctx c oc Hoc) as Hok. destruct c as [t'| |]; [|done|done].
      destruct Hok as (H1 & H2 & H3 & th' & Hth' & H4). split; [done|]. split; [done|]. split; [done|]. simpl.
      destruct (decide (t' = a)) as [->|Hne].
      + rewrite lookup_insert_eq. eexists. split; [done|]. intros H. congruence.
      + rewrite lookup_insert_ne by done. by exists th'.
    - intros t' Ht'. destruct (Hrun t' Ht') as (H1 & H2 & th' & H3 & H4). split; [done|]. split; [done|].
      rewrite lookup_insert_ne by (intros <-; done). by exists th'. }
  destruct (NeedsSwitch_ok k1 Hi1) as (k2 & Hr2 & Hi2 & (Ht2 & Hc2 & Hq2 & Ha2 & Hn2) & Hm2 & _).
  exists k2. split.
  - unfold SchedulerBlockThread, thread. st_step crit_atomic by done. st_step assert_true.
    st_step active_thread_ok by exact Ha. st_step fetch_ok by exact Hth. unfold put_thread.
    unfold mbind, st_bind, modify. fold k1. by rewrite Hr2.
  - split; [split; [done|by unfold crit_count; rewrite Hn2]|]. by rewrite Ht2, Hc2, Ha2, Hq2.
Qed.

(** [LockingBlock] first notes what the caller wants, if it says so. *)
Definition wanting (mode : option RESOURCE_STATE) (o : LOCKING_CONTEXT) : LOCKING_CONTEXT :=
  match mode with Some m => mkContext (LState o) m (BlockFunction o) (WakeFunction o) | None => o end.
Definition noted (mode : option RESOURCE_STATE) (c : ctx) (o : LOCKING_CONTEXT) (k : KERNEL) : KERNEL :=
  match mode with Some _ => set_Contexts (<[c := wanting mode o]> (Contexts k)) k | None => k end.

Lemma noted_ok k mode c o :
  kinside k -> Contexts k !! c = Some o ->
  let k1 := noted mode c o k in
  Contexts k1 !! c = Some (wanting mode o) /\ kinside k1 /\ kstatus k1 = kstatus k /\
  kmode k1 = (match mode with Some r => <[c := r]> (kmode k) | None => kmode k end) /\
  ActiveThread k1 = ActiveThread k /\ (forall d, klawful k d -> klawful k1 d).
Proof.
  intros Hin Ho. destruct mode as [m|]; [|done]. pose proof Hin as [Hi Hcnt]. pose proof (inv_ctx k Hi c o Ho) as Hok. cbv zeta.
  split; [apply lookup_insert_eq|]. split; [split; [eapply inv_put_context; [done|done|by destruct c]|done]|].
  split; [|split; [|split; [done|by eapply klawful_insert]]].
  - unfold noted. rewrite kstatus_insert. apply insert_id. unfold kstatus. by rewrite lookup_fmap, Ho.
  - unfold noted, kmode. simpl. by rewrite fmap_insert.
Qed.

(** The block function of a context that is ready: the running thread leaves the processor
    at its next switch, the other ones have nothing to do. *)
Lemma call_block_ok k c o :
  kinside k -> Contexts k !! c = Some o -> LState o = LOCKING_STATE_READY ->
  (match c with CThread _ => c = kactive k | CWorker _ => False | _ => True end) -> c <> CThread IdleThread ->
  exists k2, call_block (BlockFunction o) c k = Ok (tt, k2) /\ kinside k2 /\
    Contexts k2 = Contexts k /\ ActiveThread k2 = ActiveThread k /\ ctx_ok k2 c (with_LState LOCKING_STATE_BLOCKING o).
Proof.
  intros Hin Ho Hl Hcaller Hidle. pose proof Hin as [Hi _]. pose proof (inv_ctx k Hi c o Ho) as Hok. destruct c as [t|w|n]; [|done|].
  - destruct Hok as (Hb & Hw & _ & th & Hth & _). rewrite Hb. cbn [call_block]. unfold SchedulerBlockOnLock.
    pose proof (inv_active k Hi) as (a & Ha & Hq & _). assert (t = a) as ->.
    { unfold kactive in Hcaller. rewrite Ha in Hcaller. simpl in Hcaller. congruence. }
    destruct (SchedulerBlockThread_ok k a th o Hin Ha Hth Ho Hl) as (k2 & Hr & Hin2 & _ & Hc2 & Ha2 & Hq2 & Ht2).
    exists k2. split.
    + unfold mbind, st_bind, gets. rewrite Ha. simpl. rewrite bool_decide_true by done. simpl. exact Hr.
    + split; [done|]. split; [congruence|]. split; [congruence|]. split; [simpl; congruence|]. split; [simpl; congruence|]. split; [done|].
      rewrite Ht2, Hq2, lookup_insert_eq. eexists. split; [done|]. intros _. split; [done|]. split; [done|]. intros ->. by apply Hidle.
  - destruct Hok as [Hb Hw]. rewrite Hb. by exists k.
Qed.

Lemma kernel_block k mode oc :
  kinside k ->
  let c := default (kactive k) oc in
  klawful k c -> kstatus k !! c = Some LOCKING_STATE_READY ->
  (match c with CThread _ => c = kactive k | _ => True end) ->
  exists k', KLockingBlock mode oc k = Ok (c, k') /\ kinside k' /\
    kstatus k' = <[c := LOCKING_STATE_BLOCKING]> (kstatus k) /\
    kmode k' = (match mode with Some r => <[c := r]> (kmode k) | None => kmode k end) /\
    kactive k' = kactive k /\ forall d, klawful k d -> klawful k' d.
Proof.
  intros Hin c (_ & Hidle & Hnw) Hst Hcaller. pose proof Hin as [Hi Hcnt]. fold c in Hst. apply kstatus_Some in Hst as (o & Ho & Hlo).
  destruct (noted_ok k mode c o Hin Ho) as (Ho1 & Hin1 & Hs1 & Hm1 & Ha1 & Hl1). set (k1 := noted mode c o k) in *.
  destruct (call_block_ok k1 c (wanting mode o) Hin1 Ho1) as (k2 & Hr2 & Hin2 & Hc2 & Ha2 & Hok2).
  { by destruct mode. }
  { unfold kactive in *. rewrite Ha1. by destruct c. }
  { done. }
  assert (Ho2 : Contexts k2 !! c = Some (wanting mode o)) by (by rewrite Hc2).
  pose proof (put_state k2 c _ LOCKING_STATE_BLOCKING Hin2 Ho2 Hok2) as (Hin3 & Hs3 & Hm3 & Ha3 & Hl3).
  exists (set_Contexts (<[c := with_LState LOCKING_STATE_BLOCKING (wanting mode o)]> (Contexts k2)) k2).
  split; [|split; [done|split; [|split; [|split]]]].
  - unfold KLockingBlock, SchedulerIsCritical. st_step crit_atomic by done. st_step assert_true.
    rewrite (st_bind_ok _ _ _ _ _ (LockingGetContext_ok k oc Hin)). fold c.
    st_step context_ok by exact Ho. st_step assert_true by (by apply bool_decide_eq_true).
    assert ((match mode with
      | Some m => put_context c (mkContext (LState o) m (BlockFunction o) (WakeFunction o))
      | None => mret tt end) k = Ok (tt, k1)) as Hput by (by destruct mode).
    rewrite (st_bind_ok _ _ _ _ _ Hput). replace (BlockFunction o) with (BlockFunction (wanting mode o)) by (by destruct mode).
    rewrite (st_bind_ok _ _ _ _ _ Hr2). st_step context_ok by exact Ho2. done.
  - rewrite Hs3. f_equal. rewrite <- Hs1. unfold kstatus. by rewrite Hc2.
  - rewrite Hm3, <- Hm1. unfold kmode. by rewrite Hc2.
  - rewrite Ha3. unfold kactive. by rewrite Ha2, Ha1.
  - intros d Hd. apply Hl3. destruct (Hl1 d Hd) as (H1 & H2 & H3). split; [by rewrite Hc2|done].
Qed.

#[export] Instance kernel_laws : LockingLaws KERNEL.
Proof.
  refine {| status := kstatus; wait_mode := kmode; active := kactive; inside := kinside;
    outside := koutside; lawful := klawful |}.
  - intros k. by eexists.
  - apply kernel_start.
  - apply kernel_end.
  - intros k oc Hin c Hl Hs. destruct (kernel_acquire k oc 2 Hin Hl Hs) as (k' & Hr & Hk). by exists k'.
  - apply kernel_block.
  - intros k c r Hin Hm. unfold kmode in Hm. rewrite lookup_fmap, fmap_Some in Hm. destruct Hm as (o & Ho & ->).
    simpl. by st_step context_ok by exact Ho.
Defined.
