(* ===== verification/SerialStreams.v ===== *)
(** * The streams of the serial port (proofs over Serial)

    Every call and interrupt of the serial port keeps the two byte streams, from the
    terminal to the readers and from the writers to the terminal. *)

From S2P Require Import Prelude RingBuffer LinkedList LockClass Semaphore Barrier Resource.
From S2P Require Import WeightedLink HeapTree Isr Kernel Handler Timer Scheduler Serial KernelLocks.











(** ** Properties *)

