(* ===== verification/Switch.v ===== *)
(** * Context switches, threads and interrupt handlers
    (kernel/scheduler.c, context.c, thread.h, sleep.c, generation.c, worker.c, startup.c;
    the loops of critinterrupt.c and softinterrupt.c) *)

From S2P Require Import Prelude LinkedList LockClass Semaphore Barrier Resource.
From S2P Require Import WeightedLink HeapTree Isr Kernel Handler Timer Scheduler Serial.

(** ** Locks that live in the kernel state *)

Definition on_signal (s : positive) (op : SIGNAL -> St KERNEL SIGNAL) : St KERNEL unit :=
  g ← fetch Signals s;
  g ← op g;
  modify (fun k => set_Signals (<[s := g]> (Signals k)) k).

(** [&thread->ResultLock]. *)
Definition on_result_lock (t : tid) (op : RESOURCE -> St KERNEL RESOURCE) : St KERNEL unit :=
  o ← thread t;
  r ← op (ResultLock o);
  o ← thread t;
  put_thread t (with_ResultLock r o).

Definition on_queue_lock (q : positive) (op : SEMAPHORE -> St KERNEL SEMAPHORE) : St KERNEL unit :=
  o ← fetch WorkerQueues q;
  l ← op (QLock o);
  o ← fetch WorkerQueues q;
  modify (fun k => set_WorkerQueues (<[q := mkQueue (QThread o) (QList o) l]> (WorkerQueues k)) k).

(** ** kernel/context.c *)

(** [Pointer], [Foo] and [Arg] are the stack memory and the start function, which is
    [SchedulerThreadStartup] for every thread; the machine context says where the thread
    starts when it is first switched to. *)
Definition ContextInit (Size : Z) : CONTEXT :=
  mkStack (if negb (Size =? 0) then Bootstrap else Suspended) 0 0 0 0.

(** The control continues as the thread [new]: at its [ContextBootstrap] or behind the
    [HalContextSwitch] that left it.  Both enable the interrupts again. *)
Definition ContextSwitch (old new : tid) : St KERNEL MACHINE_CONTEXT :=
  time ← TimeGet;
  n ← thread new;
  if negb (bool_decide (old = new)) then
    put_thread new (with_Stack (mkStack (MachineState (Stack n)) (CounterAdd (TimesRun (Stack n)) 1)
      (CounterAdd (TimesSwitched (Stack n)) 1) time time) n);;
    on_cpu (IsrDisable IRQ_LEVEL_MAX);;
    a ← on_cpu (HalIsIrqAtomic IRQ_LEVEL_MAX);
    assert a;;
    o ← thread old;
    put_thread old (with_Stack (mkStack Suspended (TimesRun (Stack o)) (TimesSwitched (Stack o))
      (LastRanTime (Stack o)) (LastSelectedTime (Stack o))) o);;
    n ← thread new;
    a ← on_cpu (HalIsIrqAtomic IRQ_LEVEL_MAX);
    assert a;;
    on_cpu (IsrEnable IRQ_LEVEL_MAX);;
    mret (MachineState (Stack n))
  else
    put_thread new (with_Stack (mkStack (MachineState (Stack n)) (CounterAdd (TimesRun (Stack n)) 1)
      (TimesSwitched (Stack n)) time (LastSelectedTime (Stack n))) n);;
    mret Suspended.

(** ** kernel/scheduler.c *)

Definition Schedule : St KERNEL unit :=
  a ← CritInterruptIsAtomic;
  assert a;;
  t ← active_thread;
  (if negb (bool_decide (t = IdleThread)) then
     o ← thread t;
     if bool_decide (TState o = THREAD_STATE_RUNNING) then
       q ← gets RunQueue;
       q ← LinkedListEnqueue t q;
       modify (set_RunQueue q)
     else mret tt
   else mret tt);;
  q ← gets RunQueue;
  if negb (lq_is_empty q) then
    let '(next, q) := lq_pop q in
    modify (set_RunQueue q);;
    modify (set_NextThread next)
  else modify (set_NextThread (Some IdleThread)).

Definition SchedulerSwitch : St KERNEL MACHINE_CONTEXT :=
  a ← CritInterruptIsAtomic;
  assert a;;
  a ← TimerIsAtomic;
  assert (negb a);;
  oldThread ← active_thread;
  newThread ← gets NextThread;
  modify (set_ActiveThread newThread);;
  modify (set_NextThread None);;
  newThread ← active_thread;
  m ← ContextSwitch oldThread newThread;
  match m with
  | Suspended =>
      a ← TimerIsAtomic;
      assert (negb a);;
      a ← CritInterruptIsAtomic;
      assert a;;
      mret Suspended
  | Bootstrap => mret Bootstrap
  end.

(** What a handler function returns; [Started] means that the control is now at the
    bootstrap of a new thread. *)
Inductive HANDLER_RESULT := Finished_ | Registered | Started.

Definition SchedulerTimerHandler (h : hid) : St KERNEL HANDLER_RESULT :=
  currentTime ← TimeGet;
  assert (bool_decide (h = SchedulerTimer));;
  q ← gets QuantumStartTime;
  t ← active_thread;
  o ← thread t;
  (if w64 (currentTime - q) >? Priority o then SchedulerNeedsSwitch else mret tt);;
  TimerRegister SchedulerTimer 1 SchedulerTimerHandler_ NullContext;;
  mret Registered.

Definition SchedulerCritHandler (h : hid) : St KERNEL HANDLER_RESULT :=
  assert (bool_decide (h = SchedulerCritObject));;
  Schedule;;
  SoftInterruptDisable;;
  time ← TimeGet;
  modify (set_QuantumStartTime time);;
  SoftInterruptEnable;;
  m ← SchedulerSwitch;
  mret (match m with Suspended => Finished_ | Bootstrap => Started end).

(** ** kernel/sleep.c and kernel/generation.c *)

Definition SleepCritHandler (h : hid) : St KERNEL HANDLER_RESULT :=
  o ← handler h;
  a ← SchedulerIsCritical;
  assert a;;
  match Context o with
  | SignalContext sleepSignal => on_signal sleepSignal SignalSet
  | _ => fail FNull
  end;;
  mret Finished_.

Definition SleepTimerHandler (timer : hid) : St KERNEL HANDLER_RESULT :=
  o ← handler timer;
  CritInterruptRegisterHandler timer SleepCritHandler_ (Context o);;
  mret Registered.

(** [sleepSignal] and [timer] are the addresses of the local variables. *)
Definition Sleep (sleepSignal : positive) (timer : hid) (time : Z) : St KERNEL unit :=
  modify (fun k => set_Signals (<[sleepSignal := SignalInit false]> (Signals k)) k);;
  HandlerInit timer;;
  TimerRegister timer time SleepTimerHandler_ (SignalContext sleepSignal);;
  on_signal sleepSignal (SignalWaitForSignal None).

Definition GenerationUpdateHandler (h : hid) : St KERNEL HANDLER_RESULT :=
  o ← handler h;
  match Context o with
  | GenerationContext g =>
      c ← fetch GenContexts g;
      on_generation (GGeneration c) (GenerationUpdate (NewValue c))
  | _ => fail FNull
  end;;
  mret Finished_.

(** ** The interrupt handlers *)

Definition call_handler (f : HANDLER_FUNCTION) (h : hid) : St KERNEL HANDLER_RESULT :=
  match f with
  | SchedulerTimerHandler_ => SchedulerTimerHandler h
  | SchedulerCritHandler_ => SchedulerCritHandler h
  | SleepTimerHandler_ => SleepTimerHandler h
  | SleepCritHandler_ => SleepCritHandler h
  | GenerationUpdateHandler_ => GenerationUpdateHandler h
  end.

(** The body of the loops of [CritInterrupt] and [SoftInterrupt]; true when the control
    stays in the loop. *)
Definition run_handler (h : hid) : St KERNEL bool :=
  HandlerRun h;;
  o ← handler h;
  match Function o with
  | None => fail FNull
  | Some func =>
      isComplete ← call_handler func h;
      match isComplete with
      | Finished_ => HandlerFinish h;; mret true
      | Registered => mret true
      | Started => mret false
      end
  end.

Fixpoint CritInterrupt (fuel : nat) : St KERNEL bool :=
  l ← gets CritInterruptHandlerList;
  match l with
  | [] => mret true
  | h :: l =>
      match fuel with
      | O => fail FFuel
      | S fuel =>
          modify (set_CritInterruptHandlerList l);;
          stays ← run_handler h;
          if (stays : bool) then CritInterrupt fuel else mret false
      end
  end.

Fixpoint SoftInterrupt (fuel : nat) : St KERNEL bool :=
  l ← gets SoftInterruptHandlerList;
  match l with
  | [] => mret true
  | h :: l =>
      match fuel with
      | O => fail FFuel
      | S fuel =>
          modify (set_SoftInterruptHandlerList l);;
          stays ← run_handler h;
          if (stays : bool) then SoftInterrupt fuel else mret false
      end
  end.

(** The loops end with the lists: a critical handler registers no critical handler, a
    soft handler that registers another one registers a timer. *)
Definition call_isr (f : ISR_HANDLER) : St KERNEL bool :=
  match f with
  | CritInterrupt_ => l ← gets CritInterruptHandlerList; CritInterrupt (length l)
  | SoftInterrupt_ => l ← gets SoftInterruptHandlerList; SoftInterrupt (length l)
  | TimerInterrupt_ => TimerInterrupt;; mret true
  | SendBytesInterrupt_ => SendBytesInterrupt;; mret true
  | GetBytesInterrupt_ => GetBytesInterrupt;; mret true
  end.

(** ** Threads *)

(** [SchedulerThreadStartup] up to the call of [thread->Main]. *)
Definition ThreadEntry : St KERNEL unit :=
  a ← CritInterruptIsAtomic;
  assert a;;
  m ← gets SchedulerMutex;
  assert (MutexIsLocked m);;
  HandlerFinish SchedulerCritObject;;
  CritInterruptEnable;;
  a ← CritInterruptIsAtomic;
  assert (negb a).

(** kernel/isr.c; a thread that is started leaves the frame of the interrupt behind, and
    the wrapper does not return (false). *)
Definition IsrHandlerWrapper (level : Z) : St KERNEL bool :=
  on_cpu (IsrDisable level);;
  f ← on_cpu (rd IsrHandlerTable level);
  match f with
  | None => fail FNull
  | Some f =>
      stays ← call_isr f;
      if (stays : bool) then on_cpu (IsrEnable level);; mret true
      else ThreadEntry;; mret false
  end.

Definition HalIsrHandler (SignalNumber : Z) : St KERNEL bool :=
  irq ← on_cpu (rd HalSignalToIrq SignalNumber);
  h ← on_cpu (rd HalSignalToHandler SignalNumber);
  match h with
  | None => panic
  | Some h =>
      assert (negb (irq =? IRQ_LEVEL_NONE));;
      match h with
      | IsrHandlerWrapper_ => IsrHandlerWrapper irq
      | HalReset_ => modify (set_Halted true);; mret false
      | WatchdogInterrupt_ => panic
      end
  end.

(** The delivery of the pending signal [sig] by the host: the mask of the handler is
    added, [HalIsrHandler] runs, and the old mask is restored on the return from the
    frame.  After a switch the frame is that of the new thread; it was suspended by a
    critical interrupt, too, so it restores the mask of [IRQ_LEVEL_NONE] like this one. *)
Definition Deliver (sig : Z) : St KERNEL unit :=
  c ← gets Cpu;
  if bool_decide (sig ∈ Pending c) && negb (bool_decide (sig ∈ SignalMask c)) then
    irq ← on_cpu (rd HalSignalToIrq sig);
    m ← on_cpu (rd HalIrqToMask irq);
    modify (set_Cpu (set_SignalMask ({[sig]} ∪ m ∪ SignalMask c) (set_Pending (Pending c ∖ {[sig]}) c)));;
    stays ← HalIsrHandler sig;
    if (stays : bool) then on_cpu (modify (set_SignalMask (SignalMask c))) else mret tt
  else mret tt.

(** [SchedulerThreadStartup] from the return of [thread->Main]: the joining threads get
    the result, then the thread takes the lock again and may have to wait for them. *)
Definition ThreadExit (result : Z) : St KERNEL unit :=
  t ← active_thread;
  o ← thread t;
  put_thread t (with_Result result o);;
  on_result_lock t ResourceUnlockExclusive;;
  on_result_lock t (ResourceLockExclusive None).

Definition HalShutdownNow : St KERNEL unit := modify (set_Halted true).

Definition ThreadDone : St KERNEL unit :=
  t ← active_thread;
  SchedulerStartCritical;;
  o ← thread t;
  put_thread t (with_TState THREAD_STATE_DONE o);;
  n ← gets RunningThreads;
  modify (set_RunningThreads (w64 (n - 1)));;
  s ← gets Shutdown;
  n ← gets RunningThreads;
  (if (s : bool) && (n =? 1) then HalShutdownNow else mret tt);;
  SchedulerForceSwitch.

Definition SchedulerCreateThread (t : tid) (priority stackSize main argument local : Z) (start : bool)
  : St KERNEL unit :=
  a ← on_cpu (HalIsIrqAtomic IRQ_LEVEL_CRIT);
  assert a;;
  n ← gets RunningThreads;
  modify (set_RunningThreads (w64 (n + 1)));;
  LockingInit (CThread t) SchedulerBlockOnLock_ SchedulerWakeOnLock_;;
  let new state := mkThread (wrap 8 priority) state (ResourceInit RESOURCE_EXCLUSIVE) (ContextInit stackSize)
    main argument local 0 in
  if (start : bool) then
    put_thread t (new THREAD_STATE_RUNNING);;
    q ← gets RunQueue;
    q ← LinkedListEnqueue t q;
    modify (set_RunQueue q)
  else put_thread t (new THREAD_STATE_BLOCKED).

Definition SchedulerJoinThread (t : tid) : St KERNEL unit := on_result_lock t (ResourceLockShared None).
Definition SchedulerReleaseThread (t : tid) : St KERNEL unit := on_result_lock t ResourceUnlockShared.

Definition SchedulerStartup : St KERNEL unit :=
  modify (set_RunQueue []);;
  HandlerInit SchedulerTimer;;
  TimerRegister SchedulerTimer 0 SchedulerTimerHandler_ NullContext;;
  modify (set_SchedulerMutex (MutexInit false));;
  time ← TimeGet;
  modify (set_QuantumStartTime time);;
  modify (set_RunningThreads 0);;
  modify (set_Shutdown false);;
  SchedulerCreateThread IdleThread 1 0 0 0 0 false;;
  modify (set_ActiveThread (Some IdleThread)).

Definition SchedulerShutdown : St KERNEL unit :=
  SchedulerStartCritical;;
  modify (set_Shutdown true);;
  SchedulerEndCritical.

Definition SchedulerIsShuttingDown : St KERNEL bool :=
  SchedulerStartCritical;;
  result ← gets Shutdown;
  SchedulerEndCritical;;
  mret result.

Definition ThreadLocalGet : St KERNEL Z :=
  CritInterruptDisable;;
  a ← on_cpu (HalIsIrqAtomic IRQ_LEVEL_CRIT);
  assert a;;
  t ← active_thread;
  o ← thread t;
  CritInterruptEnable;;
  mret (Local o).

Definition ThreadLocalSet (val : Z) : St KERNEL unit :=
  CritInterruptDisable;;
  a ← on_cpu (HalIsIrqAtomic IRQ_LEVEL_CRIT);
  assert a;;
  t ← active_thread;
  o ← thread t;
  put_thread t (with_Local val o);;
  CritInterruptEnable.

(** ** kernel/worker.c *)

(** [WorkerGetItem] from the return of [SemaphoreDown] on. *)
Definition WorkerTakeItem (queue : positive) : St KERNEL positive :=
  CritInterruptDisable;;
  q ← fetch WorkerQueues queue;
  let '(link, l) := lq_pop (QList q) in
  modify (fun k => set_WorkerQueues (<[queue := mkQueue (QThread q) l (QLock q)]> (WorkerQueues k)) k);;
  CritInterruptEnable;;
  match link with Some item => mret item | None => panic end.

Definition WorkerGetItem (queue : positive) : St KERNEL unit := on_queue_lock queue (SemaphoreDown None).

Inductive WORKER_RETURN := WORKER_PENDED | WORKER_BLOCKED | WORKER_FINISHED.

(** The [switch] of [WorkerThreadMain] on the result of [item->Foo]. *)
Definition WorkerResult (queue item : positive) (result : WORKER_RETURN) : St KERNEL unit :=
  match result with
  | WORKER_FINISHED =>
      i ← fetch WorkerItems item;
      modify (fun k => set_WorkerItems (<[item := mkItem (Queue i) (Foo i) (IContext i) true]> (WorkerItems k)) k)
  | WORKER_BLOCKED => mret tt
  | WORKER_PENDED =>
      CritInterruptDisable;;
      q ← fetch WorkerQueues queue;
      l ← LinkedListEnqueue item (QList q);
      modify (fun k => set_WorkerQueues (<[queue := mkQueue (QThread q) l (QLock q)]> (WorkerQueues k)) k);;
      CritInterruptEnable
  end.

Definition WorkerCreateWorker (queue : positive) (t : tid) (stackSize main : Z) : St KERNEL unit :=
  modify (fun k => set_WorkerQueues (<[queue := mkQueue t [] (SemaphoreInit 0)]> (WorkerQueues k)) k);;
  SchedulerCreateThread t 10 stackSize main (Z.pos queue) 0 true.

Definition WorkerInitItem (queue : positive) (foo c : Z) (item : positive) : St KERNEL unit :=
  modify (fun k => set_WorkerItems (<[item := match WorkerItems k !! item with
    | Some i => mkItem (Queue i) foo c (Finished i) | None => mkItem queue foo c false end]> (WorkerItems k)) k);;
  LockingInit (CWorker item) WorkerBlockOnLock_ WorkerWakeOnLock_;;
  WorkerAddItem kernel_ops queue item.

Definition WorkerItemIsFinished (item : positive) : St KERNEL bool :=
  on_cpu (IsrDisable IRQ_LEVEL_MAX);;
  i ← fetch WorkerItems item;
  on_cpu (IsrEnable IRQ_LEVEL_MAX);;
  mret (Finished i).

(** ** kernel/startup.c *)

Definition KernelInit : St KERNEL unit :=
  on_cpu IsrStartup;;
  on_cpu (IsrDisable IRQ_LEVEL_MAX);;
  CritInterruptStartup;;
  SoftInterruptStartup;;
  on_cpu (HalRegisterIsrHandler HalReset_ HAL_ISR_RESET IRQ_LEVEL_RESET);;
  TimerStartup.

(** Up to the loop of the idle thread. *)
Definition KernelStart : St KERNEL unit :=
  a ← on_cpu (HalIsIrqAtomic IRQ_LEVEL_MAX);
  assert a;;
  on_cpu (IsrEnable IRQ_LEVEL_MAX);;
  a ← on_cpu (HalIsIrqAtomic IRQ_LEVEL_MAX);
  assert (negb a).
