(* ===== verification/Scheduling.v ===== *)
(** * Context switches are fair (proofs over Switch)

    One delivery of the critical interrupt with a pending switch request moves the
    running thread behind the run queue and the head of the queue to the processor. *)

From S2P Require Import Prelude LinkedList LockClass Semaphore Barrier Resource.
From S2P Require Import WeightedLink HeapTree Isr Kernel Handler Timer Scheduler Serial KernelLocks Switch.

(** ** Outcomes *)

(** The run queue once the thread [a], which leaves the processor, has been put back. *)
Definition requeued (k : KERNEL) (a : tid) (th : THREAD) : list tid :=
  if bool_decide (a <> IdleThread /\ TState th = THREAD_STATE_RUNNING) then RunQueue k ++ [a] else RunQueue k.

Definition next_of (q : list tid) : tid := default IdleThread (head q).

(** The statistics that [ContextSwitch] updates; both threads keep the rest. *)
Definition switched (time : Z) (a n : tid) (ts : gmap tid THREAD) : gmap tid THREAD :=
  match ts !! a, ts !! n with
  | Some o, Some p =>
      if bool_decide (a = n) then
        <[n := with_Stack (mkStack (MachineState (Stack p)) (CounterAdd (TimesRun (Stack p)) 1)
          (TimesSwitched (Stack p)) time (LastSelectedTime (Stack p))) p]> ts
      else
        <[a := with_Stack (mkStack Suspended (TimesRun (Stack o)) (TimesSwitched (Stack o))
          (LastRanTime (Stack o)) (LastSelectedTime (Stack o))) o]>
        (<[n := with_Stack (mkStack (MachineState (Stack p)) (CounterAdd (TimesRun (Stack p)) 1)
          (CounterAdd (TimesSwitched (Stack p)) 1) time time) p]> ts)
  | _, _ => ts
  end.

Definition resumes (a n : tid) (ts : gmap tid THREAD) : MACHINE_CONTEXT :=
  if bool_decide (a = n) then Suspended
  else match ts !! n with Some p => MachineState (Stack p) | None => Suspended end.

(** ** Levels *)

(** Only the critical level is disabled, as while its handler runs. *)
Definition in_crit (c : CPU) : Prop := cpu_ok c /\ IsrDisabledCount c = <[1%nat := 1]> (replicate 8 0).

Lemma crit_counts_ok : counts_ok (<[1%nat := 1]> (replicate 8 0)).
Proof. apply (bool_decide_unpack _). vm_compute. exact I. Qed.

Lemma in_crit_atomic k l : in_crit (Cpu k) -> 1 <= l < 8 -> on_cpu (IsrIsAtomic l) k = Ok (l <=? 1, k).
Proof.
  intros [Hok Hc] Hl. apply on_cpu_read. rewrite IsrIsAtomic_ok by done. by rewrite Hc.
Qed.

Lemma in_crit_pair l c : in_crit c -> 1 <= l < 8 ->
  exists c1, IsrDisable l c = Ok (tt, c1) /\ IsrEnable l c1 = Ok (tt, c) /\
    HalIsIrqAtomic l c1 = Ok (true, c1).
Proof.
  intros [Hok Hc] Hl.
  assert (forall j, 0 <= cnt (<[1%nat := 1]> (replicate 8 0)) j <= 1) as Hj.
  { intros j. unfold cnt. destruct (<[1%nat := 1]> (replicate 8 0) !! Z.to_nat j) as [x|] eqn:E; simpl; [|lia].
    assert (Forall (fun x => 0 <= x <= 1) (<[1%nat := 1]> (replicate 8 0))) as HF
      by (apply (bool_decide_unpack _); vm_compute; exact I).
    by apply (Forall_lookup_1 _ _ _ _ HF E). }
  destruct (disable_enable l c Hok Hl) as (c1 & Hd & Hok1 & Hc1 & _ & _ & He).
  { rewrite Hc. specialize (Hj l). unfold max64. lia. }
  exists c1. split; [done|]. split; [done|].
  rewrite HalIsIrqAtomic_ok by (done || lia). do 2 f_equal. apply Z.leb_le, top_ge; [done|].
  rewrite Hc1, cnt_insert by (apply Hok || lia). rewrite decide_True by done.
  pose proof (Hj l). rewrite Hc. lia.
Qed.

(** ** The steps of a switch *)

Lemma Schedule_ok k a th :
  sched_inv k -> 1 <= crit_count k -> ActiveThread k = Some a -> Threads k !! a = Some th ->
  Schedule k = Ok (tt, set_NextThread (Some (next_of (requeued k a th)))
    (set_RunQueue (tail (requeued k a th)) k)).
Proof.
  intros Hi Hc Ha Hth. unfold Schedule, requeued. st_step crit_atomic by done. st_step assert_true.
  st_step active_thread_ok by exact Ha.
  pose proof (inv_active k Hi) as (a' & Ha' & Hq & _). assert (a' = a) as -> by congruence.
  destruct (decide (a = IdleThread)) as [->|Hne].
  { rewrite (bool_decide_true (IdleThread = IdleThread)), (bool_decide_false (IdleThread <> IdleThread /\ _)) by naive_solver.
    unfold mbind, st_bind, modify, gets, mret, st_ret. simpl. destruct k as [? ? ? ? ? ? ? ? ? ? ? ? ? ? ? [|n q]]; done. }
  rewrite (bool_decide_false (a = IdleThread)) by done. cbn [negb].
  unfold thread, mbind, st_bind. rewrite (fetch_ok Threads a k th Hth). simpl.
  destruct (decide (TState th = THREAD_STATE_RUNNING)) as [E|E].
  - rewrite (bool_decide_true (TState th = _)), (bool_decide_true (a <> IdleThread /\ _)) by done.
    unfold gets. rewrite lock_enqueue_ok by done. unfold modify, lq_enqueue. simpl.
    destruct k as [? ? ? ? ? ? ? ? ? ? ? ? ? ? ? [|n q]]; done.
  - rewrite (bool_decide_false (TState th = _)), (bool_decide_false (a <> IdleThread /\ _)) by naive_solver.
    unfold modify, gets, mret, st_ret. simpl. destruct k as [? ? ? ? ? ? ? ? ? ? ? ? ? ? ? [|n q]]; done.
Qed.

Lemma ContextSwitch_ok k a n o p :
  in_crit (Cpu k) -> Threads k !! a = Some o -> Threads k !! n = Some p ->
  ContextSwitch a n k = Ok (resumes a n (Threads k), set_Threads (switched (Clock k) a n (Threads k)) k).
Proof.
  intros Hin Ho Hp. unfold ContextSwitch, switched, resumes. rewrite Ho, Hp.
  unfold TimeGet, HalGetTime, thread, put_thread. unfold mbind at 1, st_bind at 1, gets at 1.
  st_step fetch_ok by exact Hp.
  destruct (decide (a = n)) as [->|Hne].
  { rewrite (bool_decide_true (n = n)) by done. cbn [negb]. done. }
  rewrite (bool_decide_false (a = n)) by done. cbn [negb].
  unfold mbind at 1, st_bind at 1, modify at 1. cbv beta.
  match goal with |- context [set_Threads ?t k] => set (t1 := t) end.
  destruct (in_crit_pair IRQ_LEVEL_MAX (Cpu k) Hin) as (c1 & Hd & He & Hat); [done|].
  set (k1 := set_Threads t1 k).
  rewrite (st_bind_ok _ _ _ _ _ (on_cpu_ok _ k1 tt c1 Hd)).
  rewrite (st_bind_ok _ _ _ _ _ (on_cpu_read _ (set_Cpu c1 k1) true Hat)). st_step assert_true.
  st_step fetch_ok by (unfold k1, t1; simpl; rewrite lookup_insert_ne by done; exact Ho).
  unfold mbind at 1, st_bind at 1, modify at 1. cbv beta.
  match goal with |- context [set_Threads ?t (set_Cpu c1 k1)] => set (t2 := t) end.
  set (k2 := set_Threads t2 (set_Cpu c1 k1)).
  st_step fetch_ok by (unfold k2, t2, k1, t1; simpl; rewrite lookup_insert_ne by done; apply lookup_insert_eq).
  rewrite (st_bind_ok _ _ _ _ _ (on_cpu_read _ k2 true Hat)). st_step assert_true.
  assert (IsrEnable IRQ_LEVEL_MAX (Cpu k2) = Ok (tt, Cpu k)) as He' by exact He.
  rewrite (st_bind_ok _ _ _ _ _ (on_cpu_ok _ k2 tt _ He')). by destruct k.
Qed.

(** The state when [SchedulerSwitch] continues as the thread [n]. *)
Definition entered (a n : tid) (k : KERNEL) : KERNEL :=
  set_Threads (switched (Clock k) a n (Threads k)) (set_NextThread None (set_ActiveThread (Some n) k)).

Lemma SchedulerSwitch_ok k a n o p :
  in_crit (Cpu k) -> ActiveThread k = Some a -> NextThread k = Some n ->
  Threads k !! a = Some o -> Threads k !! n = Some p ->
  SchedulerSwitch k = Ok (resumes a n (Threads k), entered a n k).
Proof.
  intros Hin Ha Hn Ho Hp. unfold SchedulerSwitch, CritInterruptIsAtomic, TimerIsAtomic.
  st_step in_crit_atomic by done. st_step assert_true. st_step in_crit_atomic by done. st_step assert_true.
  st_step active_thread_ok by exact Ha.
  unfold mbind at 1, st_bind at 1, gets at 1. unfold mbind at 1, st_bind at 1, modify at 1.
  unfold mbind at 1, st_bind at 1, modify at 1. cbv beta. rewrite Hn.
  set (k1 := set_NextThread None (set_ActiveThread (Some n) k)).
  assert (in_crit (Cpu k1)) as Hin1 by exact Hin.
  st_step active_thread_ok by reflexivity.
  rewrite (st_bind_ok _ _ _ _ _ (ContextSwitch_ok k1 a n o p Hin1 Ho Hp)).
  unfold resumes at 1. change (Threads k1) with (Threads k).
  set (k2 := set_Threads _ k1). assert (in_crit (Cpu k2)) as Hin2 by exact Hin.
  assert (forall m : MACHINE_CONTEXT, (match m with
    | Suspended => a0 ← on_cpu (IsrIsAtomic IRQ_LEVEL_TIMER); assert (negb a0);;
        a1 ← on_cpu (IsrIsAtomic IRQ_LEVEL_CRIT); assert a1;; mret Suspended
    | Bootstrap => mret Bootstrap end) k2 = Ok (m, k2)) as Hm.
  { intros []; [done|]. st_step in_crit_atomic by done. st_step assert_true.
    st_step in_crit_atomic by done. by st_step assert_true. }
  rewrite Hm. done.
Qed.

(** The state when [SchedulerCritHandler] has switched from [a]. *)
Definition handled (a : tid) (th : THREAD) (k : KERNEL) : KERNEL :=
  let q := requeued k a th in
  set_Threads (switched (Clock k) a (next_of q) (Threads k))
    (set_NextThread None (set_ActiveThread (Some (next_of q))
      (set_RunQueue (tail q) (set_QuantumStartTime (Clock k) k)))).

Definition restarts (a : tid) (th : THREAD) (k : KERNEL) : MACHINE_CONTEXT :=
  resumes a (next_of (requeued k a th)) (Threads k).

Lemma SchedulerCritHandler_ok k a th :
  sched_inv k -> in_crit (Cpu k) -> ActiveThread k = Some a -> Threads k !! a = Some th ->
  is_Some (Threads k !! IdleThread) ->
  SchedulerCritHandler SchedulerCritObject k =
    Ok (match restarts a th k with Suspended => Finished_ | Bootstrap => Started end, handled a th k).
Proof.
  intros Hi Hin Ha Hth Hidle. unfold SchedulerCritHandler. st_step assert_true.
  assert (1 <= crit_count k) as Hc by (unfold crit_count; destruct Hin as [_ ->]; by vm_compute).
  rewrite (st_bind_ok _ _ _ _ _ (Schedule_ok k a th Hi Hc Ha Hth)).
  set (q := requeued k a th). set (k1 := set_NextThread _ _).
  assert (is_Some (Threads k !! next_of q)) as [p Hp].
  { unfold next_of. destruct q as [|n q'] eqn:E; [done|]. simpl.
    assert (n ∈ q) as Hn by (rewrite E; set_solver). unfold q, requeued in Hn.
    case_bool_decide; [apply elem_of_app in Hn as [Hn|Hn%list_elem_of_singleton]|].
    - destruct (inv_run k Hi n Hn) as (_ & _ & th' & ? & _). by eexists.
    - subst. by eexists.
    - destruct (inv_run k Hi n Hn) as (_ & _ & th' & ? & _). by eexists. }
  destruct (in_crit_pair IRQ_LEVEL_SOFT (Cpu k) Hin) as (c1 & Hd & He & _); [done|].
  rewrite (st_bind_ok _ _ _ _ _ (on_cpu_ok (IsrDisable IRQ_LEVEL_SOFT) k1 tt c1 Hd)).
  unfold TimeGet, HalGetTime. unfold mbind at 1, st_bind at 1, gets at 1.
  unfold mbind at 1, st_bind at 1, modify at 1. cbv beta.
  match goal with |- context [set_QuantumStartTime ?t ?s] => set (k2 := set_QuantumStartTime t s) end.
  assert (IsrEnable IRQ_LEVEL_SOFT (Cpu k2) = Ok (tt, Cpu k)) as He' by exact He.
  rewrite (st_bind_ok _ _ _ _ _ (on_cpu_ok (IsrEnable IRQ_LEVEL_SOFT) k2 tt _ He')).
  set (k3 := set_Cpu (Cpu k) k2).
  rewrite (st_bind_ok _ _ _ _ _ (SchedulerSwitch_ok k3 a (next_of q) th p Hin Ha eq_refl Hth Hp)).
  unfold mret, st_ret, restarts, handled, entered. fold q. done.
Qed.

(** ** The critical interrupt *)

(** The tables as [CritInterruptStartup] leaves them. *)
Definition crit_registered (c : CPU) : Prop :=
  HalSignalToIrq c !! 12%nat = Some IRQ_LEVEL_CRIT /\
  HalSignalToHandler c !! 12%nat = Some (Some IsrHandlerWrapper_) /\
  IsrHandlerTable c !! 1%nat = Some (Some CritInterrupt_) /\
  HalIrqToSignal c !! 1%nat = Some HAL_ISR_CRIT /\ HAL_ISR_CRIT ∉ mask_of c 0.

Definition crit_handler (s : HANDLER_STATE) : HANDLER_OBJECT :=
  mkHandler (Some SchedulerCritHandler_) NullContext (Some PostCritHandler_) s.

(** The state of the kernel outside interrupts, with every level enabled. *)
Record open_inv (k : KERNEL) : Prop := {
  open_sched : sched_inv k;
  open_counts : IsrDisabledCount (Cpu k) = replicate 8 0;
  open_idle : is_Some (Threads k !! IdleThread);
  open_tables : crit_registered (Cpu k)
}.

(** A switch has been requested and its signal is pending. *)
Definition switch_pending (k : KERNEL) : Prop :=
  HAL_ISR_CRIT ∈ Pending (Cpu k) /\ CritInterruptHandlerList k = [SchedulerCritObject] /\
  Handlers k !! SchedulerCritObject = Some (crit_handler HANDLER_QUEUED) /\ SchedulerMutex k <> 0.

(** The outcome of the delivery. *)
Definition rotated (a : tid) (th : THREAD) (k : KERNEL) : KERNEL :=
  handled a th
    (set_SchedulerMutex 0 (set_Handlers (<[SchedulerCritObject := crit_handler HANDLER_READY]> (Handlers k))
      (set_CritInterruptHandlerList []
        (set_Cpu (set_Pending (Pending (Cpu k) ∖ {[HAL_ISR_CRIT]}) (Cpu k)) k)))).

Lemma HandlerFinish_crit k :
  Handlers k !! SchedulerCritObject = Some (crit_handler HANDLER_RUNNING) -> SchedulerMutex k <> 0 ->
  HandlerFinish SchedulerCritObject k = Ok (tt, set_SchedulerMutex 0
    (set_Handlers (<[SchedulerCritObject := crit_handler HANDLER_READY]> (Handlers k)) k)).
Proof.
  intros Ho Hm. unfold HandlerFinish. st_step fetch_ok by exact Ho. st_step assert_true.
  unfold put_handler. unfold mbind at 1, st_bind at 1, modify at 1. cbn [crit_handler CompleteFunction call_complete].
  unfold PostCritHandler. st_step assert_true. unfold mbind at 1, st_bind at 1, gets at 1. cbn beta.
  assert (negb (SchedulerMutex k =? 0) = true) as Hb by (by destruct (Z.eqb_spec (SchedulerMutex k) 0)).
  st_step assert_true by exact Hb. st_step liftr_ok by (
    unfold MutexUnlock; cbn [AtomicGetAndClear AtomicGetAndAnd SchedulerMutex];
    unfold assertr; change (SchedulerMutex _) with (SchedulerMutex k); rewrite Hb; reflexivity).
  unfold modify. rewrite Z.land_0_r. done.
Qed.

(** The critical interrupt with the scheduler's handler as the only one: the loop ends
    when the thread that is switched to was suspended in it, and is left for good when
    that thread starts. *)
Lemma CritInterrupt_ok k a th :
  sched_inv k -> in_crit (Cpu k) -> ActiveThread k = Some a -> Threads k !! a = Some th ->
  is_Some (Threads k !! IdleThread) -> CritInterruptHandlerList k = [SchedulerCritObject] ->
  Handlers k !! SchedulerCritObject = Some (crit_handler HANDLER_QUEUED) -> SchedulerMutex k <> 0 ->
  let k1 := set_Handlers (<[SchedulerCritObject := crit_handler HANDLER_RUNNING]> (Handlers k))
    (set_CritInterruptHandlerList [] k) in
  CritInterrupt 1 k = match restarts a th k with
    | Suspended => (HandlerFinish SchedulerCritObject;; mret true) (handled a th k1)
    | Bootstrap => Ok (false, handled a th k1)
    end.
Proof.
  intros Hi Hin Ha Hth Hidle Hl Ho Hm k1. cbn [CritInterrupt].
  unfold mbind at 1, st_bind at 1, gets at 1. rewrite Hl. cbv beta.
  unfold mbind at 1, st_bind at 1, modify at 1. cbv beta.
  assert (HandlerRun SchedulerCritObject (set_CritInterruptHandlerList [] k) = Ok (tt, k1)) as Hrun.
  { unfold HandlerRun. st_step fetch_ok by exact Ho. st_step assert_true. done. }
  assert (sched_inv k1) as Hi1 by (destruct Hi; constructor; try done; intros; by apply not_elem_of_nil).
  assert (Handlers k1 !! SchedulerCritObject = Some (crit_handler HANDLER_RUNNING)) as Ho1 by apply lookup_insert_eq.
  unfold run_handler. unfold mbind at 1, st_bind at 1. rewrite (st_bind_ok _ _ _ _ _ Hrun).
  rewrite (st_bind_ok _ _ _ _ _ (fetch_ok Handlers _ k1 _ Ho1)). cbn [crit_handler Function call_handler].
  rewrite (st_bind_ok _ _ _ _ _ (SchedulerCritHandler_ok k1 a th Hi1 Hin Ha Hth Hidle)).
  change (restarts a th k1) with (restarts a th k). destruct (restarts a th k); [done|].
  assert (Handlers (handled a th k1) !! SchedulerCritObject = Some (crit_handler HANDLER_RUNNING)) as Ho2 by exact Ho1.
  assert (SchedulerMutex (handled a th k1) <> 0) as Hm2 by exact Hm.
  pose proof (HandlerFinish_crit _ Ho2 Hm2) as Hf.
  set (k2 := handled a th k1) in *. set (k3 := set_SchedulerMutex 0 _) in Hf.
  assert (CritInterruptHandlerList k3 = []) as Hl3 by done. clearbody k2 k3.
  rewrite (st_bind_ok _ _ _ _ _ Hf). unfold mret, st_ret, mbind, st_bind, gets. by rewrite Hl3.
Qed.

(** Leaving the critical level. *)
Lemma crit_leave c : in_crit c -> IsrEnable IRQ_LEVEL_CRIT c = Ok (tt, relevel c (replicate 8 0)).
Proof. intros [Hok Hc]. rewrite IsrEnable_ok by (done || by rewrite Hc; vm_compute). by rewrite Hc. Qed.

Lemma relevel_in_crit c : cpu_ok c -> in_crit (relevel c (<[1%nat := 1]> (replicate 8 0))).
Proof. intros Hok. split; [apply relevel_ok; [done|apply crit_counts_ok]|done]. Qed.

Lemma sched_inv_cpu k c : sched_inv k -> cpu_ok c -> length (HalIrqToSignal c) = 8%nat -> sched_inv (set_Cpu c k).
Proof. intros [] H1 H2. by constructor. Qed.

Lemma set_Cpu_same k c : c = Cpu k -> set_Cpu c k = k.
Proof. intros ->. by destruct k. Qed.

(** The tables that send the signal [sig] to the handler [f] of [level]. *)
Definition registered_at (c : CPU) (sig level : Z) (f : ISR_HANDLER) : Prop :=
  HalSignalToIrq c !! Z.to_nat sig = Some level /\
  HalSignalToHandler c !! Z.to_nat sig = Some (Some IsrHandlerWrapper_) /\
  IsrHandlerTable c !! Z.to_nat level = Some (Some f) /\ sig ∉ mask_of c 0.

Definition at_level (level : Z) (sig : Z) (c : CPU) : CPU :=
  relevel (set_Pending (Pending c ∖ {[sig]}) c) (<[Z.to_nat level := 1]> (replicate 8 0)).

(** The way into and out of an interrupt handler that is delivered with all levels
    enabled. *)
Lemma Deliver_enter k sig level f :
  cpu_ok (Cpu k) -> IsrDisabledCount (Cpu k) = replicate 8 0 -> registered_at (Cpu k) sig level f ->
  0 <= sig -> 1 <= level < 8 -> sig ∈ Pending (Cpu k) ->
  Deliver sig k = (stays ← call_isr f;
    if (stays : bool) then on_cpu (IsrEnable level);; on_cpu (modify (set_SignalMask (mask_of (Cpu k) 0)))
    else ThreadEntry) (set_Cpu (at_level level sig (Cpu k)) k).
Proof.
  intros Hok Hc (Hirq & Hhal & Htab & Hopen) Hs Hl Hp. pose proof Hok as (Hmask & Hcok & Hsm).
  assert (SignalMask (Cpu k) = mask_of (Cpu k) 0) as Hsm0 by (rewrite Hsm, Hc; done).
  unfold Deliver. unfold mbind at 1, st_bind at 1, gets at 1.
  rewrite (bool_decide_true (sig ∈ Pending (Cpu k))), Hsm0, (bool_decide_false _ Hopen) by done. cbn [andb negb].
  rewrite (st_bind_ok _ _ _ _ _ (on_cpu_read _ k _ (rd_ok HalSignalToIrq sig _ (Cpu k) Hs Hirq))).
  rewrite (st_bind_ok _ _ _ _ _ (on_cpu_read _ k _ (rd_ok HalIrqToMask level _ (Cpu k) ltac:(lia)
    (mask_lookup (Cpu k) level (proj1 Hmask) ltac:(lia))))).
  unfold mbind at 1, st_bind at 1, modify at 1. cbv beta.
  set (m := {[sig]} ∪ _ ∪ _). set (c1 := set_SignalMask m _). set (k1 := set_Cpu c1 k).
  assert (IsrDisable level c1 = Ok (tt, at_level level sig (Cpu k))) as Hdis.
  { assert (cnt (replicate 8 0) level = 0) as H0.
    { unfold cnt. rewrite lookup_replicate_2 by lia. done. }
    rewrite IsrDisable_enter; [|exact Hmask|exact Hcok|done|..];
      change (IsrDisabledCount c1) with (IsrDisabledCount (Cpu k)); rewrite Hc, H0; [done|done|lia]. }
  assert (HalIsrHandler sig k1 = (stays ← call_isr f;
    if (stays : bool) then on_cpu (IsrEnable level);; mret true else ThreadEntry;; mret false)
    (set_Cpu (at_level level sig (Cpu k)) k)) as Hrun.
  2: { unfold mbind at 1, st_bind at 1. rewrite Hrun.
    unfold mbind, st_bind, mret, st_ret. destruct (call_isr f _) as [[[] k2]|e]; [| |done].
    - by destruct (on_cpu (IsrEnable level) k2) as [[[] k3]|e].
    - by destruct (ThreadEntry k2) as [[[] k3]|e]. }
  unfold HalIsrHandler, IsrHandlerWrapper.
  rewrite (st_bind_ok _ _ _ _ _ (on_cpu_read _ k1 _ (rd_ok HalSignalToIrq sig _ (Cpu k1) Hs Hirq))).
  rewrite (st_bind_ok _ _ _ _ _ (on_cpu_read _ k1 _ (rd_ok HalSignalToHandler sig _ (Cpu k1) Hs Hhal))).
  st_step assert_true by (unfold IRQ_LEVEL_NONE; destruct (Z.eqb_spec level 0); [lia|done]).
  rewrite (st_bind_ok _ _ _ _ _ (on_cpu_ok _ k1 tt _ Hdis)).
  set (k2 := set_Cpu _ k1).
  by rewrite (st_bind_ok _ _ _ _ _ (on_cpu_read _ k2 _ (rd_ok IsrHandlerTable level _ (Cpu k2) ltac:(lia) Htab))).
Qed.

(** The end of the interrupt, in the thread that was switched to. *)
Lemma crit_end k k5 c1 kr :
  in_crit (Cpu k) -> IsrDisabledCount c1 = replicate 8 0 -> cpu_ok c1 ->
  HandlerFinish SchedulerCritObject k = Ok (tt, k5) -> SchedulerMutex k <> 0 ->
  on_cpu (IsrEnable IRQ_LEVEL_CRIT) k5 = Ok (tt, kr) -> Cpu kr = c1 -> ThreadEntry k = Ok (tt, kr).
Proof.
  intros Hin Hc Hok Hfin Hm Hen Hkr. unfold ThreadEntry, CritInterruptIsAtomic, CritInterruptEnable.
  st_step in_crit_atomic by done. st_step assert_true.
  unfold mbind at 1, st_bind at 1, gets at 1.
  st_step assert_true by (by unfold MutexIsLocked; destruct (Z.eqb_spec (SchedulerMutex k) 0)).
  rewrite (st_bind_ok _ _ _ _ _ Hfin), (st_bind_ok _ _ _ _ _ Hen).
  assert (IsrIsAtomic IRQ_LEVEL_CRIT (Cpu kr) = Ok (false, Cpu kr)) as Hat
    by (subst; rewrite IsrIsAtomic_ok by done; by rewrite Hc).
  by rewrite (st_bind_ok _ _ _ _ _ (on_cpu_read _ kr false Hat)).
Qed.

Lemma Deliver_switch k a th :
  open_inv k -> switch_pending k -> ActiveThread k = Some a -> Threads k !! a = Some th ->
  Deliver HAL_ISR_CRIT k = Ok (tt, rotated a th k).
Proof.
  intros [Hi Hc Hidle (Hirq & Hhal & Htab & Hsig & Hopen)] (Hp & Hl & Ho & Hm) Ha Hth.
  pose proof (inv_cpu k Hi) as Hok. pose proof Hok as (_ & _ & Hsm). rewrite Hc in Hsm.
  rewrite (Deliver_enter k HAL_ISR_CRIT IRQ_LEVEL_CRIT CritInterrupt_) by done. cbn [call_isr].
  set (c1 := set_Pending (Pending (Cpu k) ∖ {[HAL_ISR_CRIT]}) (Cpu k)). assert (cpu_ok c1) as Hok1 by exact Hok.
  pose proof (relevel_in_crit c1 Hok1) as Hin2. set (c2 := at_level IRQ_LEVEL_CRIT HAL_ISR_CRIT (Cpu k)).
  change (in_crit c2) in Hin2. set (k2 := set_Cpu c2 k).
  assert (sched_inv k2) as Hi2 by (apply sched_inv_cpu; [done|apply Hin2|exact (inv_signals k Hi)]).
  assert (CritInterruptHandlerList k2 = [SchedulerCritObject]) as Hl2 by exact Hl.
  unfold mbind at 1, st_bind at 1. unfold mbind at 1, st_bind at 1, gets at 1. rewrite Hl2. cbn [length].
  rewrite (CritInterrupt_ok k2 a th Hi2 Hin2 Ha Hth Hidle Hl2 Ho Hm). set (k3 := set_Handlers _ _).
  assert (Handlers (handled a th k3) !! SchedulerCritObject = Some (crit_handler HANDLER_RUNNING)) as Ho3
    by apply lookup_insert_eq.
  pose proof (HandlerFinish_crit (handled a th k3) Ho3 Hm) as Hfin. set (k5 := set_SchedulerMutex 0 _) in Hfin.
  pose proof (crit_leave c2 Hin2) as Hen.
  assert (relevel c2 (replicate 8 0) = c1) as Hback.
  { unfold c2, at_level. rewrite relevel_twice, <- Hc. exact (relevel_same c1 Hok1). }
  rewrite Hback in Hen.
  assert (on_cpu (IsrEnable IRQ_LEVEL_CRIT) k5 = Ok (tt, rotated a th k)) as Hen5.
  { rewrite (on_cpu_ok _ k5 tt c1 Hen). do 2 f_equal. unfold k5, rotated, handled. simpl.
    by rewrite insert_insert_eq. }
  assert (in_crit (Cpu (handled a th k3))) as Hin4 by exact Hin2.
  assert (SchedulerMutex (handled a th k3) <> 0) as Hm4 by exact Hm.
  set (k4 := handled a th k3) in *. clearbody k4 k5. destruct (restarts a th k2).
  - apply (crit_end k4 k5 c1); done.
  - rewrite (st_bind_ok _ _ _ _ _ Hfin). unfold mret at 1, st_ret at 1.
    rewrite (st_bind_ok _ _ _ _ _ Hen5). unfold on_cpu, modify.
    assert (Cpu (rotated a th k) = c1) as -> by done. change (mask_of (Cpu k) 0) with (mask_of (Cpu k) (top (replicate 8 0))).
    rewrite <- Hsm. by rewrite (set_Cpu_same (rotated a th k) (set_SignalMask (SignalMask (Cpu k)) c1) eq_refl).
Qed.

(** ** The state after a switch *)

Lemma switched_lookup time a n ts t th :
  ts !! t = Some th -> exists s, switched time a n ts !! t = Some (with_Stack s th).
Proof.
  intros Ht. assert (exists s, th = with_Stack s th) as [s0 Hs0] by (exists (Stack th); by destruct th).
  unfold switched. destruct (ts !! a) as [o|] eqn:Ha; [|exists s0; congruence].
  destruct (ts !! n) as [p|] eqn:Hn; [|exists s0; congruence].
  case_bool_decide as E.
  - rewrite lookup_insert. destruct (decide (n = t)) as [<-|]; [|exists s0; congruence]. simplify_eq. by eexists.
  - rewrite !lookup_insert. destruct (decide (a = t)) as [<-|]; [simplify_eq; by eexists|].
    destruct (decide (n = t)) as [<-|]; [simplify_eq; by eexists|exists s0; congruence].
Qed.

Lemma requeued_nodup k a th : NoDup (RunQueue k) -> a ∉ RunQueue k -> NoDup (requeued k a th).
Proof.
  intros Hnd Ha. unfold requeued. case_bool_decide; [|done].
  apply NoDup_app. split; [done|]. split; [|apply NoDup_singleton]. intros t Ht ->%list_elem_of_singleton. done.
Qed.

Lemma requeued_elem k a th t : t ∈ requeued k a th ->
  t ∈ RunQueue k \/ (t = a /\ a <> IdleThread /\ TState th = THREAD_STATE_RUNNING).
Proof.
  unfold requeued. case_bool_decide as E; [|by left].
  intros [?|Hin%list_elem_of_singleton]%elem_of_app; [by left|right]. naive_solver.
Qed.

Lemma rotated_inv k a th :
  sched_inv k -> ActiveThread k = Some a -> Threads k !! a = Some th ->
  is_Some (Contexts k !! CThread IdleThread) -> sched_inv (rotated a th k).
Proof.
  intros Hi Ha Hth Hidle. pose proof Hi as [Hcpu Hsig (a' & Ha' & Hq & Hctxa) Hctx Hnd Hrun Hmx].
  assert (a' = a) as -> by congruence.
  pose proof (requeued_nodup k a th Hnd Hq) as Hnd'.
  assert (forall t, t ∈ requeued k a th -> t <> IdleThread /\ is_Some (Contexts k !! CThread t) /\
    exists th', Threads k !! t = Some th' /\ TState th' = THREAD_STATE_RUNNING) as Hrun'.
  { intros t [?|(-> & Hne & Hr)]%requeued_elem; [by apply Hrun|]. split; [done|]. split; [done|]. by exists th. }
  constructor; [exact Hcpu|exact Hsig|..].
  - exists (next_of (requeued k a th)). split; [done|]. change (RunQueue (rotated a th k)) with (tail (requeued k a th)).
    change (Contexts (rotated a th k)) with (Contexts k). unfold next_of.
    destruct (requeued k a th) as [|n q] eqn:E; simpl; [split; [apply not_elem_of_nil|done]|].
    apply NoDup_cons in Hnd' as [Hn _]. split; [done|]. apply Hrun'. set_solver.
  - intros c o Ho. change (Contexts (rotated a th k)) with (Contexts k) in Ho. specialize (Hctx c o Ho).
    destruct c as [t|w|n]; [|done|done]. destruct Hctx as (H1 & H2 & H3 & th' & Hth' & H4).
    split; [done|]. split; [done|]. split; [done|].
    destruct (switched_lookup (Clock k) a (next_of (requeued k a th)) (Threads k) t th' Hth') as [s Hs].
    exists (with_Stack s th'). split; [exact Hs|]. intros Hb. destruct (H4 Hb) as (Hst & Hnq & Hni).
    split; [done|]. split; [|done]. change (RunQueue (rotated a th k)) with (tail (requeued k a th)).
    intros Hin%elem_of_tail. apply requeued_elem in Hin as [?|(-> & _ & Hr)]; [done|].
    assert (th' = th) as -> by congruence. congruence.
  - change (RunQueue (rotated a th k)) with (tail (requeued k a th)). by apply NoDup_tail.
  - intros t Ht. change (RunQueue (rotated a th k)) with (tail (requeued k a th)) in Ht.
    apply elem_of_tail in Ht. destruct (Hrun' t Ht) as (Hne & Hc & th' & Hth' & Hr).
    split; [done|]. split; [exact Hc|].
    destruct (switched_lookup (Clock k) a (next_of (requeued k a th)) (Threads k) t th' Hth') as [s Hs].
    exists (with_Stack s th'). by split.
  - intros _. apply not_elem_of_nil.
Qed.

(** ** Yielding *)

(** Nothing is requested. *)
Record quiet (k : KERNEL) : Prop := {
  quiet_open : open_inv k;
  quiet_idle : is_Some (Contexts k !! CThread IdleThread);
  quiet_mutex : SchedulerMutex k = 0;
  quiet_list : CritInterruptHandlerList k = []
}.

(** A thread that gives up the processor: the interrupt that [SchedulerForceSwitch]
    raises is delivered when the critical section ends. *)
Definition yield : St KERNEL unit :=
  SchedulerStartCritical;;
  SchedulerForceSwitch;;
  Deliver HAL_ISR_CRIT.

(** What a switch from [a] leads to. *)
Definition switched_from (a : tid) (th : THREAD) (k k' : KERNEL) : Prop :=
  quiet k' /\ ActiveThread k' = Some (next_of (requeued k a th)) /\
  RunQueue k' = tail (requeued k a th) /\ Contexts k' = Contexts k /\
  forall t th0, Threads k !! t = Some th0 -> exists s, Threads k' !! t = Some (with_Stack s th0).

(** The request of a switch. *)
Lemma SchedulerForceSwitch_ok k a th :
  quiet k -> ActiveThread k = Some a -> Threads k !! a = Some th ->
  exists k1, (SchedulerStartCritical;; SchedulerForceSwitch) k = Ok (tt, k1) /\
    open_inv k1 /\ switch_pending k1 /\ same_objects k k1.
Proof.
  intros [[Hi Hc Hidle Htab] Hci Hm Hl] Ha Hth. pose proof (inv_cpu k Hi) as Hok. pose proof (inv_signals k Hi) as Hsl.
  set (c1 := relevel (Cpu k) (<[1%nat := 1]> (replicate 8 0))).
  assert (in_crit c1) as Hin1 by by apply relevel_in_crit.
  assert (IsrDisable IRQ_LEVEL_CRIT (Cpu k) = Ok (tt, c1)) as Hdis
    by (rewrite IsrDisable_ok by (done || by rewrite Hc; vm_compute); by rewrite Hc).
  unfold SchedulerStartCritical, CritInterruptDisable. rewrite (st_bind_ok _ _ _ _ _ (on_cpu_ok _ k tt c1 Hdis)).
  set (k1 := set_Cpu c1 k). assert (sched_inv k1) as Hi1 by (apply sched_inv_cpu; [done|apply Hin1|done]).
  unfold SchedulerForceSwitch, CritInterruptIsAtomic, SchedulerEndCritical, CritInterruptEnable.
  st_step in_crit_atomic by done. st_step assert_true.
  destruct (NeedsSwitch_ok k1 Hi1) as (k2 & Hr2 & Hi2 & (Ht2 & Hc2 & Hq2 & Ha2 & Hn2) & Hm2 & Hreq).
  destruct (Hreq Hm) as (Hl2 & Hh2 & sig & Hsig & Hcpu2). rewrite (st_bind_ok _ _ _ _ _ Hr2).
  destruct Htab as (T1 & T2 & T3 & T4 & T5).
  assert (sig = HAL_ISR_CRIT) as -> by (change (HalIrqToSignal (Cpu k1)) with (HalIrqToSignal (Cpu k)) in Hsig; congruence).
  assert (in_crit (Cpu k2)) as Hin2 by (split; [exact (inv_cpu k2 Hi2)|by rewrite Hcpu2]).
  rewrite (st_bind_ok _ _ _ _ _ (on_cpu_ok _ k2 tt _ (crit_leave (Cpu k2) Hin2))).
  set (c3 := relevel (Cpu k2) (replicate 8 0)).
  assert (cpu_ok c3) as Hok3 by (apply relevel_ok; [apply Hin2|by rewrite <- Hc; apply Hok]).
  assert (HalIrqToSignal (Cpu k2) = HalIrqToSignal (Cpu k)) as Hs2 by (by rewrite Hcpu2).
  assert (sched_inv (set_Cpu c3 k2)) as Hi3
    by (apply sched_inv_cpu; [done..|change (HalIrqToSignal c3) with (HalIrqToSignal (Cpu k2)); by rewrite Hs2]).
  assert (IsrIsAtomic IRQ_LEVEL_CRIT c3 = Ok (false, c3)) as Hat by (by rewrite IsrIsAtomic_ok).
  rewrite (st_bind_ok _ _ _ _ _ (on_cpu_read _ (set_Cpu c3 k2) false Hat)).
  exists (set_Cpu c3 k2). split; [done|]. split; [|split].
  - constructor; [done|done|change (is_Some (Threads k2 !! IdleThread)); by rewrite Ht2|].
    unfold crit_registered, c3, relevel, mask_of. simpl. rewrite Hcpu2. simpl. by split_and!.
  - split; [|split; [|done]].
    + change (HAL_ISR_CRIT ∈ Pending (Cpu k2)). rewrite Hcpu2. simpl. set_solver.
    + change (CritInterruptHandlerList k2 = [SchedulerCritObject]). rewrite Hl2. change (CritInterruptHandlerList k1) with (CritInterruptHandlerList k). by rewrite Hl.
  - split; [done|]. split; [done|]. split; [done|]. split; [done|]. by rewrite Hc.
Qed.

Lemma rotated_quiet k a th :
  open_inv k -> switch_pending k -> ActiveThread k = Some a -> Threads k !! a = Some th ->
  is_Some (Contexts k !! CThread IdleThread) -> quiet (rotated a th k).
Proof.
  intros [Hi Hc Hidle Htab] (Hp & Hl & Ho & Hm) Ha Hth Hci. constructor; [|exact Hci|done|done].
  constructor; [by apply rotated_inv|exact Hc| |exact Htab].
  destruct Hidle as [ti Hti].
  destruct (switched_lookup (Clock k) a (next_of (requeued k a th)) (Threads k) IdleThread ti Hti) as [s Hs].
  exists (with_Stack s ti). exact Hs.
Qed.

Lemma yield_ok k a th :
  quiet k -> ActiveThread k = Some a -> Threads k !! a = Some th ->
  exists k', yield k = Ok (tt, k') /\ switched_from a th k k'.
Proof.
  intros Hq Ha Hth. destruct (SchedulerForceSwitch_ok k a th Hq Ha Hth) as (k1 & Hr & Ho1 & Hp1 & (Ht & Hc & Hrq & Hac & _)).
  assert (ActiveThread k1 = Some a) as Ha1 by congruence.
  assert (Threads k1 !! a = Some th) as Hth1 by congruence.
  assert (requeued k1 a th = requeued k a th) as Hreq by (unfold requeued; by rewrite Hrq).
  exists (rotated a th k1). split.
  - assert (yield k = ((SchedulerStartCritical;; SchedulerForceSwitch);; Deliver HAL_ISR_CRIT) k) as ->.
    { unfold yield, mbind, st_bind. by destruct (SchedulerStartCritical k) as [[[] ?]|]. }
    rewrite (st_bind_ok _ _ _ _ _ Hr). by apply Deliver_switch.
  - split; [apply rotated_quiet; [done..|]; rewrite Hc; exact (quiet_idle k Hq)|].
    change (ActiveThread (rotated a th k1)) with (Some (next_of (requeued k1 a th))).
    change (RunQueue (rotated a th k1)) with (tail (requeued k1 a th)).
    change (Contexts (rotated a th k1)) with (Contexts k1). rewrite Hreq.
    split; [done|]. split; [done|]. split; [done|]. intros t th0 Ht0. rewrite <- Ht in Ht0.
    by apply switched_lookup.
Qed.

(** ** Round robin *)

Fixpoint yields (n : nat) : St KERNEL unit :=
  match n with O => mret tt | S n => yield;; yields n end.

(** The ring of the running thread and the threads behind it. *)
Definition ring (k : KERNEL) : list tid := option_list (ActiveThread k) ++ RunQueue k.

Definition rotate {A} (l : list A) : list A := match l with [] => [] | x :: l => l ++ [x] end.

Lemma rotate_iter {A} n (l : list A) :
  (n <= length l)%nat -> Nat.iter n rotate l = drop n l ++ take n l.
Proof.
  induction n as [|n IH]; intros Hn; cbn [Nat.iter nat_rect]; [by rewrite drop_0, app_nil_r|].
  change (nat_rect _ _ _ n) with (Nat.iter n rotate l). rewrite IH by lia.
  destruct (lookup_lt_is_Some_2 l n) as [x Hx]; [lia|].
  rewrite (drop_S _ _ _ Hx), (take_S_r _ _ _ Hx). simpl. by rewrite app_assoc.
Qed.

(** A yield of a thread that can run rotates the ring. *)
Lemma yield_rotates k a th :
  quiet k -> ActiveThread k = Some a -> a <> IdleThread -> Threads k !! a = Some th ->
  TState th = THREAD_STATE_RUNNING ->
  exists k', yield k = Ok (tt, k') /\ quiet k' /\ ring k' = rotate (ring k) /\ Contexts k' = Contexts k /\
    (exists a', ActiveThread k' = Some a' /\ a' <> IdleThread /\
      exists th', Threads k' !! a' = Some th' /\ TState th' = THREAD_STATE_RUNNING) /\
    forall t th0, Threads k !! t = Some th0 -> exists s, Threads k' !! t = Some (with_Stack s th0).
Proof.
  intros Hq Ha Hne Hth Hr. destruct (yield_ok k a th Hq Ha Hth) as (k' & Hrun & Hq' & Ha' & Hrq & Hc & Hts).
  exists k'. split; [done|]. split; [done|].
  assert (requeued k a th = RunQueue k ++ [a]) as Hreq by (unfold requeued; by rewrite bool_decide_true).
  rewrite Hreq in *. split; [|split; [done|split; [|done]]].
  - unfold ring. rewrite Ha', Hrq, Ha. unfold next_of. simpl. by destruct (RunQueue k).
  - exists (next_of (RunQueue k ++ [a])). split; [done|]. unfold next_of.
    destruct (RunQueue k) as [|n q] eqn:E; simpl.
    + split; [done|]. destruct (Hts a th Hth) as [s Hs]. exists (with_Stack s th). by split.
    + destruct (inv_run k (open_sched k (quiet_open k Hq)) n) as (Hn & _ & thn & Htn & Hrn); [rewrite E; set_solver|].
      split; [done|]. destruct (Hts n thn Htn) as [s Hs]. exists (with_Stack s thn). by split.
Qed.

Lemma rotate_length {A} (l : list A) : length (rotate l) = length l.
Proof. destruct l; [done|]. simpl. rewrite length_app. simpl. lia. Qed.

Lemma rotate_lookup {A} (l : list A) i :
  (i < length l)%nat -> rotate l !! i = l !! ((i + 1) mod length l)%nat.
Proof.
  destruct l as [|x l]; [simpl; lia|]. cbn [rotate length]. intros Hi.
  destruct (decide (i = length l)) as [->|Hne].
  - rewrite list_lookup_middle by done.
    by replace ((length l + 1) mod S (length l))%nat with 0%nat by (rewrite Nat.add_1_r, Nat.Div0.mod_same; done).
  - rewrite lookup_app_l by lia. rewrite Nat.mod_small by lia. by rewrite Nat.add_1_r.
Qed.

Lemma rotate_iter_lookup {A} n (l : list A) i :
  (i < length l)%nat -> Nat.iter n rotate l !! i = l !! ((i + n) mod length l)%nat.
Proof.
  revert i. induction n as [|n IH]; intros i Hi; [by rewrite Nat.add_0_r, Nat.mod_small|].
  assert (length (Nat.iter n rotate l) = length l) as Hl
    by (clear; induction n as [|n IH]; [done|]; simpl; by rewrite rotate_length).
  change (Nat.iter (S n) rotate l) with (rotate (Nat.iter n rotate l)).
  rewrite rotate_lookup by lia. rewrite Hl, IH by (apply Nat.mod_upper_bound; lia).
  f_equal. rewrite Nat.Div0.add_mod_idemp_l. f_equal. lia.
Qed.

(** The running thread can run. *)
Definition runnable (k : KERNEL) : Prop :=
  exists a th, ActiveThread k = Some a /\ a <> IdleThread /\ Threads k !! a = Some th /\
    TState th = THREAD_STATE_RUNNING.

Lemma yields_ok n k :
  quiet k -> runnable k ->
  exists k', yields n k = Ok (tt, k') /\ quiet k' /\ runnable k' /\ ring k' = Nat.iter n rotate (ring k) /\
    Contexts k' = Contexts k.
Proof.
  revert k. induction n as [|n IH]; intros k Hq Hr; [by exists k|].
  destruct Hr as (a & th & Ha & Hne & Hth & Hst).
  destruct (yield_rotates k a th Hq Ha Hne Hth Hst) as (k1 & Hr1 & Hq1 & Hrg & Hc1 & (a1 & Ha1 & Hne1 & th1 & Hth1 & Hs1) & _).
  destruct (IH k1 Hq1) as (k2 & Hr2 & Hq2 & Hrun2 & Hrg2 & Hc2); [by exists a1, th1|].
  exists k2. cbn [yields]. rewrite (st_bind_ok _ _ _ _ _ Hr1). split; [done|]. split; [done|]. split; [done|].
  split; [|congruence]. by rewrite Hrg2, Hrg, <- Nat.iter_succ_r.
Qed.

(** C3: the delivery of a requested switch completes in the interrupt, whatever the state
    of the thread that gives up the processor: a thread that can run joins the end of the
    run queue, a blocked one does not, the head of the queue runs next, the idle thread if
    there is none, and the scheduler is ready for the next request. *)
Theorem Deliver_switches k a th :
  open_inv k -> is_Some (Contexts k !! CThread IdleThread) -> switch_pending k ->
  ActiveThread k = Some a -> Threads k !! a = Some th ->
  exists k', Deliver HAL_ISR_CRIT k = Ok (tt, k') /\ switched_from a th k k'.
Proof.
  intros Ho Hci Hp Ha Hth. exists (rotated a th k). split; [by apply Deliver_switch|].
  split; [by apply rotated_quiet|]. split; [done|]. split; [done|]. split; [done|].
  intros t th0. apply switched_lookup.
Qed.

(** C4: round robin: the threads that can run take turns in the order of the queue, so
    after [n] yields the thread at distance [n] in the ring runs. *)
Theorem round_robin k n :
  quiet k -> runnable k ->
  exists k', yields n k = Ok (tt, k') /\ quiet k' /\
    ActiveThread k' = ring k !! (n mod length (ring k))%nat.
Proof.
  intros Hq Hr. destruct (yields_ok n k Hq Hr) as (k' & Hrun & Hq' & (a' & _ & Ha' & _) & Hrg & _).
  exists k'. split; [done|]. split; [done|].
  assert (0 < length (ring k))%nat as Hl.
  { destruct Hr as (a & th & Ha & _). unfold ring. rewrite Ha. simpl. lia. }
  pose proof (rotate_iter_lookup n (ring k) 0 Hl) as Hlk. rewrite <- Hrg in Hlk. rewrite Nat.add_0_l in Hlk.
  rewrite <- Hlk. unfold ring. by rewrite Ha'.
Qed.
