(* ===== verification/Boot.v ===== *)
(** * The boot sequence (kernel/startup.c and the startup functions of the units)

    From zeroed memory to the running idle thread, with any list of threads created in
    between; and concrete kernels on which the theorems about the kernel can be run. *)

From S2P Require Import Prelude RingBuffer LinkedList LockClass Semaphore Barrier Resource.
From S2P Require Import WeightedLink HeapTree Heap Isr Kernel Handler Timer Scheduler Serial KernelLocks Switch Scheduling.

(** ** Before boot *)

Definition NULL_LINK : WEIGHTED_LINK := mkWL None None None 0.

(** Static storage is zeroed.  Besides the scheduler's own two handler objects there are
    six, at the addresses 3 to 8. *)
Definition blank : KERNEL :=
  mkKernel (mkCPU [] [] [] [] [] [] ∅ ∅) 0 None ∅
    (list_to_map ((fun h => (h, NULL_LINK)) <$> [SchedulerTimer; SchedulerCritObject; 3; 4; 5; 6; 7; 8]%positive))
    [] [] 0 HeapInit HeapInit true ∅ ∅ None None [] 0 0 0 false false ∅ ∅ ∅ ∅ ∅
    (mkSerial (RingBufferInit [] 0) (RingBufferInit [] 0) 0 [] []).

(** The serial port, and the handler that [WatchdogEnable] registers. *)
Definition DeviceStartup : St KERNEL unit :=
  SerialStartup;;
  on_cpu (HalRegisterIsrHandler WatchdogInterrupt_ HAL_ISR_WATCHDOG IRQ_LEVEL_WATCHDOG).

(** The [main] of the kernel's programs. *)
Definition setup : St KERNEL unit := KernelInit;; DeviceStartup;; SchedulerStartup.

Fixpoint create_all (ts : list tid) : St KERNEL unit :=
  match ts with
  | [] => mret tt
  | t :: ts => SchedulerCreateThread t 1 1000 0 0 0 true;; create_all ts
  end.

Definition boot (ts : list tid) : St KERNEL unit := setup;; create_all ts;; KernelStart.

(** ** Creating threads *)

Definition new_thread (state : THREAD_STATE) : THREAD :=
  mkThread 1 state (ResourceInit RESOURCE_EXCLUSIVE) (ContextInit 1000) 0 0 0 0.

Definition new_context (k : KERNEL) (c : ctx) : LOCKING_CONTEXT :=
  mkContext LOCKING_STATE_READY (match Contexts k !! c with Some o => BlockingContext o | None => RESOURCE_SHARED end)
    SchedulerBlockOnLock_ SchedulerWakeOnLock_.

(** The state after [SchedulerCreateThread]. *)
Definition created (t : tid) (k : KERNEL) : KERNEL :=
  set_RunQueue (RunQueue k ++ [t])
    (set_Threads (<[t := new_thread THREAD_STATE_RUNNING]> (Threads k))
      (set_Contexts (<[CThread t := new_context k (CThread t)]> (Contexts k))
        (set_RunningThreads (w64 (RunningThreads k + 1)) k))).

Lemma SchedulerCreateThread_ok k t :
  cpu_ok (Cpu k) -> 1 <= top (IsrDisabledCount (Cpu k)) -> t ∉ RunQueue k ->
  SchedulerCreateThread t 1 1000 0 0 0 true k = Ok (tt, created t k).
Proof.
  intros Hok Ht Hq. unfold SchedulerCreateThread.
  assert (HalIsIrqAtomic IRQ_LEVEL_CRIT (Cpu k) = Ok (true, Cpu k)) as Hat.
  { rewrite HalIsIrqAtomic_ok by done. do 2 f_equal. by apply Z.leb_le. }
  rewrite (st_bind_ok _ _ _ _ _ (on_cpu_read _ k true Hat)). st_step assert_true.
  unfold LockingInit, put_thread, mbind, st_bind, modify, gets. simpl.
  unfold LinkedListEnqueue. by rewrite bool_decide_false.
Qed.

Lemma created_inv k t :
  sched_inv k -> t ∉ RunQueue k -> t <> IdleThread -> ActiveThread k = Some IdleThread ->
  sched_inv (created t k).
Proof.
  intros [Hcpu Hsig Hact Hctx Hnd Hrun Hmx] Hq Hne Ha. constructor; try done; simpl.
  - destruct Hact as (a & Ha' & Hqa & Hc). exists a. split; [done|].
    assert (a = IdleThread) as -> by congruence. split; [set_solver|]. rewrite lookup_insert_is_Some'. by right.
  - intros c o Hco. apply lookup_insert_Some in Hco as [[<- <-]|[Hne' Hco]].
    + simpl. split; [done|]. split; [done|]. split; [done|]. exists (new_thread THREAD_STATE_RUNNING).
      split; [apply lookup_insert_eq|done].
    + specialize (Hctx c o Hco). destruct c as [t'| |]; [|done|done].
      destruct Hctx as (H1 & H2 & H3 & th & Hth & H4). simpl. split; [done|]. split; [done|]. split; [done|].
      exists th. rewrite lookup_insert_ne by congruence. split; [done|]. intros Hb.
      destruct (H4 Hb) as (? & ? & ?). split; [done|]. split; [|done]. set_solver.
  - apply NoDup_app. split; [done|]. split; [set_solver|apply NoDup_singleton].
  - intros t' Ht'. apply elem_of_app in Ht' as [Ht'|Ht'%list_elem_of_singleton].
    + destruct (Hrun t' Ht') as (H1 & H2 & th & H3 & H4). split; [done|].
      split; [rewrite lookup_insert_is_Some'; by right|]. exists th. rewrite lookup_insert_ne by (intros ->; done). done.
    + subst t'. split; [done|]. split; [rewrite lookup_insert_eq; by eexists|].
      exists (new_thread THREAD_STATE_RUNNING). by rewrite lookup_insert_eq.
Qed.

(** ** The base state *)

Definition base : KERNEL :=
  match setup blank with Ok (_, k) => k | Err _ => blank end.

Lemma setup_ok : setup blank = Ok (tt, base).
Proof. vm_compute. reflexivity. Qed.

Lemma base_counts : IsrDisabledCount (Cpu base) = <[5%nat := 1]> (replicate 8 0).
Proof. vm_compute. reflexivity. Qed.

Lemma base_cpu : cpu_ok (Cpu base).
Proof.
  split; [|split].
  - apply masks_chain; [by vm_compute|]. intros i Hi.
    assert (i = 0 \/ i = 1 \/ i = 2 \/ i = 3 \/ i = 4 \/ i = 5 \/ i = 6) as Hc by lia.
    repeat destruct Hc as [->|Hc]; try subst i; apply (bool_decide_unpack _); vm_compute; exact I.
  - apply (bool_decide_unpack _). vm_compute. exact I.
  - apply (bool_decide_unpack _). vm_compute. exact I.
Qed.

Lemma base_tables : crit_registered (Cpu base) /\ length (HalIrqToSignal (Cpu base)) = 8%nat.
Proof.
  split; [|vm_compute; reflexivity]. split; [vm_compute; reflexivity|]. split; [vm_compute; reflexivity|].
  split; [vm_compute; reflexivity|]. split; [vm_compute; reflexivity|].
  apply (bool_decide_unpack _). vm_compute. exact I.
Qed.

Lemma base_contexts : Contexts base = {[CThread IdleThread := new_context blank (CThread IdleThread)]}.
Proof. vm_compute. reflexivity. Qed.

Lemma base_threads : Threads base !! IdleThread = Some
  (mkThread 1 THREAD_STATE_BLOCKED (ResourceInit RESOURCE_EXCLUSIVE) (ContextInit 0) 0 0 0 0).
Proof. vm_compute. reflexivity. Qed.

Lemma base_scheduler : RunQueue base = [] /\ ActiveThread base = Some IdleThread /\
  SchedulerMutex base = 0 /\ CritInterruptHandlerList base = [].
Proof. vm_compute. by split_and!. Qed.

#[local] Opaque base.

Lemma base_inv : sched_inv base.
Proof.
  destruct base_scheduler as (Hq & Ha & Hm & Hl). constructor.
  - exact base_cpu.
  - exact (proj2 base_tables).
  - exists IdleThread. rewrite Ha, Hq, base_contexts. split; [done|]. split; [apply not_elem_of_nil|].
    rewrite lookup_singleton_eq. by eexists.
  - intros c o. rewrite base_contexts. intros [<- <-]%lookup_singleton_Some. simpl.
    split; [done|]. split; [done|]. split; [done|]. eexists. split; [exact base_threads|done].
  - rewrite Hq. apply NoDup_nil_2.
  - rewrite Hq. intros t Ht. destruct (not_elem_of_nil t Ht).
  - rewrite Hl. intros _. apply not_elem_of_nil.
Qed.

(** ** Boot *)

(** Any number of threads can be created before the kernel starts. *)
Lemma create_all_ok ts k :
  sched_inv k -> 1 <= top (IsrDisabledCount (Cpu k)) -> ActiveThread k = Some IdleThread ->
  NoDup (RunQueue k ++ ts) -> IdleThread ∉ ts ->
  exists k', create_all ts k = Ok (tt, k') /\ sched_inv k' /\ ActiveThread k' = Some IdleThread /\
    RunQueue k' = RunQueue k ++ ts /\ Cpu k' = Cpu k /\ SchedulerMutex k' = SchedulerMutex k /\
    CritInterruptHandlerList k' = CritInterruptHandlerList k /\
    (forall t, t ∈ ts -> Threads k' !! t = Some (new_thread THREAD_STATE_RUNNING)) /\
    (forall t, t ∉ ts -> Threads k' !! t = Threads k !! t) /\
    (forall t, t ∈ ts -> kstatus k' !! CThread t = Some LOCKING_STATE_READY) /\
    (forall c, (forall t, t ∈ ts -> c <> CThread t) -> Contexts k' !! c = Contexts k !! c).
Proof.
  revert k. induction ts as [|t ts IH]; intros k Hi Ht Ha Hnd Hidle.
  { exists k. rewrite app_nil_r. split_and!; try done; by intros t ?%not_elem_of_nil. }
  assert (t ∉ RunQueue k /\ t ∉ ts) as [Htq Hts].
  { apply NoDup_app in Hnd as (_ & Hd & Hnd). apply NoDup_cons in Hnd as [Hts _]. split; [|done].
    intros Hin. apply (Hd t Hin). set_solver. }
  assert (t <> IdleThread) as Hne by set_solver. cbn [create_all].
  rewrite (st_bind_ok _ _ _ _ _ (SchedulerCreateThread_ok k t (inv_cpu k Hi) Ht Htq)).
  destruct (IH (created t k)) as (k' & Hr & Hi' & Ha' & Hq' & Hcpu & Hm & Hl & Hin & Hout & Hst & Hctx).
  { by apply created_inv. }
  { done. }
  { done. }
  { simpl. by rewrite <- app_assoc. }
  { set_solver. }
  exists k'. split; [done|]. split; [done|]. split; [done|]. split; [rewrite Hq'; simpl; by rewrite <- app_assoc|].
  split; [done|]. split; [done|]. split; [done|]. split; [|split; [|split]].
  - intros t' [->|Ht']%elem_of_cons; [|by apply Hin]. rewrite Hout by done. apply lookup_insert_eq.
  - intros t' Ht'. rewrite Hout by set_solver. simpl. apply lookup_insert_ne. set_solver.
  - intros t' [->|Ht']%elem_of_cons; [|by apply Hst]. unfold kstatus. rewrite lookup_fmap, Hctx by (intros; set_solver).
    simpl. by rewrite lookup_insert_eq.
  - intros c Hc. rewrite Hctx by (intros; apply Hc; set_solver). simpl. apply lookup_insert_ne.
    intros <-. by apply (Hc t); [set_solver|].
Qed.

Lemma zeros_ok : counts_ok (replicate 8 0).
Proof. apply (bool_decide_unpack _). vm_compute. exact I. Qed.

Lemma KernelStart_ok k :
  cpu_ok (Cpu k) -> IsrDisabledCount (Cpu k) = <[5%nat := 1]> (replicate 8 0) ->
  KernelStart k = Ok (tt, set_Cpu (relevel (Cpu k) (replicate 8 0)) k).
Proof.
  intros Hok Hcnt. pose proof (relevel_ok (Cpu k) (replicate 8 0) Hok zeros_ok) as Hok1. unfold KernelStart.
  assert (HalIsIrqAtomic IRQ_LEVEL_MAX (Cpu k) = Ok (true, Cpu k)) as H1
    by (rewrite HalIsIrqAtomic_ok, Hcnt by done; done).
  rewrite (st_bind_ok _ _ _ _ _ (on_cpu_read _ k true H1)). st_step assert_true.
  assert (IsrEnable IRQ_LEVEL_MAX (Cpu k) = Ok (tt, relevel (Cpu k) (replicate 8 0))) as H2
    by (rewrite IsrEnable_ok, Hcnt by (done || by rewrite Hcnt; vm_compute); done).
  rewrite (st_bind_ok _ _ _ _ _ (on_cpu_ok _ k tt _ H2)).
  set (k1 := set_Cpu _ k).
  assert (HalIsIrqAtomic IRQ_LEVEL_MAX (Cpu k1) = Ok (false, Cpu k1)) as H3
    by (unfold k1; simpl; rewrite HalIsIrqAtomic_ok by done; done).
  by rewrite (st_bind_ok _ _ _ _ _ (on_cpu_read _ k1 false H3)).
Qed.

Lemma boots ts :
  NoDup ts -> IdleThread ∉ ts ->
  exists k, boot ts blank = Ok (tt, k) /\ quiet k /\ ActiveThread k = Some IdleThread /\ RunQueue k = ts /\
    forall t, t ∈ ts -> Threads k !! t = Some (new_thread THREAD_STATE_RUNNING) /\
      kstatus k !! CThread t = Some LOCKING_STATE_READY.
Proof.
  intros Hnd Hidle. destruct base_scheduler as (Hq & Ha & Hm & Hl).
  destruct (create_all_ok ts base base_inv) as (k & Hr & Hi & Ha' & Hq' & Hcpu & Hm' & Hl' & Hin & Hout & Hst & Hctx).
  { rewrite base_counts. by vm_compute. }
  { exact Ha. }
  { rewrite Hq. exact Hnd. }
  { exact Hidle. }
  pose proof base_counts as Hcnt. destruct base_tables as [Htab Hlen]. rewrite <- Hcpu in Hcnt, Htab, Hlen.
  pose proof (KernelStart_ok k (inv_cpu k Hi) Hcnt) as Hs.
  pose proof (relevel_ok (Cpu k) (replicate 8 0) (inv_cpu k Hi) zeros_ok) as Hok.
  eexists. split.
  - unfold boot. rewrite (st_bind_ok _ _ _ _ _ setup_ok), (st_bind_ok _ _ _ _ _ Hr). exact Hs.
  - rewrite Hq in Hq'. rewrite Hm in Hm'. rewrite Hl in Hl'.
    assert (is_Some (Threads k !! IdleThread)) as Hti by (rewrite Hout, base_threads by exact Hidle; by eexists).
    assert (is_Some (Contexts k !! CThread IdleThread)) as Hci.
    { rewrite Hctx, base_contexts, lookup_singleton_eq by (intros t Ht [= <-]; exact (Hidle Ht)). by eexists. }
    clear Ha Hq Hm Hl Hcpu Hout Hctx.
    split; [|split; [done|split; [done|]]].
    + constructor; [|done..]. constructor; [by apply sched_inv_cpu|done..].
    + intros t Ht. split; [by apply Hin|by apply Hst].
Qed.

(** C8: the boot sequence completes with any list of distinct threads: the idle thread
    runs, every interrupt level is enabled, the created threads can run and wait in the
    order of their creation, and the invariant of the scheduler holds. *)
Theorem boot_ok ts :
  NoDup ts -> IdleThread ∉ ts ->
  exists k, boot ts blank = Ok (tt, k) /\ quiet k /\ ActiveThread k = Some IdleThread /\ RunQueue k = ts /\
    forall t, t ∈ ts -> Threads k !! t = Some (new_thread THREAD_STATE_RUNNING) /\
      kstatus k !! CThread t = Some LOCKING_STATE_READY.
Proof. apply boots. Qed.

Lemma boot_ok_witness :
  exists k, boot [2; 3]%positive blank = Ok (tt, k) /\ ActiveThread k = Some IdleThread /\ RunQueue k = [2; 3]%positive.
Proof.
  destruct (boot_ok [2; 3]%positive) as (k & H1 & _ & H2 & H3 & _).
  - apply (bool_decide_unpack _). vm_compute. exact I.
  - apply (bool_decide_unpack _). vm_compute. exact I.
  - exact (ex_intro _ k (conj H1 (conj H2 H3))).
Defined.

(** ** A running kernel *)

Definition after {A} (m : St KERNEL A) (k : KERNEL) : KERNEL :=
  match m k with Ok (_, k') => k' | Err _ => k end.

Lemma after_ok {A} (m : St KERNEL A) k a k' : m k = Ok (a, k') -> after m k = k'.
Proof. unfold after. by intros ->. Qed.

(** The contexts of [LockingWakeNonBlocking] callers. *)
Definition plain_init (n : positive) : St KERNEL unit :=
  LockingInit (CPlain n) LockingBlockNonBlocking_ LockingWakeNonBlocking_.

Lemma plain_init_ok n k : sched_inv k -> exists k', plain_init n k = Ok (tt, k') /\ sched_inv k' /\
  crit_count k' = crit_count k.
Proof.
  intros [Hcpu Hsig Hact Hctx Hnd Hrun Hmx]. eexists. split; [reflexivity|]. split; [|done].
  constructor; try done; simpl.
  - destruct Hact as (a & Ha & Hq & Hc). exists a. split; [done|]. split; [done|].
    rewrite lookup_insert_is_Some'. by right.
  - intros d od Hd. apply lookup_insert_Some in Hd as [[<- <-]|[_ Hd]]; [by split|by apply Hctx].
  - intros t Ht. destruct (Hrun t Ht) as (H1 & H2 & H3). split; [done|]. split; [|done].
    rewrite lookup_insert_is_Some'. by right.
Qed.

(** Two threads are created, the first one runs, and two plain contexts exist. *)
Definition start0 : St KERNEL unit := boot [2; 3]%positive;; yield;; plain_init 1;; plain_init 2.
Definition kernel0 : KERNEL := after start0 blank.

Lemma kernel0_outside : koutside kernel0.
Proof.
  destruct (boots [2; 3]%positive) as (k & Hb & Hq & Ha & _); [apply (bool_decide_unpack _); vm_compute; exact I..|].
  destruct (open_idle k (quiet_open k Hq)) as [th Hth].
  destruct (yield_ok k IdleThread th Hq Ha Hth) as (k1 & Hy & Hq1 & _).
  pose proof (open_sched k1 (quiet_open k1 Hq1)) as Hi1.
  destruct (plain_init_ok 1 k1 Hi1) as (k2 & H2 & Hi2 & Hc2).
  destruct (plain_init_ok 2 k2 Hi2) as (k3 & H3 & Hi3 & Hc3).
  assert (start0 blank = Ok (tt, k3)) as Hs.
  { unfold start0. rewrite (st_bind_ok _ _ _ _ _ Hb), (st_bind_ok _ _ _ _ _ Hy), (st_bind_ok _ _ _ _ _ H2). exact H3. }
  unfold kernel0. rewrite (after_ok _ _ _ _ Hs). split; [exact Hi3|].
  rewrite Hc3, Hc2. unfold crit_count. rewrite (open_counts k1 (quiet_open k1 Hq1)). by vm_compute.
Qed.

Lemma kernel0_quiet : exists k, (boot [2; 3]%positive;; yield) blank = Ok (tt, k) /\ quiet k /\
  ring k = [2; 3]%positive /\ runnable k.
Proof.
  destruct (boots [2; 3]%positive) as (k & Hb & Hq & Ha & Hrq & Hts); [apply (bool_decide_unpack _); vm_compute; exact I..|].
  destruct (open_idle k (quiet_open k Hq)) as [th Hth].
  destruct (yield_ok k IdleThread th Hq Ha Hth) as (k1 & Hy & Hq1 & Ha1 & Hr1 & _ & Hth1).
  exists k1. rewrite (st_bind_ok _ _ _ _ _ Hb). clear Hb. split; [exact Hy|]. clear Hy. split; [exact Hq1|].
  unfold requeued in Ha1, Hr1. rewrite bool_decide_false in Ha1, Hr1 by naive_solver. rewrite Hrq in Ha1, Hr1.
  split; [unfold ring; by rewrite Ha1, Hr1|].
  destruct (Hts 2%positive) as [Ht2 _]; [set_solver|]. destruct (Hth1 _ _ Ht2) as [s Hs].
  exists 2%positive, (with_Stack s (new_thread THREAD_STATE_RUNNING)). by split_and!.
Qed.

(** A caller with its own context, or with a plain one. *)
Lemma kernel_caller k oc t :
  ActiveThread k = Some t -> t <> IdleThread -> kstatus k !! CThread t = Some LOCKING_STATE_READY ->
  match oc with Some (CPlain n) => kstatus k !! CPlain n = Some LOCKING_STATE_READY | Some _ => False | None => True end ->
  caller k oc.
Proof.
  intros Ha Hne Hst Hoc.
  assert (kactive k = CThread t) as Hact by (unfold kactive; by rewrite Ha).
  assert (forall c, kstatus k !! c = Some LOCKING_STATE_READY -> is_Some (Contexts k !! c)) as Hctx.
  { intros c (o & Ho & _)%kstatus_Some. by eexists. }
  unfold caller, running. cbn [active status lawful kernel_laws]. rewrite Hact. split; [done|].
  destruct oc as [[|w|n]|]; [done|done|..].
  - split; [|done]. split; [by apply Hctx|]. by split.
  - split; [|done]. split; [by apply Hctx|]. split; [naive_solver|done].
Qed.
