(* ===== verification/Races.v ===== *)
(** * Interrupts between a switch request and the switch

    What the kernel does when interrupts arrive at the wrong moment, as runs from boot. *)

From S2P Require Import Prelude LinkedList LockClass Semaphore Barrier Resource.
From S2P Require Import WeightedLink HeapTree Heap Isr Kernel Handler Timer Scheduler Serial KernelLocks Switch Scheduling Boot.



(** A thread that has been blocked and has not been switched away from is still the
    active thread.  If it is woken before the requested switch is handled, it goes to the
    run queue twice: by the wake-up, and by Schedule because it is the running thread. *)
Lemma woken_before_switch k t th :
  sched_inv k -> 1 <= crit_count k -> ActiveThread k = Some t -> t <> IdleThread ->
  Threads k !! t = Some th -> TState th = THREAD_STATE_BLOCKED -> t ∉ RunQueue k ->
  (SchedulerResumeThread t;; Schedule) k = Err FRelink.
Proof.
  intros Hi Hc Ha Hne Hth Hb Hq.
  set (k' := set_RunQueue (RunQueue k ++ [t]) (set_Threads (<[t := with_TState THREAD_STATE_RUNNING th]> (Threads k)) k)).
  assert (SchedulerResumeThread t k = Ok (tt, k')) as Hres.
  { unfold SchedulerResumeThread, thread. st_step crit_atomic by done. st_step assert_true.
    st_step fetch_ok by exact Hth. st_step assert_true by (by apply bool_decide_eq_true).
    unfold put_thread, mbind, st_bind, modify, gets. simpl. unfold LinkedListEnqueue. by rewrite bool_decide_false. }
  rewrite (st_bind_ok _ _ _ _ _ Hres). unfold Schedule, thread.
  assert (CritInterruptIsAtomic k' = Ok (true, k')) as Hat.
  { pose proof (crit_atomic k Hi Hc) as H. unfold CritInterruptIsAtomic, on_cpu in *. change (Cpu k') with (Cpu k).
    destruct (IsrIsAtomic IRQ_LEVEL_CRIT (Cpu k)) as [[a c]|]; [|done]. injection H as -> E.
    apply (f_equal Cpu) in E. simpl in E. by subst c. }
  rewrite (st_bind_ok _ _ _ _ _ Hat). st_step assert_true. st_step active_thread_ok by exact Ha.
  rewrite bool_decide_false by done. cbn [negb].
  unfold mbind at 1, st_bind at 1. unfold mbind at 1, st_bind at 1.
  rewrite (fetch_ok Threads t k' (with_TState THREAD_STATE_RUNNING th)) by apply lookup_insert_eq.
  rewrite bool_decide_true by done. unfold mbind at 1, st_bind at 1, gets at 1.
  unfold mbind at 1, st_bind at 1, LinkedListEnqueue. rewrite bool_decide_true; [done|]. simpl. set_solver.
Qed.


#[local] Open Scope positive_scope.



