(* ===== verification/LocksOnKernel.v ===== *)
(** * The locks on the kernel

    The theorems about the locks hold of the kernel state through [kernel_laws]; here
    they are instantiated at a booted kernel with a running thread. *)

From S2P Require Import Prelude LinkedList LockClass Semaphore Barrier BarrierTest Resource.
From S2P Require Import WeightedLink HeapTree Heap Isr Kernel Handler Timer Scheduler Serial KernelLocks Switch Scheduling Boot.

(** ** Callers on the booted kernel *)

Lemma kernel0_caller oc :
  match oc with None => True | Some (CPlain n) => n = 1%positive \/ n = 2%positive | _ => False end -> caller kernel0 oc.
Proof.
  intros H. apply (kernel_caller kernel0 oc 2%positive).
  - vm_compute. reflexivity.
  - discriminate.
  - vm_compute. reflexivity.
  - destruct oc as [[|w|n]|]; [exact H|exact H|destruct H as [->| ->]; vm_compute; reflexivity|exact I].
Qed.

Lemma kernel0_out : outside kernel0.
Proof. exact kernel0_outside. Qed.

Lemma no_waiters (k : KERNEL) : waiters k [].
Proof. split; [apply NoDup_nil_2|apply Forall_nil_2]. Qed.

Lemma semaphore_refines_witness :
  exists k', SemaphoreDown None (mkSem 1 []) kernel0 = Ok (mkSem 0 [], k') /\ outside k'.
Proof.
  destruct (semaphore_refines kernel0 (mkSem 1 []) None kernel0_out (kernel0_caller None I)) as [[k' H] _].
  - split; [exact (no_waiters kernel0)|]. split; [split; [discriminate|reflexivity]|intros H; destruct (H eq_refl)].
  - reflexivity.
  - destruct H as (H1 & H2 & _). exact (ex_intro _ k' (conj H1 H2)).
Defined.

(** The running thread takes the only unit, then a plain context has to wait. *)
Definition kernel1 : KERNEL := after (SemaphoreDown None (mkSem 1 [])) kernel0.
Definition kernel2 : KERNEL := after (SemaphoreDown (Some (CPlain 1)) (mkSem 0 [])) kernel1.

Lemma kernel1_caller : caller kernel1 (Some (CPlain 1)).
Proof.
  apply (kernel_caller kernel1 (Some (CPlain 1)) 2%positive).
  - vm_compute. reflexivity.
  - discriminate.
  - vm_compute. reflexivity.
  - vm_compute. reflexivity.
Qed.

Lemma hist2 : sem_hist 1 kernel2 (mkSem 0 [CPlain 1]) 0 [CThread 2; CPlain 1] [CThread 2].
Proof.
  assert (sem_hist 1 kernel1 (mkSem 0 []) 0 [CThread 2] [CThread 2]) as H1.
  { refine (hist_down 1 kernel0 (SemaphoreInit 1) 0 [] [] None (mkSem 0 []) kernel1
      (hist_init 1 kernel0 kernel0_out) (kernel0_caller None I) _). vm_compute. reflexivity. }
  refine (hist_down 1 kernel1 (mkSem 0 []) 0 [CThread 2] [CThread 2] (Some (CPlain 1)) (mkSem 0 [CPlain 1]) kernel2
    H1 kernel1_caller _). vm_compute. reflexivity.
Qed.

Lemma semaphore_fifo_witness :
  [CThread 2; CPlain 1] = [CThread 2] ++ Semaphore.WaitingThreads (mkSem 0 [CPlain 1]) /\
  Count (mkSem 0 [CPlain 1]) + zlen [CThread 2] = 1 + 0.
Proof.
  destruct (semaphore_fifo 1 kernel2 (mkSem 0 [CPlain 1]) 0 [CThread 2; CPlain 1] [CThread 2]) as (H1 & H2 & _).
  - discriminate.
  - discriminate.
  - exact hist2.
  - exact (conj H1 H2).
Defined.

(** ** Resource locks *)

Definition kernelR : KERNEL := after (ResourceLockShared None (ResourceInit RESOURCE_SHARED)) kernel0.
Definition lockR : RESOURCE := mkRes RESOURCE_SHARED [] 1.

Lemma kernelR_ok : ResourceLockShared None (ResourceInit RESOURCE_SHARED) kernel0 = Ok (lockR, kernelR).
Proof. vm_compute. reflexivity. Qed.

Lemma histR : res_hist 1 kernelR lockR [CThread 2] [].
Proof.
  exact (res_lock_shared 0 kernel0 (ResourceInit RESOURCE_SHARED) [] [] None lockR kernelR
    (res_init_shared kernel0 kernel0_out) (kernel0_caller None I) kernelR_ok).
Qed.

Lemma kernelR_caller : caller kernelR (Some (CPlain 1)).
Proof.
  apply (kernel_caller kernelR (Some (CPlain 1)) 2%positive).
  - vm_compute. reflexivity.
  - discriminate.
  - vm_compute. reflexivity.
  - vm_compute. reflexivity.
Qed.

Lemma resource_exclusion_witness : NumShared lockR = zlen [CThread 2].
Proof.
  destruct (resource_exclusion 1 kernelR lockR [CThread 2] [] histR eq_refl) as (H & _).
  exact (proj2 (H eq_refl)).
Defined.

Lemma resource_progress_witness :
  (exists l' k', ResourceLockExclusive (Some (CPlain 1)) lockR kernelR = Ok (l', k')) /\
  exists l' k', ResourceUnlockShared lockR kernelR = Ok (l', k').
Proof.
  destruct (resource_progress 1 kernelR lockR [CThread 2] [] (Some (CPlain 1)) histR eq_refl kernelR_caller)
    as (_ & H1 & H2 & _).
  exact (conj H1 (H2 ltac:(discriminate))).
Defined.

(** ** Barriers, signals and generations *)

Lemma barrier_correct_witness :
  exists k' b', BarrierSync None (BarrierInit 2) kernel0 = Ok (b', k') /\ List b' = [CThread 2].
Proof.
  destruct (barrier_correct kernel0 (BarrierInit 2) None kernel0_out (kernel0_caller None I)) as (k' & b' & H1 & _ & _ & _ & H2 & _).
  - split; [exact (no_waiters kernel0)|]. split; [reflexivity|split; reflexivity].
  - exact (ex_intro _ k' (ex_intro _ b' (conj H1 H2))).
Defined.

(** The running thread of the booted kernel as the first one of the seven. *)
Definition test7_thread (i : nat) : positive := Pos.of_nat (i + 2).
Definition test7_context (i : nat) : positive := Pos.of_nat (i + 1).

Definition test7_start : TEST7 := Startup kernel0.
Definition test7_blocked : TEST7 :=
  goto 0 (Waiting false) (mkT7 (after (BarrierSync None (BarrierInit 7)) kernel0) (mkBarrier 7 1 [CThread 2])
    (BarrierTest.Arrays (DoTransition 0 test7_start).2) (BarrierTest.ThreadLocal (DoTransition 0 test7_start).2)
    (pcs (goto 0 (Sync false) (DoTransition 0 test7_start).2))).

Lemma test7_reached : reached test7_thread test7_context test7_blocked.
Proof.
  apply reached_step with (goto 0 (Sync false) (DoTransition 0 test7_start).2).
  - apply reached_step with test7_start; [exact (reached_start _ _ kernel0 kernel0_out)|].
    refine (step_transition _ _ 0 test7_start false _ _ eq_refl _); [unfold BarrierTest.NUM_THREADS; lia|]. reflexivity.
  - refine (step_sync _ _ 0 (goto 0 (Sync false) (DoTransition 0 test7_start).2) false (mkBarrier 7 1 [CThread 2])
      (after (BarrierSync None (BarrierInit 7)) kernel0) _ _ (kernel0_caller None I) _ _).
    + unfold BarrierTest.NUM_THREADS. lia.
    + reflexivity.
    + reflexivity.
    + vm_compute. reflexivity.
Qed.

Lemma test7_ctx_inj i j : (i < BarrierTest.NUM_THREADS)%nat -> (j < BarrierTest.NUM_THREADS)%nat ->
  ctx_of test7_thread test7_context i = ctx_of test7_thread test7_context j -> i = j.
Proof.
  unfold BarrierTest.NUM_THREADS. intros Hi Hj.
  do 7 (destruct i as [|i]; [do 7 (destruct j as [|j]; [intros E; first [reflexivity | discriminate E]|]); lia|]). lia.
Qed.

Lemma barrier_test_witness : pcs test7_blocked 0 = Waiting false /\ exists i, (i < 7)%nat /\ ctx_of test7_thread test7_context i ∉ List (BarrierTest.Barrier test7_blocked).
Proof.
  split; [reflexivity|]. exact (proj2 (proj2 (barrier_test_passes test7_thread test7_context test7_ctx_inj test7_blocked test7_reached))).
Defined.

Lemma signal_correct_witness :
  exists k' g', SignalWaitForSignal None (SignalInit false) kernel0 = Ok (g', k') /\ SignalWaiting g' = [CThread 2].
Proof.
  destruct (signal_correct kernel0 (SignalInit false) None kernel0_out (kernel0_caller None I))
    as (_ & k' & g' & H1 & _ & _ & _ & H2 & _).
  - split; [exact (no_waiters kernel0)|reflexivity].
  - exact (ex_intro _ k' (ex_intro _ g' (conj H1 H2))).
Defined.

Lemma generation_correct_witness :
  exists k' g', GenerationWait 0 None (GenerationInit 0) kernel0 = Ok (g', k') /\ GenWaiting g' = [CThread 2].
Proof.
  destruct (generation_correct kernel0 (GenerationInit 0) 0 None kernel0_out (kernel0_caller None I))
    as (_ & k' & g' & H1 & _ & _ & _ & H2 & _).
  - exact (no_waiters kernel0).
  - exact (ex_intro _ k' (ex_intro _ g' (conj H1 H2))).
Defined.

(** ** Scheduling *)

Lemma round_robin_witness :
  exists k k', (boot [2; 3]%positive;; yield) blank = Ok (tt, k) /\ yields 3 k = Ok (tt, k') /\
    ActiveThread k' = Some 3%positive.
Proof.
  destruct kernel0_quiet as (k & Hb & Hq & Hr & Hrun).
  destruct (round_robin k 3 Hq Hrun) as (k' & Hy & _ & Ha). rewrite Hr in Ha.
  exact (ex_intro _ k (ex_intro _ k' (conj Hb (conj Hy Ha)))).
Defined.

Lemma Deliver_switches_witness :
  exists k k' k'', (SchedulerStartCritical;; SchedulerForceSwitch) k = Ok (tt, k') /\
    Deliver HAL_ISR_CRIT k' = Ok (tt, k'') /\ is_Some (ActiveThread k'').
Proof.
  destruct kernel0_quiet as (k & _ & Hq & _ & (a & th & Ha & _ & Hth & _)).
  destruct (SchedulerForceSwitch_ok k a th Hq Ha Hth) as (k1 & Hf & Ho & Hp & (Ht & Hc & _ & Hac & _)).
  destruct (Deliver_switches k1 a th) as (k2 & Hd & _ & Ha2 & _).
  - exact Ho.
  - rewrite Hc. exact (quiet_idle k Hq).
  - exact Hp.
  - rewrite Hac. exact Ha.
  - rewrite Ht. exact Hth.
  - exact (ex_intro _ k (ex_intro _ k1 (ex_intro _ k2 (conj Hf (conj Hd (mk_is_Some _ _ Ha2)))))).
Defined.
