(* ===== verification/PipeOnKernel.v ===== *)
(** * Pipes on the kernel

    The theorems of [PipeSafety] at a booted kernel whose running thread calls the
    operations of a pipe. *)

From S2P Require Import Prelude RingBuffer LinkedList LockClass Semaphore Pipe PipeSafety.
From S2P Require Import WeightedLink HeapTree Heap Isr Kernel Handler Timer Scheduler Serial KernelLocks Switch Scheduling Boot LocksOnKernel.

(** The active thread takes a step, as a function. *)
Definition run1 (y : sys (S := KERNEL)) : option (sys (S := KERNEL)) :=
  match threads y !! active (mem y), bool_decide (status (mem y) !! active (mem y) = Some LOCKING_STATE_READY) with
  | Some t, true =>
      match thread_step t (pipe y) (mem y) with
      | Ok ((t', p'), s') =>
          Some (mkSys s' p' (<[active (mem y) := t']> (threads y)) (wlog y ++ fresh Writer t t') (rlog y ++ fresh Reader t t'))
      | Err _ => None
      end
  | _, _ => None
  end.

Fixpoint runs (n : nat) (y : sys (S := KERNEL)) : option (sys (S := KERNEL)) :=
  match n with O => Some y | Datatypes.S n => match run1 y with Some y => runs n y | None => None end end.

Lemma runs_reachable b n y y' : reachable b y -> runs n y = Some y' -> reachable b y'.
Proof.
  revert y. induction n as [|n IH]; intros y Hy Hr; [by injection Hr as <-|]. cbn [runs] in Hr.
  destruct (run1 y) as [y1|] eqn:E; [|done]. apply (IH y1); [|done]. apply (reach_step b y); [done|]. unfold run1 in E.
  destruct (threads y !! active (mem y)) as [t|] eqn:Ht; [|done].
  case_bool_decide as Hb; [|done]. destruct (thread_step t (pipe y) (mem y)) as [[[t' p'] s']|] eqn:Hs; [|done].
  injection E as <-. exact (step_thread y t t' p' s' Ht Hb Hs).
Qed.

(** The running thread makes a call. *)
Definition with_call (k : KERNEL) (b : list Z) (n : loc) (t : Pipe.thread) : sys (S := KERNEL) :=
  mkSys k (PipeInit b (zlen b)) (<[CThread n := t]> ∅) [] [].

Lemma with_call_reachable (k : KERNEL) b n t :
  outside k -> caller k None -> active k = CThread n -> 0 < zlen b < 2 ^ 63 -> called t -> reachable b (with_call k b n t).
Proof.
  intros Hout (_ & Hl & Hs & _) Ha Hb Ht. cbn [default from_option] in Hl, Hs. rewrite Ha in Hl, Hs.
  apply (reach_step b _ _ (reach_init b k Hout Hb)).
  refine (step_call (mkSys k (PipeInit b (zlen b)) ∅ [] []) n t _ Hl Hs Ht).
  intros t0 H. cbn [threads] in H. by rewrite lookup_empty in H.
Qed.

Definition start (t : Pipe.thread) : sys (S := KERNEL) := with_call kernel0 [0; 0] 2 t.

Lemma start_reachable t : called t -> reachable [0; 0] (start t).
Proof.
  intros Ht. apply (with_call_reachable kernel0 [0; 0] 2 t kernel0_out (kernel0_caller None I)); [|split; reflexivity|exact Ht].
  vm_compute. reflexivity.
Qed.

Definition end_of (n : nat) (t : Pipe.thread) : sys (S := KERNEL) := default (start t) (runs n (start t)).

Lemma end_reachable n t : called t -> reachable [0; 0] (end_of n t).
Proof.
  intros Ht. unfold end_of. destruct (runs n (start t)) eqn:E; [|exact (start_reachable t Ht)].
  cbn [default from_option]. exact (runs_reachable [0; 0] n _ _ (start_reachable t Ht) E).
Qed.

Lemma write_called : called (PipeWriteStruct [7]).
Proof. split; [vm_compute; split; reflexivity|do 3 right; reflexivity]. Qed.

Lemma read_called : called (PipeRead 1).
Proof. split; [vm_compute; split; reflexivity|left; reflexivity]. Qed.

(** After four steps the writer is at work. *)
Lemma pipe_safe_witness :
  exists t' p' k', thread_step (goto PWork (PipeWriteStruct [7])) (pipe (end_of 4 (PipeWriteStruct [7])))
    (mem (end_of 4 (PipeWriteStruct [7]))) = Ok ((t', p'), k').
Proof.
  destruct (pipe_safe [0; 0] (end_of 4 (PipeWriteStruct [7])) (end_reachable 4 _ write_called)) as (H & _).
  apply H; vm_compute; reflexivity.
Defined.

(** After nine it has given back the units of the inner call. *)
Lemma pipe_contiguous_witness :
  exists pre, wlog (end_of 9 (PipeWriteStruct [7])) = pre ++ [7].
Proof.
  destruct (pipe_contiguous [0; 0] (end_of 9 (PipeWriteStruct [7])) (CThread 2) (move [7] (goto PUpLock (PipeWriteStruct [7])))
    (end_reachable 9 _ write_called)) as (_ & _ & H & _).
  - vm_compute. reflexivity.
  - reflexivity.
  - exact H.
Defined.

(** The reader of an empty pipe is blocked after three steps. *)
Lemma pipe_no_deadlock_witness :
  contents (Ring (pipe (end_of 3 (PipeRead 1)))) = [].
Proof.
  refine (pipe_no_deadlock [0; 0] (end_of 3 (PipeRead 1)) (CThread 2) (goto PMutex (PipeRead 1)) (end_reachable 3 _ read_called) _ _ _).
  - intros c t Ht. right.
    assert (threads (end_of 3 (PipeRead 1)) = {[CThread 2 := goto PMutex (PipeRead 1)]}) as E by (vm_compute; reflexivity).
    rewrite E in Ht. apply lookup_singleton_Some in Ht as [<- _]. vm_compute. discriminate.
  - vm_compute. reflexivity.
  - discriminate.
Defined.
