(* ===== verification/SerialOnKernel.v ===== *)
(** * The serial port on the kernel

    The theorem of [SerialStreams] at a booted kernel, and a reader that waits for bytes. *)

From S2P Require Import Prelude RingBuffer LinkedList LockClass Semaphore Barrier Resource.
From S2P Require Import WeightedLink HeapTree Heap Isr Kernel Handler Timer Scheduler Serial KernelLocks SerialStreams.
From S2P Require Import Switch Scheduling Boot Races.






